(* ===== verification/_CoqProject ===== *)
-Q . S2P
Prelude.v
Linked.v
RecordSet.v
Def.v
Ip4Addr.v
InetChksum.v
Dns.v
DnsTimer.v
DnsRecv.v
DnsRequest.v
Pbuf.v
PbufChain.v
PbufOps.v
PbufAlloc.v
Netif.v
Udp.v
UdpPorts.v
Stack.v
StackMem.v
Ip4.v
Ip4Props.v
Icmp.v
UdpIo.v
Ip4Input.v
Ip4InputProps.v
IcmpProps.v
IpReass.v
IpFrag.v
IpFragRuns.v
IpReassQueue.v
IpReassProps.v
IpReassDone.v
IpReassOrder.v
IpReassAll.v
IpFragProps.v
IpFragTrip.v
StackKeeps.v
Timers.v
Tcp.v
TcpOut.v
TcpCore.v
TcpIn.v
TcpKeeps.v
NetifTcp.v
TcpRuns.v
TcpBugs.v
TcpFrame.v
TcpProps.v
TcpLists.v
TcpInv.v
TcpRecv.v
TcpFsm.v
TcpEvents.v
TcpCalls.v
TcpPorts.v
TcpWindow.v
TcpWrite.v
TcpData.v
Mem.v
MemHeap.v
MemAlloc.v
MemFree.v
MemProps.v
Ocp.v
OcpConn.v
OcpMain.v
OcpPool.v
OcpInv.v
OcpLoop.v
OcpToy.v
OcpRecv.v
OcpSocks.v
OcpVpn.v
OcpFail.v
OcpListen.v
Lwip.v
LwipLaws.v
LwipRuns.v
Vpnns.v
VpnnsProps.v
