(* ===== verification/Prelude.v ===== *)
(** * Verification of ocproxy and vpnns

    [ocproxy] gives local programs access to a VPN without a network interface:
    it reads and writes the packets of the VPN on a descriptor, runs the lwIP
    TCP/IP stack on them, and offers the stack's connections to local clients as
    a SOCKS server and as forwarded ports.  [vpnns] runs programs in a network
    namespace that the VPN is attached to.  This library models the code of the
    two programs and the parts of lwIP below them, and proves what the parts
    promise each other.

    ** Files

    - [Prelude]: machine integers, byte strings, the state-and-fault monad
      [prog] with its reasoning principles ([returns], [keeps], [hoare]), and
      lemmas and tactics that the components share.  [Linked]: linked lists in
      a heap.  [RecordSet]: the notation for updates of records.
    - [Def], [Ip4Addr], [InetChksum]: [core/def.c], [core/ipv4/ip4_addr.c],
      [core/inet_chksum.c] of lwIP.
    - [Dns] (the resolver of [core/dns.c]: its table, queries, timer, response
      handler and requests), [DnsTimer] (its invariant and timeouts), [DnsRecv]
      (responses), [DnsRequest] (requests and their re-entrancy).
    - [Pbuf] (the packet buffers of [core/pbuf.c] as a heap of records), [PbufChain]
      (chains and the routines that read them), [PbufOps] (the ones that change
      them), [PbufAlloc] (allocation and copies).
    - [Mem] (the heap of [core/mem.c]), [MemHeap] (its blocks as a list, and an
      allocator on such lists), [MemAlloc] and [MemFree] (the operations of the code
      are those on lists), [MemProps] (the theorems).
    - [Netif] ([core/netif.c]), [Udp] (the control blocks of [core/udp.c]) and
      [UdpPorts] (their theorems); [Stack] (the state of the IP layers and the
      loads and stores in packets) and [StackMem] (their equations); [Ip4]
      (routing and output of [core/ipv4/ip4.c]) and [Ip4Props]; [Icmp]
      ([core/ipv4/icmp.c]); [UdpIo] (datagrams of [core/udp.c]); [Ip4Input]
      (input of [core/ipv4/ip4.c]); [Ip4InputProps] and [IcmpProps].
    - [IpReass] and [IpFrag] ([core/ipv4/ip_frag.c]: reassembly and
      fragmentation), [IpFragRuns] (runs, and faults), [IpReassQueue],
      [IpReassProps], [IpReassDone], [IpReassOrder], [IpReassAll] (fragments that
      arrive, up to whole datagrams), [IpFragProps] (the fragments that are sent)
      and [IpFragTrip] (from one to the other).
    - [Timers] ([core/timers.c], and its theorems).
    - [Tcp] (data and lists of [core/tcp.c], [tcp.h] and [tcp_impl.h]), [TcpOut]
      ([core/tcp_out.c]), [TcpCore] (the interface and the timers of
      [core/tcp.c]), [TcpIn] ([core/tcp_in.c]); [TcpRuns] (two hosts in one
      program), [TcpBugs] (faults); [TcpFrame], [TcpProps], [TcpLists], [TcpInv],
      [TcpEvents], [TcpCalls], [TcpPorts], [TcpRecv], [TcpFsm], [TcpWindow],
      [TcpWrite], [TcpData] (the theorems).  [NetifTcp]: the part of [core/netif.c] that walks the blocks.
    - [StackKeeps], [TcpKeeps]: what the functions of the stack do to the rest
      of the program is what their parameters do, for any relation.
    - [Ocp] (state of [src/ocproxy.c]: the socket pool, options, system calls as
      results that depend on the trace of earlier calls), [OcpConn] (callbacks of
      the sockets and of TCP, SOCKS, name resolution), [OcpMain] (VPN traffic,
      timers, options, [main] and the dispatch of events).
    - [OcpPool] (the free list), [OcpInv] (what every handler keeps), [OcpLoop]
      (reachable states), [OcpToy] (a concrete stack and environment, and the
      theorems on all reachable states), [OcpRecv], [OcpSocks], [OcpVpn],
      [OcpFail], [OcpListen] (what single operations do).
    - [Lwip] (the stack that ocproxy is linked with, put together from the
      components above), [LwipLaws] (it has the laws that the theorems on
      ocproxy ask for), [LwipRuns] (a session of a client, and the invariant of
      the whole program).
    - [Vpnns], [VpnnsProps]: [src/vpnns.c].

    ** How the code is modelled

    Integers are [Z] with the wrap-around of their C type written out ([u8],
    [u16], [u32], [s32]).  A command of type [prog S A] takes a state and ends
    with a value and a state, or with a fault: [Abort] (a failed assertion),
    [Wild] (an access through a pointer that is null, freed or out of bounds),
    [Died] (the program's [die]) or [Hang] (a loop that ran out of fuel).  A
    component works on a larger state through a lens, so that callbacks of the
    resolver run in the state of the whole program.  The IP layers share one
    state, [Stack.stack], with a type parameter for what else the program has;
    a header is addressed by a pbuf and an offset in its memory.

    The control blocks of TCP are a heap of records that the code's pointers
    link into lists, and the variables of [tcp_in.c] are a record; its callbacks
    are a parameter, [call_app], that may change the whole state.

    ocproxy uses the TCP stack through the class [TcpApi] of [OcpConn]; the laws
    [TcpLaws] and [StackLaws] of [OcpInv] say that an operation changes nothing of
    ocproxy except through the callbacks that it may run.  [Lwip] implements the
    class: [Stack.stack] with the world of ocproxy as its rest and [Ocp.world]
    with the variables of lwIP are two views of one state, the callbacks of TCP
    and UDP run the functions of ocproxy and of its resolver, and what the
    interface sends is written to the VPN.  [LwipLaws] proves the laws from the
    lemmas of [StackKeeps] and [TcpKeeps].  libevent is an
    [event] per socket, with its callback and whether it is pending; the loop
    delivers any event in any order.  In [Vpnns] a process is a command over its
    list of calls, with the results of the calls as a parameter.

    ** What is shown

    - ocproxy as a whole: in every reachable state the socket pool is
      well-formed, and no socket has lost its wake-up, for any stack with the
      laws and for the one of [Lwip]; without [-g] it listens on the loopback
      address only.
    - Data: TCP data are written to the local socket exactly once and in order;
      packets pass between the VPN and the stack unchanged; SOCKS requests,
      however cut into pieces, start exactly the connection they ask for.
    - lwIP: the checksums agree with RFC 1071 for all lengths and alignments; the
      operations on packet buffers do to the data of a chain what they say;
      addresses and names survive printing and parsing; the resolver never
      faults in its timer, gives up after a bounded time, and reports answers.
    - The heap: its operations refine an abstract allocator that only knows who
      holds which memory; nothing leaks and free blocks are joined.
    - The IP layers: a packet that is sent has a correct header and checksum
      and, in ocproxy, always leaves by the VPN; a packet that comes in reaches
      its protocol with exactly its payload, or is freed without effect; UDP
      control blocks never share an address and port, and a datagram goes to
      the block it is for; the checksum of an echo reply.
    - Fragmentation and reassembly: [ip_frag] sends the fragments of a packet,
      and [ip_reass] makes the packet of them again.
    - TCP: the lists of control blocks are as [tcp_impl.h] says after any calls of
      an application, segments that arrive and fast timers (the slow timer can
      lose a block, see [TcpBugs]); segments change the state of a connection as
      in RFC 793; ports are not shared; [tcp_write] takes all of the data or none,
      and queues segments with exactly these bytes; receiving does not move the
      right edge of the window.  The list of timeouts keeps
      every deadline.
    - vpnns: the watcher counts its clients; [resolv.conf] holds the servers.
    - Behaviours that are errors: the theorems that the manifest lists as
      findings exhibit them on the model.

    ** Fuel

    Loops over chains of pbufs run with as much fuel as the heap has records
    ([walk]), which a chain without cycles cannot exceed; the theorems on them
    show that they return.  The loop over listeners has fuel for every slot of
    the pool, and the loop over name servers for every byte of the text.  The
    scans of the heap have fuel for as many blocks as fit into it.  The choice of
    a UDP or TCP port has fuel for one more round than there are ports in its
    range.  Loops over lists of TCP control blocks have fuel for all blocks
    ([list_fuel]).  The timers of TCP start over when a callback has changed the
    list; how often is a parameter ([tmr_fuel] of [Lwip]), over which the theorem
    on the whole program is quantified.
    Other loops are structural in the data, in a message or in a table.

    ** Not modelled

    libevent and the kernel (parameters); the sequential and socket APIs, which
    are compiled but not called; link layers, DHCP, AutoIP, IGMP, raw sockets,
    IPv6 and SNMP, which are not linked or not enabled; the packet dump; the text
    of messages; statistics other than those of the heap.  [Pbuf] and the control
    blocks do not take their memory from the heap of [Mem]: whether an allocation
    succeeds is a parameter, and the theorems hold for any. *)

From stdpp Require Export prelude list strings gmap numbers.
From Stdlib Require Export ZArith Lia.

#[export] Set Default Goal Selector "!".

Declare Scope c_scope.
Delimit Scope c_scope with C.

Open Scope Z_scope.

(** ** Machine integers *)

(** The unsigned types of [contrib/ports/unix/include/arch/cc.h]: a value of
    a [w]-bit type is a [Z]; a cast to it wraps around. *)
Definition u8 (x : Z) : Z := x mod 256.
Definition u16 (x : Z) : Z := x mod 65536.
Definition u32 (x : Z) : Z := x mod 4294967296.
Definition s16 (x : Z) : Z := (x + 32768) mod 65536 - 32768.
Definition s32 (x : Z) : Z := (x + 2147483648) mod 4294967296 - 2147483648.

Definition is_u8 (x : Z) : Prop := 0 ≤ x < 256.
Definition is_u16 (x : Z) : Prop := 0 ≤ x < 65536.
Definition is_u32 (x : Z) : Prop := 0 ≤ x < 4294967296.

#[export] Instance is_u8_dec x : Decision (is_u8 x).
Proof. unfold is_u8. apply _. Defined.
#[export] Instance is_u16_dec x : Decision (is_u16 x).
Proof. unfold is_u16. apply _. Defined.
#[export] Instance is_u32_dec x : Decision (is_u32 x).
Proof. unfold is_u32. apply _. Defined.

(** The C bitwise complement on the widths the code applies it to. *)
Definition not16 (x : Z) : Z := 65535 - u16 x.
Definition not32 (x : Z) : Z := 4294967295 - u32 x.

Create HintDb cint discriminated.

Lemma u8_range x : is_u8 (u8 x).
Proof. unfold is_u8, u8. apply Z.mod_pos_bound. lia. Qed.
Lemma u16_range x : is_u16 (u16 x).
Proof. unfold is_u16, u16. apply Z.mod_pos_bound. lia. Qed.
Lemma u32_range x : is_u32 (u32 x).
Proof. unfold is_u32, u32. apply Z.mod_pos_bound. lia. Qed.
Lemma u8_id x : is_u8 x → u8 x = x.
Proof. unfold is_u8, u8. intros. by apply Z.mod_small. Qed.
Lemma u16_id x : is_u16 x → u16 x = x.
Proof. unfold is_u16, u16. intros. by apply Z.mod_small. Qed.
Lemma u32_id x : is_u32 x → u32 x = x.
Proof. unfold is_u32, u32. intros. by apply Z.mod_small. Qed.

#[export] Hint Resolve u8_range u16_range u32_range : cint.

(** Unfold the width predicates and casts everywhere. *)
Ltac cunfold :=
  unfold is_u8, is_u16, is_u32, u8, u16, u32, s16, s32, not16, not32 in *.

(** A decidable closed goal, by evaluation. *)
Ltac cdec :=
  match goal with |- ?P => refine (bool_decide_unpack P _); vm_compute; exact I end.

(** Arithmetic over [/] and [mod] by literals. *)
Ltac zdm := Z.to_euclidean_division_equations; lia.

(** ** Bit operations as arithmetic *)

Lemma land_ones_mod x n : 0 ≤ n → Z.land x (Z.ones n) = x mod 2 ^ n.
Proof. apply Z.land_ones. Qed.

Lemma land_255 x : Z.land x 255 = x mod 256.
Proof. apply (Z.land_ones x 8). lia. Qed.

Lemma land_65535 x : Z.land x 65535 = x mod 65536.
Proof. apply (Z.land_ones x 16). lia. Qed.

(** Masking a field of [n] bits that starts at bit [k]. *)
Lemma land_field x n k :
  0 ≤ n → 0 ≤ k →
  Z.land x (Z.ones n * 2 ^ k) = (x / 2 ^ k) mod 2 ^ n * 2 ^ k.
Proof.
  intros. rewrite <-!Z.shiftl_mul_pow2, <-Z.shiftr_div_pow2, <-Z.land_ones by lia.
  apply Z.bits_inj'. intros i Hi.
  rewrite Z.land_spec, !Z.shiftl_spec by lia.
  destruct (decide (i < k)).
  - rewrite !(Z.testbit_neg_r _ (i - k)) by lia. by rewrite andb_false_r.
  - rewrite Z.land_spec, Z.shiftr_spec by lia. by replace (i - k + k) with i by lia.
Qed.

Lemma land_0xff00 x : Z.land x 65280 = (x / 256) mod 256 * 256.
Proof. apply (land_field x 8 8); lia. Qed.
Lemma land_0xff0000 x : Z.land x 16711680 = (x / 65536) mod 256 * 65536.
Proof. apply (land_field x 8 16); lia. Qed.
Lemma land_0xff000000 x : Z.land x 4278190080 = (x / 16777216) mod 256 * 16777216.
Proof. apply (land_field x 8 24); lia. Qed.

(** Or-ing a value that fits below bit [n] into a multiple of [2 ^ n]. *)
Lemma lor_low_high a b n :
  0 ≤ n → 0 ≤ a < 2 ^ n → Z.lor a (b * 2 ^ n) = a + b * 2 ^ n.
Proof.
  intros Hn Ha. rewrite <-Z.add_lor_land.
  assert (Z.land a (b * 2 ^ n) = 0) as ->; [|lia].
  apply Z.bits_inj'. intros i Hi. rewrite Z.land_spec, Z.bits_0.
  destruct (decide (i < n)).
  - rewrite (Z.mul_pow2_bits_low b n i) by lia. by rewrite andb_false_r.
  - rewrite <-(Z.mod_small a (2 ^ n)), Z.mod_pow2_bits_high by lia. done.
Qed.

Lemma lor_high_low a b n :
  0 ≤ n → 0 ≤ a < 2 ^ n → Z.lor (b * 2 ^ n) a = b * 2 ^ n + a.
Proof. intros. rewrite Z.lor_comm, lor_low_high by done. lia. Qed.

(** ** Byte buffers *)

(** A buffer is the list of its bytes; a C string is its bytes before the
    terminating NUL. *)
Abbreviation bytes := (list Z).

Definition zlen {A} (l : list A) : Z := Z.of_nat (length l).

(** [l[off .. off + length d)] overwritten with [d]: [memcpy] into a buffer. *)
Definition splice {A} (off : nat) (d l : list A) : list A :=
  take off l ++ d ++ drop (off + length d) l.

(** Bytes of the literals that the code compares against or prints. *)
Fixpoint str (s : string) : bytes :=
  match s with
  | EmptyString => []
  | String c s' => Z.of_N (Ascii.N_of_ascii c) :: str s'
  end.

(** What [*cp] reads: the NUL at the end of the string. *)
Definition cur (cp : bytes) : Z := hd 0 cp.

Lemma zlen_nonneg {A} (l : list A) : 0 ≤ zlen l.
Proof. unfold zlen. lia. Qed.
Lemma zlen_app {A} (l k : list A) : zlen (l ++ k) = zlen l + zlen k.
Proof. unfold zlen. rewrite length_app. lia. Qed.
Lemma zlen_cons {A} (x : A) l : zlen (x :: l) = 1 + zlen l.
Proof. unfold zlen. simpl. lia. Qed.
Lemma zlen_nil {A} : zlen (@nil A) = 0.
Proof. done. Qed.

Lemma length_splice {A} off (d l : list A) :
  (off + length d ≤ length l)%nat → length (splice off d l) = length l.
Proof.
  intros. unfold splice. rewrite !length_app, length_take, length_drop. lia.
Qed.

Lemma take_splice {A} off (d l : list A) :
  (off ≤ length l)%nat → take off (splice off d l) = take off l.
Proof.
  intros. unfold splice. rewrite take_app_le by (rewrite length_take; lia).
  by rewrite take_take, Nat.min_id.
Qed.

Lemma drop_splice {A} off (d l : list A) :
  (off ≤ length l)%nat →
  drop off (splice off d l) = d ++ drop (off + length d) l.
Proof.
  intros. unfold splice. rewrite drop_app_le by (rewrite length_take; lia).
  rewrite (drop_ge (take off l)) by (rewrite length_take; lia). done.
Qed.

(** Writing behind, or inside, a part of a buffer. *)
Lemma drop_splice_after {A} n off (d l : list A) :
  (n ≤ off ≤ length l)%nat → drop n (splice off d l) = splice (off - n) d (drop n l).
Proof.
  intros. unfold splice. rewrite drop_app_le by (rewrite length_take; lia).
  rewrite skipn_firstn_comm, drop_drop. do 3 f_equal. lia.
Qed.

Lemma take_splice_inside {A} n off (d l : list A) :
  (off + length d ≤ n)%nat → (off ≤ length l)%nat →
  take n (splice off d l) = splice off d (take n l).
Proof.
  intros. unfold splice. rewrite take_app_ge by (rewrite length_take; lia).
  rewrite length_take, Nat.min_l by lia. rewrite take_app_ge by lia.
  rewrite take_take, (Nat.min_l off n), skipn_firstn_comm by lia. do 3 f_equal. lia.
Qed.

(** Two writes in a row, and writes into a concatenation. *)
Lemma splice_splice {A} off (x y l : list A) :
  (off + length x ≤ length l)%nat →
  splice (off + length x) y (splice off x l) = splice off (x ++ y) l.
Proof.
  intros. unfold splice at 1. unfold splice at 1.
  rewrite (take_app_ge (take off l)) by (rewrite length_take; lia).
  rewrite length_take, Nat.min_l by lia.
  rewrite take_app_le, (take_ge x) by lia. unfold splice. rewrite length_app, <-!app_assoc.
  do 3 f_equal. rewrite drop_app_ge by (rewrite length_take; lia).
  rewrite length_take, Nat.min_l by lia. rewrite drop_app_ge, drop_drop by lia.
  f_equal. lia.
Qed.

Lemma splice_app_l {A} off (x a b : list A) :
  (off + length x ≤ length a)%nat → splice off x (a ++ b) = splice off x a ++ b.
Proof.
  intros. unfold splice. rewrite take_app_le, drop_app_le by lia. by rewrite <-!app_assoc.
Qed.

Lemma splice_app_r {A} n (x a b : list A) :
  splice (length a + n) x (a ++ b) = a ++ splice n x b.
Proof.
  unfold splice. rewrite take_app_ge by lia. rewrite drop_app_ge by lia.
  rewrite <-app_assoc. repeat f_equal; lia.
Qed.

Lemma splice_nil {A} off (l : list A) : splice off [] l = l.
Proof. unfold splice. cbn [length app]. rewrite Nat.add_0_r. apply take_drop. Qed.

Create Rewrite HintDb len.
#[export] Hint Rewrite @zlen_app @zlen_cons @zlen_nil @length_app @length_take
  @length_drop @length_replicate @length_fmap @length_rev : len.
Ltac len := autorewrite with len in *; unfold zlen in *; simpl in *; try lia.

(** ** Error codes: [lwip/err.h] *)

Inductive err_t :=
  | ERR_OK | ERR_MEM | ERR_BUF | ERR_TIMEOUT | ERR_RTE | ERR_INPROGRESS
  | ERR_VAL | ERR_WOULDBLOCK | ERR_USE | ERR_ISCONN | ERR_ABRT | ERR_RST
  | ERR_CLSD | ERR_CONN | ERR_ARG | ERR_IF.

#[export] Instance err_t_eq_dec : EqDecision err_t.
Proof. solve_decision. Defined.

(** ** Effectful code *)

(** How a call can fail to return: a failed [LWIP_ASSERT] or [LWIP_ERROR]
    (both call [abort()] in this configuration), a dereference of a pointer
    that does not designate a live object, [exit(1)] through [die()], or a loop
    that runs for ever (the fuel of its model ran out). *)
Inductive fault := Abort | Wild | Died | Hang.

#[export] Instance fault_eq_dec : EqDecision fault.
Proof. solve_decision. Defined.

(** Stateful code over a state [S] that may not return. *)
Definition prog (S A : Type) : Type := S → fault + (A * S).

#[export] Instance prog_ret S : MRet (prog S) := λ A a s, inr (a, s).
#[export] Instance prog_bind S : MBind (prog S) := λ A B k m s,
  match m s with
  | inl f => inl f
  | inr (a, s') => k a s'
  end.

Section prog.
Context {S : Type}.
Definition pget : prog S S := λ s, inr (s, s).
Definition pmodify (f : S → S) : prog S unit := λ s, inr (tt, f s).
Definition pfault {A} (f : fault) : prog S A := λ _, inl f.
(** [LWIP_ASSERT] and [LWIP_ERROR]. *)
Definition passert (b : bool) : prog S unit :=
  if b then mret () else pfault Abort.
(** Use of a pointer: a fault when it designates nothing. *)
Definition pderef {A} (o : option A) : prog S A :=
  match o with Some a => mret a | None => pfault Wild end.
End prog.

(** The call returns, in a state and with a value that satisfy [Q]. *)
Definition returns {S A} (r : fault + (A * S)) (Q : A → S → Prop) : Prop :=
  match r with inr (a, s) => Q a s | inl _ => False end.

Lemma returns_bind {S A B} (m : prog S A) (k : A → prog S B) s P Q :
  returns (m s) P →
  (∀ a s', P a s' → returns (k a s') Q) →
  returns ((m ≫= k) s) Q.
Proof.
  intros Hm Hk. cbv [mbind prog_bind]. destruct (m s) as [f|[a s']]; [done|].
  by apply Hk.
Qed.

Lemma returns_mono {S A} (r : fault + (A * S)) (P Q : A → S → Prop) :
  returns r P → (∀ a s, P a s → Q a s) → returns r Q.
Proof. destruct r as [f|[a s]]; simpl; auto. Qed.

Lemma returns_conj {S A} (r : fault + (A * S)) (P Q : A → S → Prop) :
  returns r P → returns r Q → returns r (λ a s, P a s ∧ Q a s).
Proof. destruct r as [f|[a s]]; simpl; auto. Qed.

(** Stepping through a sequence whose first command returns or faults. *)
Lemma bind_ret {S A B} (m : prog S A) (k : A → prog S B) s a s' :
  m s = inr (a, s') → (m ≫= k) s = k a s'.
Proof. intros E. cbv [mbind prog_bind]. by rewrite E. Qed.

Lemma bind_fault {S A B} (m : prog S A) (k : A → prog S B) s f :
  m s = inl f → (m ≫= k) s = inl f.
Proof. intros E. cbv [mbind prog_bind]. by rewrite E. Qed.

Lemma bind_get {S B} (k : S → prog S B) s : (pget ≫= k) s = k s s.
Proof. done. Qed.

Lemma bind_assoc {S A B C} (m : prog S A) (f : A → prog S B) (g : B → prog S C) s :
  ((m ≫= f) ≫= g) s = (m ≫= λ a, f a ≫= g) s.
Proof. cbv [mbind prog_bind]. by destruct (m s) as [|[a s']]. Qed.

Lemma bind_assoc_get {S A B} (f : S → prog S A) (k : A → prog S B) s :
  ((pget ≫= f) ≫= k) s = (f s ≫= k) s.
Proof. done. Qed.

Lemma bind_modify {S B} (f : S → S) (k : unit → prog S B) s :
  (pmodify f ≫= k) s = k () (f s).
Proof. done. Qed.

Lemma bind_assert {S B} (b : bool) (k : unit → prog S B) s :
  b = true → (passert b ≫= k) s = k () s.
Proof. by intros ->. Qed.

Lemma bind_deref {S A B} (o : option A) (a : A) (k : A → prog S B) s :
  o = Some a → (pderef o ≫= k) s = k a s.
Proof. by intros ->. Qed.

Lemma bind_mret {S A B} (a : A) (k : A → prog S B) (s : S) :
  ((mret a : prog S A) ≫= k) s = k a s.
Proof. done. Qed.

Lemma returns_inv {S A} (r : fault + (A * S)) Q :
  returns r Q → ∃ a s, r = inr (a, s) ∧ Q a s.
Proof. destruct r as [f|[a s]]; [done|]. simpl. eauto. Qed.

(** ** Components inside a larger state *)

(** A state [D] that is part of a state [W]: how a component's operations run
    in the state of the whole program. *)
Class Lens (W D : Type) := {
  lget : W → D;
  lput : D → W → W;
  lget_lput d w : lget (lput d w) = d;
  lput_lput d d' w : lput d (lput d' w) = lput d w;
  lput_lget w : lput (lget w) w = w
}.

#[export] Instance lens_id D : Lens D D.
Proof. by refine {| lget := λ d, d; lput := λ d _, d |}. Defined.

#[export] Instance lens_fst A B : Lens (A * B) A.
Proof. refine {| lget := fst; lput := λ a w, (a, snd w) |}; [done|done|by intros []]. Defined.

Definition lift {W D A} `{Lens W D} (m : prog D A) : prog W A := λ w,
  match m (lget w) with
  | inl f => inl f
  | inr (a, d) => inr (a, lput d w)
  end.

Lemma lift_ret {W D A} `{Lens W D} (m : prog D A) w a d :
  m (lget w) = inr (a, d) → lift m w = inr (a, lput d w).
Proof. unfold lift. by intros ->. Qed.

Lemma lift_fault {W D A} `{Lens W D} (m : prog D A) w f :
  m (lget w) = inl f → lift m w = inl f.
Proof. unfold lift. by intros ->. Qed.

(** A command that only looks. *)
Lemma bind_lift_same {W D A B} `{Lens W D} (m : prog D A) (k : A → prog W B) w a :
  m (lget w) = inr (a, lget w) → (lift m ≫= k) w = k a w.
Proof. intros E. apply bind_ret. by rewrite (lift_ret _ _ _ _ E), lput_lget. Qed.

(** A command in a state whose part is known. *)
Lemma bind_lift_put {W D A B} `{Lens W D} (m : prog D A) (k : A → prog W B) w d a d' :
  m d = inr (a, d') → (lift m ≫= k) (lput d w) = k a (lput d' w).
Proof.
  intros E. apply bind_ret. rewrite (lift_ret m (lput d w) a d'), lput_lput; [done|].
  by rewrite lget_lput.
Qed.

(** ** Relations that a command keeps *)

(** Every run of [m] that returns is a step of [R]. *)
Definition keeps {S A} (R : relation S) (m : prog S A) : Prop :=
  ∀ s a s', m s = inr (a, s') → R s s'.

Create HintDb keeps discriminated.

Section keeps.
Context {S : Type} (R : relation S) `{!PreOrder R}.

Lemma keeps_ret {A} (a : A) : keeps R (mret a).
Proof. intros s ? ? [= -> ->]. reflexivity. Qed.
Lemma keeps_get : keeps R pget.
Proof. intros s ? ? [= -> ->]. reflexivity. Qed.
Lemma keeps_fault {A} f : keeps R (pfault f : prog S A).
Proof. by intros ? ? ?. Qed.
Lemma keeps_assert b : keeps R (passert b).
Proof. destruct b; [apply keeps_ret|apply keeps_fault]. Qed.
Lemma keeps_deref {A} (o : option A) : keeps R (pderef o).
Proof. destruct o; [apply keeps_ret|apply keeps_fault]. Qed.
Lemma keeps_modify f : (∀ s, R s (f s)) → keeps R (pmodify f).
Proof. intros H s ? ? [= _ <-]. apply H. Qed.

Lemma keeps_bind {A B} (m : prog S A) (k : A → prog S B) :
  keeps R m → (∀ a, keeps R (k a)) → keeps R (m ≫= k).
Proof.
  intros Hm Hk s b s' E. cbv [mbind prog_bind] in E.
  destruct (m s) as [|[a s1]] eqn:E1; [done|].
  transitivity s1; [by eapply Hm|by eapply Hk].
Qed.
End keeps.

#[export] Hint Resolve keeps_ret keeps_get keeps_fault keeps_assert keeps_deref : keeps.

(** Walk through a command; what is left are its state changes. *)
Ltac keeps :=
  repeat match goal with
  | |- keeps _ (_ ≫= _) => apply keeps_bind; [by apply _|..|intros ?]
  | |- keeps _ _ => by eauto with keeps typeclass_instances
  | |- keeps _ (match ?x with _ => _ end) => destruct x
  end.

Lemma keeps_returns {S A} (R : relation S) (m : prog S A) s Q :
  keeps R m → returns (m s) Q → returns (m s) (λ a s', Q a s' ∧ R s s').
Proof.
  intros Hk. destruct (m s) as [|[a s']] eqn:E; simpl; [done|]. eauto.
Qed.

(** ** Partial correctness *)

(** Every run of [m] from a state in [P] that returns ends in [Q]. *)
Definition hoare {S A} (P : S → Prop) (m : prog S A) (Q : A → S → Prop) : Prop :=
  ∀ s a s', P s → m s = inr (a, s') → Q a s'.

Section hoare.
Context {S : Type}.
Implicit Type P : S → Prop.

Lemma hoare_ret {A} P (a : A) (Q : A → S → Prop) :
  (∀ s, P s → Q a s) → hoare P (mret a) Q.
Proof. intros H s ? ? HP [= <- <-]. auto. Qed.
Lemma hoare_fault {A} P f (Q : A → S → Prop) : hoare P (pfault f) Q.
Proof. by intros ? ? ?. Qed.
Lemma hoare_modify P f (Q : unit → S → Prop) :
  (∀ s, P s → Q () (f s)) → hoare P (pmodify f) Q.
Proof. intros H s ? ? HP [= <- <-]. auto. Qed.
Lemma hoare_deref {A} P (o : option A) :
  hoare P (pderef o) (λ a s, P s ∧ o = Some a).
Proof. destruct o; [|apply hoare_fault]. by apply hoare_ret. Qed.
Lemma hoare_bind {A B} P (m : prog S A) (k : A → prog S B) Q Q' :
  hoare P m Q → (∀ a, hoare (Q a) (k a) Q') → hoare P (m ≫= k) Q'.
Proof.
  intros Hm Hk s b s' HP E. cbv [mbind prog_bind] in E.
  destruct (m s) as [|[a s1]] eqn:E1; [done|]. eapply Hk; [|done]. by eapply Hm.
Qed.
Lemma hoare_get {B} P (k : S → prog S B) Q :
  (∀ s, P s → hoare (eq s) (k s) Q) → hoare P (pget ≫= k) Q.
Proof. intros H s b s' HP E. by eapply (H s HP s). Qed.
Lemma hoare_get_any {B} P (k : S → prog S B) Q :
  (∀ s, hoare P (k s) Q) → hoare P (pget ≫= k) Q.
Proof. intros H s b s' HP E. by eapply (H s). Qed.
Lemma hoare_seq {A B} P (m : prog S A) (k : A → prog S B) Q :
  hoare P m (λ _, P) → (∀ a, hoare P (k a) Q) → hoare P (m ≫= k) Q.
Proof. apply hoare_bind. Qed.
Lemma hoare_conseq {A} P P' (m : prog S A) (Q Q' : A → S → Prop) :
  hoare P' m Q' → (∀ s, P s → P' s) → (∀ a s, Q' a s → Q a s) → hoare P m Q.
Proof. intros H ? ? s a s' ? ?. naive_solver. Qed.
Lemma hoare_pure {A} (φ : Prop) P (m : prog S A) Q :
  (φ → hoare P m Q) → hoare (λ s, P s ∧ φ) m Q.
Proof. intros H s a s' [? ?] E. by eapply H. Qed.
Lemma hoare_keeps {A} (R : relation S) P (m : prog S A) :
  keeps R m → (∀ s s', R s s' → P s → P s') → hoare P m (λ _, P).
Proof. intros Hk HR s a s' HP E. eapply HR; [|done]. by eapply Hk. Qed.
Lemma keeps_hoare {A} P (m : prog S A) :
  keeps (λ s s', P s → P s') m ↔ hoare P m (λ _, P).
Proof. split; intros H s a s'; [intros ??|intros ??]; by eapply H. Qed.
End hoare.

(** [n] runs of a command. *)
Fixpoint repeat_prog {S} (n : nat) (m : prog S unit) : prog S unit :=
  match n with O => mret () | S n' => m;; repeat_prog n' m end.
