(* ===== verification/Linked.v ===== *)
(** * Linked lists

    The objects of a store that a [next] field links together, from a pointer
    on, as a list of addresses and objects.  Used for the chains of packet
    buffers and for the queues of the protocol layers. *)

From S2P Require Import Prelude.

Module Linked.

Section linked.
Context {N : Type} {next : N → option positive}.
Implicit Types (h : gmap positive N) (b : N) (p : option positive) (l : positive).

Inductive linked h : option positive → list (positive * N) → Prop :=
  | linked_nil : linked h None []
  | linked_cons l b ls :
      h !! l = Some b → linked h (next b) ls → linked h (Some l) ((l, b) :: ls).

Lemma linked_det h p ls ls' : linked h p ls → linked h p ls' → ls = ls'.
Proof.
  intros H. revert ls'. induction H as [|l b ls E H IH]; intros ls' H'; inversion H'; subst.
  - done.
  - simplify_eq. f_equal. by apply IH.
Qed.

Lemma linked_lookup h p ls l b : linked h p ls → (l, b) ∈ ls → h !! l = Some b.
Proof.
  induction 1 as [|l' b' ls E H IH]; [by intros ?%elem_of_nil|].
  intros [[= -> ->]|?]%elem_of_cons; auto.
Qed.

(** The part of a chain that starts at one of its pbufs. *)
Lemma linked_suffix h p ls l :
  linked h p ls → l ∈ ls.*1 →
  ∃ ls1 ls2, ls = ls1 ++ ls2 ∧ linked h (Some l) ls2.
Proof.
  induction 1 as [|l' b' ls E H IH]; [by intros ?%elem_of_nil|]. simpl.
  intros [->|Hin]%elem_of_cons.
  - exists [], ((l', b') :: ls). split; [done|]. by constructor.
  - destruct (IH Hin) as (ls1 & ls2 & -> & ?). by exists ((l', b') :: ls1), ls2.
Qed.

(** A finite chain visits no pbuf twice. *)
Lemma linked_nodup h p ls : linked h p ls → NoDup ls.*1.
Proof.
  induction 1 as [|l b ls E H IH]; [constructor|]. simpl. constructor; [|done].
  intros Hin. destruct (linked_suffix _ _ _ _ H Hin) as (ls1 & ls2 & -> & H2).
  assert (Hc : linked h (Some l) ((l, b) :: ls1 ++ ls2)) by by constructor.
  pose proof (linked_det _ _ _ _ Hc H2) as Heq. apply (f_equal length) in Heq.
  simpl in Heq. rewrite length_app in Heq. lia.
Qed.

Lemma linked_length h p ls : linked h p ls → (length ls ≤ size h)%nat.
Proof.
  intros H. pose proof (linked_nodup _ _ _ H) as Hnd.
  rewrite <-(length_fmap fst), <-(size_list_to_set (C:=gset positive) ls.*1) by done.
  rewrite <-(size_dom h). apply subseteq_size. intros l Hl.
  apply elem_of_list_to_set, list_elem_of_fmap in Hl as ([l' b] & -> & Hin).
  apply elem_of_dom. exists b. by eapply linked_lookup.
Qed.

(** A chain does not depend on the pbufs outside it. *)
Lemma linked_agree h h' p ls :
  linked h p ls → (∀ l, l ∈ ls.*1 → h' !! l = h !! l) → linked h' p ls.
Proof.
  induction 1 as [|l b ls E H IH]; intros Hag; constructor.
  - rewrite Hag; [done|]. by left.
  - apply IH. intros l' Hl'. apply Hag. by right.
Qed.

Lemma linked_insert_ne h p ls l b :
  linked h p ls → l ∉ ls.*1 → linked (<[l:=b]> h) p ls.
Proof.
  intros H Hl. eapply linked_agree; [done|]. intros l' Hl'.
  rewrite lookup_insert_ne; [done|]. by intros ->.
Qed.

Lemma linked_delete_ne h p ls l :
  linked h p ls → l ∉ ls.*1 → linked (delete l h) p ls.
Proof.
  intros H Hl. eapply linked_agree; [done|]. intros l' Hl'.
  rewrite lookup_delete_ne; [done|]. by intros ->.
Qed.

Lemma linked_nil_inv h ls : linked h None ls → ls = [].
Proof. by inversion 1. Qed.

Lemma linked_some_inv h l ls :
  linked h (Some l) ls →
  ∃ b ls', ls = (l, b) :: ls' ∧ h !! l = Some b ∧ linked h (next b) ls'.
Proof. inversion 1; subst. eauto. Qed.

End linked.
Arguments linked {N} next h.
End Linked.
