(* ===== verification/RecordSet.v ===== *)
(** * Assignment to a field of a record

    [b <|f := v|>] is the record [b] with the value [v] in the field [f], and
    [b <|f ::= g|>] the one whose field [f] has been changed by [g].  A record
    type takes part by an instance of [Eta] that rebuilds a record from its
    fields; the setter of a field is made from it. *)

From S2P Require Import Prelude.

Module RecordSet.

Class Eta (R : Type) := eta : R → R.
Class Setter {R E : Type} (getter : R → E) := set_field : (E → E) → R → R.

Ltac setter R getter :=
  let i := constr:(_ : Eta R) in
  let e := eval red in i in
  lazymatch e with
  | context [getter] => idtac
  end;
  lazymatch eval pattern getter in e with
  | ?update _ =>
      let u := eval cbv beta in (λ f, update (λ r, f (getter r))) in
      exact u
  end.

#[export] Hint Extern 1 (@Setter ?R ?E ?getter) => setter R getter : typeclass_instances.

Notation "b <| f := v |>" := (set_field (getter := f) (λ _, v) b)
  (at level 1, f at next level, left associativity, format "b  <| f  :=  v |>").
Notation "b <| f ::= g |>" := (set_field (getter := f) g b)
  (at level 1, f at next level, left associativity, format "b  <| f  ::=  g |>").

End RecordSet.
