(* ===== verification/Def.v ===== *)
(** * Byte order: [lwip/src/core/def.c]

    [lwip_htons], [lwip_htonl] and their inverses, as compiled for a
    little-endian host, together with the memory image of the integers that
    the protocol headers store ([le_bytes], what a store of an integer leaves
    in memory on that host, and [be_bytes], what the wire format asks for).
    [htons] and [htonl] are involutions that turn one image into the other. *)

From S2P Require Import Prelude.

Module Def.

Definition lwip_htons (n : Z) : Z :=
  Z.lor (Z.shiftl (Z.land n 0xff) 8) (Z.shiftr (Z.land n 0xff00) 8).

Definition lwip_ntohs (n : Z) : Z := lwip_htons n.

Definition lwip_htonl (n : Z) : Z :=
  Z.lor (Z.lor (Z.lor
    (u32 (Z.shiftl (Z.land n 0xff) 24))
    (u32 (Z.shiftl (Z.land n 0xff00) 8)))
    (Z.shiftr (Z.land n 0xff0000) 8))
    (Z.shiftr (Z.land n 0xff000000) 24).

Definition lwip_ntohl (n : Z) : Z := lwip_htonl n.

(** The bytes a little-endian store of an [n]-byte integer writes, and the
    integer a load reads back. *)
Fixpoint le_bytes (n : nat) (x : Z) : bytes :=
  match n with
  | O => []
  | S n' => x mod 256 :: le_bytes n' (x / 256)
  end.

Fixpoint le_load (b : bytes) : Z :=
  match b with
  | [] => 0
  | x :: b' => x + 256 * le_load b'
  end.

(** The wire format: most significant byte first. *)
Definition be_bytes (n : nat) (x : Z) : bytes := rev (le_bytes n x).
Definition be_load (b : bytes) : Z := le_load (rev b).

(** ** Images of integers *)

Lemma length_le_bytes n x : length (le_bytes n x) = n.
Proof. revert x. induction n; intros; simpl; auto. Qed.

Lemma le_bytes_u8 n x : Forall is_u8 (le_bytes n x).
Proof.
  revert x. induction n; intros; simpl; constructor; auto.
  apply Z.mod_pos_bound. lia.
Qed.

Lemma le_load_bytes n x : le_load (le_bytes n x) = x mod 256 ^ Z.of_nat n.
Proof.
  revert x. induction n as [|n IH]; intros x; simpl le_load.
  - by rewrite Z.mod_1_r.
  - rewrite IH, Nat2Z.inj_succ, Z.pow_succ_r by lia.
    rewrite Z.rem_mul_r by lia. done.
Qed.

Lemma le_bytes_load b : Forall is_u8 b → le_bytes (length b) (le_load b) = b.
Proof.
  induction 1 as [|x b Hx _ IH]; simpl; [done|]. unfold is_u8 in Hx.
  rewrite Z.mul_comm, Z_mod_plus, Z.mod_small by lia.
  rewrite Z.div_add, Z.div_small, Z.add_0_l by lia. by rewrite IH.
Qed.

Lemma le_load_range b : Forall is_u8 b → 0 ≤ le_load b < 256 ^ zlen b.
Proof.
  induction 1 as [|x b Hx Hb IH]; simpl; [done|]. rewrite zlen_cons.
  rewrite Z.pow_add_r by (try lia; apply zlen_nonneg). unfold is_u8 in Hx. lia.
Qed.

Lemma length_be_bytes n x : length (be_bytes n x) = n.
Proof. unfold be_bytes. by rewrite length_rev, length_le_bytes. Qed.

Lemma be_load_bytes n x : be_load (be_bytes n x) = x mod 256 ^ Z.of_nat n.
Proof. unfold be_load, be_bytes. by rewrite rev_involutive, le_load_bytes. Qed.

(** ** The swaps, arithmetically *)

Lemma htons_arith n : lwip_htons n = n mod 256 * 256 + (n / 256) mod 256.
Proof.
  unfold lwip_htons. rewrite land_255, land_0xff00.
  rewrite Z.shiftl_mul_pow2, Z.shiftr_div_pow2 by lia.
  change (2 ^ 8) with 256. rewrite Z.div_mul by lia.
  apply (lor_high_low _ _ 8); [lia|]. apply Z.mod_pos_bound. lia.
Qed.

Lemma htonl_arith n :
  lwip_htonl n = n mod 256 * 16777216 + (n / 256) mod 256 * 65536
               + (n / 65536) mod 256 * 256 + (n / 16777216) mod 256.
Proof.
  unfold lwip_htonl, u32.
  rewrite land_255, land_0xff00, land_0xff0000, land_0xff000000.
  rewrite !Z.shiftl_mul_pow2, !Z.shiftr_div_pow2 by lia.
  pose proof (Z.mod_pos_bound n 256). pose proof (Z.mod_pos_bound (n / 256) 256).
  pose proof (Z.mod_pos_bound (n / 65536) 256).
  pose proof (Z.mod_pos_bound (n / 16777216) 256).
  change (2 ^ 24) with 16777216. change (2 ^ 8) with 256.
  rewrite !(Z.mod_small _ 4294967296) by lia. rewrite Z.div_mul by lia.
  replace ((n / 65536) mod 256 * 65536 / 256) with ((n / 65536) mod 256 * 256)
    by (generalize ((n / 65536) mod 256); intros; zdm).
  replace ((n / 256) mod 256 * 256 * 256) with ((n / 256) mod 256 * 65536) by lia.
  pose proof (lor_high_low ((n / 256) mod 256 * 65536) (n mod 256) 24) as L1.
  pose proof (lor_high_low ((n / 65536) mod 256 * 256)
                (n mod 256 * 256 + (n / 256) mod 256) 16) as L2.
  pose proof (lor_high_low ((n / 16777216) mod 256)
     (n mod 256 * 65536 + (n / 256) mod 256 * 256 + (n / 65536) mod 256) 8) as L3.
  change (2 ^ 24) with 16777216 in L1. change (2 ^ 16) with 65536 in L2.
  change (2 ^ 8) with 256 in L3.
  rewrite L1 by lia.
  replace (n mod 256 * 16777216 + (n / 256) mod 256 * 65536)
    with ((n mod 256 * 256 + (n / 256) mod 256) * 65536) by lia.
  rewrite L2 by lia.
  replace ((n mod 256 * 256 + (n / 256) mod 256) * 65536 + (n / 65536) mod 256 * 256)
    with ((n mod 256 * 65536 + (n / 256) mod 256 * 256 + (n / 65536) mod 256) * 256)
    by lia.
  rewrite L3 by lia. lia.
Qed.

Lemma htons_u16 n : is_u16 (lwip_htons n).
Proof.
  rewrite htons_arith. unfold is_u16. pose proof (Z.mod_pos_bound n 256).
  pose proof (Z.mod_pos_bound (n / 256) 256). lia.
Qed.

Lemma htonl_u32 n : is_u32 (lwip_htonl n).
Proof.
  rewrite htonl_arith. unfold is_u32. pose proof (Z.mod_pos_bound n 256).
  pose proof (Z.mod_pos_bound (n / 256) 256).
  pose proof (Z.mod_pos_bound (n / 65536) 256).
  pose proof (Z.mod_pos_bound (n / 16777216) 256). lia.
Qed.

Lemma ntohs_htons n : is_u16 n → lwip_ntohs (lwip_htons n) = n.
Proof. unfold lwip_ntohs, is_u16. intros. rewrite !htons_arith. zdm. Qed.

Lemma le_bytes_htons n : is_u16 n → le_bytes 2 (lwip_htons n) = be_bytes 2 n.
Proof.
  unfold is_u16. intros. rewrite htons_arith. unfold be_bytes. simpl.
  f_equal; [|f_equal]; zdm.
Qed.

Lemma htonl_digits a b c d :
  is_u8 a → is_u8 b → is_u8 c → is_u8 d →
  lwip_htonl (a + 256 * (b + 256 * (c + 256 * d)))
  = d + 256 * (c + 256 * (b + 256 * a)).
Proof.
  unfold is_u8. intros. rewrite htonl_arith.
  replace ((a + 256 * (b + 256 * (c + 256 * d))) / 16777216) with d by zdm.
  replace ((a + 256 * (b + 256 * (c + 256 * d))) / 65536) with (c + 256 * d) by zdm.
  replace ((a + 256 * (b + 256 * (c + 256 * d))) / 256)
    with (b + 256 * (c + 256 * d)) by zdm.
  zdm.
Qed.

(** Every 32-bit value is its four bytes. *)
Lemma u32_digits n : is_u32 n → ∃ a b c d,
  is_u8 a ∧ is_u8 b ∧ is_u8 c ∧ is_u8 d ∧
  n = a + 256 * (b + 256 * (c + 256 * d)).
Proof.
  unfold is_u32, is_u8. intros.
  exists (n mod 256), (n / 256 mod 256), (n / 65536 mod 256), (n / 16777216).
  split_and!; try (apply Z.mod_pos_bound; lia); zdm.
Qed.

Lemma le_bytes_digits a b c d :
  is_u8 a → is_u8 b → is_u8 c → is_u8 d →
  le_bytes 4 (a + 256 * (b + 256 * (c + 256 * d))) = [a; b; c; d].
Proof.
  intros. pose proof (le_bytes_load [a; b; c; d]) as E. simpl length in E.
  simpl le_load in E. rewrite Z.mul_0_r, Z.add_0_r in E. apply E.
  repeat constructor; unfold is_u8 in *; lia.
Qed.

Lemma ntohl_htonl n : is_u32 n → lwip_ntohl (lwip_htonl n) = n.
Proof.
  intros (a & b & c & d & ? & ? & ? & ? & ->)%u32_digits.
  unfold lwip_ntohl. by rewrite !htonl_digits.
Qed.

Lemma le_bytes_htonl n : is_u32 n → le_bytes 4 (lwip_htonl n) = be_bytes 4 n.
Proof.
  intros (a & b & c & d & ? & ? & ? & ? & ->)%u32_digits.
  unfold be_bytes. by rewrite htonl_digits, !le_bytes_digits.
Qed.

End Def.

#[export] Hint Resolve Def.htons_u16 Def.htonl_u32 : cint.
