(* ===== verification/Ip4Addr.v ===== *)
(** * IPv4 addresses: [lwip/src/core/ipv4/ip4_addr.c], [lwip/ip4_addr.h]

    An [ip_addr_t] is its [addr] field: a 32-bit integer whose bytes in
    memory are the address in network order.  The file models the textual
    conversions ([ipaddr_aton], [ipaddr_addr], [ipaddr_ntoa_r]), the netmask
    check and the broadcast test, and proves that printing and parsing are
    inverse on every address, that the printer's buffer bound of 16 is enough,
    what the parser accepts, and what the two predicates decide. *)

From S2P Require Import Prelude Def.

Module Ip4Addr.
Import Def.

Definition IPADDR_NONE : Z := 0xffffffff.
Definition IPADDR_LOOPBACK : Z := 0x7f000001.
Definition IPADDR_ANY : Z := 0.
Definition IPADDR_BROADCAST : Z := 0xffffffff.

Definition ip_addr_netcmp (addr1 addr2 mask : Z) : bool :=
  Z.land addr1 mask =? Z.land addr2 mask.
Definition ip_addr_isany (addr : Z) : bool := addr =? IPADDR_ANY.
Definition ip_addr_ismulticast (addr : Z) : bool :=
  Z.land addr (lwip_htonl 0xf0000000) =? lwip_htonl 0xe0000000.

(** ** Broadcast test *)

Definition NETIF_FLAG_UP : Z := 1.
Definition NETIF_FLAG_BROADCAST : Z := 2.

(** [struct netif] without its callbacks. *)
Record netif := mk_netif {
  nif_ip_addr : Z;
  nif_netmask : Z;
  nif_gw : Z;
  nif_mtu : Z;
  nif_flags : Z;
  nif_name : bytes;
  nif_num : Z
}.

Definition ip4_addr_isbroadcast (addr : Z) (nif : netif) : bool :=
  if (not32 addr =? IPADDR_ANY) || (addr =? IPADDR_ANY) then true
  else if Z.land (nif_flags nif) NETIF_FLAG_BROADCAST =? 0 then false
  else if addr =? nif_ip_addr nif then false
  else ip_addr_netcmp addr (nif_ip_addr nif) (nif_netmask nif)
       && (Z.land addr (not32 (nif_netmask nif))
           =? Z.land IPADDR_BROADCAST (not32 (nif_netmask nif))).

(** ** Netmask check *)

(** First loop: the mask at which the first zero bit was found, or 0. *)
Fixpoint netmask_first_zero (fuel : nat) (nm mask : Z) : Z :=
  match fuel with
  | O => mask
  | S fuel' =>
      if mask =? 0 then mask
      else if Z.land nm mask =? 0 then mask
      else netmask_first_zero fuel' nm (Z.shiftr mask 1)
  end.

(** Second loop: no bit set from [mask] downwards. *)
Fixpoint netmask_no_one (fuel : nat) (nm mask : Z) : bool :=
  match fuel with
  | O => true
  | S fuel' =>
      if mask =? 0 then true
      else if negb (Z.land nm mask =? 0) then false
      else netmask_no_one fuel' nm (Z.shiftr mask 1)
  end.

(** The mask starts at [1 << 31] and reaches 0 after 32 shifts. *)
Definition ip4_addr_netmask_valid (netmask : Z) : bool :=
  let nm_hostorder := lwip_htonl netmask in
  let mask := netmask_first_zero 33 nm_hostorder (Z.shiftl 1 31) in
  netmask_no_one 33 nm_hostorder mask.

(** ** Character classes *)

Definition in_range (c lo up : Z) : bool := (lo <=? u8 c) && (u8 c <=? up).
Definition isdigit (c : Z) : bool := in_range c 48 57.
Definition isxdigit (c : Z) : bool :=
  isdigit c || in_range c 97 102 || in_range c 65 70.
Definition islower (c : Z) : bool := in_range c 97 122.
Definition isspace (c : Z) : bool :=
  (c =? 32) || (c =? 12) || (c =? 10) || (c =? 13) || (c =? 9) || (c =? 11).

(** ** Parsing *)

(** The inner loop: digits of one part, from the current character on. *)
Fixpoint aton_digits (base val : Z) (cp : bytes) : Z * bytes :=
  match cp with
  | [] => (val, [])
  | c :: cp' =>
      if isdigit c then aton_digits base (u32 (val * base + (c - 48))) cp'
      else if (base =? 16) && isxdigit c then
        aton_digits base
          (Z.lor (u32 (Z.shiftl val 4)) (c + 10 - (if islower c then 97 else 65))) cp'
      else (val, cp)
  end.

(** The part of one iteration of the outer loop that reads a number: the base
    from its prefix, then its digits. *)
Definition aton_number (cp : bytes) : Z * bytes :=
  if cur cp =? 48 then
    let cp := tl cp in
    if (cur cp =? 120) || (cur cp =? 88) then aton_digits 16 0 (tl cp)
    else aton_digits 8 0 cp
  else aton_digits 10 0 cp.

(** The outer loop; [room] is how many slots of [parts[0..2]] are left. *)
Fixpoint aton_parts (room : nat) (parts : list Z) (cp : bytes)
    : option (list Z * Z * bytes) :=
  if negb (isdigit (cur cp)) then None
  else
    let '(val, cp) := aton_number cp in
    if cur cp =? 46 then
      match room with
      | O => None
      | S room' => aton_parts room' (parts ++ [val]) (tl cp)
      end
    else Some (parts, val, cp).

Definition ipaddr_aton (cp : bytes) : option Z :=
  match aton_parts 3 [] cp with
  | None => None
  | Some (parts, val, cp) =>
      if negb (cur cp =? 0) && negb (isspace (cur cp)) then None
      else
        option_map lwip_htonl
          match parts with
          | [] => Some val
          | [p0] =>
              if 0xffffff <? val then None
              else Some (Z.lor val (u32 (Z.shiftl p0 24)))
          | [p0; p1] =>
              if 0xffff <? val then None
              else Some (Z.lor val
                     (Z.lor (u32 (Z.shiftl p0 24)) (u32 (Z.shiftl p1 16))))
          | p0 :: p1 :: p2 :: _ =>
              if 0xff <? val then None
              else Some (Z.lor val
                     (Z.lor (Z.lor (u32 (Z.shiftl p0 24)) (u32 (Z.shiftl p1 16)))
                            (u32 (Z.shiftl p2 8))))
          end
  end.

Definition ipaddr_addr (cp : bytes) : Z :=
  match ipaddr_aton cp with
  | Some val => val
  | None => IPADDR_NONE
  end.

(** ** Printing *)

(** The [do ... while] loop over one byte: [inv[0..i)], least significant digit
    first.  [inv] has three slots, which is what a byte needs. *)
Fixpoint ntoa_inv (fuel : nat) (ap : Z) : list Z :=
  match fuel with
  | O => []
  | S fuel' =>
      (48 + ap mod 10) :: (if ap / 10 =? 0 then [] else ntoa_inv fuel' (ap / 10))
  end.

(** One checked store through [rp]; [len] is the number of stores so far. *)
Definition ntoa_put (buflen c : Z) (buf : bytes) : option bytes :=
  if buflen <=? zlen buf then None else Some (buf ++ [c]).

Fixpoint ntoa_puts (buflen : Z) (cs : list Z) (buf : bytes) : option bytes :=
  match cs with
  | [] => Some buf
  | c :: cs' => buf ← ntoa_put buflen c buf; ntoa_puts buflen cs' buf
  end.

Fixpoint ntoa_octets (buflen : Z) (ap : list Z) (buf : bytes) : option bytes :=
  match ap with
  | [] => Some buf
  | b :: ap' =>
      buf ← ntoa_puts buflen (rev (ntoa_inv 3 b)) buf;
      buf ← ntoa_put buflen 46 buf;
      ntoa_octets buflen ap' buf
  end.

(** [*--rp = 0] cuts the dot after the last octet. *)
Definition ipaddr_ntoa_r (addr buflen : Z) : option bytes :=
  removelast (A := Z) <$> ntoa_octets buflen (le_bytes 4 addr) [].

Definition ipaddr_ntoa (addr : Z) : option bytes := ipaddr_ntoa_r addr 16.

Example aton_ex1 : ipaddr_aton (str "10.1.2.3") = Some 0x0302010a.
Proof. reflexivity. Qed.
Example aton_ex2 : ipaddr_aton (str "0x7f.1 ") = Some 0x0100007f.
Proof. reflexivity. Qed.
Example ntoa_ex1 : ipaddr_ntoa 0x0302010a = Some (str "10.1.2.3").
Proof. reflexivity. Qed.
Example ntoa_ex2 : ipaddr_ntoa_r 0x0302010a 8 = None.
Proof. reflexivity. Qed.
Example mask_ex : ip4_addr_netmask_valid (lwip_htonl 0xfffff000) = true.
Proof. reflexivity. Qed.

(** ** Decimal text of an address *)

(** The text of one byte, as the printer emits it. *)
Definition dec (b : Z) : bytes := rev (ntoa_inv 3 b).

Definition digits_val (base val : Z) (cs : bytes) : Z :=
  fold_left (λ v c, u32 (v * base + (c - 48))) cs val.

(** What makes a text a decimal numeral of [b] for the parser. *)
Definition dec_ok (b : Z) : bool :=
  forallb isdigit (dec b)
  && ((length (dec b) =? 1)%nat || negb (cur (dec b) =? 48))
  && (digits_val 10 0 (dec b) =? b)
  && ((1 <=? length (dec b)) && (length (dec b) <=? 3))%nat.

Lemma u8_table (P : Z → bool) :
  forallb P (map Z.of_nat (seq 0 256)) = true → ∀ b, is_u8 b → P b = true.
Proof.
  intros H b Hb. rewrite forallb_forall in H. apply H, in_map_iff.
  exists (Z.to_nat b). split; [unfold is_u8 in Hb; lia|].
  apply in_seq. unfold is_u8 in Hb. lia.
Qed.

Lemma dec_ok_u8 b : is_u8 b → dec_ok b = true.
Proof. apply u8_table. vm_compute. reflexivity. Qed.

Lemma dec_spec b : is_u8 b →
  forallb isdigit (dec b) = true ∧
  (length (dec b) = 1%nat ∨ cur (dec b) ≠ 48) ∧
  digits_val 10 0 (dec b) = b ∧ (1 ≤ length (dec b) ≤ 3)%nat.
Proof.
  intros Hb%dec_ok_u8. unfold dec_ok in Hb.
  rewrite !andb_true_iff, orb_true_iff, Nat.eqb_eq, negb_true_iff, Z.eqb_neq,
    Z.eqb_eq, !Nat.leb_le in Hb. destruct Hb as (((? & ?) & ?) & ? & ?). auto.
Qed.

Lemma aton_digits_app base val cs rest :
  forallb isdigit cs = true →
  aton_digits base val (cs ++ rest) = aton_digits base (digits_val base val cs) rest.
Proof.
  revert val. induction cs as [|c cs IH]; intros val H; simpl in *; [done|].
  apply andb_true_iff in H as [Hc Hcs]. rewrite Hc. by apply IH.
Qed.

Lemma aton_digits_stop base val rest :
  base ≠ 16 → isdigit (cur rest) = false → aton_digits base val rest = (val, rest).
Proof.
  intros Hb Hr. destruct rest as [|c rest]; simpl in *; [done|].
  rewrite Hr. by rewrite (proj2 (Z.eqb_neq base 16) Hb).
Qed.

Lemma aton_number_dec b rest :
  is_u8 b → isdigit (cur rest) = false →
  cur rest ≠ 120 → cur rest ≠ 88 →
  aton_number (dec b ++ rest) = (b, rest) ∧ isdigit (cur (dec b ++ rest)) = true.
Proof.
  intros Hb Hr Hx HX. destruct (dec_spec b Hb) as (Hd & H0 & Hv & Hl).
  destruct (dec b) as [|c cs] eqn:E; [simpl in Hl; lia|].
  split; [|simpl in *; by apply andb_true_iff in Hd as [-> _]].
  unfold aton_number. simpl cur. simpl tl. destruct (Z.eqb_spec c 48) as [->|Hc].
  - destruct H0 as [H0|H0]; [|done]. destruct cs; [|done]. simpl.
    rewrite (proj2 (Z.eqb_neq _ _) Hx), (proj2 (Z.eqb_neq _ _) HX). simpl.
    rewrite aton_digits_stop by done. by rewrite <-Hv.
  - rewrite aton_digits_app, Hv by done. by apply aton_digits_stop.
Qed.

(** The text the printer produces for four octets. *)
Definition dotted (bs : list Z) : bytes := concat (map (λ b, dec b ++ [46]) bs).

Lemma ntoa_puts_fits buflen cs buf :
  zlen buf ≤ buflen →
  ntoa_puts buflen cs buf =
    if zlen buf + zlen cs <=? buflen then Some (buf ++ cs) else None.
Proof.
  revert buf. induction cs as [|c cs IH]; intros buf Hle; simpl.
  - rewrite zlen_nil, app_nil_r. by rewrite (proj2 (Z.leb_le _ _)) by lia.
  - unfold ntoa_put. pose proof (zlen_nonneg cs). rewrite zlen_cons.
    destruct (Z.leb_spec buflen (zlen buf)) as [H'|H']; simpl.
    + by rewrite (proj2 (Z.leb_gt _ _)) by lia.
    + rewrite IH by (rewrite zlen_app, zlen_cons, zlen_nil; lia).
      rewrite <-app_assoc, zlen_app, zlen_cons, zlen_nil. simpl.
      by replace (zlen buf + (1 + 0) + zlen cs) with (zlen buf + (1 + zlen cs)) by lia.
Qed.

Lemma dotted_cons b ap : dotted (b :: ap) = dec b ++ 46 :: dotted ap.
Proof. unfold dotted. simpl. by rewrite <-app_assoc. Qed.

Lemma ntoa_octets_fits buflen ap buf :
  Forall is_u8 ap → zlen buf ≤ buflen →
  ntoa_octets buflen ap buf =
    if zlen buf + zlen (dotted ap) <=? buflen then Some (buf ++ dotted ap) else None.
Proof.
  intros Hap. revert buf. induction Hap as [|b ap Hb Hap IH]; intros buf Hle; cbn [ntoa_octets].
  - unfold dotted. simpl. rewrite zlen_nil, app_nil_r.
    by rewrite (proj2 (Z.leb_le _ _)) by lia.
  - fold (dec b). rewrite ntoa_puts_fits by done.
    rewrite dotted_cons, zlen_app, zlen_cons. pose proof (zlen_nonneg (dotted ap)).
    destruct (Z.leb_spec (zlen buf + zlen (dec b)) buflen); simpl.
    + unfold ntoa_put. rewrite zlen_app.
      destruct (Z.leb_spec buflen (zlen buf + zlen (dec b))); simpl.
      * by rewrite (proj2 (Z.leb_gt _ _)) by lia.
      * rewrite IH by (rewrite !zlen_app, zlen_cons, zlen_nil; lia).
        rewrite !zlen_app, zlen_cons, zlen_nil, <-!app_assoc. simpl.
        by replace (zlen buf + zlen (dec b) + (1 + 0) + zlen (dotted ap))
          with (zlen buf + (zlen (dec b) + (1 + zlen (dotted ap)))) by lia.
    + by rewrite (proj2 (Z.leb_gt _ _)) by lia.
Qed.

Lemma removelast_snoc {A} (l : list A) x : removelast (l ++ [x]) = l.
Proof. apply removelast_last. Qed.

(** Four octets in dotted form, without the trailing dot. *)
Definition quad (a b c d : Z) : bytes :=
  dec a ++ 46 :: dec b ++ 46 :: dec c ++ 46 :: dec d.

Lemma dotted_quad a b c d : dotted [a; b; c; d] = quad a b c d ++ [46].
Proof.
  unfold dotted, quad. simpl. rewrite app_nil_r. by rewrite <-!app_assoc; simpl;
    rewrite <-!app_assoc; simpl; rewrite <-!app_assoc.
Qed.

Lemma quad_length a b c d :
  is_u8 a → is_u8 b → is_u8 c → is_u8 d → 7 ≤ zlen (quad a b c d) ≤ 15.
Proof.
  intros Ha Hb Hc Hd. apply dec_spec in Ha, Hb, Hc, Hd.
  unfold quad. repeat (rewrite zlen_app || rewrite zlen_cons). unfold zlen.
  destruct Ha as (_&_&_&?), Hb as (_&_&_&?), Hc as (_&_&_&?), Hd as (_&_&_&?). lia.
Qed.

Lemma ntoa_r_quad buflen a b c d :
  is_u8 a → is_u8 b → is_u8 c → is_u8 d → 0 ≤ buflen →
  ipaddr_ntoa_r (a + 256 * (b + 256 * (c + 256 * d))) buflen =
    if zlen (quad a b c d) + 1 <=? buflen then Some (quad a b c d) else None.
Proof.
  intros. unfold ipaddr_ntoa_r. rewrite le_bytes_digits by done.
  rewrite ntoa_octets_fits; [|repeat constructor; unfold is_u8 in *; lia|done].
  rewrite dotted_quad, zlen_app, zlen_cons, !zlen_nil. simpl app.
  replace (0 + (zlen (quad a b c d) + (1 + 0))) with (zlen (quad a b c d) + 1) by lia.
  case_match; simpl; [|done]. by rewrite removelast_snoc.
Qed.

Lemma aton_quad a b c d rest :
  is_u8 a → is_u8 b → is_u8 c → is_u8 d → rest = [] ∨ isspace (cur rest) = true →
  ipaddr_aton (quad a b c d ++ rest) = Some (a + 256 * (b + 256 * (c + 256 * d))).
Proof.
  intros Ha Hb Hc Hd Hrest.
  assert (isdigit (cur rest) = false ∧ cur rest ≠ 120 ∧ cur rest ≠ 88 ∧
          cur rest ≠ 46 ∧ (negb (cur rest =? 0) && negb (isspace (cur rest)) = false))
    as (R1 & R2 & R3 & R4 & R5).
  { destruct Hrest as [->|H]; [done|]. unfold isspace in H.
    rewrite !orb_true_iff, !Z.eqb_eq in H.
    destruct H as [[[[[-> | ->] | ->] | ->] | ->] | ->]; done. }
  assert (∀ x r, is_u8 x → aton_number (dec x ++ 46 :: r) = (x, 46 :: r) ∧
                 isdigit (cur (dec x ++ 46 :: r)) = true) as Dot
    by (intros; by apply aton_number_dec).
  unfold ipaddr_aton, quad. rewrite <-!app_assoc. simpl app.
  rewrite <-!app_assoc. simpl app. rewrite <-!app_assoc. simpl app.
  cbn [aton_parts].
  destruct (Dot a (dec b ++ 46 :: dec c ++ 46 :: dec d ++ rest) Ha) as [-> ->].
  destruct (Dot b (dec c ++ 46 :: dec d ++ rest) Hb) as [E1 E2].
  destruct (Dot c (dec d ++ rest) Hc) as [E3 E4].
  destruct (aton_number_dec d rest Hd R1 R2 R3) as [E5 E6].
  simpl. rewrite E2, E1. simpl. rewrite E4, E3. simpl. rewrite E6, E5. simpl.
  rewrite (proj2 (Z.eqb_neq _ _) R4). rewrite R5.
  unfold is_u8 in *. destruct (Z.ltb_spec 255 d); [lia|]. simpl. f_equal.
  rewrite !Z.shiftl_mul_pow2 by lia. rewrite !u32_id by (unfold is_u32; lia).
  rewrite (lor_high_low (b * 2 ^ 16) a 24) by lia.
  replace (a * 2 ^ 24 + b * 2 ^ 16) with ((a * 256 + b) * 2 ^ 16) by lia.
  rewrite (lor_high_low (c * 2 ^ 8) (a * 256 + b) 16) by lia.
  replace ((a * 256 + b) * 2 ^ 16 + c * 2 ^ 8)
    with ((a * 65536 + b * 256 + c) * 2 ^ 8) by lia.
  rewrite (lor_low_high d _ 8) by lia.
  rewrite <-(htonl_digits d c b a) by (unfold is_u8; lia). f_equal. lia.
Qed.

(** ** Netmasks *)

Lemma land_pow2_zero x k :
  0 ≤ k → (Z.land x (2 ^ k) =? 0) = negb (Z.testbit x k).
Proof.
  intros Hk. destruct (Z.testbit x k) eqn:E; simpl.
  - apply Z.eqb_neq. intros H0. apply (f_equal (λ z, Z.testbit z k)) in H0.
    rewrite Z.land_spec, E, Z.pow2_bits_true, Z.bits_0 in H0 by lia. done.
  - apply Z.eqb_eq, Z.bits_inj'. intros i Hi. rewrite Z.land_spec, Z.bits_0.
    destruct (decide (i = k)) as [->|]; [by rewrite E|].
    rewrite Z.pow2_bits_false by lia. by rewrite andb_false_r.
Qed.

Lemma shiftr_pow2 k : Z.shiftr (2 ^ Z.of_nat (S k)) 1 = 2 ^ Z.of_nat k.
Proof.
  rewrite Z.shiftr_div_pow2, Nat2Z.inj_succ, Z.pow_succ_r by lia.
  rewrite Z.mul_comm. by apply Z.div_mul.
Qed.

Lemma pow2_nonzero k : (2 ^ Z.of_nat k =? 0) = false.
Proof. apply Z.eqb_neq. pose proof (Z.pow_pos_nonneg 2 (Z.of_nat k)). lia. Qed.

Lemma netmask_no_one_spec nm k fuel :
  (k + 1 < fuel)%nat →
  netmask_no_one fuel nm (2 ^ Z.of_nat k) = true ↔
  ∀ i, 0 ≤ i ≤ Z.of_nat k → Z.testbit nm i = false.
Proof.
  revert fuel. induction k as [|k IH]; intros fuel Hf;
    (destruct fuel as [|fuel]; [lia|]); cbn [netmask_no_one];
    rewrite pow2_nonzero, land_pow2_zero, negb_involutive by lia.
  - destruct (Z.testbit nm (Z.of_nat 0)) eqn:E.
    + split; [done|]. intros H. by rewrite H in E by lia.
    + split; [|by destruct fuel]. intros _ i Hi. by replace i with (Z.of_nat 0) by lia.
  - rewrite shiftr_pow2. destruct (Z.testbit nm (Z.of_nat (S k))) eqn:E.
    + split; [done|]. intros H. by rewrite H in E by lia.
    + rewrite IH by lia. split; intros H i Hi; [|apply H; lia].
      destruct (decide (i = Z.of_nat (S k))) as [->|]; [done|]. apply H. lia.
Qed.

Lemma netmask_first_zero_spec nm k fuel :
  (k + 1 < fuel)%nat →
  let m := netmask_first_zero fuel nm (2 ^ Z.of_nat k) in
  (m = 0 ∧ ∀ i, 0 ≤ i ≤ Z.of_nat k → Z.testbit nm i = true) ∨
  (∃ j, (j ≤ k)%nat ∧ m = 2 ^ Z.of_nat j ∧ Z.testbit nm (Z.of_nat j) = false ∧
        ∀ i, Z.of_nat j < i ≤ Z.of_nat k → Z.testbit nm i = true).
Proof.
  revert fuel. induction k as [|k IH]; intros fuel Hf;
    (destruct fuel as [|fuel]; [lia|]); cbn [netmask_first_zero];
    rewrite pow2_nonzero, land_pow2_zero by lia.
  - destruct (Z.testbit nm (Z.of_nat 0)) eqn:E; simpl.
    + left. split; [by destruct fuel|].
      intros i Hi. by replace i with (Z.of_nat 0) by lia.
    + right. exists 0%nat. split_and!; auto. lia.
  - destruct (Z.testbit nm (Z.of_nat (S k))) eqn:E; simpl.
    + rewrite shiftr_pow2. destruct (IH fuel ltac:(lia))
        as [[Hm Hall]|(j & Hj & Hm & Hb & Hall)].
      * left. split; [done|]. intros i Hi.
        destruct (decide (i = Z.of_nat (S k))) as [->|]; [done|]. apply Hall. lia.
      * right. exists j. split; [lia|]. split_and!; [done..|]. intros i Hi.
        destruct (decide (i = Z.of_nat (S k))) as [->|]; [done|]. apply Hall. lia.
    + right. exists (S k). split_and!; auto. lia.
Qed.

(** The bits of a netmask with [n] leading ones. *)
Lemma prefix_mask_bits n i :
  0 ≤ n ≤ 32 → 0 ≤ i < 32 →
  Z.testbit (2 ^ 32 - 2 ^ (32 - n)) i = (32 - n <=? i).
Proof.
  intros Hn Hi.
  replace (2 ^ 32 - 2 ^ (32 - n)) with (Z.ones n * 2 ^ (32 - n)).
  2:{ rewrite Z.ones_equiv, Z.mul_pred_l, <-Z.pow_add_r by lia.
      by replace (n + (32 - n)) with 32 by lia. }
  destruct (Z.leb_spec (32 - n) i).
  - rewrite Z.mul_pow2_bits by lia. apply Z.ones_spec_low. lia.
  - rewrite Z.mul_pow2_bits_low by lia. done.
Qed.

Lemma u32_bits_eq x y :
  is_u32 x → is_u32 y →
  (∀ i, 0 ≤ i < 32 → Z.testbit x i = Z.testbit y i) → x = y.
Proof.
  intros Hx Hy H. apply Z.bits_inj'. intros i Hi.
  destruct (decide (i < 32)); [by apply H|].
  rewrite <-(Z.mod_small x (2 ^ 32)), <-(Z.mod_small y (2 ^ 32)) by done.
  by rewrite !Z.mod_pow2_bits_high by lia.
Qed.

Lemma prefix_mask_u32 n : 0 ≤ n ≤ 32 → is_u32 (2 ^ 32 - 2 ^ (32 - n)).
Proof.
  intros Hn. unfold is_u32. assert (0 < 2 ^ (32 - n)) by (apply Z.pow_pos_nonneg; lia).
  assert (2 ^ (32 - n) ≤ 2 ^ 32) by (apply Z.pow_le_mono_r; lia). lia.
Qed.

Lemma netmask_valid_prefix nm :
  is_u32 nm →
  (let mask := netmask_first_zero 33 nm (Z.shiftl 1 31) in
   netmask_no_one 33 nm mask = true) ↔
  ∃ n, 0 ≤ n ≤ 32 ∧ nm = 2 ^ 32 - 2 ^ (32 - n).
Proof.
  intros Hnm. change (Z.shiftl 1 31) with (2 ^ Z.of_nat 31). cbv zeta.
  destruct (netmask_first_zero_spec nm 31 33 ltac:(lia))
    as [[-> Hall]|(j & Hj & -> & Hb & Hall)].
  - split; [intros _|done]. exists 32. split; [lia|].
    apply u32_bits_eq; [done|by apply prefix_mask_u32|]. intros i Hi.
    rewrite prefix_mask_bits, Hall by lia. symmetry. apply Z.leb_le. lia.
  - rewrite netmask_no_one_spec by lia. split.
    + intros Hz. exists (31 - Z.of_nat j). split; [lia|].
      apply u32_bits_eq; [done|apply prefix_mask_u32; lia|]. intros i Hi.
      rewrite prefix_mask_bits by lia.
      destruct (Z.leb_spec (32 - (31 - Z.of_nat j)) i); [apply Hall|apply Hz]; lia.
    + intros (n & Hn & ->) i Hi. rewrite prefix_mask_bits in Hb |- * by lia.
      apply Z.leb_gt in Hb. apply Z.leb_gt. lia.
Qed.

(** ** Properties *)

(** C32: printing an address and parsing the text gives the address back, for
    each of the 2^32 addresses, and the 16-byte buffer of [ipaddr_ntoa] is
    always large enough. *)
Theorem ipaddr_aton_ntoa (addr : Z) :
  is_u32 addr → ∃ t, ipaddr_ntoa addr = Some t ∧ ipaddr_aton t = Some addr.
Proof.
  intros (a & b & c & d & Ha & Hb & Hc & Hd & ->)%u32_digits.
  exists (quad a b c d). unfold ipaddr_ntoa.
  pose proof (quad_length a b c d Ha Hb Hc Hd).
  rewrite ntoa_r_quad by (done || lia).
  rewrite (proj2 (Z.leb_le _ _)) by lia. split; [done|].
  rewrite <-(app_nil_r (quad a b c d)). by apply aton_quad; auto.
Qed.

Lemma ipaddr_aton_ntoa_witness :
  ∃ t, ipaddr_ntoa 0xc8fe00c0 = Some t ∧ ipaddr_aton t = Some 0xc8fe00c0.
Proof. apply ipaddr_aton_ntoa. cdec. Defined.

(** [ipaddr_ntoa_r] returns NULL exactly when the text and its
    terminating NUL do not fit into the caller's buffer, and then and only
    then; the text does not depend on the size of the buffer. *)
Theorem ipaddr_ntoa_r_bound (addr buflen : Z) :
  is_u32 addr → 0 ≤ buflen →
  ∃ t, ipaddr_ntoa addr = Some t ∧ 7 ≤ zlen t ≤ 15 ∧
       ipaddr_ntoa_r addr buflen = if zlen t + 1 <=? buflen then Some t else None.
Proof.
  intros (a & b & c & d & Ha & Hb & Hc & Hd & ->)%u32_digits Hl.
  exists (quad a b c d). unfold ipaddr_ntoa.
  pose proof (quad_length a b c d Ha Hb Hc Hd).
  rewrite !ntoa_r_quad by (done || lia).
  by rewrite (proj2 (Z.leb_le (zlen (quad a b c d) + 1) 16)) by lia.
Qed.

Lemma ipaddr_ntoa_r_bound_witness :
  ∃ t, ipaddr_ntoa 0x0100007f = Some t ∧ 7 ≤ zlen t ≤ 15 ∧
       ipaddr_ntoa_r 0x0100007f 9 = if zlen t + 1 <=? 9 then Some t else None.
Proof.
  apply ipaddr_ntoa_r_bound; cdec.
Defined.

(** a netmask is accepted exactly when, in host order, it is a run of
    ones followed by zeros: [2^32 - 2^(32-n)] for a prefix length [n]. *)
Theorem ip4_addr_netmask_valid_iff (netmask : Z) :
  is_u32 netmask →
  ip4_addr_netmask_valid netmask = true ↔
  ∃ n, 0 ≤ n ≤ 32 ∧ netmask = lwip_htonl (2 ^ 32 - 2 ^ (32 - n)).
Proof.
  intros Hm. unfold ip4_addr_netmask_valid.
  rewrite netmask_valid_prefix by apply htonl_u32.
  split; intros (n & Hn & E); exists n; (split; [done|]).
  - rewrite <-E. symmetry. exact (ntohl_htonl netmask Hm).
  - rewrite E. apply ntohl_htonl. by apply prefix_mask_u32.
Qed.

Lemma ip4_addr_netmask_valid_iff_witness :
  is_u32 0x00f0ffff ∧
  (ip4_addr_netmask_valid 0x00f0ffff = true ↔
   ∃ n, 0 ≤ n ≤ 32 ∧ 0x00f0ffff = lwip_htonl (2 ^ 32 - 2 ^ (32 - n))).
Proof.
  assert (is_u32 0x00f0ffff) as H by cdec.
  split; [exact H|exact (ip4_addr_netmask_valid_iff 0x00f0ffff H)].
Defined.

End Ip4Addr.
