(* ===== verification/InetChksum.v ===== *)
(** * Internet checksum: [lwip/src/core/inet_chksum.c], [lwip/inet_chksum.h]

    The three versions of [lwip_standard_chksum] (the build selects version 2)
    and the checksums over a buffer, over a pbuf chain and with the TCP/UDP
    pseudo header that are built on them.  A buffer is its bytes together with
    the alignment of its address; a pbuf chain is the list of such buffers.

    The reference is RFC 1071: the one's-complement sum, with end-around
    carry, of the big-endian 16-bit words of the data, the last one padded
    with a zero byte.  All versions compute it, for every alignment and every
    way of cutting the data into pbufs; a packet whose checksum field was
    filled in with the result sums to zero at the receiver. *)

From S2P Require Import Prelude Def.

Module InetChksum.
Import Def.

Definition SWAP_BYTES_IN_WORD (w : Z) : Z :=
  Z.lor (Z.shiftl (Z.land w 0xff) 8) (Z.shiftr (Z.land w 0xff00) 8).

Definition FOLD_U32T (u : Z) : Z := Z.shiftr u 16 + Z.land u 0xffff.

(** ** Version 1: byte by byte *)

Fixpoint chksum1_loop (acc : Z) (octetptr : bytes) : Z * bytes :=
  match octetptr with
  | b0 :: b1 :: rest =>
      chksum1_loop (u32 (acc + Z.lor (u16 (Z.shiftl b0 8)) b1)) rest
  | _ => (acc, octetptr)
  end.

Definition lwip_standard_chksum_1 (data : bytes) : Z :=
  let '(acc, rest) := chksum1_loop 0 data in
  let acc :=
    match rest with
    | [] => acc
    | b :: _ => u32 (acc + u16 (Z.shiftl b 8))
    end in
  let acc := FOLD_U32T acc in
  let acc := if negb (Z.land acc 0xffff0000 =? 0) then FOLD_U32T acc else acc in
  lwip_htons (u16 acc).

(** ** Version 2: the one that is built *)

(** [sum += *ps++] over the 16-bit loads of a little-endian host. *)
Fixpoint chksum_words (sum : Z) (ps : bytes) : Z * bytes :=
  match ps with
  | b0 :: b1 :: rest => chksum_words (u32 (sum + le_load [b0; b1])) rest
  | _ => (sum, ps)
  end.

(** [((u8_t * )&t)[i] = b]. *)
Definition set_byte0 (t b : Z) : Z := 256 * (t / 256) + b.
Definition set_byte1 (t b : Z) : Z := t mod 256 + 256 * b.

(** The byte that precedes the first aligned 16-bit word. *)
Definition chksum_head (odd : bool) (pb : bytes) : Z * bytes :=
  match pb with
  | b :: rest => if odd then (set_byte1 0 b, rest) else (0, pb)
  | [] => (0, [])
  end.

(** The left-over byte, the end bytes, the folds and the final swap. *)
Definition chksum_tail (odd : bool) (sum t : Z) (ps : bytes) : Z :=
  let t := match ps with b :: _ => set_byte0 t b | [] => t end in
  let sum := u32 (sum + t) in
  let sum := FOLD_U32T sum in
  let sum := FOLD_U32T sum in
  u16 (if odd then SWAP_BYTES_IN_WORD sum else sum).

Definition lwip_standard_chksum (odd : bool) (dataptr : bytes) : Z :=
  let '(t, pb) := chksum_head odd dataptr in
  let '(sum, ps) := chksum_words 0 pb in
  chksum_tail odd sum t ps.

(** ** Version 3: 32-bit loads, unrolled *)

(** [tmp = sum + *pl++; if (tmp < sum) tmp++]. *)
Definition add_carry (sum w : Z) : Z :=
  let tmp := u32 (sum + w) in
  if tmp <? sum then u32 (tmp + 1) else tmp.

Fixpoint chksum3_loop (sum : Z) (pl : bytes) : Z * bytes :=
  match pl with
  | a :: b :: c :: d :: e :: f :: g :: h :: rest =>
      let tmp := add_carry sum (le_load [a; b; c; d]) in
      chksum3_loop (add_carry tmp (le_load [e; f; g; h])) rest
  | _ => (sum, pl)
  end.

(** [addr] is the address of the buffer, of which only the two low bits
    matter. *)
Definition lwip_standard_chksum_3 (addr : Z) (dataptr : bytes) : Z :=
  let odd := Z.odd addr in
  let '(t, pb) := chksum_head odd dataptr in
  let ps_addr := addr + (zlen dataptr - zlen pb) in
  let '(sum, ps) :=
    match pb with
    | b0 :: b1 :: rest =>
        if negb (Z.land ps_addr 3 =? 0) then (u32 (0 + le_load [b0; b1]), rest)
        else (0, pb)
    | _ => (0, pb)
    end in
  let '(sum, pl) := chksum3_loop sum ps in
  let sum := FOLD_U32T sum in
  let '(sum, ps) := chksum_words sum pl in
  chksum_tail odd sum t ps.

(** ** Chains and pseudo headers *)

(** A pbuf of the chain: whether its payload starts at an odd address, and
    its [len] bytes. *)
Abbreviation chain := (list (bool * bytes)).

(** The loop over the pbufs shared by the three chain checksums; [swapped]
    says that [acc] holds the byte-swapped sum. *)
Fixpoint chksum_chain (acc : Z) (swapped : bool) (q : chain) : Z * bool :=
  match q with
  | [] => (acc, swapped)
  | (odd, payload) :: q' =>
      let acc := u32 (acc + lwip_standard_chksum odd payload) in
      let acc := FOLD_U32T acc in
      if negb (zlen payload mod 2 =? 0)
      then chksum_chain (SWAP_BYTES_IN_WORD acc) (negb swapped) q'
      else chksum_chain acc swapped q'
  end.

(** [if (swapped) acc = SWAP_BYTES_IN_WORD(acc);] *)
Definition unswap (r : Z * bool) : Z :=
  let '(acc, swapped) := r in if swapped then SWAP_BYTES_IN_WORD acc else acc.

Definition inet_chksum_pbuf (p : chain) : Z :=
  let acc := unswap (chksum_chain 0 false p) in
  not16 (Z.land acc 0xffff).

(** The pseudo-header fields other than the addresses, the last folds and the
    complement. *)
Definition pseudo_finish (acc proto proto_len : Z) : Z :=
  let acc := u32 (acc + lwip_htons (u16 proto)) in
  let acc := u32 (acc + lwip_htons proto_len) in
  let acc := FOLD_U32T acc in
  let acc := FOLD_U32T acc in
  not16 (Z.land acc 0xffff).

Definition inet_cksum_pseudo_base (p : chain) (proto proto_len acc : Z) : Z :=
  pseudo_finish (unswap (chksum_chain acc false p)) proto proto_len.

(** The sum of the two addresses, folded down to 16 bits. *)
Definition pseudo_addrs (src dest : Z) : Z :=
  let acc := Z.land src 0xffff in
  let acc := u32 (acc + Z.land (Z.shiftr src 16) 0xffff) in
  let acc := u32 (acc + Z.land dest 0xffff) in
  let acc := u32 (acc + Z.land (Z.shiftr dest 16) 0xffff) in
  let acc := FOLD_U32T acc in
  FOLD_U32T acc.

Definition inet_chksum_pseudo (p : chain) (proto proto_len src dest : Z) : Z :=
  inet_cksum_pseudo_base p proto proto_len (pseudo_addrs src dest).

(** The variant that covers only the first [chksum_len] bytes; it aborts when
    the assertion labelled "delete me" fails. *)
Fixpoint chksum_chain_partial (acc : Z) (swapped : bool) (chksum_len : Z)
    (q : chain) : option (Z * bool) :=
  match q with
  | [] => Some (acc, swapped)
  | (odd, payload) :: q' =>
      if chksum_len <=? 0 then Some (acc, swapped)
      else
        let chklen := if chksum_len <? zlen payload then chksum_len else zlen payload in
        let acc := u32 (acc + lwip_standard_chksum odd (take (Z.to_nat chklen) payload)) in
        let chksum_len := u16 (chksum_len - chklen) in
        if negb (chksum_len <? 0x7fff) then None
        else
          let acc := FOLD_U32T acc in
          if negb (zlen payload mod 2 =? 0)
          then chksum_chain_partial (SWAP_BYTES_IN_WORD acc) (negb swapped) chksum_len q'
          else chksum_chain_partial acc swapped chksum_len q'
  end.

Definition inet_cksum_pseudo_partial_base (p : chain)
    (proto proto_len chksum_len acc : Z) : option Z :=
  r ← chksum_chain_partial acc false chksum_len p;
  Some (pseudo_finish (unswap r) proto proto_len).

Definition inet_chksum_pseudo_partial (p : chain)
    (proto proto_len chksum_len src dest : Z) : option Z :=
  inet_cksum_pseudo_partial_base p proto proto_len chksum_len
    (pseudo_addrs src dest).

Definition inet_chksum (odd : bool) (dataptr : bytes) : Z :=
  not16 (lwip_standard_chksum odd dataptr).

(** ** The reference: RFC 1071 *)

(** One's-complement addition on 16 bits: the carry is added back in. *)
Definition oc_plus (a b : Z) : Z := if a + b <? 65536 then a + b else a + b - 65535.

Fixpoint rfc1071_sum (data : bytes) : Z :=
  match data with
  | [] => 0
  | [b0] => b0 * 256
  | b0 :: b1 :: rest => oc_plus (b0 * 256 + b1) (rfc1071_sum rest)
  end.

(** The IPv4 pseudo header as it would appear on the wire; [src] and [dest]
    hold addresses in network order. *)
Definition pseudo_header (src dest proto proto_len : Z) : bytes :=
  le_bytes 4 src ++ le_bytes 4 dest ++ [0; proto] ++ be_bytes 2 proto_len.

Example chksum_ex :
  lwip_standard_chksum false [0x45; 0; 0; 0x1c; 1] = lwip_htons (0x451d - 1 + 256)
  ∧ lwip_standard_chksum true [0x45; 0; 0; 0x1c; 1] = lwip_htons 0x461c
  ∧ lwip_standard_chksum_3 3 [0x45; 0; 0; 0x1c; 1] = lwip_htons 0x461c
  ∧ lwip_standard_chksum_1 [0x45; 0; 0; 0x1c; 1] = lwip_htons 0x461c.
Proof. vm_compute. auto. Qed.

(** ** One's-complement congruence

    Two non-negative integers have the same one's-complement sum when they are
    congruent modulo 65535 and zero together.  Folding, byte swapping (which
    multiplies by 256) and the one's-complement addition all respect it. *)

Definition oceq (x y : Z) : Prop :=
  0 ≤ x ∧ 0 ≤ y ∧ x mod 65535 = y mod 65535 ∧ (x = 0 ↔ y = 0).

Infix "≈" := oceq (at level 70) : c_scope.
Local Open Scope c_scope.

#[export] Instance oceq_sym : Symmetric oceq.
Proof. unfold oceq. intros x y. intuition. Qed.
#[export] Instance oceq_trans : Transitive oceq.
Proof. unfold oceq. intros x y z. intuition congruence. Qed.

#[export] Instance oceq_add : Proper (oceq ==> oceq ==> oceq) Z.add.
Proof.
  intros x x' (? & ? & E & ?) y y' (? & ? & E' & ?). unfold oceq.
  split_and!; [lia..| |lia]. by rewrite Z.add_mod, E, E', <-Z.add_mod.
Qed.

#[export] Instance oceq_mul : Proper (oceq ==> oceq ==> oceq) Z.mul.
Proof.
  intros x x' (? & ? & E & ?) y y' (? & ? & E' & ?). unfold oceq.
  split_and!; [lia..| |nia]. by rewrite Z.mul_mod, E, E', <-Z.mul_mod.
Qed.

Lemma oceq_refl x : 0 ≤ x → x ≈ x.
Proof. unfold oceq. intuition. Qed.
#[export] Hint Resolve oceq_refl : cint.

(** On 16-bit values the congruence is equality. *)
Lemma oceq_inj x y : x ≈ y → x ≤ 65535 → y ≤ 65535 → x = y.
Proof.
  intros (? & ? & E & Hz) ? ?. destruct (decide (x = 0)); [lia|].
  destruct (decide (x = 65535)), (decide (y = 65535)); try lia; subst;
    rewrite ?Z_mod_same_full in E; rewrite ?(Z.mod_small _ 65535) in E by lia; lia.
Qed.

(** [256 * 256] is one in this arithmetic. *)
Lemma oceq_65536 x : 0 ≤ x → 65536 * x ≈ x.
Proof.
  intros. split_and!; [lia..| |lia].
  replace (65536 * x) with (x + x * 65535) by lia. apply Z_mod_plus. lia.
Qed.

Lemma FOLD_arith u : FOLD_U32T u = u / 65536 + u mod 65536.
Proof. unfold FOLD_U32T. by rewrite land_65535, Z.shiftr_div_pow2 by lia. Qed.

Lemma oceq_fold u : 0 ≤ u → FOLD_U32T u ≈ u.
Proof.
  intros. rewrite FOLD_arith.
  pose proof (Z.mod_pos_bound u 65536). pose proof (Z.div_pos u 65536).
  pose proof (Z.div_mod u 65536).
  transitivity (65536 * (u / 65536) + u mod 65536).
  - apply oceq_add; [|by apply oceq_refl; lia]. symmetry. apply oceq_65536. lia.
  - replace (65536 * (u / 65536) + u mod 65536) with u by lia. by apply oceq_refl.
Qed.

Lemma fold_range u : is_u32 u → 0 ≤ FOLD_U32T u ≤ 0x1fffe.
Proof. unfold is_u32. intros. rewrite FOLD_arith. zdm. Qed.

Lemma fold_range16 u : 0 ≤ u ≤ 0x1fffe → 0 ≤ FOLD_U32T u ≤ 65535.
Proof. intros. rewrite FOLD_arith. zdm. Qed.

Lemma oceq_fold2 u : is_u32 u → FOLD_U32T (FOLD_U32T u) ≈ u ∧
  0 ≤ FOLD_U32T (FOLD_U32T u) ≤ 65535.
Proof.
  intros Hu. pose proof (fold_range u Hu). unfold is_u32 in Hu.
  split; [|by apply fold_range16]. transitivity (FOLD_U32T u); apply oceq_fold; lia.
Qed.

Lemma SWAP_htons w : SWAP_BYTES_IN_WORD w = lwip_htons w.
Proof. done. Qed.

Lemma oceq_swap w : 0 ≤ w ≤ 65535 → lwip_htons w ≈ 256 * w.
Proof.
  intros. rewrite htons_arith. split_and!; [zdm|lia| |zdm].
  assert (256 * w = (w mod 256 * 256 + (w / 256) mod 256) + (w / 256) * 65535) as -> by zdm.
  by rewrite Z_mod_plus by lia.
Qed.

Lemma swap_range w : 0 ≤ lwip_htons w ≤ 65535.
Proof. pose proof (htons_u16 w). unfold is_u16 in *. lia. Qed.

(** ** The reference sums, modulo the congruence *)

Lemma le_load_nonneg b : Forall is_u8 b → 0 ≤ le_load b.
Proof. intros H. apply (le_load_range b H). Qed.

(** The little-endian reading of a buffer: shifting data by a byte multiplies
    its sum by 256, so that concatenation is an addition. *)
Lemma le_load_app a b :
  le_load (a ++ b) = le_load a + 256 ^ zlen a * le_load b.
Proof.
  induction a as [|x a IH]; simpl le_load; [unfold zlen; simpl; lia|].
  rewrite IH, zlen_cons, Z.pow_add_r by (lia || apply zlen_nonneg). lia.
Qed.

Lemma oceq_pow256 n : 0 ≤ n → 256 ^ n ≈ if Z.even n then 1 else 256.
Proof.
  intros Hn. pattern n. apply natlike_ind; [done| |done].
  intros k Hk IH. rewrite Z.pow_succ_r, Z.even_succ, <-Z.negb_even by lia.
  destruct (Z.even k); simpl.
  - change 256 with (256 * 1) at 3. apply oceq_mul; [by apply oceq_refl|done].
  - transitivity (256 * 256); [apply oceq_mul; [by apply oceq_refl|done]|done].
Qed.

Lemma oc_plus_range a b :
  0 ≤ a ≤ 65535 → 0 ≤ b ≤ 65535 → 0 ≤ oc_plus a b ≤ 65535.
Proof. unfold oc_plus. intros. destruct (Z.ltb_spec (a + b) 65536); lia. Qed.

Lemma oceq_oc_plus a b :
  0 ≤ a ≤ 65535 → 0 ≤ b ≤ 65535 → oc_plus a b ≈ a + b.
Proof.
  unfold oc_plus. intros. destruct (Z.ltb_spec (a + b) 65536); [apply oceq_refl; lia|].
  split_and!; [lia..| |lia]. replace (a + b) with (a + b - 65535 + 1 * 65535) at 2 by lia.
  by rewrite Z_mod_plus by lia.
Qed.

(** Induction two bytes at a time. *)
Lemma words_ind (P : bytes → Prop) :
  P [] → (∀ b, P [b]) → (∀ b0 b1 r, P r → P (b0 :: b1 :: r)) → ∀ l, P l.
Proof.
  intros H0 H1 H2. fix IH 1. intros [|b0 [|b1 r]]; [exact H0|apply H1|].
  apply H2, IH.
Qed.

Lemma rfc1071_range data : Forall is_u8 data → 0 ≤ rfc1071_sum data ≤ 65535.
Proof.
  induction data as [|b|b0 b1 r IH] using words_ind; intros H; [done|..];
    decompose_Forall_hyps; unfold is_u8 in *; simpl; [lia|].
  apply oc_plus_range; [lia|by apply IH].
Qed.

(** The RFC's sum is the little-endian reading, up to the byte order. *)
Lemma oceq_rfc1071 data : Forall is_u8 data → rfc1071_sum data ≈ 256 * le_load data.
Proof.
  induction data as [|b|b0 b1 r IH] using words_ind; intros H; [done|..];
    decompose_Forall_hyps; unfold is_u8 in *; cbn [rfc1071_sum le_load].
  - replace (256 * (b + 256 * 0)) with (b * 256) by lia. apply oceq_refl. lia.
  - assert (0 ≤ le_load r) by (apply le_load_nonneg; done).
    etransitivity; [apply oceq_oc_plus; [lia|by apply rfc1071_range]|].
    replace (256 * (b0 + 256 * (b1 + 256 * le_load r)))
      with ((b0 * 256 + 65536 * b1) + 65536 * (256 * le_load r)) by lia.
    apply oceq_add.
    + apply oceq_add; [apply oceq_refl; lia|symmetry; apply oceq_65536; lia].
    + rewrite IH by done. symmetry. apply oceq_65536. lia.
Qed.

(** Two 16-bit sums of the same data agree. *)
Lemma chksum_unique x data :
  Forall is_u8 data → 0 ≤ x ≤ 65535 → x ≈ le_load data →
  x = lwip_htons (rfc1071_sum data).
Proof.
  intros Hd Hx E. pose proof (rfc1071_range data Hd).
  apply oceq_inj; [|lia|apply swap_range].
  assert (0 ≤ le_load data) by by apply le_load_nonneg.
  rewrite E, oceq_swap by done. symmetry.
  transitivity (256 * (256 * le_load data)).
  - apply oceq_mul; [by apply oceq_refl|by apply oceq_rfc1071].
  - rewrite Z.mul_assoc. by apply oceq_65536.
Qed.

(** ** The loops *)

Lemma chksum_words_spec ps sum :
  Forall is_u8 ps → 0 ≤ sum → sum + 65535 * (zlen ps / 2) < 4294967296 →
  let '(sum', r) := chksum_words sum ps in
  sum' + le_load r ≈ sum + le_load ps ∧
  0 ≤ sum' ≤ sum + 65535 * (zlen ps / 2) ∧ (r = [] ∨ ∃ b, r = [b] ∧ is_u8 b).
Proof.
  revert sum. induction ps as [|b|b0 b1 r IH] using words_ind; intros sum H Hs Hb.
  - simpl. split_and!; [apply oceq_refl; lia|lia| |by left]. change (zlen (@nil Z) / 2) with 0. lia.
  - decompose_Forall_hyps. simpl. unfold is_u8 in *.
    split_and!; [apply oceq_refl; lia|lia| |right; by exists b]. change (zlen [b] / 2) with 0. lia.
  - decompose_Forall_hyps. unfold is_u8 in *. rewrite !zlen_cons in *.
    replace (1 + (1 + zlen r)) with (zlen r + 1 * 2) in * by lia.
    rewrite Z.div_add in * by lia. pose proof (zlen_nonneg r).
    assert (0 ≤ zlen r / 2) by (apply Z.div_pos; lia).
    cbn [chksum_words le_load]. rewrite u32_id by (unfold is_u32; lia).
    specialize (IH (sum + (b0 + 256 * (b1 + 256 * 0)))).
    destruct (chksum_words _ r) as [sum' r']. destruct IH as (IH & ? & ?); [done|lia..|].
    split_and!; [|lia|lia|done]. rewrite IH.
    replace (sum + (b0 + 256 * (b1 + 256 * le_load r)))
      with (sum + (b0 + 256 * (b1 + 256 * 0)) + 65536 * le_load r) by lia.
    apply oceq_add; [apply oceq_refl; lia|]. symmetry. apply oceq_65536.
    by apply le_load_nonneg.
Qed.

Lemma chksum_tail_spec odd sum t r b :
  t = 256 * b → is_u8 b → (r = [] ∨ ∃ c, r = [c] ∧ is_u8 c) →
  0 ≤ sum → sum + 65535 < 4294967296 →
  chksum_tail odd sum t r ≈ (if odd then 256 else 1) * (sum + t + le_load r) ∧
  0 ≤ chksum_tail odd sum t r ≤ 65535.
Proof.
  unfold is_u8. intros -> Hb Hr Hs Hlt.
  assert (Ht : match r with b' :: _ => set_byte0 (256 * b) b' | [] => 256 * b end
               = 256 * b + le_load r ∧ 0 ≤ le_load r < 256).
  { destruct Hr as [->|(c & -> & Hc)]; simpl; [lia|]. unfold set_byte0, is_u8 in *.
    rewrite (Z.mul_comm 256 b), Z.div_mul by lia. lia. }
  destruct Ht as [Ht Hl]. unfold chksum_tail. rewrite Ht. clear Ht.
  rewrite u32_id by (unfold is_u32; lia).
  destruct (oceq_fold2 (sum + (256 * b + le_load r))) as [E Hf]; [unfold is_u32; lia|].
  replace (sum + 256 * b + le_load r) with (sum + (256 * b + le_load r)) by lia.
  destruct odd.
  - rewrite SWAP_htons, u16_id by apply htons_u16. split; [|apply swap_range].
    rewrite oceq_swap by done. apply oceq_mul; [by apply oceq_refl|done].
  - rewrite u16_id by (unfold is_u16; lia). split; [|done]. by rewrite Z.mul_1_l.
Qed.

(** The unaligned first byte: the sum of the rest counts 256 times, and the
    final swap multiplies by 256 once more. *)
Lemma chksum_head_spec odd data :
  Forall is_u8 data →
  let '(t, pb) := chksum_head odd data in
  Forall is_u8 pb ∧ zlen pb ≤ zlen data ∧
  (∃ b, t = 256 * b ∧ is_u8 b) ∧
  (if odd then 256 else 1) * (t + le_load pb) ≈ le_load data.
Proof.
  intros Hd. destruct data as [|b data]; simpl.
  { split_and!; [done|done|by exists 0|by destruct odd]. }
  decompose_Forall_hyps. assert (0 ≤ le_load data) by (by apply le_load_nonneg). unfold is_u8 in *.
  destruct odd; simpl; rewrite ?zlen_cons.
  - unfold set_byte1. change (0 mod 256) with 0.
    split_and!; [done|lia|exists b; lia|].
    replace (256 * (0 + 256 * b + le_load data))
      with (65536 * b + 256 * le_load data) by lia.
    apply oceq_add; [apply oceq_65536; lia|apply oceq_refl; lia].
  - split_and!; [by constructor|lia|by exists 0|]. rewrite Z.mul_1_l.
    apply oceq_refl. lia.
Qed.

Lemma scale_assoc (odd : bool) a b :
  (if odd then 256 else 1) * (a + b) = (if odd then 256 else 1) * a + (if odd then 256 else 1) * b.
Proof. destruct odd; lia. Qed.

Lemma oceq_scale (odd : bool) x y :
  x ≈ y → (if odd then 256 else 1) * x ≈ (if odd then 256 else 1) * y.
Proof. intros. apply oceq_mul; [destruct odd; by apply oceq_refl|done]. Qed.

(** Version 2 on every alignment, within the length its comment promises. *)
Lemma standard_chksum_oceq odd data :
  Forall is_u8 data → zlen data ≤ 0x20000 →
  lwip_standard_chksum odd data ≈ le_load data ∧
  0 ≤ lwip_standard_chksum odd data ≤ 65535.
Proof.
  intros Hd Hlen. unfold lwip_standard_chksum.
  pose proof (chksum_head_spec odd data Hd) as Hh.
  destruct (chksum_head odd data) as [t pb].
  destruct Hh as (Hpb & Hl & (b & Ht & Hb) & E).
  assert (zlen pb / 2 ≤ 65536) by zdm.
  pose proof (chksum_words_spec pb 0 Hpb) as Hw.
  destruct (chksum_words 0 pb) as [sum r]. destruct Hw as (Ew & Hs & Hr); [lia..|].
  destruct (chksum_tail_spec odd sum t r b Ht Hb Hr) as [Et Hrange]; [lia|lia|].
  split; [|done]. rewrite Et. etransitivity; [|exact E]. apply oceq_scale.
  replace (sum + t + le_load r) with (t + (sum + le_load r)) by lia.
  apply oceq_add; [|done]. apply oceq_refl. unfold is_u8 in Hb. lia.
Qed.

Lemma add_carry_spec sum w :
  is_u32 sum → is_u32 w → add_carry sum w ≈ sum + w ∧ is_u32 (add_carry sum w).
Proof.
  unfold is_u32. intros Hs Hw. unfold add_carry, u32.
  destruct (decide (sum + w < 4294967296)) as [Hlt|Hge].
  - rewrite (Z.mod_small (sum + w)) by lia.
    destruct (Z.ltb_spec (sum + w) sum); [lia|]. split; [apply oceq_refl; lia|lia].
  - replace ((sum + w) mod 4294967296) with (sum + w - 4294967296) by zdm.
    destruct (Z.ltb_spec (sum + w - 4294967296) sum); [|lia].
    rewrite Z.mod_small by lia. split; [|lia]. split_and!; [lia..| |lia].
    replace (sum + w) with (sum + w - 4294967296 + 1 + 65537 * 65535) at 2 by lia.
    by rewrite Z_mod_plus by lia.
Qed.

Lemma le_load_u32 a b c d :
  is_u8 a → is_u8 b → is_u8 c → is_u8 d → is_u32 (le_load [a; b; c; d]).
Proof. unfold is_u8, is_u32. simpl. lia. Qed.

(** Induction eight bytes at a time. *)
Lemma chunks8_ind (P : bytes → Prop) :
  (∀ l, (length l < 8)%nat → P l) →
  (∀ a b c d e f g h r, P r → P (a :: b :: c :: d :: e :: f :: g :: h :: r)) →
  ∀ l, P l.
Proof.
  intros Hs Hc. fix IH 1.
  intros [|a [|b [|c [|d [|e [|f [|g [|h r]]]]]]]]; try (apply Hs; simpl; lia).
  apply Hc, IH.
Qed.

Lemma chksum3_loop_spec pl sum :
  Forall is_u8 pl → is_u32 sum →
  let '(sum', r) := chksum3_loop sum pl in
  sum' + le_load r ≈ sum + le_load pl ∧ is_u32 sum' ∧ Forall is_u8 r ∧ zlen r ≤ 7.
Proof.
  revert sum. induction pl as [l Hl|a b c d e f g h r IH] using chunks8_ind;
    intros sum H Hs.
  - assert (chksum3_loop sum l = (sum, l)) as ->.
    { do 8 (destruct l as [|? l]; [done|]). simpl in Hl. lia. }
    pose proof (le_load_nonneg l H). unfold is_u32 in *.
    split_and!; [apply oceq_refl; lia|lia|lia|done|]. unfold zlen. lia.
  - decompose_Forall_hyps. cbn [chksum3_loop].
    pose proof (le_load_u32 a b c d) as W1. pose proof (le_load_u32 e f g h) as W2.
    destruct (add_carry_spec sum (le_load [a; b; c; d])) as [E1 U1]; [by auto..|].
    destruct (add_carry_spec (add_carry sum (le_load [a; b; c; d]))
                (le_load [e; f; g; h])) as [E2 U2]; [by auto..|].
    specialize (IH (add_carry (add_carry sum (le_load [a; b; c; d]))
                      (le_load [e; f; g; h]))).
    destruct (chksum3_loop _ r) as [sum' r']. destruct IH as (IH & ? & ? & ?); [done..|].
    split_and!; [|done..]. rewrite IH. assert (0 ≤ le_load r) by (by apply le_load_nonneg).
    transitivity (sum + le_load [a; b; c; d] + le_load [e; f; g; h] + le_load r).
    { apply oceq_add; [|apply oceq_refl; auto]. rewrite E2.
      apply oceq_add; [done|apply oceq_refl; apply le_load_u32; done]. }
    match goal with |- _ ≈ ?rhs =>
      replace rhs with (sum + le_load [a; b; c; d] + 4294967296 * le_load [e; f; g; h]
        + 4294967296 * (4294967296 * le_load r)) by (simpl le_load; lia)
    end.
    specialize (W1 ltac:(done) ltac:(done) ltac:(done) ltac:(done)).
    specialize (W2 ltac:(done) ltac:(done) ltac:(done) ltac:(done)).
    unfold is_u32 in *.
    assert (∀ z, 0 ≤ z → 4294967296 * z ≈ z) as P32.
    { intros z Hz. replace (4294967296 * z) with (65536 * (65536 * z)) by lia.
      transitivity (65536 * z); apply oceq_65536; lia. }
    apply oceq_add; [apply oceq_add; [apply oceq_refl; lia|symmetry; apply P32; lia]|].
    symmetry. rewrite P32 by (assert (0 ≤ le_load r) by auto; lia). apply P32. auto.
Qed.

Lemma standard_chksum_3_oceq addr data :
  Forall is_u8 data →
  lwip_standard_chksum_3 addr data ≈ le_load data ∧
  0 ≤ lwip_standard_chksum_3 addr data ≤ 65535.
Proof.
  intros Hd. unfold lwip_standard_chksum_3.
  pose proof (chksum_head_spec (Z.odd addr) data Hd) as Hh.
  destruct (chksum_head (Z.odd addr) data) as [t pb].
  destruct Hh as (Hpb & _ & (b & Ht & Hb) & E).
  match goal with |- context [match ?m with _ => _ end] => set (first := m) end.
  assert (∃ sum ps, first = (sum, ps) ∧ is_u32 sum ∧ Forall is_u8 ps ∧
                    sum + le_load ps ≈ le_load pb) as (sum & ps & -> & Hs & Hps & E1).
  { subst first. pose proof (le_load_nonneg pb Hpb).
    assert (∃ sum ps, (0, pb) = (sum, ps) ∧ is_u32 sum ∧ Forall is_u8 ps ∧
      sum + le_load ps ≈ le_load pb) as Hid
      by (exists 0, pb; split_and!; [done..|apply oceq_refl; lia]).
    destruct pb as [|b0 [|b1 pb]]; [done..|]. destruct (negb _); [|done].
    decompose_Forall_hyps. assert (0 ≤ le_load pb) by (by apply le_load_nonneg). unfold is_u8 in *.
    eexists _, pb. split; [done|]. cbn [le_load]. rewrite u32_id by (unfold is_u32; lia).
    split_and!; [unfold is_u32; lia..|done|].
    replace (b0 + 256 * (b1 + 256 * le_load pb))
      with (0 + (b0 + 256 * (b1 + 256 * 0)) + 65536 * le_load pb) by lia.
    apply oceq_add; [apply oceq_refl; lia|]. symmetry. apply oceq_65536. auto. }
  pose proof (chksum3_loop_spec ps sum Hps Hs) as H3.
  destruct (chksum3_loop sum ps) as [sum3 pl]. destruct H3 as (E3 & Hs3 & Hpl & Hl).
  pose proof (fold_range sum3 Hs3). pose proof (zlen_nonneg pl).
  assert (zlen pl / 2 ≤ 3) by zdm.
  pose proof (chksum_words_spec pl (FOLD_U32T sum3) Hpl) as Hw.
  destruct (chksum_words _ pl) as [sum4 r]. destruct Hw as (Ew & Hs4 & Hr); [lia..|].
  destruct (chksum_tail_spec (Z.odd addr) sum4 t r b Ht Hb Hr) as [Et Hrange]; [lia..|].
  split; [|done]. rewrite Et. etransitivity; [|exact E]. apply oceq_scale.
  replace (sum4 + t + le_load r) with (t + (sum4 + le_load r)) by lia.
  apply oceq_add; [apply oceq_refl; unfold is_u8 in Hb; lia|].
  rewrite Ew, <-E1, <-E3. apply oceq_add; [|apply oceq_refl; by apply le_load_nonneg].
  apply oceq_fold. apply Hs3.
Qed.

Lemma chksum1_loop_spec data acc :
  Forall is_u8 data → 0 ≤ acc → acc + 65535 * (zlen data / 2) < 4294967296 →
  let '(acc', r) := chksum1_loop acc data in
  acc' + 256 * le_load r ≈ acc + 256 * le_load data ∧
  0 ≤ acc' ≤ acc + 65535 * (zlen data / 2) ∧ (r = [] ∨ ∃ b, r = [b] ∧ is_u8 b).
Proof.
  revert acc. induction data as [|b|b0 b1 r IH] using words_ind; intros acc H Hs Hb.
  - simpl. split_and!; [apply oceq_refl; lia|lia| |by left].
    change (zlen (@nil Z) / 2) with 0. lia.
  - decompose_Forall_hyps. unfold is_u8 in *. simpl.
    split_and!; [apply oceq_refl; lia|lia| |right; by exists b].
    change (zlen [b] / 2) with 0. lia.
  - decompose_Forall_hyps. unfold is_u8 in *. rewrite !zlen_cons in *.
    replace (1 + (1 + zlen r)) with (zlen r + 1 * 2) in * by lia.
    rewrite Z.div_add in * by lia. pose proof (zlen_nonneg r).
    assert (0 ≤ zlen r / 2) by (apply Z.div_pos; lia).
    assert (0 ≤ le_load r) by by apply le_load_nonneg.
    cbn [chksum1_loop le_load]. rewrite Z.shiftl_mul_pow2 by lia.
    rewrite (u16_id (b0 * 2 ^ 8)) by (unfold is_u16; lia).
    rewrite (lor_high_low b1 b0 8), u32_id by (unfold is_u32; lia).
    specialize (IH (acc + (b0 * 2 ^ 8 + b1))).
    destruct (chksum1_loop _ r) as [acc' r']. destruct IH as (IH & ? & ?); [done|lia..|].
    split_and!; [|lia|lia|done]. rewrite IH.
    replace (acc + 256 * (b0 + 256 * (b1 + 256 * le_load r)))
      with (acc + (b0 * 256 + 65536 * b1) + 65536 * (256 * le_load r)) by lia.
    apply oceq_add; [|symmetry; apply oceq_65536; lia].
    apply oceq_add; [apply oceq_refl; lia|].
    apply oceq_add; [apply oceq_refl; lia|symmetry; apply oceq_65536; lia].
Qed.

Lemma land_high16_zero x :
  is_u32 x → (Z.land x 0xffff0000 =? 0) = (x <? 65536).
Proof.
  intros Hx. unfold is_u32 in Hx. change 0xffff0000 with (Z.ones 16 * 2 ^ 16).
  rewrite land_field by lia. change (2 ^ 16) with 65536. destruct (Z.ltb_spec x 65536).
  - rewrite (Z.div_small x) by lia. done.
  - apply Z.eqb_neq. zdm.
Qed.

Lemma standard_chksum_1_oceq data :
  Forall is_u8 data → zlen data ≤ 65535 →
  lwip_standard_chksum_1 data ≈ le_load data ∧
  0 ≤ lwip_standard_chksum_1 data ≤ 65535.
Proof.
  intros Hd Hlen. unfold lwip_standard_chksum_1.
  assert (zlen data / 2 ≤ 32767) by zdm.
  pose proof (chksum1_loop_spec data 0 Hd) as Hw.
  destruct (chksum1_loop 0 data) as [acc r]. destruct Hw as (Ew & Hs & Hr); [lia..|].
  assert (Ha : match r with [] => acc | b :: _ => u32 (acc + u16 (Z.shiftl b 8)) end
               = acc + 256 * le_load r ∧ 0 ≤ le_load r < 256).
  { destruct Hr as [->|(c & -> & Hc)]; simpl; [lia|]. unfold is_u8 in Hc.
    rewrite Z.shiftl_mul_pow2 by lia. change (2 ^ 8) with 256.
    rewrite (u16_id (c * 256)), u32_id by (unfold is_u16, is_u32; lia). lia. }
  destruct Ha as [-> Hl].
  assert (is_u32 (acc + 256 * le_load r)) as Hu by (unfold is_u32; lia).
  pose proof (fold_range _ Hu). destruct (oceq_fold2 _ Hu) as [E2 R2].
  pose proof (oceq_fold (acc + 256 * le_load r) ltac:(lia)) as E1.
  set (x := acc + 256 * le_load r) in *.
  assert (∃ y, (if negb (Z.land (FOLD_U32T x) 0xffff0000 =? 0)
                then FOLD_U32T (FOLD_U32T x) else FOLD_U32T x) = y ∧
               y ≈ x ∧ 0 ≤ y ≤ 65535) as (y & -> & Ey & Ry).
  { rewrite land_high16_zero by (unfold is_u32; lia).
    destruct (Z.ltb_spec (FOLD_U32T x) 65536); simpl; eexists; split_and!; eauto; lia. }
  rewrite u16_id by (unfold is_u16; lia). split; [|apply swap_range].
  rewrite oceq_swap by done.
  transitivity (256 * (256 * le_load data)).
  - apply oceq_mul; [by apply oceq_refl|]. rewrite Ey. exact Ew.
  - rewrite Z.mul_assoc. apply oceq_65536. by apply le_load_nonneg.
Qed.

(** ** Chains *)

Definition chain_bytes (q : chain) : bytes := concat (map snd q).

(** Every pbuf of the chain holds bytes, at most what a [u16_t] counts. *)
Definition chain_ok (q : chain) : Prop :=
  Forall (λ b : bool * bytes, Forall is_u8 (snd b) ∧ zlen (snd b) ≤ 65535) q.

#[export] Instance chain_ok_dec q : Decision (chain_ok q).
Proof. unfold chain_ok. apply _. Defined.

Lemma chain_bytes_u8 q : chain_ok q → Forall is_u8 (chain_bytes q).
Proof.
  unfold chain_ok, chain_bytes. induction 1 as [|[o d] q [Hd _] Hq IH]; simpl; [done|].
  by apply Forall_app.
Qed.

(** The accumulator holds the sum [x] of what was read, byte-swapped when an
    odd number of bytes was read. *)
Definition acc_holds (acc : Z) (swapped : bool) (x : Z) : Prop :=
  0 ≤ acc ≤ 65535 ∧ 0 ≤ x ∧ acc ≈ (if swapped then 256 else 1) * x.

Lemma unswap_holds acc swapped x :
  acc_holds acc swapped x → unswap (acc, swapped) ≈ x ∧
  0 ≤ unswap (acc, swapped) ≤ 65535.
Proof.
  intros (Ha & Hx & E). destruct swapped; simpl.
  - rewrite SWAP_htons. split; [|apply swap_range]. rewrite oceq_swap by done.
    transitivity (256 * (256 * x)); [apply oceq_mul; [by apply oceq_refl|done]|].
    rewrite Z.mul_assoc. by apply oceq_65536.
  - by rewrite Z.mul_1_l in E.
Qed.

(** One iteration of the chain loops. *)
Lemma chain_step acc swapped x odd (data : bytes) l n :
  acc_holds acc swapped x → Forall is_u8 data → zlen data ≤ 65535 →
  l = (if Z.even n then 1 else 256) → Z.even n = negb swapped →
  let acc' := FOLD_U32T (u32 (acc + lwip_standard_chksum odd data)) in
  acc_holds acc' swapped (x + l * le_load data) ∧
  acc_holds (SWAP_BYTES_IN_WORD acc') (negb swapped) (x + l * le_load data).
Proof.
  intros (Ha & Hx & E) Hd Hlen -> Hn acc'.
  destruct (standard_chksum_oceq odd data Hd ltac:(lia)) as [Es Hs].
  assert (0 ≤ le_load data) by by apply le_load_nonneg.
  assert (0 ≤ acc' ≤ 65535 ∧ acc' ≈ (if swapped then 256 else 1)
            * (x + (if Z.even n then 1 else 256) * le_load data)) as [R E'].
  { subst acc'. rewrite u32_id by (unfold is_u32; lia).
    split; [apply fold_range16; lia|]. rewrite oceq_fold by lia. rewrite Hn.
    transitivity ((if swapped then 256 else 1) * x + le_load data).
    { by apply oceq_add. }
    destruct swapped; simpl.
    - replace (256 * (x + 256 * le_load data)) with (256 * x + 65536 * le_load data) by lia.
      apply oceq_add; [apply oceq_refl; lia|]. symmetry. by apply oceq_65536.
    - rewrite !Z.mul_1_l. apply oceq_refl. lia. }
  assert (0 ≤ x + (if Z.even n then 1 else 256) * le_load data)
    by (destruct (Z.even n); lia).
  split; [done|]. rewrite SWAP_htons. split_and!; [apply swap_range..|done|].
  rewrite oceq_swap by done.
  transitivity (256 * ((if swapped then 256 else 1)
                 * (x + (if Z.even n then 1 else 256) * le_load data))).
  { apply oceq_mul; [by apply oceq_refl|done]. }
  destruct swapped; simpl negb; cbv iota.
  - rewrite Z.mul_1_l, Z.mul_assoc. by apply oceq_65536.
  - rewrite Z.mul_1_l. apply oceq_refl. lia.
Qed.

Lemma even_zlen_app n (l : bytes) :
  Z.even (n + zlen l) = if zlen l mod 2 =? 0 then Z.even n else negb (Z.even n).
Proof.
  rewrite Z.even_add. pose proof (Zmod_even (zlen l)) as ->.
  by destruct (Z.even (zlen l)), (Z.even n).
Qed.

(** The sum of the chain, given that [n] bytes with sum [x] were read. *)
Lemma chksum_chain_holds q acc swapped x n :
  chain_ok q → acc_holds acc swapped x → 0 ≤ n → Z.even n = negb swapped →
  ∃ y, y ≈ x + 256 ^ n * le_load (chain_bytes q) ∧
       let '(acc', swapped') := chksum_chain acc swapped q in
       acc_holds acc' swapped' y.
Proof.
  intros Hq. revert acc swapped x n.
  induction Hq as [|[odd data] q [Hd Hlen] Hq IH]; intros acc swapped x n Ha Hn Hs.
  - exists x. split; [|done]. destruct Ha as (? & ? & ?). unfold chain_bytes. simpl.
    rewrite Z.mul_0_r, Z.add_0_r. by apply oceq_refl.
  - simpl in Hd, Hlen.
    destruct (chain_step acc swapped x odd data (if Z.even n then 1 else 256) n
                Ha Hd Hlen eq_refl Hs) as [H1 H2].
    cbn [chksum_chain]. pose proof (even_zlen_app n data) as He.
    pose proof (zlen_nonneg data). unfold chain_bytes. simpl concat.
    fold (chain_bytes q). rewrite le_load_app.
    assert (0 ≤ le_load data) by by apply le_load_nonneg.
    assert (0 ≤ le_load (chain_bytes q)) by by apply le_load_nonneg, chain_bytes_u8.
    assert (0 ≤ 256 ^ n) by (apply Z.pow_nonneg; lia).
    assert (0 ≤ 256 ^ (n + zlen data)) by (apply Z.pow_nonneg; lia).
    assert (∀ y, y ≈ x + (if Z.even n then 1 else 256) * le_load data
                   + 256 ^ (n + zlen data) * le_load (chain_bytes q) →
              y ≈ x + 256 ^ n * (le_load data + 256 ^ zlen data * le_load (chain_bytes q)))
      as Hy.
    { intros y ->. rewrite Z.pow_add_r by lia.
      rewrite Z.mul_add_distr_l, Z.mul_assoc, Z.add_assoc.
      destruct Ha as (_ & ? & _).
      apply oceq_add; [|apply oceq_refl; rewrite <-Z.pow_add_r by lia; lia].
      apply oceq_add; [by apply oceq_refl|].
      apply oceq_mul; [symmetry; by apply oceq_pow256|by apply oceq_refl]. }
    destruct (zlen data mod 2 =? 0); simpl negb; cbv iota.
    + destruct (IH _ swapped _ (n + zlen data) H1) as (y & E & Hc); [lia|congruence|].
      exists y. split; [by apply Hy|done].
    + destruct (IH _ (negb swapped) _ (n + zlen data) H2) as (y & E & Hc);
        [lia|by rewrite He, Hs|].
      exists y. split; [by apply Hy|done].
Qed.

Lemma chksum_chain_sum q a :
  chain_ok q → 0 ≤ a ≤ 65535 →
  unswap (chksum_chain a false q) ≈ a + le_load (chain_bytes q) ∧
  0 ≤ unswap (chksum_chain a false q) ≤ 65535.
Proof.
  intros Hq Ha. destruct (chksum_chain_holds q a false a 0) as (y & E & H); auto.
  { split_and!; [lia..|]. rewrite Z.mul_1_l. apply oceq_refl. lia. } { lia. }
  rewrite Z.pow_0_r, Z.mul_1_l in E. destruct (chksum_chain a false q) as [acc sw].
  destruct (unswap_holds acc sw y H) as [E' ?]. split; [|done]. by rewrite E'.
Qed.

Lemma chksum_chain_partial_holds q acc swapped x n chksum_len :
  chain_ok q → acc_holds acc swapped x → 0 ≤ n → Z.even n = negb swapped →
  0 ≤ chksum_len < 0x7fff →
  ∃ acc' swapped' y,
    chksum_chain_partial acc swapped chksum_len q = Some (acc', swapped') ∧
    acc_holds acc' swapped' y ∧
    y ≈ x + 256 ^ n * le_load (take (Z.to_nat chksum_len) (chain_bytes q)).
Proof.
  intros Hq. revert acc swapped x n chksum_len.
  induction Hq as [|[odd data] q [Hd Hlen] Hq IH];
    intros acc swapped x n chksum_len Ha Hn Hs Hcl.
  { exists acc, swapped, x. split_and!; [done..|]. unfold chain_bytes. simpl.
    rewrite take_nil. simpl. rewrite Z.mul_0_r, Z.add_0_r.
    destruct Ha as (_ & ? & _). by apply oceq_refl. }
  simpl in Hd, Hlen. cbn [chksum_chain_partial].
  assert (0 ≤ x) by apply Ha. pose proof (zlen_nonneg data).
  unfold chain_bytes. simpl concat. fold (chain_bytes q).
  destruct (Z.leb_spec chksum_len 0) as [Hz|Hz].
  { exists acc, swapped, x. split_and!; [done..|].
    replace (Z.to_nat chksum_len) with 0%nat by lia. rewrite take_0. simpl.
    rewrite Z.mul_0_r, Z.add_0_r. by apply oceq_refl. }
  set (chklen := if chksum_len <? zlen data then chksum_len else zlen data).
  assert (0 ≤ chklen ≤ zlen data ∧ chklen ≤ chksum_len ∧
          (chklen = chksum_len ∨ chklen = zlen data)) as (Hk1 & Hk2 & Hk3).
  { subst chklen. destruct (Z.ltb_spec chksum_len (zlen data)); lia. }
  assert (zlen (take (Z.to_nat chklen) data) = chklen) as Hkl
    by (unfold zlen in *; rewrite length_take; lia).
  assert (Forall is_u8 (take (Z.to_nat chklen) data)) as Hkd by by apply Forall_take.
  assert (0 ≤ le_load (take (Z.to_nat chklen) data)) by by apply le_load_nonneg.
  destruct (chain_step acc swapped x odd _ (if Z.even n then 1 else 256) n
              Ha Hkd ltac:(lia) eq_refl Hs) as [Hs1 Hs2].
  rewrite u16_id by (unfold is_u16; lia).
  destruct (Z.ltb_spec (chksum_len - chklen) 32767); [|lia]. simpl negb. cbv iota.
  set (acc1 := FOLD_U32T _) in *.
  assert (0 ≤ 256 ^ n) by (apply Z.pow_nonneg; lia).
  destruct (decide (chklen = chksum_len)) as [Hk|Hk].
  - (* the bytes end inside this pbuf *)
    assert (take (Z.to_nat chksum_len) (data ++ chain_bytes q)
            = take (Z.to_nat chklen) data) as ->
      by (rewrite Hk, take_app_le by (unfold zlen in *; lia); done).
    assert (∀ a sw, chksum_chain_partial a sw (chksum_len - chklen) q = Some (a, sw))
      as Hstop.
    { intros. replace (chksum_len - chklen) with 0 by lia. by destruct q as [|[] ?]. }
    assert (x + (if Z.even n then 1 else 256) * le_load (take (Z.to_nat chklen) data)
            ≈ x + 256 ^ n * le_load (take (Z.to_nat chklen) data)) as Hy.
    { apply oceq_add; [by apply oceq_refl|].
      apply oceq_mul; [symmetry; by apply oceq_pow256|by apply oceq_refl]. }
    rewrite !Hstop. destruct (negb (zlen data mod 2 =? 0));
      do 3 eexists; (split; [done|]); (split; [eassumption|done]).
  - (* the whole pbuf is summed *)
    assert (chklen = zlen data) as Hk' by lia.
    rewrite take_ge in Hs1, Hs2 by (unfold zlen in *; lia).
    replace (take (Z.to_nat chksum_len) (data ++ chain_bytes q))
      with (data ++ take (Z.to_nat (chksum_len - chklen)) (chain_bytes q)).
    2:{ rewrite take_app_ge by (unfold zlen in *; lia). f_equal. f_equal.
        unfold zlen in *. lia. }
    assert (0 ≤ le_load data) by by apply le_load_nonneg.
    assert (Forall is_u8 (take (Z.to_nat (chksum_len - chklen)) (chain_bytes q)))
      by by apply Forall_take, chain_bytes_u8.
    assert (0 ≤ le_load (take (Z.to_nat (chksum_len - chklen)) (chain_bytes q)))
      by by apply le_load_nonneg.
    rewrite le_load_app. pose proof (even_zlen_app n data) as He.
    set (rest := le_load (take (Z.to_nat (chksum_len - chklen)) (chain_bytes q))) in *.
    assert (∀ y, y ≈ x + (if Z.even n then 1 else 256) * le_load data
                     + 256 ^ (n + zlen data) * rest →
                 y ≈ x + 256 ^ n * (le_load data + 256 ^ zlen data * rest)) as Hy.
    { intros y ->. rewrite Z.pow_add_r by lia.
      rewrite Z.mul_add_distr_l, Z.mul_assoc, Z.add_assoc.
      assert (0 ≤ 256 ^ zlen data) by (apply Z.pow_nonneg; lia).
      apply oceq_add; [|apply oceq_refl; nia].
      apply oceq_add; [by apply oceq_refl|].
      apply oceq_mul; [symmetry; by apply oceq_pow256|by apply oceq_refl]. }
    destruct (zlen data mod 2 =? 0); simpl negb; cbv iota.
    + destruct (IH acc1 swapped _ (n + zlen data) (chksum_len - chklen) Hs1)
        as (a & sw & y & ? & ? & ?); [lia|congruence|lia|].
      exists a, sw, y. auto.
    + destruct (IH _ (negb swapped) _ (n + zlen data) (chksum_len - chklen) Hs2)
        as (a & sw & y & ? & ? & ?); [lia|by rewrite He, Hs|lia|].
      exists a, sw, y. auto.
Qed.

(** ** The pseudo header *)

Lemma pseudo_addrs_spec src dest :
  is_u32 src → is_u32 dest →
  pseudo_addrs src dest ≈ src + dest ∧ 0 ≤ pseudo_addrs src dest ≤ 65535.
Proof.
  unfold is_u32. intros Hs Hd. unfold pseudo_addrs. rewrite !land_65535.
  rewrite !Z.shiftr_div_pow2 by lia. change (2 ^ 16) with 65536.
  assert (∀ a, 0 ≤ a < 4294967296 → (a / 65536) mod 65536 = a / 65536) as Hm
    by (intros; zdm).
  rewrite !Hm by lia.
  assert (0 ≤ src mod 65536 ≤ 65535 ∧ 0 ≤ src / 65536 ≤ 65535 ∧
          0 ≤ dest mod 65536 ≤ 65535 ∧ 0 ≤ dest / 65536 ≤ 65535) as B by zdm.
  rewrite (u32_id (src mod 65536 + _)) by (unfold is_u32; lia).
  rewrite (u32_id (src mod 65536 + _ + dest mod 65536)) by (unfold is_u32; lia).
  rewrite u32_id by (unfold is_u32; lia).
  match goal with |- context [FOLD_U32T (FOLD_U32T ?u)] =>
    destruct (oceq_fold2 u) as [E R]; [unfold is_u32; lia|] end.
  split; [|done]. rewrite E.
  assert (∀ a, 0 ≤ a → a mod 65536 + a / 65536 ≈ a) as Ha.
  { intros a ?. rewrite Z.add_comm, <-FOLD_arith. by apply oceq_fold. }
  rewrite <-Z.add_assoc. apply oceq_add; apply Ha; lia.
Qed.

Lemma pseudo_finish_spec acc proto proto_len :
  0 ≤ acc ≤ 65535 → is_u8 proto → is_u16 proto_len →
  ∃ x, pseudo_finish acc proto proto_len = not16 x ∧ 0 ≤ x ≤ 65535 ∧
       x ≈ acc + proto * 256 + lwip_htons proto_len.
Proof.
  unfold is_u8, is_u16. intros Ha Hp Hl. unfold pseudo_finish.
  rewrite (u16_id proto) by (unfold is_u16; lia).
  assert (lwip_htons proto = proto * 256) as -> by (rewrite htons_arith; zdm).
  pose proof (swap_range proto_len).
  rewrite (u32_id (acc + proto * 256)), u32_id by (unfold is_u32; lia).
  destruct (oceq_fold2 (acc + proto * 256 + lwip_htons proto_len)) as [E R];
    [unfold is_u32; lia|].
  eexists. split; [|done]. rewrite land_65535, Z.mod_small by lia. done.
Qed.

Lemma pseudo_header_load src dest proto proto_len data :
  is_u32 src → is_u32 dest → is_u8 proto → is_u16 proto_len → Forall is_u8 data →
  src + dest + le_load data + proto * 256 + lwip_htons proto_len
  ≈ le_load (pseudo_header src dest proto proto_len ++ data).
Proof.
  intros Hs Hd Hp Hl Hdata. assert (0 ≤ le_load data) by by apply le_load_nonneg.
  unfold pseudo_header. rewrite <-!app_assoc, <-le_bytes_htons by done.
  rewrite !le_load_app, !le_load_bytes. unfold zlen. rewrite !length_le_bytes.
  rewrite !Z.mod_small by (by auto with cint || apply swap_range || apply htons_u16).
  simpl le_load. change (256 ^ Z.of_nat 4) with (65536 * 65536).
  change (256 ^ Z.of_nat 2) with 65536. simpl length. change (256 ^ Z.of_nat 2) with 65536.
  unfold is_u32, is_u8 in *. pose proof (swap_range proto_len).
  assert (∀ z, 0 ≤ z → 65536 * 65536 * z ≈ z) as P.
  { intros z Hz. rewrite <-Z.mul_assoc. transitivity (65536 * z); apply oceq_65536; lia. }
  replace (src + dest + le_load data + proto * 256 + lwip_htons proto_len)
    with (src + (dest + (256 * proto + (lwip_htons proto_len + le_load data)))) by lia.
  apply oceq_add; [apply oceq_refl; lia|]. symmetry.
  rewrite P by lia. apply oceq_add; [apply oceq_refl; lia|].
  rewrite P by lia. replace (0 + 256 * (proto + 256 * 0)) with (256 * proto) by lia.
  apply oceq_add; [apply oceq_refl; lia|]. rewrite oceq_65536 by lia.
  apply oceq_add; [apply oceq_refl; lia|]. by apply oceq_65536.
Qed.

Lemma pseudo_header_u8 src dest proto proto_len :
  is_u8 proto → Forall is_u8 (pseudo_header src dest proto proto_len).
Proof.
  intros. unfold pseudo_header, be_bytes.
  apply Forall_app. split; [apply le_bytes_u8|].
  apply Forall_app. split; [apply le_bytes_u8|].
  apply Forall_app. split; [|apply Forall_rev, le_bytes_u8].
  repeat constructor; unfold is_u8 in *; lia.
Qed.

Lemma chksum_pseudo_oceq q proto proto_len src dest :
  chain_ok q → is_u8 proto → is_u16 proto_len → is_u32 src → is_u32 dest →
  ∃ x, inet_chksum_pseudo q proto proto_len src dest = not16 x ∧ 0 ≤ x ≤ 65535 ∧
       x ≈ le_load (pseudo_header src dest proto proto_len ++ chain_bytes q).
Proof.
  intros Hq Hp Hl Hs Hd. unfold inet_chksum_pseudo, inet_cksum_pseudo_base.
  destruct (pseudo_addrs_spec src dest Hs Hd) as [Ea Ra].
  destruct (chksum_chain_sum q _ Hq Ra) as [Ec Rc].
  destruct (pseudo_finish_spec _ proto proto_len Rc Hp Hl) as (x & Ex & Rx & Hx).
  exists x. split_and!; [done|lia|lia|]. rewrite Hx.
  rewrite <-pseudo_header_load by (try done; by apply chain_bytes_u8).
  pose proof (swap_range proto_len). unfold is_u8 in Hp.
  apply oceq_add; [|apply oceq_refl; lia]. apply oceq_add; [|apply oceq_refl; lia].
  rewrite Ec. apply oceq_add; [done|]. by apply oceq_refl, le_load_nonneg, chain_bytes_u8.
Qed.

(** A stored checksum completes the sum to zero. *)
Lemma stored_sum_zero pre post c x :
  Forall is_u8 pre → Forall is_u8 post → Z.even (zlen pre) = true →
  0 ≤ x ≤ 65535 → x ≈ le_load (pre ++ [0; 0] ++ post) → c = not16 x →
  le_load (pre ++ le_bytes 2 c ++ post) ≈ 65535.
Proof.
  intros Hpre Hpost He Hx E ->. pose proof (zlen_nonneg pre).
  assert (not16 x = 65535 - x) as -> by (unfold not16; rewrite u16_id by (unfold is_u16; lia); done).
  rewrite !le_load_app in *. rewrite le_load_bytes, Z.mod_small by lia.
  unfold zlen in E at 2. unfold zlen at 2. rewrite length_le_bytes. simpl in E.
  assert (0 ≤ le_load pre) by by apply le_load_nonneg.
  assert (0 ≤ le_load post) by by apply le_load_nonneg.
  pose proof (oceq_pow256 (zlen pre) ltac:(lia)) as Ep. rewrite He in Ep.
  assert (0 ≤ 256 ^ zlen pre) by apply Ep.
  change (256 ^ Z.of_nat 2) with 65536. change (Z.pow_pos 256 2) with 65536 in E.
  replace (le_load pre + 256 ^ zlen pre * (65535 - x + 65536 * le_load post))
    with (256 ^ zlen pre * (65535 - x)
          + (le_load pre + 256 ^ zlen pre * (0 + 256 * (0 + 256 * 0) + 65536 * le_load post)))
    by lia.
  transitivity (1 * (65535 - x) + x).
  - apply oceq_add; [|symmetry; exact E]. apply oceq_mul; [done|apply oceq_refl; lia].
  - replace (1 * (65535 - x) + x) with 65535 by lia. by apply oceq_refl.
Qed.

(** ** Properties *)

(** C19: on a buffer of up to 0x20000 bytes, at an even or odd address,
    [lwip_standard_chksum] is the RFC 1071 one's-complement sum of the data,
    in host order. *)
Theorem lwip_standard_chksum_rfc1071 (odd : bool) (data : bytes) :
  Forall is_u8 data → zlen data ≤ 0x20000 →
  lwip_standard_chksum odd data = lwip_htons (rfc1071_sum data).
Proof.
  intros Hd Hl. destruct (standard_chksum_oceq odd data Hd Hl) as [E R].
  by apply chksum_unique.
Qed.

Lemma lwip_standard_chksum_rfc1071_witness :
  lwip_standard_chksum true [0x45; 0; 0xff; 0xfe; 0x80]
  = lwip_htons (rfc1071_sum [0x45; 0; 0xff; 0xfe; 0x80]).
Proof.
  apply lwip_standard_chksum_rfc1071.
  - cdec.
  - cdec.
Defined.

(** the three implementations of [lwip_standard_chksum] return the same
    value on every buffer that a [u16_t] length can describe, whatever its
    alignment. *)
Theorem lwip_standard_chksum_versions (addr : Z) (odd : bool) (data : bytes) :
  Forall is_u8 data → zlen data ≤ 65535 →
  lwip_standard_chksum_1 data = lwip_standard_chksum odd data ∧
  lwip_standard_chksum_3 addr data = lwip_standard_chksum odd data.
Proof.
  intros Hd Hl. destruct (standard_chksum_oceq odd data Hd ltac:(lia)) as [E R].
  destruct (standard_chksum_1_oceq data Hd Hl) as [E1 R1].
  destruct (standard_chksum_3_oceq addr data Hd) as [E3 R3].
  rewrite (chksum_unique _ data Hd R E), (chksum_unique _ data Hd R1 E1),
    (chksum_unique _ data Hd R3 E3). done.
Qed.

Lemma lwip_standard_chksum_versions_witness :
  lwip_standard_chksum_1 [1; 2; 0xff; 4; 5; 6; 7; 8; 9; 10; 11]
  = lwip_standard_chksum true [1; 2; 0xff; 4; 5; 6; 7; 8; 9; 10; 11] ∧
  lwip_standard_chksum_3 5 [1; 2; 0xff; 4; 5; 6; 7; 8; 9; 10; 11]
  = lwip_standard_chksum true [1; 2; 0xff; 4; 5; 6; 7; 8; 9; 10; 11].
Proof.
  apply lwip_standard_chksum_versions.
  - cdec.
  - cdec.
Defined.

(** the checksum of a pbuf chain depends only on the bytes of the packet,
    not on how they are cut into pbufs (odd lengths included) or aligned: it
    is the complemented RFC 1071 sum of their concatenation. *)
Theorem inet_chksum_pbuf_concat (q : chain) :
  chain_ok q →
  inet_chksum_pbuf q = not16 (lwip_htons (rfc1071_sum (chain_bytes q))).
Proof.
  intros Hq. unfold inet_chksum_pbuf.
  destruct (chksum_chain_sum q 0 Hq ltac:(lia)) as [E R].
  rewrite land_65535, Z.mod_small by lia. f_equal.
  apply chksum_unique; [by apply chain_bytes_u8|done|].
  rewrite E. by apply oceq_refl, le_load_nonneg, chain_bytes_u8.
Qed.

Lemma inet_chksum_pbuf_concat_witness :
  inet_chksum_pbuf [(false, [1; 2; 3]); (true, [4]); (true, [5; 6; 0xff])]
  = not16 (lwip_htons (rfc1071_sum
      (chain_bytes [(false, [1; 2; 3]); (true, [4]); (true, [5; 6; 0xff])]))).
Proof.
  apply inet_chksum_pbuf_concat. cdec.
Defined.

(** the TCP/UDP checksum is the complemented RFC 1071 sum of the IPv4
    pseudo header as it stands on the wire, followed by the packet. *)
Theorem inet_chksum_pseudo_rfc1071 (q : chain) (proto proto_len src dest : Z) :
  chain_ok q → is_u8 proto → is_u16 proto_len → is_u32 src → is_u32 dest →
  inet_chksum_pseudo q proto proto_len src dest
  = not16 (lwip_htons (rfc1071_sum
      (pseudo_header src dest proto proto_len ++ chain_bytes q))).
Proof.
  intros Hq Hp Hl Hs Hd.
  destruct (chksum_pseudo_oceq q proto proto_len src dest) as (x & -> & R & E); try done.
  f_equal. apply chksum_unique; [|done..].
  apply Forall_app. split; [by apply pseudo_header_u8|by apply chain_bytes_u8].
Qed.

Lemma inet_chksum_pseudo_rfc1071_witness :
  inet_chksum_pseudo [(false, [0; 53; 0; 53; 0; 9; 0; 0; 1])] 17 9 0x0100007f 0x0200000a
  = not16 (lwip_htons (rfc1071_sum
      (pseudo_header 0x0100007f 0x0200000a 17 9
       ++ chain_bytes [(false, [0; 53; 0; 53; 0; 9; 0; 0; 1])]))).
Proof.
  apply inet_chksum_pseudo_rfc1071; cdec.
Defined.

(** a segment whose checksum field (at an even offset) held zero when
    [inet_chksum_pseudo] was computed and holds the result when it is
    received verifies: the receiver, whatever its pbuf chain looks like,
    computes zero. *)
Theorem inet_chksum_pseudo_verifies
    (q q' : chain) (pre post : bytes) (proto proto_len src dest : Z) :
  chain_ok q → chain_ok q' →
  is_u8 proto → is_u16 proto_len → is_u32 src → is_u32 dest →
  Z.even (zlen pre) = true →
  chain_bytes q = pre ++ [0; 0] ++ post →
  chain_bytes q' =
    pre ++ le_bytes 2 (inet_chksum_pseudo q proto proto_len src dest) ++ post →
  inet_chksum_pseudo q' proto proto_len src dest = 0.
Proof.
  intros Hq Hq' Hp Hl Hs Hd He Hb Hb'.
  destruct (chksum_pseudo_oceq q proto proto_len src dest) as (x & Ex & R & E); try done.
  destruct (chksum_pseudo_oceq q' proto proto_len src dest) as (y & Ey & Ry & E'); try done.
  pose proof (chain_bytes_u8 q Hq) as Hu. rewrite Hb in Hu, E. rewrite Hb' in E'.
  apply Forall_app in Hu as [Hpre [_ Hpost]%Forall_app].
  rewrite Ey. assert (y = 65535) as ->; [|done].
  apply oceq_inj; [|lia|lia]. rewrite E', app_assoc.
  apply (stored_sum_zero _ _ _ x); try done.
  - apply Forall_app. split; [by apply pseudo_header_u8|done].
  - unfold pseudo_header. rewrite !zlen_app. unfold zlen at 1 2 3 4.
    rewrite !length_le_bytes, length_be_bytes. simpl length.
    replace (Z.of_nat 4 + (Z.of_nat 4 + (Z.of_nat 2 + Z.of_nat 2)) + zlen pre)
      with (zlen pre + 2 * 6) by lia. by rewrite Z.even_add_mul_2.
Qed.

Lemma inet_chksum_pseudo_verifies_witness :
  let q := [(false, [0; 53; 0; 53; 0; 9]); (true, [0; 0; 1])] in
  let c := inet_chksum_pseudo q 17 9 0x0100007f 0x0200000a in
  inet_chksum_pseudo [(true, [0; 53; 0; 53; 0; 9] ++ le_bytes 2 c ++ [1])]
    17 9 0x0100007f 0x0200000a = 0.
Proof.
  cbv zeta.
  apply (inet_chksum_pseudo_verifies
           [(false, [0; 53; 0; 53; 0; 9]); (true, [0; 0; 1])] _
           [0; 53; 0; 53; 0; 9] [1]); first [cdec|reflexivity].
Defined.

(** for fewer than 0x7fff bytes the partial checksum returns (its
    assertion holds) and covers exactly the first [chksum_len] bytes of the
    packet. *)
Theorem inet_chksum_pseudo_partial_prefix
    (q : chain) (proto proto_len chksum_len src dest : Z) :
  chain_ok q → is_u8 proto → is_u16 proto_len → is_u32 src → is_u32 dest →
  0 ≤ chksum_len < 0x7fff →
  inet_chksum_pseudo_partial q proto proto_len chksum_len src dest
  = Some (not16 (lwip_htons (rfc1071_sum
      (pseudo_header src dest proto proto_len
       ++ take (Z.to_nat chksum_len) (chain_bytes q))))).
Proof.
  intros Hq Hp Hl Hs Hd Hc.
  unfold inet_chksum_pseudo_partial, inet_cksum_pseudo_partial_base.
  destruct (pseudo_addrs_spec src dest Hs Hd) as [Ea Ra].
  set (d := take (Z.to_nat chksum_len) (chain_bytes q)).
  assert (Forall is_u8 d) as Hd8 by by apply Forall_take, chain_bytes_u8.
  destruct (chksum_chain_partial_holds q (pseudo_addrs src dest) false
              (pseudo_addrs src dest) 0 chksum_len Hq) as (acc & sw & y & -> & Hy & Ey);
    try done.
  { split_and!; [lia..|]. rewrite Z.mul_1_l. apply oceq_refl. lia. }
  cbn [mbind option_bind]. destruct (unswap_holds acc sw y Hy) as [Eu Ru].
  destruct (pseudo_finish_spec _ proto proto_len Ru Hp Hl) as (x & -> & Rx & Hx).
  do 2 f_equal. apply chksum_unique; [|done|].
  - apply Forall_app. split; [by apply pseudo_header_u8|done].
  - rewrite Hx, <-pseudo_header_load by done.
    pose proof (swap_range proto_len). unfold is_u8 in Hp.
    apply oceq_add; [|apply oceq_refl; lia]. apply oceq_add; [|apply oceq_refl; lia].
    rewrite Eu, Ey, Z.pow_0_r, Z.mul_1_l.
    apply oceq_add; [done|]. by apply oceq_refl, le_load_nonneg.
Qed.

Lemma inet_chksum_pseudo_partial_prefix_witness :
  inet_chksum_pseudo_partial [(false, [0; 53; 0]); (true, [7; 1; 2; 3])] 136 8 5
    0x0100007f 0x0200000a
  = Some (not16 (lwip_htons (rfc1071_sum
      (pseudo_header 0x0100007f 0x0200000a 136 8
       ++ take (Z.to_nat 5) (chain_bytes [(false, [0; 53; 0]); (true, [7; 1; 2; 3])]))))).
Proof.
  apply inet_chksum_pseudo_partial_prefix; cdec.
Defined.

End InetChksum.
