(* ===== verification/Dns.v ===== *)
(** * DNS resolver: [lwip/src/core/dns.c]

    The table of pending and cached names, the query encoder, the walkers over
    encoded names, the periodic state machine ([dns_check_entry]) and the
    response handler ([dns_recv]), in the configuration of [src/lwipopts.h]
    ([DNS_TABLE_SIZE] 128) with the other options of [lwip/opt.h] at their
    defaults.

    Buffers are arrays: a read outside [dns_payload] or outside the [name]
    array of an entry is a fault.  The callbacks stored in the table are of an
    arbitrary type [CB] with arguments of type [ARG]; the two operations that
    call them ([dns_check_entry], [dns_recv]) are parameterised by what a call
    does, over an arbitrary state that contains the resolver's, so that a
    callback may re-enter the resolver. *)

From S2P Require Import Prelude Def Ip4Addr.

Module Dns.
Import Def Ip4Addr.

Definition DNS_TABLE_SIZE : nat := 128.
Definition DNS_MAX_NAME_LENGTH : Z := 256.
Definition DNS_MAX_SERVERS : Z := 2.
Definition DNS_MSG_SIZE : Z := 512.
Definition DNS_MAX_RETRIES : Z := 4.
Definition DNS_MAX_TTL : Z := 604800.
Definition DNS_SERVER_PORT : Z := 53.
Definition DNS_FLAG1_RESPONSE : Z := 0x80.
Definition DNS_FLAG1_RD : Z := 0x01.
Definition DNS_FLAG2_ERR_MASK : Z := 0x0f.
Definition DNS_RRTYPE_A : Z := 1.
Definition DNS_RRCLASS_IN : Z := 1.
Definition SIZEOF_DNS_HDR : Z := 12.
Definition SIZEOF_DNS_QUERY : Z := 4.
Definition SIZEOF_DNS_ANSWER : Z := 10.

Inductive dns_entry_state :=
  | DNS_STATE_UNUSED | DNS_STATE_NEW | DNS_STATE_ASKING | DNS_STATE_DONE.

#[export] Instance dns_entry_state_eq_dec : EqDecision dns_entry_state.
Proof. solve_decision. Defined.

(** ** Encoded names *)

(** Reading [buf[i]] where [buf] is what follows a pointer in its array. *)
Definition peek (buf : bytes) : option Z :=
  match buf with [] => None | c :: _ => Some c end.

(** The C string at the start of a buffer. *)
Fixpoint cstr (buf : bytes) : bytes :=
  match buf with
  | [] => []
  | c :: buf' => if c =? 0 then [] else c :: cstr buf'
  end.

(** The [while (n > 0)] loop of [dns_compare_name]: [None] on a read outside
    the arrays, [Some None] when two bytes differ. *)
Fixpoint compare_label (n : nat) (query response : bytes)
    : option (option (bytes * bytes)) :=
  match n with
  | O => Some (Some (query, response))
  | S n' =>
      q ← peek query; r ← peek response;
      if q =? r then compare_label n' (tl query) (tl response) else Some None
  end.

(** [Some true]: the names differ.  Each iteration consumes a byte of the
    response, whose length is enough fuel. *)
Fixpoint compare_name_loop (fuel : nat) (query response : bytes) : option bool :=
  match fuel with
  | O => None
  | S fuel' =>
      n ← peek response;
      let response := tl response in
      if Z.land n 0xc0 =? 0xc0 then Some false
      else
        match compare_label (Z.to_nat n) query response with
        | None => None
        | Some None => Some true
        | Some (Some (query, response)) =>
            c ← peek response;
            if c =? 0 then Some false
            else compare_name_loop fuel' (tl query) response
        end
  end.

Definition dns_compare_name (query response : bytes) : option bool :=
  compare_name_loop (S (length response)) query response.

(** What follows the name; [None] on a read outside the array. *)
Fixpoint parse_name_loop (fuel : nat) (query : bytes) : option bytes :=
  match fuel with
  | O => None
  | S fuel' =>
      n ← peek query;
      let query := tl query in
      if Z.land n 0xc0 =? 0xc0 then Some (tl query)
      else
        let query := drop (Z.to_nat n) query in
        c ← peek query;
        if c =? 0 then Some (tl query) else parse_name_loop fuel' query
  end.

Definition dns_parse_name (query : bytes) : option bytes :=
  parse_name_loop (S (length query)) query.

(** The [do ... while] loop of [dns_send] that turns dots into length bytes:
    [label] is what was copied since [nptr], which is stored in front of it. *)
Fixpoint encode_labels (label : bytes) (hostname : bytes) : bytes :=
  match hostname with
  | [] => u8 (zlen label) :: label
  | c :: rest =>
      if c =? 46 then u8 (zlen label) :: label ++ encode_labels [] rest
      else encode_labels (label ++ [c]) rest
  end.

Definition encode_name (name : bytes) : bytes := encode_labels [] name ++ [0].

(** ** State *)

Section dns.
Context {CB ARG : Type}.

Record dns_table_entry := mk_entry {
  e_state : dns_entry_state;
  e_numdns : Z;
  e_tmr : Z;
  e_retries : Z;
  e_seqno : Z;
  e_err : Z;
  e_ttl : Z;
  e_name : bytes;               (** [char name[DNS_MAX_NAME_LENGTH]] *)
  e_ipaddr : Z;
  e_found : option CB;
  e_arg : option ARG
}.

(** The globals of the file; [dns_sent] records what was handed to
    [udp_sendto], with its destination. *)
Record dns_state := mk_dns {
  dns_pcb : bool;
  dns_seqno : Z;
  dns_table : list dns_table_entry;
  dns_servers : list Z;
  dns_payload : bytes;
  dns_sent : list (Z * bytes)
}.

(** Static storage before [dns_init]. *)
Definition entry_zero : dns_table_entry :=
  mk_entry DNS_STATE_UNUSED 0 0 0 0 0 0 (replicate 256 0) 0 None None.
Definition dns_zero : dns_state :=
  mk_dns false 0 (replicate DNS_TABLE_SIZE entry_zero) [0; 0]
    (replicate (Z.to_nat DNS_MSG_SIZE) 0) [].

Definition set_table (t : list dns_table_entry) (d : dns_state) : dns_state :=
  mk_dns (dns_pcb d) (dns_seqno d) t (dns_servers d) (dns_payload d) (dns_sent d).

Definition set_entry (i : nat) (e : dns_table_entry) (d : dns_state) : dns_state :=
  set_table (<[i:=e]> (dns_table d)) d.

(** Field updates of an entry. *)
Definition with_state s e := mk_entry s (e_numdns e) (e_tmr e) (e_retries e)
  (e_seqno e) (e_err e) (e_ttl e) (e_name e) (e_ipaddr e) (e_found e) (e_arg e).
Definition with_timing nd tmr r e := mk_entry (e_state e) nd tmr r
  (e_seqno e) (e_err e) (e_ttl e) (e_name e) (e_ipaddr e) (e_found e) (e_arg e).
Definition with_err er e := mk_entry (e_state e) (e_numdns e) (e_tmr e) (e_retries e)
  (e_seqno e) er (e_ttl e) (e_name e) (e_ipaddr e) (e_found e) (e_arg e).
Definition with_ttl t e := mk_entry (e_state e) (e_numdns e) (e_tmr e) (e_retries e)
  (e_seqno e) (e_err e) t (e_name e) (e_ipaddr e) (e_found e) (e_arg e).
Definition with_ipaddr ip e := mk_entry (e_state e) (e_numdns e) (e_tmr e) (e_retries e)
  (e_seqno e) (e_err e) (e_ttl e) (e_name e) ip (e_found e) (e_arg e).
Definition with_found f e := mk_entry (e_state e) (e_numdns e) (e_tmr e) (e_retries e)
  (e_seqno e) (e_err e) (e_ttl e) (e_name e) (e_ipaddr e) f (e_arg e).

(** [state = DNS_STATE_UNUSED; found = NULL]. *)
Definition flushed (e : dns_table_entry) : dns_table_entry :=
  with_found None (with_state DNS_STATE_UNUSED e).

(** ** Configuration *)

Definition dns_setserver (numdns : Z) (dnsserver : Z) (d : dns_state) : dns_state :=
  if (numdns <? DNS_MAX_SERVERS) && dns_pcb d && negb (ip_addr_isany dnsserver) then
    mk_dns (dns_pcb d) (dns_seqno d) (dns_table d)
      (<[Z.to_nat numdns:=dnsserver]> (dns_servers d)) (dns_payload d) (dns_sent d)
  else d.

Definition dns_getserver (numdns : Z) (d : dns_state) : Z :=
  if numdns <? DNS_MAX_SERVERS then nth (Z.to_nat numdns) (dns_servers d) 0
  else IPADDR_ANY.

(** [udp_new_ok]: whether [udp_new] returned a control block. *)
Definition dns_init (udp_new_ok : bool) (d : dns_state) : dns_state :=
  let dnsserver := ipaddr_addr (str "208.67.222.222") in
  if dns_pcb d then d
  else if udp_new_ok then
    dns_setserver 0 dnsserver
      (mk_dns true (dns_seqno d) (dns_table d) (dns_servers d) (dns_payload d) (dns_sent d))
  else d.

(** ** Lookup *)

Fixpoint lookup_loop (name : bytes) (t : list dns_table_entry) : Z :=
  match t with
  | [] => IPADDR_NONE
  | e :: t' =>
      if bool_decide (e_state e = DNS_STATE_DONE)
         && bool_decide (name = cstr (e_name e)) then e_ipaddr e
      else lookup_loop name t'
  end.

Definition dns_lookup (name : bytes) (d : dns_state) : Z :=
  lookup_loop name (dns_table d).

(** ** Queries *)

(** Whether [pbuf_alloc] and [mem_malloc] find memory for the query in a given
    state; the outcome of [udp_sendto] itself is only reported in a debug
    message by the callers. *)
Context (pbuf_avail : dns_state → bool).

Definition dns_query_packet (name : bytes) (id : Z) : bytes :=
  le_bytes 2 (lwip_htons id) ++ [DNS_FLAG1_RD; 0]
  ++ le_bytes 2 (lwip_htons 1) ++ [0; 0; 0; 0; 0; 0]
  ++ encode_name name
  ++ le_bytes 2 (lwip_htons DNS_RRTYPE_A) ++ le_bytes 2 (lwip_htons DNS_RRCLASS_IN).

Definition dns_send (numdns : Z) (name : bytes) (id : Z) : prog dns_state err_t :=
  d ← pget;
  passert (numdns <? DNS_MAX_SERVERS);;
  let server := nth (Z.to_nat numdns) (dns_servers d) 0 in
  passert (negb (ip_addr_isany server));;
  if pbuf_avail d then
    let packet := dns_query_packet name id in
    (* what is written past the end of the pbuf is caught by the assertion
       only after the fact *)
    passert (zlen packet <=? SIZEOF_DNS_HDR + DNS_MAX_NAME_LENGTH + 1 + SIZEOF_DNS_QUERY);;
    pmodify (λ d, mk_dns (dns_pcb d) (dns_seqno d) (dns_table d) (dns_servers d)
                    (dns_payload d) (dns_sent d ++ [(server, packet)]));;
    mret ERR_OK
  else mret ERR_MEM.

(** ** The timer *)

Section callbacks.
(** A state that contains the resolver's, and what calling a [found] callback
    does to it. *)
Context {W : Type} `{!Lens W dns_state}.
Context (found : CB → bytes → option Z → option ARG → prog W unit).

Definition entry_at (i : nat) : prog W dns_table_entry :=
  w ← pget; pderef (dns_table (lget w) !! i).
Definition update_entry (i : nat) (f : dns_table_entry → dns_table_entry) : prog W unit :=
  e ← entry_at i; pmodify (λ w, lput (set_entry i (f e) (lget w)) w).

(** [if (pEntry->found) ( *pEntry->found)(pEntry->name, ipaddr, pEntry->arg)] *)
Definition call_found (i : nat) (ipaddr : option Z) : prog W unit :=
  e ← entry_at i;
  match e_found e with
  | Some cb => found cb (cstr (e_name e)) ipaddr (e_arg e)
  | None => mret ()
  end.

Definition dns_check_entry (i : nat) : prog W unit :=
  passert (bool_decide (i < DNS_TABLE_SIZE)%nat);;
  e ← entry_at i;
  match e_state e with
  | DNS_STATE_NEW =>
      update_entry i (λ e, with_timing 0 1 0 (with_state DNS_STATE_ASKING e));;
      e ← entry_at i;
      lift (dns_send (e_numdns e) (cstr (e_name e)) (Z.of_nat i));;
      mret ()
  | DNS_STATE_ASKING =>
      update_entry i (λ e, with_timing (e_numdns e) (u8 (e_tmr e - 1)) (e_retries e) e);;
      e ← entry_at i;
      if e_tmr e =? 0 then
        update_entry i (λ e, with_timing (e_numdns e) (e_tmr e) (u8 (e_retries e + 1)) e);;
        e ← entry_at i;
        if e_retries e =? DNS_MAX_RETRIES then
          w ← pget;
          if (e_numdns e + 1 <? DNS_MAX_SERVERS)
             && negb (ip_addr_isany (nth (Z.to_nat (e_numdns e + 1)) (dns_servers (lget w)) 0))
          then update_entry i (λ e, with_timing (u8 (e_numdns e + 1)) 1 0 e)
          else
            call_found i None;;
            update_entry i flushed
        else
          update_entry i (λ e, with_timing (e_numdns e) (e_retries e) (e_retries e) e);;
          e ← entry_at i;
          lift (dns_send (e_numdns e) (cstr (e_name e)) (Z.of_nat i));;
          mret ()
      else mret ()
  | DNS_STATE_DONE =>
      if e_ttl e =? 0 then update_entry i flushed
      else
        update_entry i (λ e, with_ttl (u32 (e_ttl e - 1)) e);;
        e ← entry_at i;
        if e_ttl e =? 0 then update_entry i flushed else mret ()
  | DNS_STATE_UNUSED => mret ()
  end.

(** [dns_check_entries]: the loop from [i] for [n] more entries. *)
Fixpoint check_entries_from (i n : nat) : prog W unit :=
  match n with
  | O => mret ()
  | S n' => dns_check_entry i;; check_entries_from (S i) n'
  end.

Definition dns_check_entries : prog W unit := check_entries_from 0 DNS_TABLE_SIZE.

Definition dns_tmr : prog W unit :=
  w ← pget; if dns_pcb (lget w) then dns_check_entries else mret ().

(** ** Responses *)

Definition responseerr (i : nat) : prog W unit :=
  call_found i None;; update_entry i flushed.

(** [n] bytes at a pointer can be copied. *)
Definition readable (buf : bytes) (n : Z) : prog W unit :=
  if n <=? zlen buf then mret () else pfault Wild.

(** The [while (nanswers > 0)] loop; [pHostname] is the rest of the payload. *)
Fixpoint answers_loop (i : nat) (nanswers : nat) (pHostname : bytes) : prog W unit :=
  match nanswers with
  | O => responseerr i
  | S nanswers' =>
      pHostname ← pderef (dns_parse_name pHostname);
      (* SMEMCPY(&ans, pHostname, SIZEOF_DNS_ANSWER) *)
      readable pHostname SIZEOF_DNS_ANSWER;;
      let type := le_load (take 2 pHostname) in
      let cls := le_load (take 2 (drop 2 pHostname)) in
      let ttl := le_load (take 4 (drop 4 pHostname)) in
      let len := le_load (take 2 (drop 8 pHostname)) in
      if (type =? lwip_htons DNS_RRTYPE_A) && (cls =? lwip_htons DNS_RRCLASS_IN)
         && (len =? lwip_htons 4) then
        update_entry i (λ e, with_ttl
          (let t := lwip_ntohl ttl in if DNS_MAX_TTL <? t then DNS_MAX_TTL else t) e);;
        readable pHostname (SIZEOF_DNS_ANSWER + 4);;
        update_entry i (with_ipaddr (le_load (take 4 (drop 10 pHostname))));;
        e ← entry_at i;
        call_found i (Some (e_ipaddr e));;
        e ← entry_at i;
        if e_ttl e =? 0 then update_entry i flushed else mret ()
      else
        answers_loop i nanswers'
          (drop (Z.to_nat (SIZEOF_DNS_ANSWER + lwip_htons len)) pHostname)
  end.

Definition dns_recv (p : bytes) : prog W unit :=
  if DNS_MSG_SIZE <? zlen p then mret ()
  else if zlen p <? SIZEOF_DNS_HDR + SIZEOF_DNS_QUERY + SIZEOF_DNS_ANSWER then mret ()
  else
    (* the copy into the static buffer leaves older bytes after the message *)
    pmodify (λ w, let d := lget w in
      lput (mk_dns (dns_pcb d) (dns_seqno d) (dns_table d) (dns_servers d)
             (splice 0 p (dns_payload d)) (dns_sent d)) w);;
    w ← pget;
    let payload := dns_payload (lget w) in
    let i := Z.to_nat (lwip_htons (le_load (take 2 payload))) in
    let flags1 := nth 2 payload 0 in
    let flags2 := nth 3 payload 0 in
    if bool_decide (i < DNS_TABLE_SIZE)%nat then
      e ← entry_at i;
      if bool_decide (e_state e = DNS_STATE_ASKING) then
        update_entry i (λ e, with_err (Z.land flags2 DNS_FLAG2_ERR_MASK)
                               (with_state DNS_STATE_DONE e));;
        e ← entry_at i;
        let nquestions := lwip_htons (le_load (take 2 (drop 4 payload))) in
        let nanswers := lwip_htons (le_load (take 2 (drop 6 payload))) in
        let question := drop (Z.to_nat SIZEOF_DNS_HDR) payload in
        if (Z.land flags1 DNS_FLAG1_RESPONSE =? 0) || negb (e_err e =? 0)
           || negb (nquestions =? 1)
        then responseerr i
        else
          differ ← pderef (dns_compare_name (e_name e) question);
          if (differ : bool) then responseerr i
          else
            pHostname ← pderef (dns_parse_name question);
            answers_loop i (Z.to_nat nanswers)
              (drop (Z.to_nat SIZEOF_DNS_QUERY) pHostname)
      else mret ()
    else mret ().
End callbacks.

(** ** Requests *)

(** The scan of [dns_enqueue]: the first unused entry, or the index of the
    oldest completed one. *)
Fixpoint enqueue_scan (seqno : Z) (i : nat) (t : list dns_table_entry)
    (lseq : Z) (lseqi : nat) : option nat * nat :=
  match t with
  | [] => (None, lseqi)
  | e :: t' =>
      if bool_decide (e_state e = DNS_STATE_UNUSED) then (Some i, lseqi)
      else if bool_decide (e_state e = DNS_STATE_DONE)
              && (lseq <? u8 (seqno - e_seqno e))
      then enqueue_scan seqno (S i) t' (u8 (seqno - e_seqno e)) i
      else enqueue_scan seqno (S i) t' lseq lseqi
  end.

(** The entry to use; [None] when the table is full. *)
Definition enqueue_slot (d : dns_state) : option nat :=
  match enqueue_scan (dns_seqno d) 0 (dns_table d) 0 0 with
  | (Some i, _) => Some i
  | (None, lseqi) =>
      match dns_table d !! lseqi with
      | Some e => if bool_decide (e_state e = DNS_STATE_DONE) then Some lseqi else None
      | None => None
      end
  end.

(** An entry freshly filled by [dns_enqueue]. *)
Definition fill_entry (seqno : Z) (name : bytes) (found : CB) (arg : ARG)
    (e : dns_table_entry) : dns_table_entry :=
  let namelen := Z.to_nat (Z.min (zlen name) (DNS_MAX_NAME_LENGTH - 1)) in
  mk_entry DNS_STATE_NEW (e_numdns e) (e_tmr e) (e_retries e) seqno (e_err e) (e_ttl e)
    (splice namelen [0] (splice 0 (take namelen name) (e_name e)))
    (e_ipaddr e) (Some found) (Some arg).

(** The entry is [DNS_STATE_NEW] when [dns_check_entry] runs, so that no
    callback is called from here. *)
Definition dns_enqueue (name : bytes) (found : CB) (arg : ARG) : prog dns_state err_t :=
  d ← pget;
  match enqueue_slot d with
  | None => mret ERR_MEM
  | Some i =>
      e ← pderef (dns_table d !! i);
      pmodify (λ d,
        mk_dns (dns_pcb d) (u8 (dns_seqno d + 1))
          (<[i:=fill_entry (dns_seqno d) name found arg e]> (dns_table d))
          (dns_servers d) (dns_payload d) (dns_sent d));;
      dns_check_entry (λ _ _ _ _, pfault Abort) i;;
      mret ERR_INPROGRESS
  end.

(** The error code, and the address stored when it is [ERR_OK]. *)
Definition dns_gethostbyname (hostname : bytes) (found : CB) (arg : ARG)
    : prog dns_state (err_t * option Z) :=
  d ← pget;
  if negb (dns_pcb d) || (cur hostname =? 0) then mret (ERR_ARG, None)
  else if DNS_MAX_NAME_LENGTH <=? zlen hostname then mret (ERR_ARG, None)
  else
    let ipaddr := ipaddr_addr hostname in
    let ipaddr := if ipaddr =? IPADDR_NONE then dns_lookup hostname d else ipaddr in
    if negb (ipaddr =? IPADDR_NONE) then mret (ERR_OK, Some ipaddr)
    else err ← dns_enqueue hostname found arg; mret (err, None).
End dns.

Arguments dns_table_entry : clear implicits.
Arguments dns_state : clear implicits.

(** ** Names as lists of labels *)

Definition label_char (c : Z) : Prop := is_u8 c ∧ c ≠ 0 ∧ c ≠ 46.
(** A label of RFC 1035: one to 63 characters. *)
Definition label_ok (l : bytes) : Prop :=
  (1 ≤ length l ≤ 63)%nat ∧ Forall label_char l.

#[export] Instance label_ok_dec l : Decision (label_ok l).
Proof. unfold label_ok, label_char. apply _. Defined.

(** The dotted text of a name. *)
Fixpoint join (ls : list bytes) : bytes :=
  match ls with
  | [] => []
  | [l] => l
  | l :: ls' => l ++ 46 :: join ls'
  end.

Lemma join_cons l l' ls : join (l :: l' :: ls) = l ++ 46 :: join (l' :: ls).
Proof. done. Qed.

Definition wire_label (l : bytes) : bytes := zlen l :: l.
(** The wire form of RFC 1035: labels with their lengths, and the root. *)
Definition wire_name (ls : list bytes) : bytes := concat (map wire_label ls) ++ [0].

Lemma encode_labels_app acc l rest :
  Forall label_char l →
  encode_labels acc (l ++ rest) = encode_labels (acc ++ l) rest.
Proof.
  intros H. revert acc. induction H as [|c l (? & ? & Hc) H IH]; intros acc; simpl.
  - by rewrite app_nil_r.
  - rewrite (proj2 (Z.eqb_neq c 46)) by done. by rewrite IH, <-app_assoc.
Qed.

Lemma encode_name_join ls :
  ls ≠ [] → Forall label_ok ls → encode_name (join ls) = wire_name ls.
Proof.
  intros Hne Hls. unfold encode_name, wire_name. f_equal.
  induction Hls as [|l ls [Hlen Hl] Hls IH]; [done|].
  assert (u8 (zlen l) = zlen l) as Hu by (apply u8_id; unfold is_u8, zlen; lia).
  destruct ls as [|l' ls].
  - cbn [join map concat]. rewrite <-(app_nil_r l) at 1. rewrite encode_labels_app by done. simpl.
    by rewrite Hu, app_nil_r.
  - rewrite join_cons, encode_labels_app by done. cbn [encode_labels app].
    rewrite Z.eqb_refl, Hu, IH by done. done.
Qed.

Lemma not_compressed n : (n ≤ 63)%nat → (Z.land (Z.of_nat n) 0xc0 =? 0xc0) = false.
Proof.
  intros. change 0xc0 with (Z.ones 2 * 2 ^ 6). rewrite land_field by lia.
  apply Z.eqb_neq. rewrite Z.div_small by lia. done.
Qed.

Lemma compare_label_app l q r :
  compare_label (length l) (l ++ q) (l ++ r) = Some (Some (q, r)).
Proof. induction l as [|c l IH]; simpl; [done|]. by rewrite Z.eqb_refl. Qed.

Lemma wire_name_cons l ls rest :
  wire_name (l :: ls) ++ rest = Z.of_nat (length l) :: l ++ wire_name ls ++ rest.
Proof. unfold wire_name, wire_label. simpl. by rewrite <-!app_assoc. Qed.

Lemma wire_name_head l ls rest :
  label_ok l → ∃ n r, wire_name (l :: ls) ++ rest = n :: r ∧ (n =? 0) = false.
Proof.
  intros [Hlen _]. rewrite wire_name_cons. do 2 eexists. split; [done|].
  apply Z.eqb_neq. lia.
Qed.

Lemma compare_name_wire ls fuel tail rest :
  ls ≠ [] → Forall label_ok ls → (length ls ≤ fuel)%nat →
  compare_name_loop fuel (join ls ++ 0 :: tail) (wire_name ls ++ rest) = Some false.
Proof.
  intros Hne Hls. revert fuel.
  induction Hls as [|l ls [Hlen Hl] Hls IH]; intros fuel Hf; [done|].
  destruct fuel as [|fuel]; [simpl in Hf; lia|].
  rewrite wire_name_cons. cbn [compare_name_loop]. cbn [peek mbind option_bind tl].
  rewrite not_compressed, Nat2Z.id by lia. destruct ls as [|l' ls].
  - cbn [join]. by rewrite compare_label_app.
  - rewrite join_cons, <-!app_assoc, compare_label_app.
    inversion Hls as [|? ? Hl' ?]; subst.
    destruct (wire_name_head l' ls rest Hl') as (n & r & E & Hn).
    specialize (IH ltac:(done) fuel ltac:(simpl in *; lia)). rewrite E in IH |- *.
    cbn [peek mbind option_bind tl]. by rewrite Hn.
Qed.

Lemma parse_name_wire ls fuel rest :
  ls ≠ [] → Forall label_ok ls → (length ls ≤ fuel)%nat →
  parse_name_loop fuel (wire_name ls ++ rest) = Some rest.
Proof.
  intros Hne Hls. revert fuel.
  induction Hls as [|l ls [Hlen Hl] Hls IH]; intros fuel Hf; [done|].
  destruct fuel as [|fuel]; [simpl in Hf; lia|].
  rewrite wire_name_cons. cbn [parse_name_loop]. cbn [peek mbind option_bind tl].
  rewrite not_compressed, Nat2Z.id by lia. cbn [tl]. rewrite drop_app_length.
  destruct ls as [|l' ls]; [done|].
  inversion Hls as [|? ? Hl' ?]; subst.
  destruct (wire_name_head l' ls rest Hl') as (n & r & E & Hn).
  specialize (IH ltac:(done) fuel ltac:(simpl in *; lia)). rewrite E in IH |- *.
  cbn [peek mbind option_bind tl]. by rewrite Hn.
Qed.

Lemma length_wire_name ls : (length ls ≤ length (wire_name ls))%nat.
Proof.
  unfold wire_name. rewrite length_app. induction ls as [|l ls IH]; simpl in *; [lia|].
  rewrite length_app. lia.
Qed.

Lemma compare_question ls tail rest :
  ls ≠ [] → Forall label_ok ls →
  dns_compare_name (join ls ++ 0 :: tail) (encode_name (join ls) ++ rest) = Some false.
Proof.
  intros Hne Hls. rewrite encode_name_join by done. pose proof (length_wire_name ls).
  apply compare_name_wire; try done. rewrite length_app. lia.
Qed.

Lemma parse_question ls rest :
  ls ≠ [] → Forall label_ok ls → dns_parse_name (encode_name (join ls) ++ rest) = Some rest.
Proof.
  intros Hne Hls. rewrite encode_name_join by done. pose proof (length_wire_name ls).
  apply parse_name_wire; try done. rewrite length_app. lia.
Qed.

(** ** Properties of names *)

(** C26: the resolver recognises its own question: the encoded form of a
    hostname compares equal to the hostname in the table (whatever older bytes
    follow its terminator), and the name walker stops exactly behind it. *)
Theorem dns_name_roundtrip (ls : list bytes) (tail rest : bytes) :
  ls ≠ [] → Forall label_ok ls →
  dns_compare_name (join ls ++ 0 :: tail) (encode_name (join ls) ++ rest) = Some false ∧
  dns_parse_name (encode_name (join ls) ++ rest) = Some rest.
Proof. intros. split; [by apply compare_question|by apply parse_question]. Qed.

Lemma dns_name_roundtrip_witness :
  dns_compare_name (join [str "www"; str "example"; str "org"] ++ 0 :: [7; 7])
    (encode_name (join [str "www"; str "example"; str "org"]) ++ [0; 1; 0; 1]) = Some false ∧
  dns_parse_name (encode_name (join [str "www"; str "example"; str "org"]) ++ [0; 1; 0; 1])
  = Some [0; 1; 0; 1].
Proof. apply dns_name_roundtrip; [discriminate|cdec]. Defined.

(** the name check accepts an answer to a different question: a response
    for the single label [l] matches every query that starts with [l], because
    neither the character at which the label ends nor the end of the query is
    compared. *)
Theorem dns_compare_name_prefix (l : bytes) (c : Z) (more rest : bytes) :
  label_ok l →
  dns_compare_name (l ++ c :: more) (encode_name l ++ rest) = Some false.
Proof.
  intros [Hlen Hl]. pose proof (encode_name_join [l]) as E. simpl join in E.
  rewrite E, wire_name_cons by (done || (constructor; [done|constructor])).
  unfold dns_compare_name. cbn [compare_name_loop]. cbn [peek mbind option_bind tl].
  rewrite not_compressed, Nat2Z.id by lia. by rewrite compare_label_app.
Qed.

Lemma dns_compare_name_prefix_witness :
  dns_compare_name (str "bank" ++ 46 :: str "example.org" ++ [0])
    (encode_name (str "bank") ++ []) = Some false.
Proof. apply dns_compare_name_prefix. cdec. Defined.

End Dns.
