(* ===== verification/DnsTimer.v ===== *)
(** * The resolver's timer: [dns_tmr] of [lwip/src/core/dns.c]

    The well-formedness of the resolver's table, that the timer preserves it
    and never aborts, and how long a request can stay pending.  Most lemmas are
    about the resolver inside a larger state (a [Lens]), because the callbacks
    that the timer runs belong to the rest of the program. *)

From S2P Require Import Prelude Def Ip4Addr Dns.

Module DnsTimer.
Import Def Ip4Addr Dns.

(** ** Well-formed tables *)

(** A server index that [dns_send] accepts. *)
Definition server_ok (servers : list Z) (n : Z) : Prop :=
  0 ≤ n < DNS_MAX_SERVERS ∧ nth (Z.to_nat n) servers 0 ≠ 0.

Definition entry_wf {CB ARG} (servers : list Z) (e : dns_table_entry CB ARG) : Prop :=
  length (e_name e) = 256%nat ∧ 0 ∈ e_name e ∧
  match e_state e with
  | DNS_STATE_UNUSED => True
  | DNS_STATE_NEW => is_Some (e_found e) ∧ server_ok servers 0
  | DNS_STATE_ASKING =>
      is_Some (e_found e) ∧ server_ok servers (e_numdns e)
  | DNS_STATE_DONE => True
  end.

(** The counters of a pending entry between two ticks. *)
Definition timing_ok {CB ARG} (e : dns_table_entry CB ARG) : Prop :=
  0 ≤ e_retries e ≤ 3 ∧ 1 ≤ e_tmr e ≤ Z.max 1 (e_retries e).

Definition dns_wf {CB ARG} (d : dns_state CB ARG) : Prop :=
  length (dns_table d) = DNS_TABLE_SIZE ∧ length (dns_servers d) = 2%nat ∧
  length (dns_payload d) = 512%nat ∧
  (dns_pcb d = true → server_ok (dns_servers d) 0) ∧
  Forall (entry_wf (dns_servers d)) (dns_table d).

#[export] Instance server_ok_dec servers n : Decision (server_ok servers n).
Proof. unfold server_ok. apply _. Defined.
#[export] Instance entry_wf_dec {CB ARG} servers (e : dns_table_entry CB ARG) :
  Decision (entry_wf servers e).
Proof. unfold entry_wf. destruct (e_state e); apply _. Defined.
#[export] Instance timing_ok_dec {CB ARG} (e : dns_table_entry CB ARG) :
  Decision (timing_ok e).
Proof. unfold timing_ok. apply _. Defined.
#[export] Instance dns_wf_dec {CB ARG} (d : dns_state CB ARG) : Decision (dns_wf d).
Proof. unfold dns_wf. apply _. Defined.

Lemma length_cstr buf : 0 ∈ buf → (length (cstr buf) < length buf)%nat.
Proof.
  induction buf as [|c buf IH]; simpl; [by intros ?%elem_of_nil|].
  destruct (Z.eqb_spec c 0) as [->|Hc]; simpl; [lia|].
  intros [Heq|H]%elem_of_cons; [congruence|]. apply IH in H. lia.
Qed.

Lemma length_encode_labels acc name :
  length (encode_labels acc name) = (length acc + length name + 1)%nat.
Proof.
  revert acc. induction name as [|c name IH]; intros acc; simpl; [lia|].
  destruct (c =? 46); simpl; rewrite ?length_app, IH; rewrite ?length_app; simpl; lia.
Qed.

Lemma zlen_query_packet name id : zlen (dns_query_packet name id) = zlen name + 18.
Proof.
  unfold dns_query_packet, encode_name, zlen.
  rewrite !length_app, !length_le_bytes, length_encode_labels. simpl. lia.
Qed.

Section wf.
Context {CB ARG : Type}.
Implicit Types (d : dns_state CB ARG) (e : dns_table_entry CB ARG).

Lemma entry_zero_wf servers : entry_wf servers (@entry_zero CB ARG).
Proof. split_and!; [done|by left|done]. Qed.

(** The state that [dns_init] leaves. *)
Lemma dns_init_wf ok : dns_wf (dns_init ok (@dns_zero CB ARG)).
Proof.
  destruct ok; (split_and!; [done|done|done| |apply Forall_replicate, entry_zero_wf]).
  - intros _. cdec.
  - done.
Qed.

Lemma set_entry_wf d i e :
  dns_wf d → entry_wf (dns_servers d) e → dns_wf (set_entry i e d).
Proof.
  intros (Ht & Hs & Hp & Hpcb & He) Hw. unfold set_entry, set_table.
  split_and!; simpl; auto; [by rewrite length_insert|]. by apply Forall_insert.
Qed.

Lemma wf_entry d i :
  dns_wf d → (i < DNS_TABLE_SIZE)%nat →
  ∃ e, dns_table d !! i = Some e ∧ entry_wf (dns_servers d) e.
Proof.
  intros (Ht & _ & _ & _ & He) Hi.
  destruct (lookup_lt_is_Some_2 (dns_table d) i) as [e E]; [lia|].
  exists e. split; [done|]. by eapply Forall_lookup_1.
Qed.

Lemma lookup_set_entry d i e e0 :
  dns_table d !! i = Some e0 → dns_table (set_entry i e d) !! i = Some e.
Proof. intros H. simpl. apply list_lookup_insert_eq. by eapply lookup_lt_Some. Qed.

Lemma set_entry_twice d i e e' : set_entry i e (set_entry i e' d) = set_entry i e d.
Proof. unfold set_entry, set_table. simpl. by rewrite list_insert_insert_eq. Qed.

Lemma wf_sent d sent :
  dns_wf d → dns_wf (mk_dns (dns_pcb d) (dns_seqno d) (dns_table d) (dns_servers d)
                       (dns_payload d) sent).
Proof. by destruct d. Qed.

Lemma wf_cstr servers e : entry_wf servers e → zlen (cstr (e_name e)) ≤ 255.
Proof. intros (Hl & H0 & _). apply length_cstr in H0. unfold zlen. lia. Qed.

Lemma flushed_wf servers e : entry_wf servers e → entry_wf servers (flushed e).
Proof. intros (? & ? & _). by split_and!. Qed.

(** ** The resolver inside a larger state *)

Context {W : Type} `{!Lens W (dns_state CB ARG)}.
Context (pbuf_avail : dns_state CB ARG → bool).
Context (found : CB → bytes → option Z → option ARG → prog W unit).

Lemma entry_at_eq i (w : W) e :
  dns_table (lget w) !! i = Some e → entry_at i w = inr (e, w).
Proof. intros E. unfold entry_at. rewrite bind_get. by rewrite E. Qed.

(** [w] after entry [i] was overwritten with [e]. *)
Definition wset (i : nat) e (w : W) : W := lput (set_entry i e (lget w)) w.

Lemma update_entry_eq i f (w : W) e :
  dns_table (lget w) !! i = Some e →
  update_entry i f w = inr ((), wset i (f e) w).
Proof.
  intros E. unfold update_entry. by rewrite (bind_ret _ _ _ _ _ (entry_at_eq _ _ _ E)).
Qed.

Lemma lget_wset i e (w : W) : lget (wset i e w) = set_entry i e (lget w).
Proof. apply lget_lput. Qed.

Lemma lookup_wset i e e0 (w : W) :
  dns_table (lget w) !! i = Some e0 → dns_table (lget (wset i e w)) !! i = Some e.
Proof. rewrite lget_wset. apply lookup_set_entry. Qed.

Lemma wset_wset i e e' (w : W) : wset i e (wset i e' w) = wset i e w.
Proof. unfold wset. by rewrite lget_lput, lput_lput, set_entry_twice. Qed.

(** A command on entry [i], when the entry is known. *)
Lemma bind_entry_at {A} i (k : _ → prog W A) w e :
  dns_table (lget w) !! i = Some e → (entry_at i ≫= k) w = k e w.
Proof. intros E. by apply bind_ret, entry_at_eq. Qed.

Lemma bind_update {A} i f (k : unit → prog W A) w e :
  dns_table (lget w) !! i = Some e → (update_entry i f ≫= k) w = k () (wset i (f e) w).
Proof. intros E. by apply bind_ret, update_entry_eq. Qed.

(** [dns_send] leaves everything but the log of sent packets alone. *)
Lemma dns_send_eq numdns name id d :
  server_ok (dns_servers d) numdns → zlen name ≤ 255 →
  ∃ err, dns_send pbuf_avail numdns name id d =
    inr (err, mk_dns (dns_pcb d) (dns_seqno d) (dns_table d) (dns_servers d)
                (dns_payload d)
                (if pbuf_avail d then dns_sent d ++
                   [(nth (Z.to_nat numdns) (dns_servers d) 0, dns_query_packet name id)]
                 else dns_sent d)).
Proof.
  intros [Hn Hs] Hl. unfold dns_send. rewrite bind_get.
  rewrite bind_assert by (apply Z.ltb_lt; lia).
  rewrite bind_assert by (unfold ip_addr_isany, IPADDR_ANY;
    by rewrite (proj2 (Z.eqb_neq _ _) Hs)).
  destruct (pbuf_avail d).
  - rewrite bind_assert.
    2:{ apply Z.leb_le. rewrite zlen_query_packet.
        unfold SIZEOF_DNS_HDR, DNS_MAX_NAME_LENGTH, SIZEOF_DNS_QUERY. lia. }
    rewrite bind_modify. by eexists.
  - eexists. by destruct d.
Qed.

(** The state after [dns_send] for entry [i]. *)
Definition wsent (i : nat) e (w : W) : W :=
  let d := lget w in
  lput (mk_dns (dns_pcb d) (dns_seqno d) (dns_table d) (dns_servers d) (dns_payload d)
          (if pbuf_avail d then dns_sent d ++
             [(nth (Z.to_nat (e_numdns e)) (dns_servers d) 0,
               dns_query_packet (cstr (e_name e)) (Z.of_nat i))]
           else dns_sent d)) w.

Lemma bind_send {A} i e (k : err_t → prog W A) w :
  server_ok (dns_servers (lget w)) (e_numdns e) → zlen (cstr (e_name e)) ≤ 255 →
  (∀ err err' w', k err w' = k err' w') →
  (lift (dns_send pbuf_avail (e_numdns e) (cstr (e_name e)) (Z.of_nat i)) ≫= k) w
  = k ERR_OK (wsent i e w).
Proof.
  intros Hs Hl Hk. destruct (dns_send_eq _ _ (Z.of_nat i) _ Hs Hl) as [err E].
  rewrite (bind_ret _ _ _ _ _ (lift_ret _ _ _ _ E)). by rewrite (Hk err ERR_OK).
Qed.

(** A new entry is asked for at once. *)
Lemma check_entry_new i w e :
  (i < DNS_TABLE_SIZE)%nat → dns_table (lget w) !! i = Some e →
  e_state e = DNS_STATE_NEW → entry_wf (dns_servers (lget w)) e →
  dns_check_entry pbuf_avail found i w =
    let e' := with_timing 0 1 0 (with_state DNS_STATE_ASKING e) in
    inr ((), wsent i e' (wset i e' w)).
Proof.
  intros Hi E Es He. unfold dns_check_entry.
  rewrite bind_assert by by apply bool_decide_eq_true_2.
  rewrite (bind_entry_at _ _ _ _ E), Es, (bind_update _ _ _ _ _ E).
  rewrite (bind_entry_at _ _ _ _ (lookup_wset _ _ _ _ E)).
  rewrite bind_send; [done|..|done].
  - rewrite lget_wset. destruct He as (_ & _ & He). rewrite Es in He. apply He.
  - by apply (wf_cstr _ _ He).
Qed.

(** The next server of an entry, if it has one. *)
Definition next_server (w : W) e : bool :=
  (e_numdns e + 1 <? DNS_MAX_SERVERS)
  && negb (ip_addr_isany (nth (Z.to_nat (e_numdns e + 1)) (dns_servers (lget w)) 0)).

(** What a timer tick does to a pending entry. *)
Lemma check_entry_asking i w e :
  (i < DNS_TABLE_SIZE)%nat → dns_table (lget w) !! i = Some e →
  e_state e = DNS_STATE_ASKING → entry_wf (dns_servers (lget w)) e → timing_ok e →
  dns_check_entry pbuf_avail found i w =
    if decide (e_tmr e ≠ 1) then
      inr ((), wset i (with_timing (e_numdns e) (e_tmr e - 1) (e_retries e) e) w)
    else if decide (e_retries e ≠ 3) then
      let e' := with_timing (e_numdns e) (e_retries e + 1) (e_retries e + 1) e in
      inr ((), wsent i e' (wset i e' w))
    else if next_server w e then
      inr ((), wset i (with_timing (u8 (e_numdns e + 1)) 1 0 e) w)
    else responseerr found i (wset i (with_timing (e_numdns e) 0 4 e) w).
Proof.
  intros Hi E Es Hwf [Hr Ht]. pose proof Hwf as (_ & _ & He).
  rewrite Es in He. destruct He as (_ & Hs).
  unfold dns_check_entry.
  rewrite bind_assert by by apply bool_decide_eq_true_2.
  rewrite (bind_entry_at _ _ _ _ E), Es, (bind_update _ _ _ _ _ E).
  rewrite (u8_id (e_tmr e - 1)) by (unfold is_u8; lia).
  rewrite (bind_entry_at _ _ _ _ (lookup_wset _ _ _ _ E)). cbn [e_tmr with_timing].
  destruct (decide (e_tmr e ≠ 1)) as [Hne|Heq].
  { by rewrite (proj2 (Z.eqb_neq _ _)) by lia. }
  rewrite (proj2 (Z.eqb_eq (e_tmr e - 1) 0)) by lia.
  rewrite (bind_update _ _ _ _ _ (lookup_wset _ _ _ _ E)), wset_wset.
  rewrite (bind_entry_at _ _ _ _ (lookup_wset _ _ _ _ E)).
  cbn [e_tmr e_retries e_numdns with_timing].
  rewrite (u8_id (e_retries e + 1)) by (unfold is_u8; lia). unfold DNS_MAX_RETRIES.
  destruct (decide (e_retries e ≠ 3)) as [Hr3|Hr3].
  - rewrite (proj2 (Z.eqb_neq (e_retries e + 1) 4)) by lia.
    rewrite (bind_update _ _ _ _ _ (lookup_wset _ _ _ _ E)), wset_wset.
    rewrite (bind_entry_at _ _ _ _ (lookup_wset _ _ _ _ E)).
    rewrite bind_send; [done| |exact (wf_cstr _ _ Hwf)|done].
    rewrite lget_wset. apply Hs.
  - rewrite (proj2 (Z.eqb_eq (e_retries e + 1) 4)) by lia.
    rewrite bind_get, lget_wset. fold (next_server w e).
    replace (next_server w (with_timing (e_numdns e) (e_tmr e - 1) (e_retries e + 1) e))
      with (next_server w e) by done.
    destruct (next_server w e) eqn:En; unfold next_server in En; simpl in En |- *;
      rewrite En.
    + by rewrite (update_entry_eq _ _ _ _ (lookup_wset _ _ _ _ E)), wset_wset.
    + unfold responseerr. replace (e_tmr e - 1) with 0 by lia.
      by replace (e_retries e + 1) with 4 by lia.
Qed.

End wf.

(** ** Safety of the timer *)

Section safety.
Context {CB ARG : Type}.
Implicit Types (d : dns_state CB ARG) (e : dns_table_entry CB ARG).
Context {W : Type} `{!Lens W (dns_state CB ARG)}.
Context (pbuf_avail : dns_state CB ARG → bool).
Context (found : CB → bytes → option Z → option ARG → prog W unit).

(** What is needed of the callbacks: they return, and leave the resolver
    well-formed. *)
Definition found_ok : Prop := ∀ cb name ip arg w,
  dns_wf (lget w) → returns (found cb name ip arg w) (λ _ w', dns_wf (lget w')).

Definition wfw (_ : unit) (w : W) : Prop := dns_wf (lget w).

Lemma wset_wf i e w :
  dns_wf (lget w) → entry_wf (dns_servers (lget w)) e → dns_wf (lget (wset i e w)).
Proof. intros. rewrite lget_wset. by apply set_entry_wf. Qed.

Lemma wsent_wf i e w : dns_wf (lget w) → dns_wf (lget (wsent pbuf_avail i e w)).
Proof. intros. unfold wsent. rewrite lget_lput. by apply wf_sent. Qed.

Lemma update_flush_wf i w :
  dns_wf (lget w) → (i < DNS_TABLE_SIZE)%nat → returns (update_entry i flushed w) wfw.
Proof.
  intros Hw Hi. destruct (wf_entry _ i Hw Hi) as (e & E & He).
  rewrite (update_entry_eq _ _ _ _ E). apply wset_wf; auto using flushed_wf.
Qed.

(** Reporting an error needs only the name array of the entry to be intact. *)
Lemma responseerr_wf i w :
  found_ok → dns_wf (lget w) → (i < DNS_TABLE_SIZE)%nat →
  returns (responseerr found i w) wfw.
Proof.
  intros Hf Hw Hi. unfold responseerr. eapply (returns_bind _ _ _ wfw).
  - destruct (wf_entry _ i Hw Hi) as (e & E & He).
    unfold call_found. rewrite (bind_entry_at _ _ _ _ E).
    destruct (e_found e); [|done]. by apply Hf.
  - intros [] w' Hw'. by apply update_flush_wf.
Qed.

(** A pending entry stays well-formed when only its counters change. *)
Lemma timing_wf servers e tmr r :
  entry_wf servers e → entry_wf servers (with_timing (e_numdns e) tmr r e).
Proof. intros (? & ? & H). by split_and!. Qed.

Lemma next_server_wf w e :
  entry_wf (dns_servers (lget w)) e → e_state e = DNS_STATE_ASKING →
  next_server w e = true →
  entry_wf (dns_servers (lget w)) (with_timing (u8 (e_numdns e + 1)) 1 0 e).
Proof.
  intros (? & ? & H) Es En. rewrite Es in H. destruct H as (? & [Hn _]).
  split_and!; try done; simpl; rewrite Es. split; [done|].
  apply andb_true_iff in En as [Hn1 Hn2]. apply Z.ltb_lt in Hn1. unfold server_ok, DNS_MAX_SERVERS in *.
  rewrite u8_id by (unfold is_u8; lia). split; [lia|].
  apply negb_true_iff, Z.eqb_neq in Hn2. done.
Qed.

Lemma send_wf i e w :
  dns_wf (lget w) → entry_wf (dns_servers (lget w)) e → e_state e = DNS_STATE_ASKING →
  returns ((lift (dns_send pbuf_avail (e_numdns e) (cstr (e_name e)) (Z.of_nat i)) ≫=
            λ _, mret ()) w) wfw.
Proof.
  intros Hw He Es. rewrite bind_send; [by apply wsent_wf| |by eapply wf_cstr|done].
  destruct He as (_ & _ & He). rewrite Es in He. apply He.
Qed.

Lemma servers_wset i e w : dns_servers (lget (wset i e w)) = dns_servers (lget w).
Proof. by rewrite lget_wset. Qed.

Lemma dns_check_entry_wf i w :
  found_ok → dns_wf (lget w) → (i < DNS_TABLE_SIZE)%nat →
  returns (dns_check_entry pbuf_avail found i w) wfw.
Proof.
  intros Hf Hw Hi. destruct (wf_entry _ i Hw Hi) as (e & E & He).
  destruct (e_state e) eqn:Es; cycle 1.
  { rewrite (check_entry_new _ _ _ _ _ Hi E Es He). apply wsent_wf, wset_wf; [done|].
    destruct He as (? & ? & He). rewrite Es in He. by split_and!. }
  all: unfold dns_check_entry; rewrite bind_assert by by apply bool_decide_eq_true_2.
  all: rewrite (bind_entry_at _ _ _ _ E), Es.
  - rewrite (bind_update _ _ _ _ _ E).
    rewrite (bind_entry_at _ _ _ _ (lookup_wset _ _ _ _ E)).
    case_match; [|by apply wset_wf, timing_wf].
    rewrite (bind_update _ _ _ _ _ (lookup_wset _ _ _ _ E)), wset_wset.
    rewrite (bind_entry_at _ _ _ _ (lookup_wset _ _ _ _ E)).
    set (e1 := with_timing _ _ _ (with_timing _ _ _ e)).
    assert (entry_wf (dns_servers (lget w)) e1) as He1 by by do 2 apply timing_wf.
    assert (dns_wf (lget (wset i e1 w))) as Hw1 by by apply wset_wf.
    case_match.
    + rewrite bind_get. fold (next_server (wset i e1 w) e1).
      case_match eqn:En; [|by apply responseerr_wf].
      rewrite (update_entry_eq _ _ _ _ (lookup_wset _ _ _ _ E)).
      apply wset_wf; [done|]. by apply next_server_wf; rewrite ?servers_wset.
    + rewrite (bind_update _ _ _ _ _ (lookup_wset _ _ _ _ E)), wset_wset.
      rewrite (bind_entry_at _ _ _ _ (lookup_wset _ _ _ _ E)).
      apply send_wf; rewrite ?servers_wset; [|by apply timing_wf|done].
      by apply wset_wf, timing_wf.
  - case_match; [by apply update_flush_wf|].
    rewrite (bind_update _ _ _ _ _ E).
    rewrite (bind_entry_at _ _ _ _ (lookup_wset _ _ _ _ E)).
    assert (dns_wf (lget (wset i (with_ttl (u32 (e_ttl e - 1)) e) w)))
      by (apply wset_wf; [done|]; destruct He as (? & ? & He); split_and!; try done;
          simpl; by rewrite Es).
    case_match; [by apply update_flush_wf|done].
  - done.
Qed.

Lemma check_entries_from_wf i n w :
  found_ok → dns_wf (lget w) → (i + n ≤ DNS_TABLE_SIZE)%nat →
  returns (check_entries_from pbuf_avail found i n w) wfw.
Proof.
  intros Hf. revert i w. induction n as [|n IH]; intros i w Hw Hi; [done|].
  cbn [check_entries_from]. eapply returns_bind; [apply dns_check_entry_wf; auto; lia|].
  intros [] w' Hw'. apply IH; [done|lia].
Qed.

(** C23: the resolver's timer always returns and leaves the table well-formed:
    no assertion of [dns_send] fails, no name is read past its array, and no
    packet outgrows its buffer, whatever the callbacks it runs do to the rest
    of the program, as long as they return and leave the resolver well-formed. *)
Theorem dns_tmr_safe (w : W) :
  found_ok → dns_wf (lget w) → returns (dns_tmr pbuf_avail found w) wfw.
Proof.
  intros Hf Hw. unfold dns_tmr. rewrite bind_get.
  destruct (dns_pcb (lget w)); [|done]. by apply check_entries_from_wf.
Qed.

End safety.

(** ** How long a request can stay pending *)

Section timeout.
Context {CB ARG : Type}.
Context (pbuf_avail : dns_state CB ARG → bool).

(** The resolver beside a log of the callbacks it made. *)
Definition found_call : Type := CB * bytes * option Z * option ARG.
Definition logged : Type := dns_state CB ARG * list found_call.

Definition log_found (cb : CB) (name : bytes) (ip : option Z) (arg : option ARG)
    : prog logged unit :=
  pmodify (λ w, (w.1, w.2 ++ [(cb, name, ip, arg)])).

Lemma log_found_ok : found_ok log_found.
Proof. by intros cb name ip arg w Hw. Qed.

(** The ticks that the retries after the [r]-th take: [r + 1 + ... + 3]. *)
Definition retry_ticks (r : Z) : Z := (3 - r) * (4 + r) / 2.

Lemma retry_ticks_step r : retry_ticks r = r + 1 + retry_ticks (r + 1).
Proof.
  unfold retry_ticks.
  replace ((3 - r) * (4 + r)) with ((3 - (r + 1)) * (4 + (r + 1)) + (r + 1) * 2) by lia.
  rewrite Z.div_add by lia. lia.
Qed.

Lemma retry_ticks_nonneg r : 0 ≤ r ≤ 3 → 0 ≤ retry_ticks r.
Proof. intros. apply Z.div_pos; nia. Qed.

(** Ticks until a pending entry is given up: its timer, the timers of the
    retries that are left, and seven ticks for the other server. *)
Definition remaining (servers : list Z) (e : dns_table_entry CB ARG) : Z :=
  e_tmr e + retry_ticks (e_retries e)
  + (if (e_numdns e =? 0) && negb (nth 1 servers 0 =? 0) then 7 else 0).

(** A step that leaves entry [i] and the configuration alone, and forgets no
    callback. *)
Definition other_than (i : nat) (w w' : logged) : Prop :=
  dns_table w'.1 !! i = dns_table w.1 !! i ∧ dns_servers w'.1 = dns_servers w.1 ∧
  dns_pcb w'.1 = dns_pcb w.1 ∧ w.2 `prefix_of` w'.2.

#[local] Instance other_than_preorder i : PreOrder (other_than i).
Proof.
  split; [by intros ?; split_and!|].
  intros w1 w2 w3 (? & ? & ? & ?) (? & ? & ? & ?).
  split_and!; try congruence. by etransitivity.
Qed.

Lemma update_entry_keeps i j f :
  i ≠ j → keeps (other_than i) (update_entry (W:=logged) j f).
Proof.
  intros Hij. unfold update_entry, entry_at. keeps. apply keeps_modify. intros [d l].
  unfold other_than, set_entry, set_table. simpl. split_and!; try done.
  by rewrite list_lookup_insert_ne.
Qed.

Lemma dns_send_keeps i numdns name id :
  keeps (other_than i) (lift (W:=logged) (dns_send pbuf_avail numdns name id)).
Proof.
  intros [d l] err w'. unfold lift, dns_send. simpl. rewrite bind_get.
  destruct (numdns <? DNS_MAX_SERVERS); [|done]. rewrite bind_assert by done.
  destruct (negb _); [|done]. rewrite bind_assert by done.
  destruct (pbuf_avail d); [|by intros [= _ <-]].
  destruct (_ <=? _); [|done]. intros [= _ <-]. by split_and!.
Qed.

Lemma call_found_keeps i j ip :
  keeps (other_than i) (call_found log_found j ip).
Proof.
  unfold call_found, entry_at. keeps. apply keeps_modify. intros [d l].
  split_and!; try done. by apply prefix_app_r.
Qed.

Lemma dns_check_entry_keeps i j :
  i ≠ j → keeps (other_than i) (dns_check_entry pbuf_avail log_found j).
Proof.
  intros Hij. pose proof (update_entry_keeps i j). pose proof (call_found_keeps i j).
  pose proof (dns_send_keeps i). unfold dns_check_entry, entry_at. keeps.
Qed.

Lemma check_entries_keeps i j n :
  (i < j ∨ j + n ≤ i)%nat →
  keeps (other_than i) (check_entries_from pbuf_avail log_found j n).
Proof.
  revert j. induction n as [|n IH]; intros j Hij; cbn [check_entries_from]; [keeps|].
  apply keeps_bind; [apply _|apply dns_check_entry_keeps; lia|intros _; apply IH; lia].
Qed.

(** The pass over the table, seen from entry [i]. *)
Lemma check_entries_split {W} `{!Lens W (dns_state CB ARG)} found j i n (w : W) :
  check_entries_from pbuf_avail found j (i + S n) w =
  (check_entries_from pbuf_avail found j i;; dns_check_entry pbuf_avail found (j + i);;
   check_entries_from pbuf_avail found (S (j + i)) n) w.
Proof.
  revert j w. induction i as [|i IH]; intros j w.
  - cbn [Nat.add check_entries_from]. rewrite bind_mret. by rewrite Nat.add_0_r.
  - cbn [Nat.add check_entries_from]. cbv [mbind prog_bind].
    destruct (dns_check_entry pbuf_avail found j w) as [|[[] w1]]; [done|].
    rewrite IH. cbv [mbind prog_bind].
    destruct (check_entries_from _ _ (S j) i w1) as [|[[] w2]]; [done|].
    by replace (j + S i)%nat with (S j + i)%nat by lia.
Qed.

(** What one tick makes of the pending entry [e]. *)
Definition ticked (servers : list Z) (e e' : dns_table_entry CB ARG) : Prop :=
  e_state e' = DNS_STATE_ASKING ∧ timing_ok e' ∧ e_name e' = e_name e ∧
  e_found e' = e_found e ∧ e_arg e' = e_arg e ∧
  remaining servers e' = remaining servers e - 1.

(** The entry was given up and its callback was told so. *)
Definition given_up (i : nat) (e : dns_table_entry CB ARG) (w : logged) : Prop :=
  (∃ e', dns_table w.1 !! i = Some e' ∧ e_state e' = DNS_STATE_UNUSED ∧ e_found e' = None) ∧
  (∀ cb, e_found e = Some cb → (cb, cstr (e_name e), None, e_arg e) ∈ w.2).

(** Entry [i] is pending in [w], as [e]. *)
Definition pending (i : nat) (e : dns_table_entry CB ARG) (w : logged) : Prop :=
  dns_wf w.1 ∧ dns_pcb w.1 = true ∧ (i < DNS_TABLE_SIZE)%nat ∧
  dns_table w.1 !! i = Some e ∧ e_state e = DNS_STATE_ASKING ∧ timing_ok e.

Lemma responseerr_log i (w : logged) e e' :
  dns_table w.1 !! i = Some e → e_name e' = e_name e → e_found e' = e_found e →
  e_arg e' = e_arg e →
  responseerr log_found i (wset i e' w) =
  inr ((), (set_entry i (flushed e') w.1,
            w.2 ++ match e_found e with
                   | Some cb => [(cb, cstr (e_name e), None, e_arg e)]
                   | None => [] end)).
Proof.
  intros E En Ef Ea. unfold responseerr.
  assert (E' : dns_table (lget (wset i e' w)) !! i = Some e') by by eapply lookup_wset.
  rewrite (bind_ret (call_found _ _ _) _ _ () (set_entry i e' w.1,
     w.2 ++ match e_found e with
                   | Some cb => [(cb, cstr (e_name e), None, e_arg e)]
                   | None => [] end)).
  2:{ unfold call_found. rewrite (bind_entry_at _ _ _ _ E'), Ef, En, Ea.
      destruct (e_found e); [done|]. by rewrite app_nil_r. }
  rewrite (update_entry_eq (W:=logged) i flushed _ e') by by eapply lookup_set_entry.
  unfold wset. simpl. by rewrite set_entry_twice.
Qed.

Lemma check_entry_tick i e w :
  pending i e w →
  returns (dns_check_entry pbuf_avail log_found i w) (λ _ w',
    dns_servers w'.1 = dns_servers w.1 ∧ dns_pcb w'.1 = dns_pcb w.1 ∧
    w.2 `prefix_of` w'.2 ∧
    if decide (remaining (dns_servers w.1) e = 1) then given_up i e w'
    else ∃ e', dns_table w'.1 !! i = Some e' ∧ ticked (dns_servers w.1) e e').
Proof.
  intros (Hw & Hpcb & Hi & E & Es & Ht). destruct (wf_entry _ i Hw Hi) as (e0 & E0 & He).
  simplify_eq. rewrite (check_entry_asking pbuf_avail log_found i w e) by done.
  pose proof Ht as [Hr Ht1]. pose proof He as (_ & _ & He').
  rewrite Es in He'. destruct He' as [Hfd [Hn Hsrv]].
  assert (lookup : ∀ x, dns_table (set_entry i x w.1) !! i = Some x)
    by (intros x; by eapply lookup_set_entry).
  unfold remaining in *. unfold DNS_MAX_SERVERS in Hn.
  case_decide as Htm; [|case_decide as Hr3; [pose proof (retry_ticks_step (e_retries e))|destruct (next_server w e) eqn:En]].
  - simpl. split_and!; try done. rewrite decide_False.
    2:{ pose proof (retry_ticks_nonneg (e_retries e)). case_match; lia. }
    eexists. split; [apply lookup|]. split_and!; try done; unfold timing_ok, remaining; simpl; lia.
  - simpl. split_and!; try done. rewrite decide_False.
    2:{ pose proof (retry_ticks_nonneg (e_retries e + 1)). case_match; lia. }
    eexists. split; [apply lookup|]. split_and!; try done; unfold timing_ok, remaining; simpl; [lia|].
    lia.
  - unfold next_server, DNS_MAX_SERVERS, ip_addr_isany in En.
    apply andb_true_iff in En as [Hn1 Hn2]. apply Z.ltb_lt in Hn1.
    assert (Hn0 : e_numdns e = 0) by lia. rewrite Hn0 in *.
    change (Z.to_nat (0 + 1)) with 1%nat in Hn2. change (@lget logged _ _ w) with w.1 in Hn2.
    unfold IPADDR_ANY in Hn2. rewrite Hn2.
    replace (e_retries e) with 3 by lia. replace (e_tmr e) with 1 by lia.
    simpl. split_and!; try done. eexists. split; [apply lookup|].
    split_and!; try done; unfold timing_ok, remaining; simpl; try lia. by rewrite Hn0, Hn2, Htm, Hr3.
  - rewrite (responseerr_log i w e _ E) by done. simpl. split_and!; try done.
    { by apply prefix_app_r. }
    assert ((e_numdns e =? 0) && negb (nth 1 (dns_servers w.1) 0 =? 0) = false) as ->.
    { unfold next_server, DNS_MAX_SERVERS, ip_addr_isany, IPADDR_ANY in En.
      destruct (Z.eqb_spec (e_numdns e) 0) as [Hn0|]; [|done]. by rewrite Hn0 in En. }
    replace (e_retries e) with 3 by lia. replace (e_tmr e) with 1 by lia. simpl.
    split; [eexists; split; [apply lookup|done]|].
    intros cb ->. apply elem_of_app. right. by constructor.
Qed.
Lemma remaining_bound servers e : timing_ok e → 1 ≤ remaining servers e ≤ 14.
Proof.
  intros [Hr Ht]. unfold remaining.
  assert (e_retries e = 0 ∨ e_retries e = 1 ∨ e_retries e = 2 ∨ e_retries e = 3)
    as [E|[E|[E|E]]] by lia; rewrite E in *; unfold retry_ticks; simpl;
    case_match; simpl in *; zdm.
Qed.

Lemma given_up_other i e w w' : given_up i e w → other_than i w w' → given_up i e w'.
Proof.
  intros [(e' & E & ?) Hc] (Ht & _ & _ & Hl). split.
  - exists e'. by rewrite Ht.
  - intros cb Hcb. destruct Hl as [k ->]. apply elem_of_app. left. by apply Hc.
Qed.

Lemma pending_other i e w w' :
  pending i e w → other_than i w w' → dns_wf w'.1 → pending i e w'.
Proof.
  intros (? & ? & ? & ? & ? & ?) (Ht & _ & Hp & _) ?.
  split_and!; try done; by rewrite ?Ht, ?Hp.
Qed.

Lemma check_entries_other i j n w :
  (i < j ∨ j + n ≤ i)%nat → (j + n ≤ DNS_TABLE_SIZE)%nat → dns_wf w.1 →
  returns (check_entries_from pbuf_avail log_found j n w)
    (λ _ w', dns_wf w'.1 ∧ other_than i w w').
Proof.
  intros Hij Hn Hw.
  apply (keeps_returns (other_than i) (check_entries_from pbuf_avail log_found j n) w
           (λ _ w', dns_wf w'.1)).
  - by apply check_entries_keeps.
  - apply (check_entries_from_wf pbuf_avail log_found j n w log_found_ok); done.
Qed.

Lemma dns_tmr_tick i e w :
  pending i e w →
  returns (dns_tmr pbuf_avail log_found w) (λ _ w',
    if decide (remaining (dns_servers w.1) e = 1) then given_up i e w'
    else ∃ e', pending i e' w' ∧ dns_servers w'.1 = dns_servers w.1 ∧
               ticked (dns_servers w.1) e e').
Proof.
  intros Hp. pose proof Hp as (Hw & Hpcb & Hi & _). unfold dns_tmr. rewrite bind_get.
  change (dns_pcb (@lget logged _ _ w)) with (dns_pcb w.1). rewrite Hpcb.
  unfold dns_check_entries.
  replace DNS_TABLE_SIZE with (i + S (DNS_TABLE_SIZE - S i))%nat at 1 by lia.
  rewrite check_entries_split.
  eapply returns_bind; [apply (check_entries_other i); [lia|lia|done]|].
  intros [] w1 [Hw1 Ho1]. assert (Hp1 : pending i e w1) by by eapply pending_other.
  pose proof Ho1 as (_ & Hs1 & _).
  eapply returns_bind.
  { eapply (returns_conj _ (λ _ w', dns_wf w'.1)); [by apply (dns_check_entry_wf pbuf_avail log_found i w1 log_found_ok)|].
    by apply check_entry_tick. }
  intros [] w2 (Hw2 & Hs2 & Hpcb2 & _ & H2).
  eapply returns_mono; [apply (check_entries_other i); [lia|lia|done]|].
  intros [] w3 [Hw3 Ho3]. rewrite Hs1 in H2. case_decide; [by eapply given_up_other|].
  destruct H2 as (e' & E' & Ht). exists e'. pose proof Ho3 as (_ & Hs3 & _).
  split_and!; [|congruence|done].
  apply (pending_other i e' w2); try done. destruct Hp1 as (_ & Hpcb1 & _).
  destruct Ht as (? & ? & _). split_and!; try done. by rewrite Hpcb2.
Qed.

(** C24: no request stays pending for ever.  If no response arrives, an entry
    that is being asked for is reported to its callback as failed and freed by
    exactly the [remaining] number of timer ticks, at most fourteen; until
    then it stays in the table with its name and callback. *)
Theorem dns_pending_times_out i e (w : logged) :
  pending i e w →
  1 ≤ remaining (dns_servers w.1) e ≤ 14 ∧
  (∀ k, 0 ≤ k < remaining (dns_servers w.1) e →
     returns (repeat_prog (Z.to_nat k) (dns_tmr pbuf_avail log_found) w)
       (λ _ w', ∃ e', pending i e' w' ∧ e_name e' = e_name e ∧ e_found e' = e_found e)) ∧
  returns (repeat_prog (Z.to_nat (remaining (dns_servers w.1) e))
             (dns_tmr pbuf_avail log_found) w) (λ _ w', given_up i e w').
Proof.
  intros Hp.
  assert (Hb : 1 ≤ remaining (dns_servers w.1) e ≤ 14)
    by (apply remaining_bound, Hp).
  split; [done|]. split.
  - intros k [Hk0 Hk]. revert k Hk0 e w Hp Hk Hb. refine (natlike_ind _ _ _).
    + intros e w Hp _ _. exists e. done.
    + intros k Hk0 IH e w Hp Hk Hb. rewrite Z2Nat.inj_succ by done. cbn [repeat_prog].
      eapply returns_bind; [by apply dns_tmr_tick|]. intros [] w'.
      rewrite decide_False by lia. intros (e' & Hp' & Hs & Ht).
      pose proof Ht as (_ & _ & Hn & Hf & _ & Hr).
      eapply returns_mono; [apply (IH e' w' Hp'); rewrite Hs; [lia|apply remaining_bound, Ht]|].
      intros [] w'' (e'' & ? & ? & ?). exists e''. split_and!; congruence.
  - remember (remaining (dns_servers w.1) e) as n eqn:En.
    assert (0 ≤ n) as Hn by lia. revert n Hn e w Hp En Hb. refine (natlike_ind _ _ _); [lia|].
    intros n Hn0 IH e w Hp En Hb. rewrite Z2Nat.inj_succ by done. cbn [repeat_prog].
    eapply returns_bind; [by apply dns_tmr_tick|]. intros [] w'. simpl.
    case_decide as Hd.
    { replace n with 0 by lia. done. }
    intros (e' & Hp' & Hs & Ht). pose proof Ht as (_ & _ & Hnm & Hf & Ha & Hr).
    eapply returns_mono; [apply (IH e' w' Hp'); rewrite ?Hs; lia|].
    intros [] w'' [? Hc]. split; [done|]. by rewrite <-Hnm, <-Ha, <-Hf.
Qed.
End timeout.

(** ** Witnesses *)

(** A resolver that was initialised and asked for one name. *)
Definition asked : dns_state nat nat :=
  match dns_gethostbyname (λ _, true) (str "vpn.example.org") 7%nat 8%nat
          (dns_init true dns_zero) with
  | inr (_, d) => d
  | inl _ => dns_zero
  end.

Lemma dns_tmr_safe_witness : returns (dns_tmr (λ _, true) log_found (asked, [])) wfw.
Proof. apply dns_tmr_safe; [apply log_found_ok|]. cdec. Defined.

Lemma dns_pending_times_out_witness :
  remaining (dns_servers asked) (nth 0 (dns_table asked) entry_zero) = 7 ∧
  returns (repeat_prog 7 (dns_tmr (λ _, true) log_found) (asked, []))
    (λ _ w', given_up 0 (nth 0 (dns_table asked) entry_zero) w').
Proof.
  split; [vm_compute; reflexivity|].
  apply (dns_pending_times_out (λ _, true) 0 (nth 0 (dns_table asked) entry_zero) (asked, [])).
  split_and!; try (vm_compute; reflexivity); [cdec|cdec|cdec].
Defined.

End DnsTimer.
