(* ===== verification/DnsRecv.v ===== *)
(** * DNS responses: [dns_recv] of [lwip/src/core/dns.c]

    What the response handler does with a well-formed answer, and with a
    malformed one, on the messages of RFC 1035: a header, the question, and
    resource records whose names may be compressed. *)

From S2P Require Import Prelude Def Ip4Addr Dns DnsTimer.

Module DnsRecv.
Import Def Ip4Addr Dns DnsTimer.

(** ** Messages *)

(** The owner name of a resource record: labels, then the root or a
    compression pointer. *)
Record rr_name := mk_rr_name {
  rn_labels : list bytes;
  rn_pointer : option (Z * Z)
}.

Definition rr_name_ok (n : rr_name) : Prop :=
  Forall label_ok (rn_labels n) ∧
  match rn_pointer n with
  | Some (hi, lo) => 0 ≤ hi < 64
  | None => rn_labels n ≠ []
  end.

Definition rr_name_bytes (n : rr_name) : bytes :=
  match rn_pointer n with
  | Some (hi, lo) => concat (map wire_label (rn_labels n)) ++ [0xc0 + hi; lo]
  | None => wire_name (rn_labels n)
  end.

Record rr := mk_rr {
  rr_owner : rr_name;
  rr_type : Z;
  rr_class : Z;
  rr_ttl : Z;
  rr_data : bytes
}.

Definition rr_ok (r : rr) : Prop :=
  rr_name_ok (rr_owner r) ∧ is_u16 (rr_type r) ∧ is_u16 (rr_class r) ∧
  is_u32 (rr_ttl r) ∧ is_u16 (zlen (rr_data r)).

Definition rr_bytes (r : rr) : bytes :=
  rr_name_bytes (rr_owner r) ++ be_bytes 2 (rr_type r) ++ be_bytes 2 (rr_class r)
  ++ be_bytes 4 (rr_ttl r) ++ be_bytes 2 (zlen (rr_data r)) ++ rr_data r.

(** An IPv4 address record. *)
Definition rr_is_a (r : rr) : bool :=
  (rr_type r =? DNS_RRTYPE_A) && (rr_class r =? DNS_RRCLASS_IN) && (zlen (rr_data r) =? 4).

(** A message with one question that announces [m_nanswers] answers; [m_body]
    is everything behind the question. *)
Record message := mk_message {
  m_id : Z;
  m_flags1 : Z;
  m_flags2 : Z;
  m_authrr : Z;
  m_extrarr : Z;
  m_question : bytes;
  m_nanswers : Z;
  m_body : bytes
}.

Definition message_bytes (m : message) : bytes :=
  be_bytes 2 (m_id m) ++ [m_flags1 m; m_flags2 m] ++ be_bytes 2 1
  ++ be_bytes 2 (m_nanswers m) ++ be_bytes 2 (m_authrr m) ++ be_bytes 2 (m_extrarr m)
  ++ encode_name (m_question m) ++ be_bytes 2 DNS_RRTYPE_A ++ be_bytes 2 DNS_RRCLASS_IN
  ++ m_body m.

(** A response without an error code, of a length that [dns_recv] accepts. *)
Definition response_ok (m : message) : Prop :=
  is_u16 (m_id m) ∧ is_u16 (m_nanswers m) ∧
  Z.land (m_flags1 m) DNS_FLAG1_RESPONSE ≠ 0 ∧
  Z.land (m_flags2 m) DNS_FLAG2_ERR_MASK = 0 ∧
  26 ≤ zlen (message_bytes m) ≤ DNS_MSG_SIZE.

#[export] Instance rr_name_ok_dec n : Decision (rr_name_ok n).
Proof. unfold rr_name_ok. destruct (rn_pointer n) as [[]|]; apply _. Defined.
#[export] Instance rr_ok_dec r : Decision (rr_ok r).
Proof. unfold rr_ok. apply _. Defined.
#[export] Instance response_ok_dec m : Decision (response_ok m).
Proof. unfold response_ok. apply _. Defined.

(** ** Reading a message *)

Lemma be_bytes_2 x : be_bytes 2 x = [(x / 256) mod 256; x mod 256].
Proof. done. Qed.

Lemma be_bytes_4 x :
  be_bytes 4 x = [(x / 256 / 256 / 256) mod 256; (x / 256 / 256) mod 256;
                  (x / 256) mod 256; x mod 256].
Proof. done. Qed.

Lemma load_be2 x : is_u16 x → le_load (be_bytes 2 x) = lwip_htons x.
Proof.
  intros Hx. rewrite <-le_bytes_htons, le_load_bytes by done.
  apply Z.mod_small. apply htons_u16.
Qed.

Lemma load_be4 x : is_u32 x → le_load (be_bytes 4 x) = lwip_htonl x.
Proof.
  intros Hx. rewrite <-le_bytes_htonl, le_load_bytes by done.
  apply Z.mod_small. apply htonl_u32.
Qed.

Lemma htons_eqb x k : is_u16 x → is_u16 k → (lwip_htons x =? lwip_htons k) = (x =? k).
Proof.
  intros Hx Hk. destruct (Z.eqb_spec x k) as [->|Hne]; [apply Z.eqb_refl|].
  apply Z.eqb_neq. intros E. apply Hne.
  by rewrite <-(ntohs_htons x), <-(ntohs_htons k), E.
Qed.

Lemma compressed hi : 0 ≤ hi < 64 → (Z.land (0xc0 + hi) 0xc0 =? 0xc0) = true.
Proof.
  intros. change 0xc0 with (Z.ones 2 * 2 ^ 6) at 2 3. rewrite land_field by lia.
  apply Z.eqb_eq. change (2 ^ 6) with 64. change (2 ^ 2) with 4. change (Z.ones 2) with 3. zdm.
Qed.

Lemma parse_name_pointer ls hi lo fuel rest :
  Forall label_ok ls → 0 ≤ hi < 64 → (length ls < fuel)%nat →
  parse_name_loop fuel (concat (map wire_label ls) ++ 0xc0 + hi :: lo :: rest) = Some rest.
Proof.
  intros Hls Hhi. revert fuel.
  induction Hls as [|l ls Hl Hls IH]; intros fuel Hf; (destruct fuel as [|fuel]; [simpl in Hf; lia|]).
  - cbn [map concat app parse_name_loop]. cbn [peek mbind option_bind tl].
    by rewrite compressed.
  - pose proof Hl as [Hlen _]. cbn [map concat]. unfold wire_label at 1. unfold zlen at 1.
    rewrite <-!app_assoc. cbn [app parse_name_loop]. cbn [peek mbind option_bind tl].
    rewrite not_compressed, Nat2Z.id by lia. cbn [tl]. rewrite drop_app_length.
    specialize (IH fuel ltac:(simpl in Hf; lia)).
    destruct ls as [|l' ls].
    + cbn [map concat app peek mbind option_bind] in IH |- *.
      by rewrite (proj2 (Z.eqb_neq (0xc0 + hi) 0)) by lia.
    + inversion Hls as [|? ? [Hlen' _] ?]; subst. cbn [map concat] in IH |- *.
      unfold wire_label, zlen in IH |- *. cbn [app peek mbind option_bind] in IH |- *.
      by rewrite (proj2 (Z.eqb_neq (Z.of_nat (length l')) 0)) by lia.
Qed.

Lemma length_wire_labels ls : (length ls ≤ length (concat (map wire_label ls)))%nat.
Proof. induction ls as [|l ls IH]; simpl; [lia|]. rewrite length_app. lia. Qed.

Lemma parse_rr_name n rest :
  rr_name_ok n → dns_parse_name (rr_name_bytes n ++ rest) = Some rest.
Proof.
  intros [Hls Hp]. unfold dns_parse_name, rr_name_bytes.
  pose proof (length_wire_labels (rn_labels n)).
  destruct (rn_pointer n) as [[hi lo]|].
  - rewrite <-app_assoc. apply parse_name_pointer; [done|done|].
    rewrite length_app. simpl. lia.
  - pose proof (length_wire_name (rn_labels n)).
    apply parse_name_wire; [done|done|]. rewrite length_app. lia.
Qed.

(** The fixed part of a record, behind its owner name. *)
Lemma rr_fields a b c d rest :
  let buf := be_bytes 2 a ++ be_bytes 2 b ++ be_bytes 4 c ++ be_bytes 2 d ++ rest in
  take 2 buf = be_bytes 2 a ∧ take 2 (drop 2 buf) = be_bytes 2 b ∧
  take 4 (drop 4 buf) = be_bytes 4 c ∧ take 2 (drop 8 buf) = be_bytes 2 d ∧
  drop 10 buf = rest ∧ zlen buf = 10 + zlen rest.
Proof.
  intros buf. split_and!; try reflexivity. subst buf.
  rewrite !be_bytes_2, be_bytes_4. unfold zlen. simpl. lia.
Qed.

Lemma cstr_app name rest : Forall (λ c, c ≠ 0) name → cstr (name ++ 0 :: rest) = name.
Proof.
  induction 1 as [|c name Hc _ IH]; [done|]. cbn [app cstr].
  by rewrite (proj2 (Z.eqb_neq c 0) Hc), IH.
Qed.

Lemma join_nonzero ls : Forall label_ok ls → Forall (λ c, c ≠ 0) (join ls).
Proof.
  assert (Hl : ∀ l, label_ok l → Forall (λ c, c ≠ 0) l)
    by (intros l [_ H]; eapply Forall_impl; [|exact H]; by intros c (_ & ? & _)).
  induction 1 as [|l ls Hok Hls IH]; [constructor|]. destruct ls; [by apply Hl|].
  rewrite join_cons. apply Forall_app; split; [by apply Hl|]. by constructor.
Qed.

Lemma cstr_join ls rest : Forall label_ok ls → cstr (join ls ++ 0 :: rest) = join ls.
Proof. intros H. by apply cstr_app, join_nonzero. Qed.

Lemma bind_readable {W A} buf n (k : unit → prog W A) w :
  n ≤ zlen buf → (readable buf n ≫= k) w = k () w.
Proof. intros H. unfold readable. by rewrite (proj2 (Z.leb_le _ _) H). Qed.

Section answers.
Context {CB ARG : Type}.
Implicit Types (w : logged (CB:=CB) (ARG:=ARG)) (e : dns_table_entry CB ARG).

(** Records of another kind are skipped, whatever their length. *)
Lemma answers_skip i n r rest w :
  rr_ok r → rr_is_a r = false →
  answers_loop log_found i (S n) (rr_bytes r ++ rest) w = answers_loop log_found i n rest w.
Proof.
  intros (Hn & Ht & Hc & Hl & Hd) Ha. cbn [answers_loop]. unfold rr_bytes.
  rewrite <-app_assoc, (bind_deref _ _ _ _ (parse_rr_name _ _ Hn)), <-!app_assoc.
  destruct (rr_fields (rr_type r) (rr_class r) (rr_ttl r) (zlen (rr_data r)) (rr_data r ++ rest))
    as (E1 & E2 & E3 & E4 & E5 & E6).
  set (buf := be_bytes 2 (rr_type r) ++ _) in *. pose proof (zlen_nonneg (rr_data r ++ rest)).
  rewrite bind_readable by (unfold SIZEOF_DNS_ANSWER; lia).
  rewrite E1, E2, E4, !load_be2, !htons_eqb by done.
  unfold rr_is_a in Ha. rewrite Ha.
  fold (lwip_ntohs (lwip_htons (zlen (rr_data r)))). rewrite ntohs_htons by done.
  unfold SIZEOF_DNS_ANSWER, zlen. rewrite Z2Nat.inj_add, Nat2Z.id by lia.
  rewrite <-drop_drop. change (Z.to_nat 10) with 10%nat. by rewrite E5, drop_app_length.
Qed.

Definition capped_ttl (r : rr) : Z :=
  if DNS_MAX_TTL <? rr_ttl r then DNS_MAX_TTL else rr_ttl r.

(** The entry that holds the address of [r]; not cached when its time to live
    is zero. *)
Definition answered (r : rr) e : dns_table_entry CB ARG :=
  let e' := with_ipaddr (le_load (rr_data r)) (with_ttl (capped_ttl r) e) in
  if capped_ttl r =? 0 then flushed e' else e'.

Definition calls (e : dns_table_entry CB ARG) (ip : option Z) : list found_call :=
  match e_found e with
  | Some cb => [(cb, cstr (e_name e), ip, e_arg e)]
  | None => []
  end.

Lemma call_found_log i ip w e :
  dns_table w.1 !! i = Some e →
  call_found log_found i ip w = inr ((), (w.1, w.2 ++ calls e ip)).
Proof.
  intros E. unfold call_found. rewrite (bind_entry_at i _ w e) by done. unfold calls.
  destruct w as [d l]. destruct (e_found e); [done|]. by rewrite app_nil_r.
Qed.

(** The first address record decides. *)
Lemma answers_hit i n r rest w e :
  rr_ok r → rr_is_a r = true → dns_table w.1 !! i = Some e →
  answers_loop log_found i (S n) (rr_bytes r ++ rest) w =
  inr ((), (set_entry i (answered r e) w.1, w.2 ++ calls e (Some (le_load (rr_data r))))).
Proof.
  intros (Hn & Ht & Hc & Hl & Hd) Ha E. cbn [answers_loop]. unfold rr_bytes.
  rewrite <-app_assoc, (bind_deref _ _ _ _ (parse_rr_name _ _ Hn)), <-!app_assoc.
  destruct (rr_fields (rr_type r) (rr_class r) (rr_ttl r) (zlen (rr_data r)) (rr_data r ++ rest))
    as (E1 & E2 & E3 & E4 & E5 & E6).
  set (buf := be_bytes 2 (rr_type r) ++ _) in *. rewrite zlen_app in E6.
  pose proof (zlen_nonneg rest) as Hr0. pose proof (zlen_nonneg (rr_data r)).
  rewrite bind_readable by (unfold SIZEOF_DNS_ANSWER; lia).
  rewrite E1, E2, E4, !load_be2, !htons_eqb by done. pose proof Ha as Ha'.
  unfold rr_is_a in Ha. rewrite Ha. apply andb_true_iff in Ha as [_ Hd4%Z.eqb_eq].
  rewrite (bind_update i _ _ w e) by done.
  rewrite bind_readable by (unfold SIZEOF_DNS_ANSWER; lia).
  rewrite E5, (take_app_le (rr_data r)), take_ge by (unfold zlen in *; lia).
  rewrite E3, load_be4, (ntohl_htonl (rr_ttl r)) by done. fold (capped_ttl r).
  erewrite (bind_update i _ _ (wset i _ w)) by by eapply lookup_wset.
  rewrite wset_wset. erewrite bind_entry_at by by eapply lookup_wset. cbn [e_ipaddr with_ipaddr].
  set (e' := with_ipaddr _ _).
  assert (E' : dns_table (wset i e' w).1 !! i = Some e') by by eapply lookup_set_entry.
  rewrite (bind_ret _ _ _ _ _ (call_found_log i _ _ _ E')).
  rewrite (bind_entry_at i _ _ e') by done. unfold answered. fold e'.
  replace (calls e' _) with (calls e (Some (le_load (rr_data r)))) by done.
  cbn [e_ttl with_ipaddr with_ttl e']. destruct (capped_ttl r =? 0); [|done].
  rewrite (update_entry_eq (W:=logged) i flushed _ e') by done. unfold wset. simpl.
  by rewrite set_entry_twice.
Qed.

(** The resolver after the copy of [msg] into its static buffer. *)
Definition stored (msg : bytes) (d : dns_state CB ARG) : dns_state CB ARG :=
  mk_dns (dns_pcb d) (dns_seqno d) (dns_table d) (dns_servers d)
    (splice 0 msg (dns_payload d)) (dns_sent d).

(** Entry [i] waits for the name [ls]. *)
Definition waits_for (i : nat) e (ls : list bytes) w : Prop :=
  (i < DNS_TABLE_SIZE)%nat ∧ dns_table w.1 !! i = Some e ∧
  e_state e = DNS_STATE_ASKING ∧ ls ≠ [] ∧ Forall label_ok ls ∧
  ∃ tail, e_name e = join ls ++ 0 :: tail.

(** The header fields of a message in the buffer. *)
Lemma message_fields m stale :
  is_u16 (m_id m) → is_u16 (m_nanswers m) →
  let buf := message_bytes m ++ stale in
  lwip_htons (le_load (take 2 buf)) = m_id m ∧ nth 2 buf 0 = m_flags1 m ∧
  nth 3 buf 0 = m_flags2 m ∧ lwip_htons (le_load (take 2 (drop 4 buf))) = 1 ∧
  lwip_htons (le_load (take 2 (drop 6 buf))) = m_nanswers m ∧
  drop 12 buf = encode_name (m_question m) ++ be_bytes 2 DNS_RRTYPE_A
    ++ be_bytes 2 DNS_RRCLASS_IN ++ m_body m ++ stale.
Proof.
  intros Hid Hn buf. subst buf. unfold message_bytes. rewrite <-!app_assoc.
  split_and!; try reflexivity.
  - change (take 2 _) with (be_bytes 2 (m_id m)). rewrite load_be2 by done.
    by apply ntohs_htons.
  - change (take 2 _) with (be_bytes 2 (m_nanswers m)). rewrite load_be2 by done.
    by apply ntohs_htons.
Qed.

(** A response to the pending question reaches its answers. *)
Lemma dns_recv_accept i e ls m w :
  waits_for i e ls w → response_ok m → m_id m = Z.of_nat i → m_question m = join ls →
  ∃ stale, (length stale ≤ length (dns_payload w.1))%nat ∧
    dns_recv log_found (message_bytes m) w =
    answers_loop log_found i (Z.to_nat (m_nanswers m)) (m_body m ++ stale)
      (wset i (with_err 0 (with_state DNS_STATE_DONE e)) (stored (message_bytes m) w.1, w.2)).
Proof.
  intros (Hi & E & Es & Hne & Hls & tail & Hname) (Hid & Hn & Hf1 & Hf2 & H26 & Hlen) Eid Eq.
  exists (drop (0 + length (message_bytes m)) (dns_payload w.1)).
  split; [rewrite length_drop; lia|].
  unfold dns_recv. rewrite (proj2 (Z.ltb_ge _ _)) by lia.
  rewrite (proj2 (Z.ltb_ge _ _))
    by (unfold SIZEOF_DNS_HDR, SIZEOF_DNS_QUERY, SIZEOF_DNS_ANSWER; lia).
  rewrite bind_modify, bind_get. destruct w as [d log].
  change (lput _ (d, log)) with (stored (message_bytes m) d, log).
  change (dns_payload (lget (stored (message_bytes m) d, log)))
    with (message_bytes m ++ drop (0 + length (message_bytes m)) (dns_payload d)).
  destruct (message_fields m (drop (0 + length (message_bytes m)) (dns_payload d)) Hid Hn)
    as (F1 & F2 & F3 & F4 & F5 & F6).
  set (payload := message_bytes m ++ drop _ _) in *. cbv zeta.
  rewrite F1, F2, F3, F4, F5, Eid, Nat2Z.id. change (Z.to_nat SIZEOF_DNS_HDR) with 12%nat.
  rewrite F6, bool_decide_eq_true_2 by done.
  rewrite (bind_entry_at i _ (stored (message_bytes m) d, log) e) by done.
  rewrite bool_decide_eq_true_2 by done.
  rewrite (bind_update i _ _ (stored (message_bytes m) d, log) e) by done.
  erewrite bind_entry_at by by eapply (lookup_wset i _ e). cbn [e_err with_err e_name with_state].
  rewrite Hf2, (proj2 (Z.eqb_neq _ _) Hf1), Eq, Hname. rewrite !Z.eqb_refl. cbn [orb negb].
  rewrite bind_deref with (a := false) by by apply compare_question.
  rewrite bind_deref with (a := be_bytes 2 DNS_RRTYPE_A
    ++ be_bytes 2 DNS_RRCLASS_IN ++ m_body m ++ drop (0 + length (message_bytes m)) (dns_payload d)) by by apply parse_question.
  done.
Qed.

(** The records in front of the first address record do not matter. *)
Lemma answers_skip_all i pre n rest w :
  Forall rr_ok pre → Forall (λ r, rr_is_a r = false) pre →
  answers_loop log_found i (length pre + n) (concat (map rr_bytes pre) ++ rest) w
  = answers_loop log_found i n rest w.
Proof.
  induction 1 as [|r pre Hr Hpre IH]; intros Ha; [done|].
  inversion Ha; subst. cbn [length map concat Nat.add].
  rewrite <-app_assoc, answers_skip by done. by apply IH.
Qed.

(** ** What a response does *)

(** C22: a response to a pending question resolves it.  Whatever records precede
    the first IPv4 address record (aliases, other types, compressed or
    uncompressed names), and whatever follows it, the callback is called once,
    with the queried name and the bytes of that record as address in network
    order; the address is cached for the time to live of the record, at most a
    week, and not at all when it is zero. *)
Theorem dns_recv_answer i e cb ls m pre r post more w :
  waits_for i e ls w → e_found e = Some cb →
  response_ok m → m_id m = Z.of_nat i → m_question m = join ls →
  m_nanswers m = zlen (pre ++ r :: post) →
  m_body m = concat (map rr_bytes (pre ++ r :: post)) ++ more →
  Forall rr_ok (pre ++ r :: post) → Forall (λ r, rr_is_a r = false) pre → rr_is_a r = true →
  dns_recv log_found (message_bytes m) w =
  inr ((), (set_entry i (answered r (with_err 0 (with_state DNS_STATE_DONE e)))
              (stored (message_bytes m) w.1),
            w.2 ++ [(cb, join ls, Some (le_load (rr_data r)), e_arg e)])).
Proof.
  intros Hw Hcb Hm Eid Eq En Eb Hok Hpre Ha.
  destruct (dns_recv_accept i e ls m w Hw Hm Eid Eq) as (stale & _ & ->).
  destruct Hw as (Hi & E & _ & _ & Hls & tail & Hname).
  apply Forall_app in Hok as [Hpok Hrok%Forall_inv].
  rewrite En, Eb. unfold zlen. rewrite Nat2Z.id, length_app. cbn [length].
  rewrite map_app, concat_app. cbn [map concat]. rewrite <-!app_assoc, answers_skip_all by done.
  rewrite (answers_hit i _ r _ _ (with_err 0 (with_state DNS_STATE_DONE e)))
    by (try done; by eapply lookup_set_entry).
  unfold wset. simpl. rewrite set_entry_twice. unfold calls. simpl.
  by rewrite Hcb, Hname, cstr_join.
Qed.

(** a response without an address record, like one with an error code,
    tells the callback that the name was not found and frees the entry. *)
Theorem dns_recv_no_address i e cb ls m rrs more w :
  waits_for i e ls w → e_found e = Some cb →
  response_ok m → m_id m = Z.of_nat i → m_question m = join ls →
  m_nanswers m = zlen rrs → m_body m = concat (map rr_bytes rrs) ++ more →
  Forall rr_ok rrs → Forall (λ r, rr_is_a r = false) rrs →
  dns_recv log_found (message_bytes m) w =
  inr ((), (set_entry i (flushed (with_err 0 (with_state DNS_STATE_DONE e)))
              (stored (message_bytes m) w.1),
            w.2 ++ [(cb, join ls, None, e_arg e)])).
Proof.
  intros Hw Hcb Hm Eid Eq En Eb Hok Ha.
  destruct (dns_recv_accept i e ls m w Hw Hm Eid Eq) as (stale & _ & ->).
  destruct Hw as (Hi & E & _ & _ & Hls & tail & Hname).
  rewrite En, Eb. unfold zlen. rewrite Nat2Z.id, <-app_assoc.
  rewrite <-(Nat.add_0_r (length rrs)), answers_skip_all by done. cbn [answers_loop].
  rewrite (responseerr_log i (stored (message_bytes m) w.1, w.2) e) by done. simpl.
  by rewrite Hcb, Hname, cstr_join.
Qed.

(** A response whose first answer overstates its length. *)
Definition overlong (id : Z) (q : bytes) : message :=
  mk_message id DNS_FLAG1_RESPONSE 0 0 0 q 2
    ([0xc0; 12] ++ be_bytes 2 5 ++ be_bytes 2 1 ++ be_bytes 4 0 ++ be_bytes 2 65535).

Lemma overlong_ok i e ls w :
  waits_for i e ls w → dns_wf w.1 →
  let m := overlong (Z.of_nat i) (join ls) in
  response_ok m ∧ zlen (message_bytes m) ≤ 300.
Proof.
  intros (Hi & E & _ & Hne & Hls & tail & Hname) Hwf m.
  assert (Hq : (1 ≤ length (join ls) ≤ 255)%nat).
  { destruct (wf_entry _ i Hwf Hi) as (e0 & E0 & (H256 & _)). simplify_eq.
    rewrite Hname, length_app in H256. simpl in H256. split; [|lia].
    destruct Hls as [|l [|l' ls] [? _] _]; [done|simpl; lia|].
    rewrite join_cons, length_app. lia. }
  assert (Hlen : zlen (message_bytes m) = 30 + zlen (join ls)).
  { unfold message_bytes, zlen. rewrite !length_app, !length_be_bytes.
    unfold encode_name. simpl. rewrite length_app, length_encode_labels. simpl. lia. }
  unfold zlen in *. unfold DNS_TABLE_SIZE in Hi.
  split; [split_and!|]; try done; try (unfold zlen, DNS_MSG_SIZE; lia); unfold is_u16; simpl; lia.
Qed.

(** C33: the response handler trusts the lengths in a response.  For every
    pending name there is a response of at most 300 bytes that makes it read
    outside its buffer: two answers are announced, and the first claims to be
    65535 bytes long. *)
Theorem dns_recv_overread i e ls w :
  waits_for i e ls w → dns_wf w.1 →
  ∃ p, zlen p ≤ 300 ∧ dns_recv log_found p w = inl Wild.
Proof.
  intros Hw Hwf. set (m := overlong (Z.of_nat i) (join ls)).
  destruct (overlong_ok i e ls w Hw Hwf) as [Hm Hlen].
  exists (message_bytes m). split; [done|].
  destruct (dns_recv_accept i e ls m w Hw Hm eq_refl eq_refl) as (stale & Hstale & ->).
  assert (length stale ≤ 512)%nat by (destruct Hwf as (_ & _ & ? & _); lia).
  change (Z.to_nat (m_nanswers m)) with 2%nat. cbn [answers_loop].
  rewrite bind_deref with (a := drop 2 (m_body m) ++ stale)
    by by apply (parse_rr_name (mk_rr_name [] (Some (0, 12)))).
  rewrite bind_readable by (unfold zlen, SIZEOF_DNS_ANSWER; simpl; lia).
  change (le_load (take 2 (drop 2 (m_body m) ++ stale)) =? lwip_htons DNS_RRTYPE_A) with false.
  cbn [andb].
  change (lwip_htons (le_load (take 2 (drop 8 (drop 2 (m_body m) ++ stale))))) with 65535.
  assert (length (drop 2 (m_body m)) = 10%nat) by done. unfold SIZEOF_DNS_ANSWER.
  by rewrite drop_ge by (rewrite length_app; lia).
Qed.

End answers.

(** ** Witnesses *)

Definition asked_entry : dns_table_entry nat nat := nth 0 (dns_table asked) entry_zero.

Definition asked_log : logged (CB:=nat) (ARG:=nat) := (asked, []).

Lemma asked_waits :
  waits_for 0 asked_entry [str "vpn"; str "example"; str "org"] asked_log.
Proof.
  split_and!; [cdec|vm_compute; reflexivity|vm_compute; reflexivity|discriminate|cdec|].
  exists (drop 16 (e_name asked_entry)). vm_compute. reflexivity.
Qed.

(** An alias, then the address 10.1.2.3. *)
Definition alias_rr : rr :=
  mk_rr (mk_rr_name [] (Some (0, 12))) 5 1 60 (rr_name_bytes (mk_rr_name [str "a"] (Some (0, 16)))).
Definition address_rr : rr :=
  mk_rr (mk_rr_name [str "a"] (Some (0, 16))) 1 1 60 [10; 1; 2; 3].
Definition answer (rrs : list rr) : message :=
  mk_message 0 0x81 0x80 0 0 (str "vpn.example.org") (zlen rrs) (concat (map rr_bytes rrs) ++ []).

Lemma dns_recv_answer_witness :
  dns_recv log_found (message_bytes (answer [alias_rr; address_rr])) asked_log =
  inr ((), (set_entry 0 (answered address_rr (with_err 0 (with_state DNS_STATE_DONE asked_entry)))
              (stored (message_bytes (answer [alias_rr; address_rr])) asked_log.1),
            asked_log.2 ++ [(7%nat, join [str "vpn"; str "example"; str "org"],
                               Some (le_load (rr_data address_rr)), e_arg asked_entry)])).
Proof.
  apply (dns_recv_answer 0 asked_entry 7%nat [str "vpn"; str "example"; str "org"]
    (answer [alias_rr; address_rr]) [alias_rr] address_rr [] [] asked_log);
    [apply asked_waits|vm_compute; reflexivity|cdec|reflexivity..|cdec|cdec|reflexivity].
Defined.

Lemma dns_recv_no_address_witness :
  dns_recv log_found (message_bytes (answer [alias_rr])) asked_log =
  inr ((), (set_entry 0 (flushed (with_err 0 (with_state DNS_STATE_DONE asked_entry)))
              (stored (message_bytes (answer [alias_rr])) asked_log.1),
            asked_log.2 ++ [(7%nat, join [str "vpn"; str "example"; str "org"], None,
                               e_arg asked_entry)])).
Proof.
  apply (dns_recv_no_address 0 asked_entry 7%nat [str "vpn"; str "example"; str "org"]
    (answer [alias_rr]) [alias_rr] [] asked_log);
    [apply asked_waits|vm_compute; reflexivity|cdec|reflexivity..|cdec|cdec].
Defined.

Lemma dns_recv_overread_witness :
  ∃ p, zlen p ≤ 300 ∧ dns_recv log_found p asked_log = inl Wild.
Proof. apply (dns_recv_overread 0 asked_entry _ asked_log asked_waits). cdec. Defined.

End DnsRecv.
