(* ===== verification/DnsRequest.v ===== *)
(** * DNS requests: [dns_gethostbyname] of [lwip/src/core/dns.c]

    The choice of a table entry, the behaviour of a request on every branch,
    and what happens when a callback issues a request of its own. *)

From S2P Require Import Prelude Def Ip4Addr Dns DnsTimer DnsRecv.

Module DnsRequest.
Import Def Ip4Addr Dns DnsTimer DnsRecv.

Section request.
Context {CB ARG : Type}.
Implicit Types (d : dns_state CB ARG) (e : dns_table_entry CB ARG).

(** ** The choice of an entry *)

Definition reusable e : Prop :=
  e_state e = DNS_STATE_UNUSED ∨ e_state e = DNS_STATE_DONE.

Lemma enqueue_scan_found seqno t i lseq lseqi j l :
  enqueue_scan seqno i t lseq lseqi = (Some j, l) →
  ∃ k e, j = (i + k)%nat ∧ t !! k = Some e ∧ e_state e = DNS_STATE_UNUSED.
Proof.
  revert i lseq lseqi. induction t as [|e t IH]; intros i lseq lseqi; simpl; [done|].
  case_bool_decide as Hu.
  - intros [= <- _]. exists 0%nat, e. by rewrite Nat.add_0_r.
  - intros H. assert (∃ k e, j = (S i + k)%nat ∧ t !! k = Some e ∧ e_state e = DNS_STATE_UNUSED)
      as (k & e' & -> & ? & ?) by (case_match; by eapply IH).
    exists (S k), e'. split; [lia|done].
Qed.

Lemma enqueue_scan_none seqno t i lseq lseqi l :
  enqueue_scan seqno i t lseq lseqi = (None, l) →
  Forall (λ e, e_state e ≠ DNS_STATE_UNUSED) t.
Proof.
  revert i lseq lseqi. induction t as [|e t IH]; intros i lseq lseqi; simpl; [constructor|].
  case_bool_decide as Hu; [done|]. intros H. constructor; [done|]. case_match; by eapply IH.
Qed.

(** A pending entry is never overwritten. *)
Lemma enqueue_slot_reusable d j :
  enqueue_slot d = Some j → ∃ e, dns_table d !! j = Some e ∧ reusable e.
Proof.
  unfold enqueue_slot. destruct (enqueue_scan _ _ _ _ _) as [[i|] l] eqn:E.
  - intros [= ->]. apply enqueue_scan_found in E as (k & e & -> & Hk & Hs).
    exists e. split; [done|by left].
  - destruct (dns_table d !! l) as [e|] eqn:Hl; [|done].
    case_bool_decide; [|done]. intros [= ->]. exists e. split; [done|by right].
Qed.

Lemma enqueue_slot_full d :
  enqueue_slot d = None → Forall (λ e, e_state e ≠ DNS_STATE_UNUSED) (dns_table d).
Proof.
  unfold enqueue_slot. destruct (enqueue_scan _ _ _ _ _) as [[i|] l] eqn:E; [done|].
  intros _. by eapply enqueue_scan_none.
Qed.

(** A cached address comes from a completed entry of that name. *)
Lemma dns_lookup_cached d name a :
  dns_lookup name d = a → a ≠ IPADDR_NONE →
  ∃ e, e ∈ dns_table d ∧ e_state e = DNS_STATE_DONE ∧ cstr (e_name e) = name ∧ e_ipaddr e = a.
Proof.
  unfold dns_lookup. intros <-. induction (dns_table d) as [|e t IH]; simpl; [done|].
  destruct (bool_decide (e_state e = _)) eqn:Hs, (bool_decide (name = _)) eqn:Hn; simpl;
    rewrite ?bool_decide_eq_true in *.
  1:{ intros _. exists e. split_and!; try done. by left. }
  all: intros H; destruct (IH H) as (e' & ? & ? & ? & ?); exists e'; split_and!; try done;
    by right.
Qed.

(** ** Filling it *)

Lemma fill_entry_name seqno name cb arg e :
  length (e_name e) = 256%nat → zlen name < 256 →
  e_name (fill_entry seqno name cb arg e) = name ++ 0 :: drop (S (length name)) (e_name e).
Proof.
  intros He Hn. unfold fill_entry, DNS_MAX_NAME_LENGTH. simpl. unfold zlen in *.
  replace (Z.to_nat _) with (length name) by lia. rewrite take_ge by lia.
  change (splice 0 name (e_name e)) with (name ++ drop (length name) (e_name e)).
  unfold splice. rewrite take_app_length. cbn [length]. f_equal. cbn [app]. f_equal.
  rewrite drop_app_ge, drop_drop by lia. f_equal. lia.
Qed.

(** The entry of a new request, as its first query leaves it. *)
Definition requested d (name : bytes) (cb : CB) (arg : ARG) e : dns_table_entry CB ARG :=
  with_timing 0 1 0 (with_state DNS_STATE_ASKING (fill_entry (dns_seqno d) name cb arg e)).

Lemma requested_wf d name cb arg e :
  server_ok (dns_servers d) 0 → entry_wf (dns_servers d) e → zlen name < 256 →
  entry_wf (dns_servers d) (requested d name cb arg e).
Proof.
  intros Hs (Hl & H0 & _) Hn. unfold entry_wf, requested.
  cbn [e_name with_timing with_state e_state e_found e_numdns].
  rewrite fill_entry_name by done. unfold zlen in Hn. split_and!.
  - rewrite length_app. simpl. rewrite length_drop. lia.
  - apply elem_of_app. right. by left.
  - by eexists.
  - done.
Qed.

Lemma requested_state_wf name cb arg d i e seqno sent :
  dns_wf d → dns_pcb d = true → zlen name < 256 → dns_table d !! i = Some e →
  dns_wf (mk_dns (dns_pcb d) seqno (<[i:=requested d name cb arg e]> (dns_table d))
            (dns_servers d) (dns_payload d) sent).
Proof.
  intros (Ht & Hs & Hp & Hsrv & He) Hpcb Hn E. split_and!; simpl; try done.
  - by rewrite length_insert.
  - apply Forall_insert; [done|]. apply requested_wf; auto. by eapply Forall_lookup_1.
Qed.

Context (pbuf_avail : dns_state CB ARG → bool).

Lemma dns_enqueue_eq name cb arg d i e :
  dns_wf d → dns_pcb d = true → zlen name < 256 →
  enqueue_slot d = Some i → dns_table d !! i = Some e →
  ∃ sent,
    (sent = [] ∨ sent = [(nth 0 (dns_servers d) 0, dns_query_packet (cstr
       (e_name (requested d name cb arg e))) (Z.of_nat i))]) ∧
    dns_enqueue pbuf_avail name cb arg d =
    inr (ERR_INPROGRESS,
         mk_dns (dns_pcb d) (u8 (dns_seqno d + 1))
           (<[i:=requested d name cb arg e]> (dns_table d)) (dns_servers d) (dns_payload d)
           (dns_sent d ++ sent)).
Proof.
  intros Hwf Hpcb Hn Hslot E. pose proof Hwf as (Ht & _ & _ & Hsrv & He).
  assert (Hi : (i < DNS_TABLE_SIZE)%nat) by (rewrite <-Ht; by eapply lookup_lt_Some).
  assert (Hew : entry_wf (dns_servers d) e) by by eapply Forall_lookup_1.
  pose proof (requested_wf d name cb arg e (Hsrv Hpcb) Hew Hn) as (Hl & H0 & _).
  unfold dns_enqueue. rewrite bind_get, Hslot, (bind_deref _ _ _ _ E), bind_modify.
  set (d1 := mk_dns _ _ (<[i:=_]> _) _ _ _).
  set (e1 := fill_entry (dns_seqno d) name cb arg e).
  assert (E1 : dns_table d1 !! i = Some e1)
    by (apply list_lookup_insert_eq; rewrite Ht; done).
  erewrite bind_ret.
  2:{ apply (check_entry_new (W:=dns_state CB ARG) pbuf_avail _ i d1 e1); try done.
      split_and!; [exact Hl|exact H0|]. split; [by eexists|exact (Hsrv Hpcb)]. }
  exists (if pbuf_avail (wset i (requested d name cb arg e) d1) then
    [(nth 0 (dns_servers d) 0,
      dns_query_packet (cstr (e_name (requested d name cb arg e))) (Z.of_nat i))] else []).
  split; [case_match; auto|]. cbv zeta.
  change (with_timing 0 1 0 (with_state DNS_STATE_ASKING e1)) with (requested d name cb arg e).
  unfold mret, prog_ret, wsent. cbn [lget lput lens_id].
  assert (Ew : wset i (requested d name cb arg e) d1 =
    mk_dns (dns_pcb d) (u8 (dns_seqno d + 1)) (<[i:=requested d name cb arg e]> (dns_table d))
      (dns_servers d) (dns_payload d) (dns_sent d)).
  { unfold wset, set_entry, set_table. cbn. by rewrite list_insert_insert_eq. }
  rewrite Ew. cbn [dns_pcb dns_seqno dns_table dns_servers dns_payload dns_sent].
  destruct (pbuf_avail _); [done|]. by rewrite app_nil_r.
Qed.


(** ** Requests from a callback *)

(** A callback that answers a failure by a request for another name, as
    [retry_resolution] does. *)
Definition retrying (name : bytes) (cb : CB) (arg : ARG)
    (_ : CB) (_ : bytes) (_ : option Z) (_ : option ARG) : prog (dns_state CB ARG) unit :=
  dns_gethostbyname pbuf_avail name cb arg;; mret ().

(** a request made from the callback of a failed one can be lost.  While
    [dns_recv] reports the failure, the entry is already completed, and a full
    table makes [dns_enqueue] reuse it; the entry is then flushed by the
    caller, so that no query is pending although the request was accepted
    with [ERR_INPROGRESS], and its callback is never called. *)
Theorem dns_reentrant_request_lost i e cb arg name d :
  dns_wf d → dns_pcb d = true → dns_table d !! i = Some e → e_found e = Some cb →
  enqueue_slot d = Some i → e_state e = DNS_STATE_DONE →
  cur name ≠ 0 → zlen name < 256 →
  ipaddr_addr name = IPADDR_NONE → dns_lookup name d = IPADDR_NONE →
  returns (dns_gethostbyname pbuf_avail name cb arg d) (λ r _, r = (ERR_INPROGRESS, None)) ∧
  returns (responseerr (retrying name cb arg) i d) (λ _ d',
    ∀ j e', dns_table d' !! j = Some e' → e_state e' = DNS_STATE_ASKING →
            dns_table d !! j = Some e').
Proof.
  intros Hwf Hpcb E Hcb Hslot Hst Hcur Hlen Hnum Hlook.
  destruct (dns_enqueue_eq name cb arg d i e Hwf Hpcb Hlen Hslot E) as (sent & _ & Eq).
  assert (Eg : ∃ d', dns_gethostbyname pbuf_avail name cb arg d = inr ((ERR_INPROGRESS, None), d') ∧
    dns_table d' = <[i:=requested d name cb arg e]> (dns_table d)).
  { unfold dns_gethostbyname. rewrite bind_get, Hpcb, (proj2 (Z.eqb_neq _ _) Hcur). cbn [negb orb].
    unfold DNS_MAX_NAME_LENGTH. rewrite (proj2 (Z.leb_gt _ _) Hlen), Hnum, Z.eqb_refl, Hlook.
    rewrite Z.eqb_refl. cbn [negb]. rewrite (bind_ret _ _ _ _ _ Eq). by eexists. }
  destruct Eg as (d1 & Eg & Et). split; [by rewrite Eg|].
  unfold responseerr, call_found. erewrite bind_ret.
  2:{ rewrite (bind_entry_at (W:=dns_state CB ARG) i _ d e) by exact E. rewrite Hcb. unfold retrying.
      rewrite (bind_ret _ _ _ _ _ Eg). reflexivity. }
  assert (Hi : (i < length (dns_table d))%nat) by by eapply lookup_lt_Some.
  rewrite (update_entry_eq (W:=dns_state CB ARG) i flushed d1 (requested d name cb arg e))
    by (simpl; rewrite Et; by apply list_lookup_insert_eq).
  simpl. intros j e' Hj. rewrite Et, list_insert_insert_eq in Hj.
  destruct (decide (i = j)) as [<-|Hij].
  - rewrite list_lookup_insert_eq in Hj by done. by simplify_eq/=.
  - by rewrite list_lookup_insert_ne in Hj.
Qed.

End request.

(** ** Witnesses *)


(** A full table: one failed entry, and pending ones. *)
Definition crowded : dns_state nat nat :=
  set_table (with_state DNS_STATE_DONE asked_entry :: replicate 127 asked_entry) asked.

Lemma dns_reentrant_request_lost_witness :
  returns (dns_gethostbyname (λ _, true) (str "host.example.org") 7%nat 8%nat crowded)
    (λ r _, r = (ERR_INPROGRESS, None)) ∧
  returns (responseerr (retrying (λ _, true) (str "host.example.org") 7%nat 8%nat) 0 crowded)
    (λ _ d', ∀ j e', dns_table d' !! j = Some e' → e_state e' = DNS_STATE_ASKING →
                     dns_table crowded !! j = Some e').
Proof.
  apply (dns_reentrant_request_lost (λ _, true) 0 (with_state DNS_STATE_DONE asked_entry));
    first [by vm_compute|cdec].
Defined.

End DnsRequest.
