(* ===== verification/Pbuf.v ===== *)
(** * Packet buffers: [lwip/src/core/pbuf.c]

    The store of packet buffers and the operations on chains of them, in the
    configuration of [src/lwipopts.h].  A [struct pbuf] is a record in a finite
    map from addresses; the memory behind it (or the memory it refers to) is
    the list [p_mem], and its payload pointer is an offset into that list, so
    that reads and writes outside it are faults, as is the use of an address
    that is not allocated.

    Whether an allocation finds memory, and what fresh memory contains, are
    parameters; so is what the [custom_free_function] of a custom pbuf does.
    A walk along a chain has as much fuel as there are pbufs: on a cyclic chain
    the C loops for ever, and the model ends in [Hang]. *)

From S2P Require Import Prelude.

Module Pbuf.

Abbreviation loc := positive.

Inductive pbuf_layer := PBUF_TRANSPORT | PBUF_IP | PBUF_LINK | PBUF_RAW.
Inductive pbuf_type := PBUF_RAM | PBUF_ROM | PBUF_REF | PBUF_POOL.

#[export] Instance pbuf_type_eq_dec : EqDecision pbuf_type.
Proof. solve_decision. Defined.

Definition MEM_ALIGNMENT : Z := 4.
Definition LWIP_MEM_ALIGN_SIZE (size : Z) : Z :=
  Z.land (size + MEM_ALIGNMENT - 1) (Z.lnot (MEM_ALIGNMENT - 1)).
Definition PBUF_TRANSPORT_HLEN : Z := 20.
Definition PBUF_IP_HLEN : Z := 20.
Definition PBUF_LINK_HLEN : Z := 16.
(** [sizeof(struct pbuf)] on a 64-bit machine. *)
Definition SIZEOF_STRUCT_PBUF : Z := LWIP_MEM_ALIGN_SIZE 24.
Definition PBUF_POOL_BUFSIZE_ALIGNED : Z := LWIP_MEM_ALIGN_SIZE 2048.
Definition PBUF_FLAG_IS_CUSTOM : Z := 0x02.

Definition layer_offset (layer : pbuf_layer) : Z :=
  match layer with
  | PBUF_TRANSPORT => PBUF_LINK_HLEN + PBUF_IP_HLEN + PBUF_TRANSPORT_HLEN
  | PBUF_IP => PBUF_LINK_HLEN + PBUF_IP_HLEN
  | PBUF_LINK => PBUF_LINK_HLEN
  | PBUF_RAW => 0
  end.

(** [CF]: the functions that can be stored in [custom_free_function]. *)
Record pbuf (CF : Type) := mk_pbuf {
  p_next : option loc;
  p_mem : bytes;
  p_payload : Z;
  p_tot_len : Z;
  p_len : Z;
  p_type : pbuf_type;
  p_flags : Z;
  p_ref : Z;
  p_custom : option CF      (** for a [struct pbuf_custom] *)
}.
Arguments mk_pbuf {CF}.
Arguments p_next {CF}.
Arguments p_mem {CF}.
Arguments p_payload {CF}.
Arguments p_tot_len {CF}.
Arguments p_len {CF}.
Arguments p_type {CF}.
Arguments p_flags {CF}.
Arguments p_ref {CF}.
Arguments p_custom {CF}.

Abbreviation heap CF := (gmap loc (pbuf CF)).

Section pbuf.
Context {CF : Type}.
Abbreviation pbuf := (pbuf CF).
Abbreviation heap := (heap CF).
Implicit Type b : pbuf.

Definition with_next n b := mk_pbuf n (p_mem b) (p_payload b) (p_tot_len b) (p_len b)
  (p_type b) (p_flags b) (p_ref b) (p_custom b).
Definition with_mem m b := mk_pbuf (p_next b) m (p_payload b) (p_tot_len b) (p_len b)
  (p_type b) (p_flags b) (p_ref b) (p_custom b).
Definition with_payload o b := mk_pbuf (p_next b) (p_mem b) o (p_tot_len b) (p_len b)
  (p_type b) (p_flags b) (p_ref b) (p_custom b).
Definition with_tot t b := mk_pbuf (p_next b) (p_mem b) (p_payload b) t (p_len b)
  (p_type b) (p_flags b) (p_ref b) (p_custom b).
Definition with_len n b := mk_pbuf (p_next b) (p_mem b) (p_payload b) (p_tot_len b) n
  (p_type b) (p_flags b) (p_ref b) (p_custom b).
Definition with_flags f b := mk_pbuf (p_next b) (p_mem b) (p_payload b) (p_tot_len b)
  (p_len b) (p_type b) f (p_ref b) (p_custom b).
Definition with_ref r b := mk_pbuf (p_next b) (p_mem b) (p_payload b) (p_tot_len b)
  (p_len b) (p_type b) (p_flags b) r (p_custom b).

(** ** Access *)

Definition deref (l : loc) : prog heap pbuf := h ← pget; pderef (h !! l).
Definition update (l : loc) (f : pbuf → pbuf) : prog heap unit :=
  b ← deref l; pmodify (<[l:=f b]>).

(** [n] bytes at [payload + off]. *)
Definition pread (l : loc) (off n : Z) : prog heap bytes :=
  b ← deref l;
  let a := p_payload b + off in
  if (0 <=? a) && (a + n <=? zlen (p_mem b)) then
    mret (take (Z.to_nat n) (drop (Z.to_nat a) (p_mem b)))
  else pfault Wild.
Definition pwrite (l : loc) (off : Z) (d : bytes) : prog heap unit :=
  b ← deref l;
  let a := p_payload b + off in
  if (0 <=? a) && (a + zlen d <=? zlen (p_mem b)) then
    update l (with_mem (splice (Z.to_nat a) d (p_mem b)))
  else pfault Wild.

(** Enough for a walk along any chain. *)
Definition walk (A : Type) (f : nat → prog heap A) : prog heap A :=
  h ← pget; f (S (size h)).

(** ** Freeing *)

Context (custom_free : CF → loc → prog heap unit).

(** The deallocation of a pbuf whose last reference is gone. *)
Definition pbuf_dealloc (l : loc) : prog heap unit :=
  b ← deref l;
  if Z.land (p_flags b) PBUF_FLAG_IS_CUSTOM =? 0 then pmodify (delete l)
  else
    match p_custom b with
    | Some f => custom_free f l
    | None => pfault Wild   (** a call through whatever follows the struct *)
    end.

Fixpoint free_loop (fuel : nat) (p : option loc) (count : Z) : prog heap Z :=
  match p with
  | None => mret count
  | Some l =>
      match fuel with
      | O => pfault Hang
      | S fuel' =>
          b ← deref l;
          passert (0 <? p_ref b);;
          let ref := u16 (p_ref b - 1) in
          update l (with_ref ref);;
          if ref =? 0 then
            pbuf_dealloc l;;
            free_loop fuel' (p_next b) (u8 (count + 1))
          else mret count
      end
  end.

Definition pbuf_free (p : option loc) : prog heap Z :=
  match p with
  | None => pfault Abort
  | Some l => deref l;; walk Z (λ fuel, free_loop fuel p 0)
  end.

(** ** Allocation *)

(** Whether [mem_malloc] finds a block of a given size, and what it holds. *)
Context (mem_avail : heap → Z → bool) (garbage : heap → nat → Z).

(** A block for a pbuf with [n] bytes of data behind it. *)
Definition mem_malloc (n : Z) : prog heap (option loc) :=
  h ← pget;
  if mem_avail h (SIZEOF_STRUCT_PBUF + n) then
    let l := fresh (dom h) in
    pmodify (<[l:=mk_pbuf None (garbage h <$> seq 0 (Z.to_nat n)) 0 0 0 PBUF_RAM
                   (u8 (garbage h 0)) 0 None]>);;
    mret (Some l)
  else mret None.

(** The [while (rem_len > 0)] loop for the tail of a pool chain; [None] when
    memory ran out and the chain was freed. *)
Fixpoint alloc_tail (fuel : nat) (p r : loc) (rem_len : Z) : prog heap (option loc) :=
  if rem_len <=? 0 then mret (Some p)
  else
    match fuel with
    | O => pfault Hang
    | S fuel' =>
        q ← mem_malloc PBUF_POOL_BUFSIZE_ALIGNED;
        match q with
        | None => pbuf_free (Some p);; mret None
        | Some q =>
            update q (λ b, with_flags 0 (with_next None b));;
            update r (with_next (Some q));;
            passert (rem_len <? 0xffff);;
            let len := Z.min (u16 rem_len) PBUF_POOL_BUFSIZE_ALIGNED in
            update q (λ b, mk_pbuf (p_next b) (p_mem b) 0 (u16 rem_len) len PBUF_POOL
                             (p_flags b) 1 (p_custom b));;
            b ← deref p;
            passert (p_payload b + p_len b <=? PBUF_POOL_BUFSIZE_ALIGNED);;
            alloc_tail fuel' p q (rem_len - len)
        end
    end.

Definition alloc_pool (offset length : Z) : prog heap (option loc) :=
  p ← mem_malloc PBUF_POOL_BUFSIZE_ALIGNED;
  match p with
  | None => mret None
  | Some p =>
      let len := Z.min length (PBUF_POOL_BUFSIZE_ALIGNED - LWIP_MEM_ALIGN_SIZE offset) in
      passert (offset + len <=? PBUF_POOL_BUFSIZE_ALIGNED);;
      passert (0 <? PBUF_POOL_BUFSIZE_ALIGNED - LWIP_MEM_ALIGN_SIZE offset);;
      (* [flags] is not set yet *)
      update p (λ b, mk_pbuf None (p_mem b) offset length len PBUF_POOL (p_flags b) 1 (p_custom b));;
      (* each pbuf of the tail but the last takes a whole buffer *)
      alloc_tail (Z.to_nat length) p p (length - len)
  end.

Definition alloc_ram (offset length : Z) : prog heap (option loc) :=
  p ← mem_malloc (LWIP_MEM_ALIGN_SIZE (SIZEOF_STRUCT_PBUF + offset) - SIZEOF_STRUCT_PBUF
                  + LWIP_MEM_ALIGN_SIZE length);
  match p with
  | None => mret None
  | Some p =>
      update p (λ b, mk_pbuf None (p_mem b) offset length length PBUF_RAM (p_flags b)
                       (p_ref b) (p_custom b));;
      mret (Some p)
  end.

(** For [PBUF_ROM] and [PBUF_REF] the caller sets the payload. *)
Definition alloc_ref (type : pbuf_type) (length : Z) : prog heap (option loc) :=
  p ← mem_malloc 0;
  match p with
  | None => mret None
  | Some p =>
      update p (λ b, mk_pbuf None [] 0 length length type (p_flags b) (p_ref b) (p_custom b));;
      mret (Some p)
  end.

Definition pbuf_alloc (layer : pbuf_layer) (length : Z) (type : pbuf_type)
    : prog heap (option loc) :=
  let offset := layer_offset layer in
  p ← match type with
      | PBUF_POOL => alloc_pool offset length
      | PBUF_RAM => alloc_ram offset length
      | PBUF_ROM | PBUF_REF => alloc_ref type length
      end;
  match p with
  | None => mret None
  | Some l => update l (λ b, with_flags 0 (with_ref 1 b));; mret (Some l)
  end.

(** [p] is the address of a [pbuf_custom]; [mem] is the memory at
    [payload_mem], [payload_mem_len] bytes long. *)
Definition pbuf_alloced_custom (layer : pbuf_layer) (length : Z) (type : pbuf_type)
    (p : loc) (f : CF) (mem : bytes) : prog heap (option loc) :=
  let offset := LWIP_MEM_ALIGN_SIZE (layer_offset layer) in
  if zlen mem <? offset + length then mret None
  else
    pmodify (<[p:=mk_pbuf None mem offset length length type PBUF_FLAG_IS_CUSTOM 1 (Some f)]>);;
    mret (Some p).

(** ** Resizing *)

(** The walk to the new last pbuf, which keeps [rem_len] bytes. *)
Fixpoint realloc_walk (fuel : nat) (q : loc) (rem_len grow : Z) : prog heap (loc * Z) :=
  match fuel with
  | O => pfault Hang
  | S fuel' =>
      b ← deref q;
      if p_len b <? rem_len then
        passert (grow <? 0xffff);;
        update q (with_tot (u16 (p_tot_len b + u16 grow)));;
        match p_next b with
        | None => pfault Abort
        | Some q' => realloc_walk fuel' q' (u16 (rem_len - p_len b)) grow
        end
      else mret (q, rem_len)
  end.

Definition pbuf_realloc (p : option loc) (new_len : Z) : prog heap unit :=
  match p with
  | None => pfault Abort
  | Some p =>
      b ← deref p;
      if p_tot_len b <=? new_len then mret ()
      else
        '(q, rem_len) ← walk _ (λ fuel, realloc_walk fuel p new_len (new_len - p_tot_len b));
        c ← deref q;
        (* [mem_trim] gives back what is behind the kept bytes *)
        (if bool_decide (p_type c = PBUF_RAM) && negb (rem_len =? p_len c) then
           update q (with_mem (take (Z.to_nat (p_payload c + rem_len)) (p_mem c)))
         else mret ());;
        update q (λ c, with_tot rem_len (with_len rem_len c));;
        (match p_next c with
         | Some n => pbuf_free (Some n);; mret ()
         | None => mret ()
         end);;
        update q (with_next None)
  end.

(** [true] stands for the return value 0, [false] for 1. *)
Definition pbuf_header (p : option loc) (header_size_increment : Z) : prog heap bool :=
  match p with
  | None => pfault Abort
  | Some p =>
      if header_size_increment =? 0 then mret true
      else
        b ← deref p;
        passert ((0 <? header_size_increment) || (- header_size_increment <=? p_len b));;
        let moved :=
          match p_type b with
          | PBUF_RAM | PBUF_POOL =>
              let payload := p_payload b - header_size_increment in
              if payload <? 0 then None else Some payload
          | PBUF_REF | PBUF_ROM =>
              if header_size_increment <? 0
              then Some (p_payload b - header_size_increment) else None
          end in
        match moved with
        | None => mret false
        | Some payload =>
            update p (λ b, with_tot (u16 (p_tot_len b + header_size_increment))
                       (with_len (u16 (p_len b + header_size_increment))
                          (with_payload payload b)));;
            mret true
        end
  end.

(** ** Chains *)

Fixpoint clen_loop (fuel : nat) (p : option loc) (len : Z) : prog heap Z :=
  match p with
  | None => mret len
  | Some l =>
      match fuel with
      | O => pfault Hang
      | S fuel' => b ← deref l; clen_loop fuel' (p_next b) (u8 (len + 1))
      end
  end.

Definition pbuf_clen (p : option loc) : prog heap Z := walk Z (λ fuel, clen_loop fuel p 0).

Definition pbuf_ref (p : option loc) : prog heap unit :=
  match p with
  | None => mret ()
  | Some l => update l (λ b, with_ref (u16 (p_ref b + 1)) b)
  end.

(** The loop to the last pbuf of [h], which adds the length of [t] on its way. *)
Fixpoint cat_walk (fuel : nat) (p t : loc) : prog heap loc :=
  match fuel with
  | O => pfault Hang
  | S fuel' =>
      b ← deref p;
      match p_next b with
      | None => mret p
      | Some p' =>
          c ← deref t;
          update p (λ b, with_tot (u16 (p_tot_len b + p_tot_len c)) b);;
          cat_walk fuel' p' t
      end
  end.

Definition pbuf_cat (h t : option loc) : prog heap unit :=
  match h, t with
  | Some h, Some t =>
      p ← walk loc (λ fuel, cat_walk fuel h t);
      b ← deref p;
      passert (p_tot_len b =? p_len b);;
      c ← deref t;
      update p (λ b, with_tot (u16 (p_tot_len b + p_tot_len c)) b);;
      update p (with_next (Some t))
  | _, _ => pfault Abort
  end.

Definition pbuf_chain (h t : option loc) : prog heap unit :=
  pbuf_cat h t;; pbuf_ref t.

Definition pbuf_dechain (p : loc) : prog heap (option loc) :=
  b ← deref p;
  tail_gone ← match p_next b with
    | None => mret 1
    | Some q =>
        c ← deref q;
        passert (p_tot_len c =? p_tot_len b - p_len b);;
        update q (with_tot (u16 (p_tot_len b - p_len b)));;
        update p (λ b, with_tot (p_len b) (with_next None b));;
        pbuf_free (Some q)
    end;
  b' ← deref p;
  passert (p_tot_len b' =? p_len b');;
  mret (if 0 <? tail_gone then None else p_next b).

(** ** Copying *)

(** The [do ... while (p_from)] loop.  Every iteration finishes a pbuf of one
    of the chains. *)
Fixpoint copy_loop (fuel : nat) (p_to p_from : loc) (offset_to offset_from : Z)
    : prog heap err_t :=
  match fuel with
  | O => pfault Hang
  | S fuel' =>
      t ← deref p_to; f ← deref p_from;
      let len := if p_len f - offset_from <=? p_len t - offset_to
                 then p_len f - offset_from else p_len t - offset_to in
      d ← pread p_from offset_from (u16 len);
      pwrite p_to offset_to d;;
      let offset_to := u16 (offset_to + u16 len) in
      let offset_from := u16 (offset_from + u16 len) in
      passert (offset_to <=? p_len t);;
      passert (offset_from <=? p_len f);;
      let '(from', offset_from) :=
        if p_len f <=? offset_from then (p_next f, 0) else (Some p_from, offset_from) in
      let '(to', offset_to) :=
        if offset_to =? p_len t then (p_next t, 0) else (Some p_to, offset_to) in
      passert (negb (bool_decide (to' = None) && bool_decide (from' ≠ None)));;
      (match from' with
       | Some l => c ← deref l;
           passert (negb (p_len c =? p_tot_len c) || bool_decide (p_next c = None))
       | None => mret ()
       end);;
      (match to' with
       | Some l => c ← deref l;
           passert (negb (p_len c =? p_tot_len c) || bool_decide (p_next c = None))
       | None => mret ()
       end);;
      match from', to' with
      | None, _ => mret ERR_OK
      | Some from', Some to' => copy_loop fuel' to' from' offset_to offset_from
      | Some _, None => pfault Abort
      end
  end.

Definition pbuf_copy (p_to p_from : option loc) : prog heap err_t :=
  match p_to, p_from with
  | Some t, Some f =>
      bt ← deref t; bf ← deref f;
      passert (p_tot_len bf <=? p_tot_len bt);;
      h ← pget; copy_loop (S (size h + size h)) t f 0 0
  | _, _ => pfault Abort
  end.

(** The bytes copied to [dataptr], with the return value. *)
Fixpoint copy_partial_loop (fuel : nat) (p : option loc) (len offset : Z) (acc : bytes)
    : prog heap (Z * bytes) :=
  if len =? 0 then mret (u16 (zlen acc), acc)
  else
    match p with
    | None => mret (u16 (zlen acc), acc)
    | Some l =>
        match fuel with
        | O => pfault Hang
        | S fuel' =>
            b ← deref l;
            if negb (offset =? 0) && (p_len b <=? offset) then
              copy_partial_loop fuel' (p_next b) len (u16 (offset - p_len b)) acc
            else
              let n := u16 (p_len b - offset) in
              let n := if len <? n then len else n in
              d ← pread l offset n;
              copy_partial_loop fuel' (p_next b) (u16 (len - n)) 0 (acc ++ d)
        end
    end.

Definition pbuf_copy_partial (buf : option loc) (len offset : Z) : prog heap (Z * bytes) :=
  match buf with
  | None => pfault Abort
  | Some _ => walk _ (λ fuel, copy_partial_loop fuel buf len offset [])
  end.

(** [data]: what is left to copy from [dataptr]. *)
Fixpoint take_loop (fuel : nat) (p : option loc) (total_copy_len : Z) (data : bytes)
    : prog heap err_t :=
  if total_copy_len =? 0 then mret ERR_OK
  else
    match p with
    | None => pfault Abort
    | Some l =>
        match fuel with
        | O => pfault Hang
        | S fuel' =>
            b ← deref l;
            let n := if p_len b <? total_copy_len then p_len b else total_copy_len in
            (if n <=? zlen data then mret () else pfault Wild);;
            pwrite l 0 (take (Z.to_nat n) data);;
            take_loop fuel' (p_next b) (u16 (total_copy_len - n)) (drop (Z.to_nat n) data)
        end
    end.

Definition pbuf_take (buf : option loc) (data : bytes) (len : Z) : prog heap err_t :=
  match buf with
  | None => pfault Abort
  | Some l =>
      b ← deref l;
      if p_tot_len b <? len then mret ERR_ARG
      else walk _ (λ fuel, take_loop fuel buf len data)
  end.

Definition pbuf_coalesce (p : loc) (layer : pbuf_layer) : prog heap (option loc) :=
  b ← deref p;
  match p_next b with
  | None => mret (Some p)
  | Some _ =>
      q ← pbuf_alloc layer (p_tot_len b) PBUF_RAM;
      match q with
      | None => mret (Some p)
      | Some q =>
          err ← pbuf_copy (Some q) (Some p);
          passert (bool_decide (err = ERR_OK));;
          pbuf_free (Some p);;
          mret (Some q)
      end
  end.

(** ** Searching *)

(** The pbuf that holds the byte at [from], and its position there. *)
Fixpoint seek (fuel : nat) (q : option loc) (from : Z) : prog heap (option (loc * Z)) :=
  match q with
  | None => mret None
  | Some l =>
      match fuel with
      | O => pfault Hang
      | S fuel' =>
          b ← deref l;
          if p_len b <=? from then seek fuel' (p_next b) (u16 (from - p_len b))
          else mret (Some (l, from))
      end
  end.

Definition pbuf_get_at (p : option loc) (offset : Z) : prog heap Z :=
  r ← walk _ (λ fuel, seek fuel p offset);
  match r with
  | Some (l, from) => d ← pread l from 1; mret (cur d)
  | None => mret 0
  end.

(** The comparison loop from index [i] on. *)
Fixpoint memcmp_loop (q : loc) (start i : Z) (s2 : bytes) : prog heap Z :=
  match s2 with
  | [] => mret 0
  | b :: s2' =>
      a ← pbuf_get_at (Some q) (u16 (start + i));
      if a =? b then memcmp_loop q start (i + 1) s2' else mret (u16 (i + 1))
  end.

Definition pbuf_memcmp (p : option loc) (offset : Z) (s2 : bytes) : prog heap Z :=
  r ← walk _ (λ fuel, seek fuel p offset);
  match r with
  | Some (q, start) => memcmp_loop q start 0 s2
  | None => mret 0xffff
  end.

Fixpoint memfind_loop (fuel : nat) (p : loc) (mem : bytes) (i max : Z) : prog heap Z :=
  if max <? i then mret 0xffff
  else
    match fuel with
    | O => pfault Hang
    | S fuel' =>
        plus ← pbuf_memcmp (Some p) i mem;
        if plus =? 0 then mret i else memfind_loop fuel' p mem (u16 (i + 1)) max
    end.

Definition pbuf_memfind (p : loc) (mem : bytes) (start_offset : Z) : prog heap Z :=
  b ← deref p;
  let max := u16 (p_tot_len b - zlen mem) in
  if zlen mem + start_offset <=? p_tot_len b then memfind_loop (Z.to_nat 65536) p mem start_offset max
  else mret 0xffff.

Definition pbuf_strstr (p : loc) (substr : bytes) : prog heap Z :=
  b ← deref p;
  if (cur substr =? 0) || (p_tot_len b =? 0xffff) then mret 0xffff
  else if 0xffff <=? zlen substr then mret 0xffff
  else pbuf_memfind p substr 0.

End pbuf.
End Pbuf.
