(* ===== verification/PbufChain.v ===== *)
(** * Chains of packet buffers

    The chain that starts at a pointer, as the list of its pbufs, with the data
    it carries; when a chain is well-formed; and the reading operations of
    [pbuf.c] ([pbuf_clen], [pbuf_copy_partial], [pbuf_get_at], [pbuf_memcmp],
    [pbuf_memfind], [pbuf_strstr]) in terms of its data. *)

From S2P Require Import Prelude Linked Pbuf.

Module PbufChain.
Import Linked Pbuf.

(** The pbufs linked by their [next] fields, from a pointer on. *)
Abbreviation chain_at := (linked p_next).

Section chain.
Context {CF : Type}.
Abbreviation pbuf := (pbuf CF).
Abbreviation heap := (heap CF).
Implicit Types (h : heap) (b : pbuf) (p : option loc) (l : loc).

(** ** Data *)

(** The bytes a pbuf carries. *)
Definition pdata b : bytes :=
  take (Z.to_nat (p_len b)) (drop (Z.to_nat (p_payload b)) (p_mem b)).

(** The payload lies inside the memory of the pbuf. *)
Definition pbuf_ok b : Prop :=
  0 ≤ p_payload b ∧ 0 ≤ p_len b ∧ p_payload b + p_len b ≤ zlen (p_mem b).

Definition data (ls : list (loc * pbuf)) : bytes := concat (pdata <$> ls.*2).

(** Every pbuf is sane, and [tot_len] is the length of the rest of the chain. *)
Fixpoint chain_wf (ls : list (loc * pbuf)) : Prop :=
  match ls with
  | [] => True
  | (_, b) :: ls' =>
      pbuf_ok b ∧ 1 ≤ p_ref b < 65536 ∧
      p_tot_len b = zlen (data ls) ∧ p_tot_len b < 65536 ∧ chain_wf ls'
  end.

#[export] Instance pbuf_ok_dec b : Decision (pbuf_ok b).
Proof. unfold pbuf_ok. apply _. Defined.
#[export] Instance chain_wf_dec ls : Decision (chain_wf ls).
Proof. induction ls as [|[l b] ls IH]; cbn [chain_wf]; apply _. Defined.

Lemma zlen_pdata b : pbuf_ok b → zlen (pdata b) = p_len b.
Proof.
  intros (? & ? & ?). unfold pdata, zlen in *. rewrite length_take, length_drop. lia.
Qed.

Lemma data_cons l b ls : data ((l, b) :: ls) = pdata b ++ data ls.
Proof. done. Qed.

Lemma data_app ls ls' : data (ls ++ ls') = data ls ++ data ls'.
Proof. unfold data. by rewrite !fmap_app, concat_app. Qed.

(** ** Steps of the model *)

Lemma deref_eq h l b : h !! l = Some b → deref l h = inr (b, h).
Proof. intros E. unfold deref. rewrite bind_get. by rewrite E. Qed.

Lemma bind_pb {A} h l b (k : _ → prog heap A) :
  h !! l = Some b → (deref l ≫= k) h = k b h.
Proof. intros E. by apply bind_ret, deref_eq. Qed.

Lemma update_eq h l b f : h !! l = Some b → update l f h = inr ((), <[l:=f b]> h).
Proof. intros E. unfold update. by rewrite (bind_pb _ _ _ _ E). Qed.

Lemma bind_up {A} h l b f (k : unit → prog heap A) :
  h !! l = Some b → (update l f ≫= k) h = k () (<[l:=f b]> h).
Proof. intros E. by apply bind_ret, update_eq. Qed.

Lemma pread_eq h l b off n :
  h !! l = Some b → pbuf_ok b → 0 ≤ off → 0 ≤ n → off + n ≤ p_len b →
  pread l off n h = inr (take (Z.to_nat n) (drop (Z.to_nat off) (pdata b)), h).
Proof.
  intros E (? & ? & ?) ? ? ?. unfold pread. rewrite (bind_pb _ _ _ _ E).
  rewrite (proj2 (Z.leb_le 0 _)), (proj2 (Z.leb_le (_ + _ + _) _)) by lia. cbn [andb].
  unfold pdata. rewrite skipn_firstn_comm, take_take, drop_drop.
  rewrite Nat.min_l by lia. rewrite <-Z2Nat.inj_add by lia. done.
Qed.

Lemma bind_pread {A} h l b off n (k : bytes → prog heap A) :
  h !! l = Some b → pbuf_ok b → 0 ≤ off → 0 ≤ n → off + n ≤ p_len b →
  (pread l off n ≫= k) h = k (take (Z.to_nat n) (drop (Z.to_nat off) (pdata b))) h.
Proof. intros. by apply bind_ret, pread_eq. Qed.

Lemma walk_eq {A} (f : nat → prog heap A) h : walk A f h = f (S (size h)) h.
Proof. done. Qed.

Lemma bind_walk {A B} (f : nat → prog heap A) (k : A → prog heap B) h :
  (walk A f ≫= k) h = (f (S (size h)) ≫= k) h.
Proof. done. Qed.

(** ** Reading *)

Lemma clen_loop_eq h p ls fuel n :
  chain_at h p ls → (length ls ≤ fuel)%nat → is_u8 n →
  clen_loop fuel p n h = inr (u8 (n + zlen ls), h).
Proof.
  intros H. revert fuel n. induction H as [|l b ls E H IH]; intros fuel n Hf Hn.
  - rewrite zlen_nil, Z.add_0_r, u8_id by done. by destruct fuel.
  - destruct fuel as [|fuel]; [simpl in Hf; lia|]. cbn [clen_loop].
    rewrite (bind_pb _ _ _ _ E), IH by (auto with cint; simpl in Hf; lia).
    rewrite zlen_cons. unfold u8. rewrite Zplus_mod_idemp_l. do 3 f_equal. lia.
Qed.

Lemma copy_partial_eq h p ls fuel len off acc :
  chain_at h p ls → chain_wf ls → (length ls ≤ fuel)%nat → is_u16 len → is_u16 off →
  let d := acc ++ take (Z.to_nat len) (drop (Z.to_nat off) (data ls)) in
  copy_partial_loop fuel p len off acc h = inr ((u16 (zlen d), d), h).
Proof.
  intros H. revert fuel len off acc.
  induction H as [|l b ls E H IH]; intros fuel len off acc Hwf Hf Hlen Hoff; cbv zeta.
  - destruct fuel; cbn [copy_partial_loop]; change (data []) with (@nil Z);
      rewrite drop_nil, take_nil, app_nil_r;
      by destruct (len =? 0).
  - destruct fuel as [|fuel]; [simpl in Hf; lia|]. cbn [copy_partial_loop].
    destruct Hwf as (Hok & _ & Htot & Hlt & Hwf). pose proof Hok as (_ & Hl0 & _).
    rewrite data_cons, zlen_app, zlen_pdata in Htot by done.
    pose proof (zlen_nonneg (data ls)). unfold is_u16 in *.
    destruct (Z.eqb_spec len 0) as [->|Hlen0]; [by rewrite take_0, app_nil_r|].
    rewrite (bind_pb _ _ _ _ E), data_cons. cbn [length] in Hf.
    assert (Hpl : length (pdata b) = Z.to_nat (p_len b))
      by (pose proof (zlen_pdata b Hok); unfold zlen in *; lia).
    destruct (negb (off =? 0) && (p_len b <=? off)) eqn:Hskip.
    + apply andb_true_iff in Hskip as [_ Hle%Z.leb_le].
      rewrite (u16_id (off - p_len b)), IH by (try done; unfold is_u16; lia).
      cbv zeta. rewrite (drop_app_ge (pdata b)), Hpl, Z2Nat.inj_sub by lia. done.
    + assert (Hin : off ≤ p_len b).
      { apply andb_false_iff in Hskip as [Hz|Hg]; [|apply Z.leb_gt in Hg; lia].
        apply negb_false_iff, Z.eqb_eq in Hz. lia. }
      rewrite (u16_id (p_len b - off)) by (unfold is_u16; lia).
      set (n := if len <? p_len b - off then len else p_len b - off).
      assert (Hn : n = Z.min len (p_len b - off)) by (unfold n; case_match; lia).
      rewrite (bind_pread _ _ _ _ _ _ E Hok) by lia.
      rewrite (u16_id (len - n)), IH by (try done; unfold is_u16; lia). cbv zeta. rewrite <-app_assoc.
      enough (take (Z.to_nat n) (drop (Z.to_nat off) (pdata b)) ++
        take (Z.to_nat (len - n)) (drop (Z.to_nat 0) (data ls)) =
        take (Z.to_nat len) (drop (Z.to_nat off) (pdata b ++ data ls))) as -> by done.
      rewrite drop_app_le by lia. rewrite take_app, length_drop, Hpl. change (Z.to_nat 0) with 0%nat.
      rewrite drop_0. f_equal; [|f_equal; lia].
      destruct (decide (n = len)) as [->|Hne]; [done|].
      rewrite !take_ge by (rewrite length_drop; lia). done.
Qed.

(** [pbuf_copy_partial] copies exactly the bytes [offset, offset + len) of
    the packet, however it is split into pbufs, or what there is of them, and
    returns how many that were. *)
Theorem pbuf_copy_partial_spec h l ls len offset :
  chain_at h (Some l) ls → chain_wf ls → is_u16 len → is_u16 offset →
  let d := take (Z.to_nat len) (drop (Z.to_nat offset) (data ls)) in
  pbuf_copy_partial (Some l) len offset h = inr ((zlen d, d), h).
Proof.
  intros H Hwf Hlen Hoff d. unfold pbuf_copy_partial. rewrite walk_eq.
  pose proof (linked_length _ _ _ H).
  rewrite (copy_partial_eq _ _ ls) by (try done; lia). cbn [app]. cbv zeta. fold d.
  rewrite u16_id; [done|]. pose proof (zlen_nonneg d).
  assert (zlen d ≤ len) by (subst d; unfold zlen; rewrite length_take; unfold is_u16 in *; lia).
  unfold is_u16 in *. lia.
Qed.

(** ** Searching *)

Lemma chain_wf_app ls1 ls2 : chain_wf (ls1 ++ ls2) → chain_wf ls2.
Proof. induction ls1 as [|[l b] ls1 IH]; [done|]. intros (_ & _ & _ & _ & H). auto. Qed.

Lemma chain_wf_len l b ls : 
  chain_wf ((l, b) :: ls) →
  0 ≤ p_len b ≤ zlen (data ((l, b) :: ls)) ∧ zlen (data ((l, b) :: ls)) < 65536.
Proof.
  intros (Hok & _ & Htot & Hlt & _). rewrite data_cons, zlen_app, zlen_pdata in * by done.
  pose proof (zlen_nonneg (data ls)). destruct Hok as (_ & ? & _). lia.
Qed.

(** [seek] finds the pbuf that holds the byte at [from]. *)
Lemma seek_eq h p ls fuel from :
  chain_at h p ls → chain_wf ls → (length ls ≤ fuel)%nat → 0 ≤ from < 65536 →
  (from < zlen (data ls) ∧ ∃ ls1 l b ls2, ls = ls1 ++ (l, b) :: ls2 ∧
     seek fuel p from h = inr (Some (l, from - zlen (data ls1)), h) ∧
     chain_at h (Some l) ((l, b) :: ls2) ∧ 0 ≤ from - zlen (data ls1) < p_len b) ∨
  (zlen (data ls) ≤ from ∧ seek fuel p from h = inr (None, h)).
Proof.
  intros H. revert fuel from.
  induction H as [|l b ls E H IH]; intros fuel from Hwf Hf Hfrom.
  { right. change (data []) with (@nil Z). rewrite zlen_nil. split; [lia|]. by destruct fuel. }
  destruct fuel as [|fuel]; [simpl in Hf; lia|]. cbn [seek]. rewrite (bind_pb _ _ _ _ E).
  pose proof (chain_wf_len _ _ _ Hwf) as Hl. destruct Hwf as (Hok & _ & _ & _ & Hwf).
  rewrite data_cons, zlen_app, zlen_pdata in * by done.
  destruct (Z.leb_spec (p_len b) from) as [Hle|Hgt].
  - rewrite u16_id by (unfold is_u16; lia).
    destruct (IH fuel (from - p_len b)) as [(Hlt & ls1 & l' & b' & ls2 & -> & Hs & Hc & Hr)|[Hge Hs]];
      try done; [simpl in Hf; lia|lia|left|right].
    + split; [lia|]. exists ((l, b) :: ls1), l', b', ls2. split_and!; [done| |done|..];
        rewrite data_cons, zlen_app, zlen_pdata by done; [|lia..].
      rewrite Hs. do 4 f_equal. lia.
    + split; [lia|done].
  - left. pose proof (zlen_nonneg (data ls)). split; [lia|]. exists [], l, b, ls.
    change (data []) with (@nil Z). rewrite zlen_nil, Z.sub_0_r.
    split_and!; [done|done|by constructor|lia|lia].
Qed.

(** One byte of the packet, or 0 behind its end. *)
Lemma pbuf_get_at_eq h p ls off :
  chain_at h p ls → chain_wf ls → 0 ≤ off < 65536 →
  pbuf_get_at p off h = inr (nth (Z.to_nat off) (data ls) 0, h).
Proof.
  intros H Hwf Hoff. pose proof (linked_length _ _ _ H). unfold pbuf_get_at. rewrite bind_walk.
  destruct (seek_eq h p ls (S (size h)) off H Hwf ltac:(lia) Hoff)
    as [(Hlt & ls1 & l & b & ls2 & -> & Hs & Hc & Hr)|[Hge Hs]].
  - rewrite (bind_ret _ _ _ _ _ Hs).
    apply chain_wf_app in Hwf as (Hok & _). inversion Hc; subst.
    rewrite (bind_pread _ _ b) by (done || lia). unfold mret, prog_ret. do 2 f_equal.
    rewrite data_app, data_cons. rewrite app_nth2 by (unfold zlen in *; lia).
    assert (length (pdata b) = Z.to_nat (p_len b))
      by (pose proof (zlen_pdata b Hok); unfold zlen in *; destruct Hok; lia).
    rewrite app_nth1 by (unfold zlen in *; lia).
    replace (Z.to_nat off - length (data ls1))%nat with (Z.to_nat (off - zlen (data ls1)))
      by (unfold zlen; lia).
    change (Z.to_nat 1) with 1%nat. set (k := Z.to_nat (off - zlen (data ls1))).
    rewrite <-(take_drop k (pdata b)) at 2. rewrite app_nth2 by (rewrite length_take; lia).
    rewrite length_take, Nat.min_l, Nat.sub_diag by (unfold k, zlen in *; lia).
    by destruct (drop k (pdata b)).
  - rewrite (bind_ret _ _ _ _ _ Hs). unfold mret, prog_ret. do 2 f_equal.
    symmetry. apply nth_overflow. unfold zlen in Hge. lia.
Qed.

(** The bytes [s] are in [d] at position [i]. *)
Definition occurs (s d : bytes) (i : Z) : Prop :=
  take (length s) (drop (Z.to_nat i) d) = s.

#[export] Instance occurs_dec s d i : Decision (occurs s d i).
Proof. unfold occurs. apply _. Defined.

Lemma occurs_cons c s d i :
  0 ≤ i < zlen d → occurs (c :: s) d i ↔ nth (Z.to_nat i) d 0 = c ∧ occurs s d (i + 1).
Proof.
  intros Hi. unfold occurs, zlen in *. rewrite Z2Nat.inj_add by lia.
  change (Z.to_nat 1) with 1%nat. rewrite <-drop_drop.
  rewrite <-(take_drop (Z.to_nat i) d) at 2.
  rewrite app_nth2 by (rewrite length_take; lia).
  rewrite length_take, Nat.min_l, Nat.sub_diag by lia.
  destruct (drop (Z.to_nat i) d) as [|x d'] eqn:E.
  - apply (f_equal length) in E. rewrite length_drop in E. simpl in E. lia.
  - cbn [length take drop nth]. rewrite drop_0. split; [by intros [= -> ->]|].
    by intros [-> ->].
Qed.

Lemma memcmp_loop_eq h q ls start i s :
  chain_at h (Some q) ls → chain_wf ls → 0 ≤ start → 0 ≤ i →
  start + i + zlen s ≤ zlen (data ls) →
  ∃ r, memcmp_loop q start i s h = inr (r, h) ∧ (r = 0 ↔ occurs s (data ls) (start + i)).
Proof.
  intros H Hwf Hs0. destruct (linked_some_inv _ _ _ H) as (b & ls' & -> & _ & _).
  pose proof (proj2 (chain_wf_len _ _ _ Hwf)) as Hlt. set (d := data _) in *.
  revert i. induction s as [|c s IH]; intros i Hi Hlen.
  { exists 0. split; [done|]. unfold occurs. split; [done|by rewrite take_0]. }
  rewrite zlen_cons in Hlen. pose proof (zlen_nonneg s).
  cbn [memcmp_loop]. rewrite (u16_id (start + i)) by (unfold is_u16; lia).
  rewrite (bind_ret _ _ _ _ _ (pbuf_get_at_eq _ _ _ (start + i) H Hwf ltac:(lia))).
  fold d. pose proof (occurs_cons c s d (start + i) ltac:(lia)) as Ho. destruct (Z.eqb_spec (nth (Z.to_nat (start + i)) d 0) c).
  - destruct (IH (i + 1) ltac:(lia) ltac:(lia)) as (r & -> & Hr). exists r. split; [done|].
    rewrite Hr, Ho. replace (start + (i + 1)) with (start + i + 1) by lia. tauto.
  - eexists. split; [done|]. rewrite (u16_id (i + 1)), Ho by (unfold is_u16; lia).
    split; [lia|]. by intros [? _].
Qed.

Lemma occurs_app s d1 d2 i :
  zlen d1 ≤ i → occurs s (d1 ++ d2) i ↔ occurs s d2 (i - zlen d1).
Proof.
  intros Hi. unfold occurs, zlen in *. rewrite drop_app_ge by lia.
  by replace (Z.to_nat i - length d1)%nat with (Z.to_nat (i - Z.of_nat (length d1))) by lia.
Qed.

Lemma pbuf_memcmp_eq h p ls off s :
  chain_at h p ls → chain_wf ls → 0 ≤ off → 0 < zlen s → off + zlen s ≤ zlen (data ls) →
  ∃ r, pbuf_memcmp p off s h = inr (r, h) ∧ (r = 0 ↔ occurs s (data ls) off).
Proof.
  intros H Hwf Hoff Hs Hlen. unfold pbuf_memcmp. rewrite bind_walk.
  pose proof (linked_length _ _ _ H).
  assert (zlen (data ls) < 65536).
  { destruct ls as [|[l b] ls]; [done|]. apply chain_wf_len in Hwf. lia. }
  destruct (seek_eq h p ls (S (size h)) off H Hwf ltac:(lia) ltac:(lia))
    as [(_ & ls1 & l & b & ls2 & -> & Hsk & Hc & Hr)|[? _]]; [|lia].
  rewrite (bind_ret _ _ _ _ _ Hsk). rewrite data_app in *.
  destruct (memcmp_loop_eq h l ((l, b) :: ls2) (off - zlen (data ls1)) 0 s)
    as (r & -> & Heq); [done|by eapply chain_wf_app|lia|lia|rewrite zlen_app in Hlen; lia|].
  exists r. split; [done|]. rewrite Heq, Z.add_0_r, occurs_app by lia. done.
Qed.

(** Where [s] occurs first in [d] from [start] on; 0xffff if nowhere. *)
Definition first_occurrence (s d : bytes) (start r : Z) : Prop :=
  (start ≤ r ∧ r + zlen s ≤ zlen d ∧ occurs s d r ∧ ∀ i, start ≤ i < r → ¬ occurs s d i) ∨
  (r = 0xffff ∧ ∀ i, start ≤ i → i + zlen s ≤ zlen d → ¬ occurs s d i).

Lemma memfind_loop_eq h (p : loc) ls s fuel i0 i :
  chain_at h (Some p) ls → chain_wf ls → 0 < zlen s → 0 ≤ i0 ≤ i →
  (zlen (data ls) - zlen s < Z.of_nat fuel + i) → i ≤ zlen (data ls) - zlen s + 1 →
  zlen s ≤ zlen (data ls) →
  (∀ j, i0 ≤ j < i → ¬ occurs s (data ls) j) →
  ∃ r, memfind_loop fuel p s i (zlen (data ls) - zlen s) h = inr (r, h) ∧
       first_occurrence s (data ls) i0 r.
Proof.
  intros H Hwf Hs. destruct (linked_some_inv _ _ _ H) as (b & ls' & -> & _ & _).
  pose proof (proj2 (chain_wf_len _ _ _ Hwf)) as Hlt. set (d := data _) in *.
  revert i. induction fuel as [|fuel IH]; intros i Hi Hf Hmax Hle Hno; cbn [memfind_loop].
  { rewrite (proj2 (Z.ltb_lt _ _)) by lia. exists 0xffff. split; [done|]. right.
    split; [done|]. intros j ? ?. apply Hno. lia. }
  destruct (Z.ltb_spec (zlen d - zlen s) i).
  { exists 0xffff. split; [done|]. right. split; [done|]. intros j ? ?. apply Hno. lia. }
  destruct (pbuf_memcmp_eq h (Some p) _ i s H Hwf) as (r & E & Hr); [lia|done|fold d; lia|].
  rewrite (bind_ret _ _ _ _ _ E). fold d in Hr. destruct (Z.eqb_spec r 0) as [Hr0|Hr0].
  - exists i. split; [done|]. left. split_and!; [lia|lia|by apply Hr|done].
  - rewrite u16_id by (unfold is_u16; lia). apply IH; try lia.
    intros j Hj. destruct (decide (j = i)) as [->|]; [|apply Hno; lia]. by rewrite <-Hr.
Qed.

(** [pbuf_memfind] finds the first occurrence of [mem] at or behind
    [start_offset], also one that straddles pbufs, and returns 0xffff exactly
    when there is none. *)
Theorem pbuf_memfind_spec h (p : loc) ls mem start_offset :
  chain_at h (Some p) ls → chain_wf ls → 0 < zlen mem → 0 ≤ start_offset →
  ∃ r, pbuf_memfind p mem start_offset h = inr (r, h) ∧
       first_occurrence mem (data ls) start_offset r.
Proof.
  intros H Hwf Hm Hs. destruct (linked_some_inv _ _ _ H) as (b & ls' & -> & E & _).
  pose proof (proj2 (chain_wf_len _ _ _ Hwf)) as Hlt. pose proof Hwf as (_ & _ & Htot & _).
  unfold pbuf_memfind. rewrite (bind_pb _ _ _ _ E), Htot.
  destruct (Z.leb_spec (zlen mem + start_offset) (zlen (data ((p, b) :: ls')))).
  - rewrite u16_id by (unfold is_u16; lia). apply memfind_loop_eq; try done; lia.
  - exists 0xffff. split; [done|]. right. split; [done|]. intros; lia.
Qed.

End chain.

(** ** Witnesses *)

(** A packet in two pbufs, the first with two spare bytes in front. *)
Definition hello1 : pbuf Empty_set :=
  mk_pbuf (Some 2%positive) (str "..hello ") 2 11 6 PBUF_POOL 0 1 None.
Definition hello2 : pbuf Empty_set := mk_pbuf None (str "world") 0 5 5 PBUF_POOL 0 1 None.
Definition hello_heap : heap Empty_set := <[1%positive:=hello1]> {[2%positive:=hello2]}.
Definition hello : list (loc * pbuf Empty_set) := [(1%positive, hello1); (2%positive, hello2)].

Lemma hello_chain : chain_at hello_heap (Some 1%positive) hello.
Proof. repeat constructor. Qed.

Lemma pbuf_copy_partial_spec_witness :
  pbuf_copy_partial (Some 1%positive) 4 4 hello_heap = inr ((4, str "o wo"), hello_heap).
Proof. apply (pbuf_copy_partial_spec _ _ hello 4 4 hello_chain); cdec. Defined.

Lemma pbuf_memfind_spec_witness :
  ∃ r, pbuf_memfind 1%positive (str "o w") 1 hello_heap = inr (r, hello_heap) ∧
       first_occurrence (str "o w") (str "hello world") 1 r.
Proof. apply (pbuf_memfind_spec _ _ hello _ 1 hello_chain); cdec. Defined.

End PbufChain.
