(* ===== verification/PbufOps.v ===== *)
(** * Operations on chains of packet buffers

    What the operations of [pbuf.c] that change chains do to the data and to
    the well-formedness of a chain: [pbuf_free], [pbuf_header], [pbuf_cat],
    [pbuf_realloc], [pbuf_take], [pbuf_copy] and [pbuf_alloc]. *)

From S2P Require Import Prelude Pbuf Linked PbufChain.

Module PbufOps.
Import Pbuf Linked PbufChain.

Section ops.
Context {CF : Type} (custom_free : CF → loc → prog (heap CF) unit).
Abbreviation pbuf := (pbuf CF).
Abbreviation heap := (heap CF).
Abbreviation pchain := (list (loc * pbuf)).
Implicit Types (h : heap) (b : pbuf) (l : loc) (ls : pchain).

(** ** Freeing *)

(** Not a custom pbuf. *)
Definition plain b : Prop := Z.land (p_flags b) PBUF_FLAG_IS_CUSTOM = 0.

(** Nobody but the chain refers to the pbuf. *)
Definition owned (x : loc * pbuf) : Prop := p_ref (snd x) = 1 ∧ plain (snd x).

(** The heap after the references of the chain were dropped: the pbufs up to
    the first one that has another reference are gone. *)
Fixpoint dropped ls h : heap :=
  match ls with
  | [] => h
  | (l, b) :: ls' =>
      if p_ref b =? 1 then dropped ls' (delete l h) else <[l:=with_ref (p_ref b - 1) b]> h
  end.

Fixpoint drop_count ls : Z :=
  match ls with
  | [] => 0
  | (l, b) :: ls' => if p_ref b =? 1 then 1 + drop_count ls' else 0
  end.

Lemma free_loop_eq h p ls fuel n :
  chain_at h p ls → Forall (λ x, 1 ≤ p_ref (snd x) < 65536 ∧ plain (snd x)) ls →
  (length ls ≤ fuel)%nat → is_u8 n →
  free_loop custom_free fuel p n h = inr (u8 (n + drop_count ls), dropped ls h).
Proof.
  revert h p fuel n. induction ls as [|[l b] ls IH]; intros h p fuel n Hc Hls Hf Hn.
  { inversion Hc; subst. simpl. rewrite Z.add_0_r, u8_id by done. by destruct fuel. }
  destruct fuel as [|fuel]; [simpl in Hf; lia|].
  inversion Hls as [|? ? [Href Hpl] Hls']; subst. simpl in Href, Hpl.
  inversion Hc as [|? ? ? E' Hc']; subst.
  cbn [free_loop dropped drop_count]. rewrite (bind_pb _ _ _ _ E').
  rewrite bind_assert by (apply Z.ltb_lt; lia). rewrite u16_id by (unfold is_u16; lia).
  rewrite (bind_up _ _ _ _ _ E').
  destruct (Z.eqb_spec (p_ref b) 1) as [Hr1|Hr1].
  - rewrite (proj2 (Z.eqb_eq (p_ref b - 1) 0)) by lia. unfold pbuf_dealloc.
    erewrite bind_ret.
    2:{ rewrite (bind_pb _ _ (with_ref (p_ref b - 1) b)) by by rewrite lookup_insert_eq.
        simpl. rewrite Hpl. reflexivity. }
    rewrite delete_insert_eq.
    pose proof (linked_nodup _ _ _ Hc) as Hnd. inversion Hnd; subst.
    rewrite IH; [|by apply linked_delete_ne|done|simpl in Hf; lia|auto with cint].
    do 2 f_equal. unfold u8. rewrite Zplus_mod_idemp_l. f_equal. lia.
  - rewrite (proj2 (Z.eqb_neq (p_ref b - 1) 0)) by lia.
    rewrite Z.add_0_r, u8_id by done. done.
Qed.

Lemma wf_refs ls :
  chain_wf ls → Forall (λ x, plain (snd x)) ls →
  Forall (λ x, 1 ≤ p_ref (snd x) < 65536 ∧ plain (snd x)) ls.
Proof.
  induction ls as [|[l b] ls IH]; intros Hwf Hp; [constructor|].
  destruct Hwf as (_ & ? & _ & _ & ?). inversion Hp; subst. constructor; auto.
Qed.

Lemma pbuf_free_eq h l ls :
  chain_at h (Some l) ls → Forall (λ x, 1 ≤ p_ref (snd x) < 65536 ∧ plain (snd x)) ls →
  pbuf_free custom_free (Some l) h = inr (u8 (drop_count ls), dropped ls h).
Proof.
  intros H Hls. destruct (linked_some_inv _ _ _ H) as (b & ls' & -> & E & _).
  unfold pbuf_free. rewrite (bind_pb _ _ _ _ E), walk_eq.
  pose proof (linked_length _ _ _ H).
  rewrite (free_loop_eq _ _ ((l, b) :: ls')) by (try done; lia). done.
Qed.

Lemma dropped_other ls h l : l ∉ ls.*1 → dropped ls h !! l = h !! l.
Proof.
  revert h. induction ls as [|[l' b] ls IH]; intros h Hl; [done|]. cbn [dropped].
  apply not_elem_of_cons in Hl as [Hne Hl]. case_match.
  - rewrite IH by done. by rewrite lookup_delete_ne.
  - by rewrite lookup_insert_ne.
Qed.

Lemma dropped_insert ls h l b :
  l ∉ ls.*1 → dropped ls (<[l:=b]> h) = <[l:=b]> (dropped ls h).
Proof.
  revert h. induction ls as [|[l' b'] ls IH]; intros h Hl; [done|]. cbn [dropped].
  apply not_elem_of_cons in Hl as [Hne Hl]. case_match.
  - rewrite <-IH by done. f_equal. by apply delete_insert_ne.
  - by apply insert_insert_ne.
Qed.

Lemma dropped_owned ls h l :
  Forall (λ x, p_ref (snd x) = 1) ls → l ∈ ls.*1 → dropped ls h !! l = None.
Proof.
  revert h. induction ls as [|[l' b] ls IH]; intros h Hls Hl; [by apply elem_of_nil in Hl|].
  inversion Hls as [|? ? Hr Hls']; subst. simpl in Hr. cbn [dropped]. rewrite Hr, Z.eqb_refl.
  destruct (decide (l ∈ ls.*1)); [by apply IH|].
  rewrite dropped_other by done. apply elem_of_cons in Hl as [->|]; [|done].
  by rewrite lookup_delete_eq.
Qed.

Lemma dropped_app pre rest h :
  Forall (λ x, p_ref (snd x) = 1) pre →
  dropped (pre ++ rest) h = dropped rest (dropped pre h) ∧
  drop_count (pre ++ rest) = zlen pre + drop_count rest.
Proof.
  revert h. induction pre as [|[l b] pre IH]; intros h Hpre; [done|].
  inversion Hpre as [|? ? Hr Hpre']; subst. simpl in Hr. cbn [app dropped drop_count].
  rewrite Hr, Z.eqb_refl, zlen_cons. destruct (IH (delete l h) Hpre') as [-> ->].
  split; [done|lia].
Qed.

(** C20: [pbuf_free] drops one reference to the chain.  The pbufs in front of
    the first one with another reference are deallocated, that one loses one
    reference, everything else is as before; the result is the number of
    deallocated pbufs (as a byte). *)
Theorem pbuf_free_spec h l pre rest :
  chain_at h (Some l) (pre ++ rest) → chain_wf (pre ++ rest) →
  Forall (λ x, plain (snd x)) (pre ++ rest) → Forall (λ x, p_ref (snd x) = 1) pre →
  match rest with [] => True | (_, b) :: _ => p_ref b ≠ 1 end →
  ∃ h', pbuf_free custom_free (Some l) h = inr (u8 (zlen pre), h') ∧
    ∀ l', h' !! l' =
      if decide (l' ∈ pre.*1) then None
      else match rest with
           | (l0, b0) :: _ => if decide (l' = l0) then Some (with_ref (p_ref b0 - 1) b0)
                              else h !! l'
           | [] => h !! l'
           end.
Proof.
  intros H Hwf Hpl Hpre Hrest. pose proof (linked_nodup _ _ _ H) as Hnd.
  destruct (dropped_app pre rest h Hpre) as [E1 E2].
  exists (dropped (pre ++ rest) h). split.
  { rewrite (pbuf_free_eq _ _ (pre ++ rest)) by auto using wf_refs. rewrite E2.
    do 3 f_equal. destruct rest as [|[l0 b0] rest]; simpl; [lia|].
    rewrite (proj2 (Z.eqb_neq (p_ref b0) 1)) by done. lia. }
  intros l'. rewrite E1. rewrite fmap_app in Hnd. apply list.NoDup_app in Hnd as (_ & Hdisj & _).
  destruct rest as [|[l0 b0] rest]; cbn [dropped].
  - case_decide; [by apply dropped_owned|by apply dropped_other].
  - rewrite (proj2 (Z.eqb_neq (p_ref b0) 1)) by done. case_decide as Hin.
    + rewrite lookup_insert_ne; [by apply dropped_owned|].
      intros ->. apply (Hdisj l' Hin). by left.
    + case_decide; subst; [by rewrite lookup_insert_eq|].
      rewrite lookup_insert_ne by done. by apply dropped_other.
Qed.

(** ** Headers *)

(** A chain whose first pbuf was replaced. *)
Lemma chain_update_head h l b b' ls :
  chain_at h (Some l) ((l, b) :: ls) → p_next b' = p_next b →
  chain_at (<[l:=b']> h) (Some l) ((l, b') :: ls).
Proof.
  intros H Hn. pose proof (linked_nodup _ _ _ H) as Hnd. inversion Hnd; subst.
  inversion H; subst. constructor; [by rewrite lookup_insert_eq|].
  rewrite Hn. by apply linked_insert_ne.
Qed.

(** The first pbuf after its payload pointer moved by [- inc]. *)
Definition shifted (inc : Z) b : pbuf :=
  with_tot (p_tot_len b + inc) (with_len (p_len b + inc) (with_payload (p_payload b - inc) b)).

(** There is room for [inc] more (or [- inc] fewer) bytes in front. *)
Definition header_fits (inc : Z) b : Prop :=
  inc ≠ 0 ∧ - p_len b ≤ inc ∧ inc ≤ p_payload b ∧ p_tot_len b + inc < 65536 ∧
  (0 < inc → p_type b = PBUF_RAM ∨ p_type b = PBUF_POOL).

Lemma pbuf_header_eq h l b ls inc :
  chain_at h (Some l) ((l, b) :: ls) → chain_wf ((l, b) :: ls) → header_fits inc b →
  pbuf_header (Some l) inc h = inr (true, <[l:=shifted inc b]> h).
Proof.
  intros H Hwf (Hi & Hlo & Hhi & Htot & Hty). inversion H; subst.
  pose proof (chain_wf_len _ _ _ Hwf) as Hl. destruct Hwf as (Hok & _ & Ht & _).
  unfold pbuf_header. rewrite (proj2 (Z.eqb_neq inc 0)) by done.
  rewrite (bind_pb _ _ b) by done.
  rewrite bind_assert by (apply orb_true_iff; rewrite Z.ltb_lt, Z.leb_le; lia).
  assert (match p_type b with
          | PBUF_RAM | PBUF_POOL => if p_payload b - inc <? 0 then None else Some (p_payload b - inc)
          | _ => if inc <? 0 then Some (p_payload b - inc) else None
          end = Some (p_payload b - inc)) as ->.
  { destruct (p_type b) eqn:E; try (rewrite (proj2 (Z.ltb_ge _ _)) by lia; done);
      destruct (Z.ltb_spec inc 0); try done; destruct Hty; congruence || lia. }
  rewrite (bind_up _ _ b) by done. unfold shifted.
  rewrite !u16_id by (unfold is_u16; lia). done.
Qed.

Lemma pdata_shrink inc b :
  pbuf_ok b → - p_len b ≤ inc → inc ≤ 0 →
  pdata (shifted inc b) = drop (Z.to_nat (- inc)) (pdata b).
Proof.
  intros (? & ? & ?) ? ?. unfold pdata, shifted. simpl.
  rewrite skipn_firstn_comm, drop_drop. f_equal; [lia|]. f_equal. lia.
Qed.

Lemma shifted_shifted i j b : shifted i (shifted j b) = shifted (i + j) b.
Proof. unfold shifted, with_tot, with_len, with_payload. simpl. f_equal; lia. Qed.

Lemma shifted_0 b : shifted 0 b = b.
Proof.
  unfold shifted, with_tot, with_len, with_payload. destruct b. simpl. f_equal; lia.
Qed.

Lemma shifted_wf inc l b ls :
  chain_wf ((l, b) :: ls) → header_fits inc b → chain_wf ((l, shifted inc b) :: ls).
Proof.
  intros Hwf (Hi & Hlo & Hhi & Htot & _). pose proof (chain_wf_len _ _ _ Hwf) as Hl.
  destruct Hwf as (Hok & Hr & Ht & Hlt & Hwf). pose proof Hok as (? & ? & ?).
  assert (Hok' : pbuf_ok (shifted inc b)) by (split_and!; simpl; lia).
  rewrite data_cons, zlen_app, zlen_pdata in * by done.
  split_and!; try done; try (simpl; lia).
  rewrite data_cons, zlen_app, zlen_pdata by done. simpl. lia.
Qed.

(** [pbuf_header] moves the payload pointer and nothing else.  A negative
    increment hides that many bytes at the front of the packet; a positive one
    uncovers headroom in front of it; the chain stays well-formed; and the
    opposite call restores the pbuf exactly. *)
Theorem pbuf_header_spec h l b ls inc :
  chain_at h (Some l) ((l, b) :: ls) → chain_wf ((l, b) :: ls) → header_fits inc b →
  let h' := <[l:=shifted inc b]> h in
  let ls' := (l, shifted inc b) :: ls in
  pbuf_header (Some l) inc h = inr (true, h') ∧
  chain_at h' (Some l) ls' ∧ chain_wf ls' ∧
  (inc < 0 → data ls' = drop (Z.to_nat (- inc)) (data ((l, b) :: ls))) ∧
  (0 < inc → drop (Z.to_nat inc) (data ls') = data ((l, b) :: ls) ∧
             pbuf_header (Some l) (- inc) h' = inr (true, h)).
Proof.
  intros H Hwf Hf h' ls'. pose proof Hwf as (Hok & _).
  pose proof (shifted_wf _ _ _ _ Hwf Hf) as Hwf'.
  assert (Hc' : chain_at h' (Some l) ls') by by eapply chain_update_head.
  pose proof (zlen_pdata b Hok) as Hzl. pose proof Hf as (Hi & Hlo & Hhi & Htot & Hty).
  split_and!; [by eapply pbuf_header_eq|done|done|..].
  - intros Hneg. unfold ls'. rewrite !data_cons, pdata_shrink by (done || lia).
    rewrite drop_app_le by (unfold zlen in Hzl; lia). done.
  - intros Hpos. pose proof Hwf' as (Hok' & _).
    assert (Heq : pdata b = drop (Z.to_nat inc) (pdata (shifted inc b))).
    { rewrite <-(shifted_0 b) at 1. replace 0 with (- inc + inc) by lia.
      rewrite <-shifted_shifted, pdata_shrink; [|done|simpl; destruct Hok; lia|lia].
      f_equal. lia. }
    split.
    + unfold ls'. rewrite !data_cons, Heq.
      rewrite drop_app_le; [done|]. pose proof (zlen_pdata _ Hok') as Hz. unfold zlen in Hz.
      simpl in Hz. destruct Hok. lia.
    + rewrite (pbuf_header_eq h' l (shifted inc b) ls (- inc)); [|done|done|].
      * unfold h'. rewrite shifted_shifted, insert_insert_eq.
        replace (- inc + inc) with 0 by lia. rewrite shifted_0.
        rewrite insert_id; [done|]. by inversion H.
      * destruct Hok as (? & ? & ?). destruct Hwf as (_ & _ & ? & ? & _).
        split_and!; simpl; try lia.
Qed.

(** ** Writing *)

(** The pbuf after [d] was written at [off] in its payload. *)
Definition written (off : Z) (d : bytes) b : pbuf :=
  with_mem (splice (Z.to_nat (p_payload b + off)) d (p_mem b)) b.

Lemma bind_pwrite {A} h l b off d (k : unit → prog heap A) :
  h !! l = Some b → pbuf_ok b → 0 ≤ off → off + zlen d ≤ p_len b →
  (pwrite l off d ≫= k) h = k () (<[l:=written off d b]> h).
Proof.
  intros E (? & ? & ?) ? ?. pose proof (zlen_nonneg d). apply bind_ret.
  unfold pwrite. rewrite (bind_pb _ _ _ _ E).
  rewrite (proj2 (Z.leb_le 0 _)), (proj2 (Z.leb_le (_ + _ + _) _)) by lia.
  cbn [andb]. by rewrite (update_eq _ _ _ _ E).
Qed.

Lemma written_ok off d b :
  pbuf_ok b → 0 ≤ off → off + zlen d ≤ p_len b →
  pbuf_ok (written off d b) ∧ pdata (written off d b) = splice (Z.to_nat off) d (pdata b).
Proof.
  intros (? & ? & ?) ? ?. unfold pbuf_ok, pdata, written, zlen in *. simpl.
  split; [split_and!; try done; rewrite length_splice; lia|].
  rewrite drop_splice_after by lia.
  replace (Z.to_nat (p_payload b + off) - Z.to_nat (p_payload b))%nat with (Z.to_nat off) by lia.
  rewrite take_splice_inside by (rewrite ?length_drop; lia). done.
Qed.

(** [h'] differs from [h] only in the chain [ls]. *)
Definition only_in ls h h' : Prop := ∀ l, l ∉ ls.*1 → h' !! l = h !! l.

(** The chain [ls'] has the pbufs of [ls], possibly with other contents. *)
Lemma chain_relink h h' l b' ls ls' :
  chain_at h' (p_next b') ls' → ls'.*1 = ls.*1 → l ∉ ls.*1 →
  only_in ls (<[l:=b']> h) h' →
  chain_at h' (Some l) ((l, b') :: ls') ∧ only_in ((l, b') :: ls) h h'.
Proof.
  intros Hc Hl Hni Ho. split.
  - constructor; [|done]. rewrite Ho by done. by rewrite lookup_insert_eq.
  - intros l' Hl'. apply not_elem_of_cons in Hl' as [? ?]. rewrite Ho by done.
    by rewrite lookup_insert_ne.
Qed.

Lemma take_loop_eq h p ls fuel n d :
  chain_at h p ls → chain_wf ls → (length ls ≤ fuel)%nat →
  0 ≤ n ≤ zlen (data ls) → n ≤ zlen d →
  ∃ h' ls', take_loop fuel p n d h = inr (ERR_OK, h') ∧
    chain_at h' p ls' ∧ ls'.*1 = ls.*1 ∧ chain_wf ls' ∧ only_in ls h h' ∧
    data ls' = take (Z.to_nat n) d ++ drop (Z.to_nat n) (data ls).
Proof.
  revert h p fuel n d. induction ls as [|[l b] ls IH]; intros h p fuel n d Hc Hwf Hf Hn Hd.
  { change (zlen (data [])) with 0 in Hn. assert (n = 0) as -> by lia.
    exists h, []. split_and!; try done. by destruct fuel. }
  destruct (Z.eqb_spec n 0) as [->|Hn0].
  { exists h, ((l, b) :: ls). split_and!; try done. destruct fuel; done. }
  inversion Hc as [|? ? ? E Hc']; subst. destruct fuel as [|fuel]; [simpl in Hf; lia|].
  cbn [take_loop]. rewrite (proj2 (Z.eqb_neq n 0)) by done. rewrite (bind_pb _ _ _ _ E).
  pose proof (chain_wf_len _ _ _ Hwf) as Hl. pose proof (linked_nodup _ _ _ Hc) as Hnd.
  inversion Hnd as [|? ? Hni _]; subst.
  destruct Hwf as (Hok & Hr & Ht & Hlt & Hwf).
  rewrite data_cons, zlen_app, zlen_pdata in * by done.
  set (k := if p_len b <? n then p_len b else n).
  assert (Hk : k = Z.min n (p_len b)) by (unfold k; case_match; lia).
  rewrite (proj2 (Z.leb_le k (zlen d))), bind_mret by lia.
  assert (Hzk : zlen (take (Z.to_nat k) d) = k) by (unfold zlen in *; rewrite length_take; lia).
  rewrite (bind_pwrite _ _ b) by (done || lia).
  destruct (written_ok 0 (take (Z.to_nat k) d) b) as [Hok' Hpd]; [done|lia|lia|].
  set (b' := written 0 (take (Z.to_nat k) d) b) in *.
  rewrite u16_id by (unfold is_u16; lia).
  destruct (IH (<[l:=b']> h) (p_next b) fuel (n - k) (drop (Z.to_nat k) d))
    as (h' & ls' & -> & Hc1 & Hls & Hwf1 & Ho & Hdata);
    [by apply linked_insert_ne|done|simpl in Hf; lia|lia|unfold zlen in *; rewrite length_drop; lia|].
  destruct (chain_relink h h' l b' ls ls') as [Hc2 Ho2]; try done.
  assert (Hlen : zlen (data ls') = zlen (data ls)).
  { rewrite Hdata, zlen_app. unfold zlen in *. rewrite length_take, !length_drop. lia. }
  assert (Hwf2 : chain_wf ((l, b') :: ls')).
  { cbn [chain_wf]. rewrite data_cons, zlen_app, Hlen, zlen_pdata by done. exact (conj Hok' (conj Hr (conj Ht (conj Hlt Hwf1)))). }
  exists h', ((l, b') :: ls'). split; [done|]. split; [done|].
  split; [by rewrite !fmap_cons, Hls|]. split; [done|]. split; [done|].
  { rewrite !data_cons, Hpd, Hdata. change (Z.to_nat 0) with 0%nat. unfold splice. rewrite take_0. cbn [app].
    pose proof (zlen_pdata b Hok). unfold zlen in *. rewrite length_take in *. cbn [Nat.add].
    rewrite Nat.min_l by lia. rewrite drop_app. destruct (decide (n ≤ p_len b)) as [Hle|Hgt].
    + replace k with n by lia. rewrite Z.sub_diag. change (Z.to_nat 0) with 0%nat.
      rewrite take_0, drop_0. replace (Z.to_nat n - length (pdata b))%nat with 0%nat by lia.
      by rewrite drop_0, <-!app_assoc.
    + rewrite (drop_ge (pdata b)) by lia. rewrite (drop_ge (pdata b)) by lia.
      replace k with (p_len b) by lia. rewrite app_nil_r. cbn [app].
      rewrite app_assoc, take_take_drop. f_equal; f_equal; lia. }
Qed.

(** [pbuf_take] stores the first [len] bytes at [dataptr] at the front of
    the packet, across as many pbufs as needed, and leaves the rest of the
    packet, its shape, and every other pbuf as they were; a packet that is too
    short is refused. *)
Theorem pbuf_take_spec h l ls d len :
  chain_at h (Some l) ls → chain_wf ls → 0 ≤ len ≤ zlen d →
  (zlen (data ls) < len → pbuf_take (Some l) d len h = inr (ERR_ARG, h)) ∧
  (len ≤ zlen (data ls) →
   ∃ h' ls', pbuf_take (Some l) d len h = inr (ERR_OK, h') ∧
     chain_at h' (Some l) ls' ∧ ls'.*1 = ls.*1 ∧ chain_wf ls' ∧ only_in ls h h' ∧
     data ls' = take (Z.to_nat len) d ++ drop (Z.to_nat len) (data ls)).
Proof.
  intros H Hwf Hd. destruct (linked_some_inv _ _ _ H) as (b & ls0 & -> & E & _).
  pose proof Hwf as (_ & _ & Ht & _). unfold pbuf_take. rewrite (bind_pb _ _ _ _ E), Ht.
  pose proof (linked_length _ _ _ H). split; intros Hlen.
  - by rewrite (proj2 (Z.ltb_lt _ _)).
  - rewrite (proj2 (Z.ltb_ge _ _)), walk_eq by lia. apply take_loop_eq; try done; lia.
Qed.

(** ** Concatenation *)

(** The chain [ls] in front of a chain at [t] of [n] bytes. *)
Fixpoint joined (t : loc) (n : Z) ls : pchain :=
  match ls with
  | [] => []
  | (l, b) :: ls' =>
      let b' := with_tot (p_tot_len b + n) b in
      (l, match ls' with [] => with_next (Some t) b' | _ => b' end) :: joined t n ls'
  end.

Lemma joined_locs t n ls : (joined t n ls).*1 = ls.*1.
Proof. induction ls as [|[l b] ls IH]; [done|]. cbn [joined]. by rewrite !fmap_cons, IH. Qed.

Lemma joined_data t n ls : data (joined t n ls) = data ls.
Proof.
  induction ls as [|[l b] ls IH]; [done|]. cbn [joined]. rewrite !data_cons, IH.
  by destruct ls.
Qed.

Lemma joined_wf t n ls ls2 :
  chain_wf ls → chain_wf ls2 → n = zlen (data ls2) →
  zlen (data ls) + n < 65536 → chain_wf (joined t n ls ++ ls2).
Proof.
  intros Hwf Hwf2 Hn. induction ls as [|[l b] ls IH]; intros Hlt; [done|].
  destruct Hwf as (Hok & Hr & Ht & _ & Hwf). cbn [joined app chain_wf].
  rewrite data_cons, zlen_app in *. pose proof (zlen_nonneg (pdata b)).
  rewrite data_app, joined_data, zlen_app.
  assert (chain_wf (joined t n ls ++ ls2)) by (apply IH; [done|lia]).
  destruct ls; (split; [done|]; split; [done|]; split; [|split; [simpl; lia|done]]).
  all: change (pdata _) with (pdata b); simpl; lia.
Qed.

(** [pbuf_cat] from the walk on. *)
Definition cat_from (fuel : nat) (p t : loc) : prog heap unit :=
  p ← cat_walk fuel p t;
  b ← deref p;
  passert (p_tot_len b =? p_len b);;
  c ← deref t;
  update p (λ b, with_tot (u16 (p_tot_len b + p_tot_len c)) b);;
  update p (with_next (Some t)).

Lemma cat_from_eq h p t c ls fuel :
  chain_at h (Some p) ls → chain_wf ls → (length ls ≤ fuel)%nat →
  h !! t = Some c → t ∉ ls.*1 → 0 ≤ p_tot_len c → zlen (data ls) + p_tot_len c < 65536 →
  ∃ h', cat_from fuel p t h = inr ((), h') ∧ only_in ls h h' ∧
    ∀ ls2, chain_at h' (Some t) ls2 →
           chain_at h' (Some p) (joined t (p_tot_len c) ls ++ ls2).
Proof.
  revert h p fuel. induction ls as [|[l b] ls IH]; intros h p fuel Hc Hwf Hf Et Hni Hc0 Hlt.
  { inversion Hc. }
  inversion Hc as [|? ? ? E Hc']; subst. destruct fuel as [|fuel]; [simpl in Hf; lia|].
  pose proof (chain_wf_len _ _ _ Hwf) as Hl. pose proof (linked_nodup _ _ _ Hc) as Hnd.
  inversion Hnd as [|? ? Hnl _]; subst. destruct Hwf as (Hok & Hr & Ht & _ & Hwf).
  apply not_elem_of_cons in Hni as [Hne Hni]. unfold cat_from. cbn [cat_walk].
  set (b1 := with_tot (p_tot_len b + p_tot_len c) b).
  destruct (p_next b) as [p'|] eqn:En.
  - destruct (IH (<[l:=b1]> h) p' fuel) as (h' & Hcf & Ho & Hch);
      [by apply linked_insert_ne|done|simpl in Hf; lia|by rewrite lookup_insert_ne|done|done| |].
    { rewrite data_cons, zlen_app in Hlt. pose proof (zlen_nonneg (pdata b)). lia. }
    exists h'. split; [|split].
    + rewrite <-Hcf. unfold cat_from. cbv [mbind prog_bind]. rewrite (deref_eq _ _ _ E), En.
      rewrite (deref_eq _ _ _ Et), (update_eq _ _ _ _ E).
      rewrite u16_id by (unfold is_u16; lia). done.
    + intros l' Hl'. apply not_elem_of_cons in Hl' as [? ?]. rewrite Ho by done.
      by rewrite lookup_insert_ne.
    + intros ls2 H2. inversion Hc' as [|? b0 ls0]; subst. cbn [joined app]. constructor.
      * rewrite Ho by done. by rewrite lookup_insert_eq.
      * simpl. rewrite En. by apply Hch.
  - inversion Hc'; subst. change (data []) with (@nil Z) in *.
    eexists. split; [|split].
    + rewrite (bind_ret (_ ≫= _) _ _ l h) by (rewrite (bind_pb _ _ _ _ E), En; done).
      rewrite (bind_pb _ _ _ _ E).
      rewrite bind_assert.
      2:{ apply Z.eqb_eq. rewrite Ht, data_cons, app_nil_r. by apply zlen_pdata. }
      rewrite (bind_pb _ _ _ _ Et), (bind_up _ _ _ _ _ E).
      rewrite u16_id by (unfold is_u16; lia). fold b1.
      rewrite (update_eq _ _ b1) by by rewrite lookup_insert_eq.
      rewrite insert_insert_eq. done.
    + intros l' Hl'. apply not_elem_of_cons in Hl' as [? _]. by rewrite lookup_insert_ne.
    + intros ls2 H2. cbn [joined app]. constructor; [by rewrite lookup_insert_eq|done].
Qed.

(** [pbuf_cat] appends the second packet to the first: the chain carries
    the bytes of one after the other, every [tot_len] is right again, and
    nothing outside the first chain changes. *)
Theorem pbuf_cat_spec h p t ls1 ls2 :
  chain_at h (Some p) ls1 → chain_wf ls1 → chain_at h (Some t) ls2 → chain_wf ls2 →
  (∀ l, l ∈ ls1.*1 → l ∉ ls2.*1) → zlen (data ls1) + zlen (data ls2) < 65536 →
  ∃ h' ls, pbuf_cat (Some p) (Some t) h = inr ((), h') ∧
    chain_at h' (Some p) ls ∧ chain_wf ls ∧ ls.*1 = ls1.*1 ++ ls2.*1 ∧
    data ls = data ls1 ++ data ls2 ∧ only_in ls1 h h'.
Proof.
  intros H1 Hwf1 H2 Hwf2 Hdisj Hlt. pose proof (linked_length _ _ _ H1).
  destruct (linked_some_inv _ _ _ H2) as (c & ls2' & -> & Et & _).
  pose proof Hwf2 as (_ & _ & Htot & _). pose proof (zlen_nonneg (data ((t, c) :: ls2'))).
  destruct (cat_from_eq h p t c ls1 (S (size h))) as (h' & Hcat & Ho & Hch); try done; try lia.
  { intros Hin. apply (Hdisj t Hin). by left. }
  exists h', (joined t (p_tot_len c) ls1 ++ (t, c) :: ls2'). split_and!.
  - exact Hcat.
  - apply Hch. eapply linked_agree; [done|]. intros l Hl. apply Ho. intros Hin. by apply (Hdisj l).
  - apply joined_wf; try done; lia.
  - by rewrite fmap_app, joined_locs.
  - by rewrite data_app, joined_data.
  - done.
Qed.

(** ** Shrinking *)

(** The last pbuf of a shrunk chain. *)
Definition trimmed (rem : Z) b : pbuf :=
  let b' := if bool_decide (p_type b = PBUF_RAM) && negb (rem =? p_len b)
            then with_mem (take (Z.to_nat (p_payload b + rem)) (p_mem b)) b else b in
  with_next None (with_tot rem (with_len rem b')).

Lemma trimmed_ok rem b :
  pbuf_ok b → 0 ≤ rem ≤ p_len b →
  pbuf_ok (trimmed rem b) ∧ pdata (trimmed rem b) = take (Z.to_nat rem) (pdata b).
Proof.
  intros (? & ? & ?) ?. unfold trimmed, pbuf_ok, pdata.
  destruct (_ && _); simpl; (split; [split_and!; try lia|]).
  - unfold zlen in *. rewrite length_take. lia.
  - rewrite skipn_firstn_comm, !take_take. f_equal. lia.
  - rewrite take_take. f_equal. lia.
Qed.

(** [pbuf_realloc] behind its early return. *)
Definition realloc_from (fuel : nat) (p : loc) (rem grow : Z) : prog heap unit :=
  '(q, rem_len) ← realloc_walk fuel p rem grow;
  c ← deref q;
  (if bool_decide (p_type c = PBUF_RAM) && negb (rem_len =? p_len c) then
     update q (with_mem (take (Z.to_nat (p_payload c + rem_len)) (p_mem c)))
   else mret ());;
  update q (λ c, with_tot rem_len (with_len rem_len c));;
  (match p_next c with
   | Some n => pbuf_free custom_free (Some n);; mret ()
   | None => mret ()
   end);;
  update q (with_next None).

(** The chain ends in [p]. *)
Lemma realloc_here h p b ls fuel rem grow :
  chain_at h (Some p) ((p, b) :: ls) → chain_wf ((p, b) :: ls) →
  Forall (λ x, plain (snd x)) ls → rem ≤ p_len b →
  realloc_from (S fuel) p rem grow h = inr ((), <[p:=trimmed rem b]> (dropped ls h)).
Proof.
  intros Hc Hwf Hpl Hle. inversion Hc as [|? ? ? E Hc']; subst.
  pose proof (linked_nodup _ _ _ Hc) as Hnd. inversion Hnd as [|? ? Hni _]; subst.
  destruct Hwf as (_ & _ & _ & _ & Hwf).
  unfold realloc_from. cbn [realloc_walk].
  rewrite (bind_ret (_ ≫= _) _ _ (p, rem) h).
  2:{ rewrite (bind_pb _ _ _ _ E). by rewrite (proj2 (Z.ltb_ge _ _)) by lia. }
  rewrite (bind_pb _ _ _ _ E).
  set (b1 := if bool_decide (p_type b = PBUF_RAM) && negb (rem =? p_len b)
             then with_mem (take (Z.to_nat (p_payload b + rem)) (p_mem b)) b else b).
  rewrite (bind_ret _ _ h () (<[p:=b1]> h)).
  2:{ unfold b1. destruct (_ && _); [by apply update_eq|]. by rewrite insert_id. }
  rewrite (bind_up _ _ b1), insert_insert_eq by by rewrite lookup_insert_eq.
  set (b2 := with_tot rem (with_len rem b1)).
  rewrite (bind_ret _ _ (<[p:=b2]> h) () (dropped ls (<[p:=b2]> h))).
  2:{ inversion Hc' as [Hn|n b0 ls0 E0 Hc0 Hn]; subst; [done|].
      erewrite bind_ret; [done|]. apply pbuf_free_eq; [|by apply wf_refs].
      rewrite Hn. by apply linked_insert_ne. }
  rewrite (update_eq _ _ b2) by (rewrite dropped_other by done; by rewrite lookup_insert_eq).
  do 2 f_equal. rewrite dropped_insert by done. by rewrite insert_insert_eq.
Qed.

Lemma realloc_from_eq h p ls fuel rem grow :
  chain_at h (Some p) ls → chain_wf ls → Forall (λ x, plain (snd x)) ls →
  (length ls ≤ fuel)%nat → 0 ≤ rem ≤ zlen (data ls) → grow = rem - zlen (data ls) →
  ∃ h' ls', realloc_from fuel p rem grow h = inr ((), h') ∧
    chain_at h' (Some p) ls' ∧ chain_wf ls' ∧ ls'.*1 `prefix_of` ls.*1 ∧
    data ls' = take (Z.to_nat rem) (data ls) ∧ only_in ls h h'.
Proof.
  revert h p fuel rem. induction ls as [|[l b] ls IH]; intros h p fuel rem Hc Hwf Hpl Hf Hrem Hg.
  { inversion Hc. }
  inversion Hc as [|? ? ? E Hc']; subst p. subst. destruct fuel as [|fuel]; [simpl in Hf; lia|].
  pose proof (chain_wf_len _ _ _ Hwf) as Hl. pose proof (linked_nodup _ _ _ Hc) as Hnd.
  inversion Hnd as [|? ? Hni _]; subst. inversion Hpl as [|? ? Hpb Hpls]; subst.
  pose proof Hwf as (Hok & Hr & Ht & Hlt & Hwf'). pose proof (zlen_pdata b Hok) as Hz.
  rewrite data_cons, zlen_app in *. pose proof (zlen_nonneg (data ls)).
  destruct (decide (p_len b < rem)) as [Hlt'|Hge].
  - set (b1 := with_tot rem b).
    inversion Hc' as [Hn|p' b0 ls0 E0 Hc0 Hn]; subst.
    { change (zlen (data [])) with 0 in *. lia. }
    destruct (IH (<[l:=b1]> h) p' fuel (rem - p_len b)) as (h' & ls' & Hre & Hc1 & Hwf1 & Hpre & Hd & Ho);
      [rewrite Hn; by apply linked_insert_ne|done|done|simpl in *; lia|lia|lia|].
    exists h', ((l, b1) :: ls'). split; [|split; [|split; [|split; [|split]]]].
    + rewrite <-Hre. unfold realloc_from. cbv [mbind prog_bind]. cbn [realloc_walk].
      cbv [mbind prog_bind]. rewrite (deref_eq _ _ _ E).
      rewrite (proj2 (Z.ltb_lt _ _)) by lia. unfold passert at 1.
      rewrite (proj2 (Z.ltb_lt _ 0xffff)) by lia. cbn [mret prog_ret].
      rewrite (update_eq _ _ _ _ E), <-Hn.
      rewrite (u16_id (rem - p_len b)) by (unfold is_u16; lia).
      replace (u16 (p_tot_len b + _)) with rem; [done|].
      unfold u16. rewrite Zplus_mod_idemp_r, Ht, Z.mod_small; lia.
    + constructor; [|by simpl; rewrite <-Hn].
      rewrite Ho by done. by rewrite lookup_insert_eq.
    + cbn [chain_wf]. rewrite data_cons, zlen_app, Hd.
      assert (zlen (take (Z.to_nat (rem - p_len b)) (data ((p', b0) :: ls0))) = rem - p_len b)
        as -> by (unfold zlen in *; rewrite length_take; lia).
      change (pdata b1) with (pdata b). simpl. split_and!; try done; lia.
    + rewrite !fmap_cons. by apply prefix_cons.
    + rewrite !data_cons, Hd. change (pdata b1) with (pdata b).
      rewrite (take_app_ge (pdata b)) by (unfold zlen in Hz; lia). do 2 f_equal.
      unfold zlen in Hz. lia.
    + intros l' Hl'. apply not_elem_of_cons in Hl' as [? ?]. rewrite Ho by done.
      by rewrite lookup_insert_ne.
  - rewrite (realloc_here _ _ b ls) by (done || lia). do 2 eexists.
    destruct (trimmed_ok rem b) as [Hok' Hpd]; [done|lia|].
    split; [done|]. split; [constructor; [by rewrite lookup_insert_eq|constructor]|].
    split; [|split; [|split]].
    + cbn [chain_wf]. rewrite data_cons, app_nil_r, zlen_pdata by done.
      split; [done|]. unfold trimmed. destruct (_ && _); simpl; split_and!; done || lia.
    + apply prefix_cons, prefix_nil.
    + rewrite data_cons, app_nil_r, Hpd. rewrite take_app_le by (unfold zlen in Hz; lia). done.
    + intros l' Hl'. apply not_elem_of_cons in Hl' as [? ?].
      rewrite lookup_insert_ne by done. by apply dropped_other.
Qed.

(** [pbuf_realloc] cuts a packet down to its first [new_len] bytes: it
    keeps those bytes in the pbufs they were in, frees the rest of the chain
    and leaves a well-formed one; it never makes a packet longer. *)
Theorem pbuf_realloc_spec h p ls new_len :
  chain_at h (Some p) ls → chain_wf ls → Forall (λ x, plain (snd x)) ls → 0 ≤ new_len →
  ∃ h' ls', pbuf_realloc custom_free (Some p) new_len h = inr ((), h') ∧
    chain_at h' (Some p) ls' ∧ chain_wf ls' ∧ ls'.*1 `prefix_of` ls.*1 ∧
    data ls' = take (Z.to_nat new_len) (data ls) ∧ only_in ls h h'.
Proof.
  intros H Hwf Hpl Hn. destruct (linked_some_inv _ _ _ H) as (b & ls0 & -> & E & _).
  pose proof Hwf as (_ & _ & Ht & _). pose proof (linked_length _ _ _ H).
  unfold pbuf_realloc. rewrite (bind_pb _ _ _ _ E), Ht.
  destruct (Z.leb_spec (zlen (data ((p, b) :: ls0))) new_len).
  - exists h, ((p, b) :: ls0). split_and!; try done.
    symmetry. apply take_ge. unfold zlen in *. lia.
  - apply realloc_from_eq; try done; lia.
Qed.

End ops.

(** ** Witnesses *)

#[local] Abbreviation nofree := (λ (f : Empty_set) (_ : loc), match f with end).

Lemma pbuf_free_spec_witness :
  ∃ h', pbuf_free nofree (Some 1%positive) hello_heap = inr (2, h') ∧
    ∀ l', h' !! l' = if decide (l' ∈ hello.*1) then None else hello_heap !! l'.
Proof.
  apply (pbuf_free_spec nofree hello_heap 1%positive hello []);
    [apply hello_chain|cdec|repeat constructor|repeat constructor|done].
Defined.

Lemma pbuf_header_spec_witness :
  pbuf_header (Some 1%positive) 2 hello_heap =
    inr (true, <[1%positive:=shifted 2 hello1]> hello_heap) ∧
  data [(1%positive, shifted 2 hello1); (2%positive, hello2)] = str "..hello world".
Proof.
  split; [|vm_compute; reflexivity].
  apply (pbuf_header_spec hello_heap 1%positive hello1 [(2%positive, hello2)] 2);
    [apply hello_chain|cdec|]. split_and!; try done. by right.
Defined.

Lemma pbuf_take_spec_witness :
  ∃ h' ls', pbuf_take (Some 1%positive) (str "HELLO WOULD") 8 hello_heap = inr (ERR_OK, h') ∧
    chain_at h' (Some 1%positive) ls' ∧ ls'.*1 = hello.*1 ∧ chain_wf ls' ∧
    only_in hello hello_heap h' ∧ data ls' = str "HELLO WOrld".
Proof.
  apply (pbuf_take_spec hello_heap 1%positive hello (str "HELLO WOULD") 8);
    [apply hello_chain|cdec|cdec|cdec].
Defined.

Lemma pbuf_realloc_spec_witness :
  ∃ h' ls', pbuf_realloc nofree (Some 1%positive) 5 hello_heap = inr ((), h') ∧
    chain_at h' (Some 1%positive) ls' ∧ chain_wf ls' ∧ ls'.*1 `prefix_of` hello.*1 ∧
    data ls' = str "hello" ∧ only_in hello hello_heap h'.
Proof.
  apply (pbuf_realloc_spec nofree hello_heap 1%positive hello 5);
    [apply hello_chain|cdec|repeat constructor|done].
Defined.

Definition tail_pbuf : pbuf Empty_set := mk_pbuf None (str "!!!") 1 2 2 PBUF_RAM 0 1 None.

Lemma pbuf_cat_spec_witness :
  ∃ h' ls, pbuf_cat (Some 1%positive) (Some 3%positive)
             (<[3%positive:=tail_pbuf]> hello_heap) = inr ((), h') ∧
    chain_at h' (Some 1%positive) ls ∧ chain_wf ls ∧
    ls.*1 = hello.*1 ++ [3%positive] ∧ data ls = str "hello world!!" ∧
    only_in hello (<[3%positive:=tail_pbuf]> hello_heap) h'.
Proof.
  apply (pbuf_cat_spec _ 1%positive 3%positive hello [(3%positive, tail_pbuf)]);
    [repeat constructor|cdec|repeat constructor|cdec| |cdec].
  intros l Hl Hl'. cbn in Hl, Hl'. apply list_elem_of_singleton in Hl' as ->.
  assert (3%positive ∉ [1%positive; 2%positive]) by cdec. done.
Defined.

End PbufOps.
