(* ===== verification/PbufAlloc.v ===== *)
(** * Allocation and copying of packet buffers

    [pbuf_alloc], [pbuf_copy] and [pbuf_coalesce] of [pbuf.c]: what a
    successful allocation gives, that a failed one leaves nothing behind, and
    that copies carry the data of a packet from one chain to another. *)

From S2P Require Import Prelude Pbuf Linked PbufChain PbufOps.

Module PbufAlloc.
Import Pbuf Linked PbufChain PbufOps.

Section alloc.
Context {CF : Type} (custom_free : CF → loc → prog (heap CF) unit).
Context (mem_avail : heap CF → Z → bool) (garbage : heap CF → nat → Z).
Abbreviation pbuf := (pbuf CF).
Abbreviation heap := (heap CF).
Abbreviation pchain := (list (loc * pbuf)).
Implicit Types (h : heap) (b : pbuf) (l : loc) (ls : pchain).

(** ** Chains under construction *)

(** A chain of pool pbufs to which [rem] bytes are still to be added. *)
Fixpoint pool_wf (rem : Z) ls : Prop :=
  match ls with
  | [] => True
  | (l, b) :: ls' =>
      pbuf_ok b ∧ p_ref b = 1 ∧ p_tot_len b = zlen (data ls) + rem ∧
      zlen (p_mem b) = PBUF_POOL_BUFSIZE_ALIGNED ∧ plain b ∧ pool_wf rem ls'
  end.

Lemma pool_wf_chain ls : pool_wf 0 ls → zlen (data ls) < 65536 → chain_wf ls.
Proof.
  induction ls as [|[l b] ls IH]; [done|]. intros (Hok & Hr & Ht & _ & _ & Hwf) Hlt.
  cbn [chain_wf]. rewrite data_cons, zlen_app in *. pose proof (zlen_nonneg (pdata b)).
  pose proof (zlen_nonneg (data ls)). split_and!; try done; try lia. apply IH; [done|lia].
Qed.

Lemma pool_wf_owned rem ls :
  pool_wf rem ls → Forall (λ x, p_ref (snd x) = 1) ls ∧ Forall (λ x, plain (snd x)) ls.
Proof.
  induction ls as [|[l b] ls IH]; [by split; constructor|].
  intros (_ & ? & _ & _ & ? & [? ?]%IH). by split; constructor.
Qed.

Lemma pool_wf_head rem l b ls :
  pool_wf rem ((l, b) :: ls) → p_payload b + p_len b ≤ PBUF_POOL_BUFSIZE_ALIGNED.
Proof. intros ((_ & _ & ?) & _ & _ & ? & _). lia. Qed.

(** Replacing the end of the chain and appending a pbuf. *)
Lemma pool_wf_snoc rem ls r br q bq :
  pool_wf rem (ls ++ [(r, br)]) → pool_wf (rem - p_len bq) [(q, bq)] →
  pool_wf (rem - p_len bq) (ls ++ [(r, with_next (Some q) br); (q, bq)]).
Proof.
  intros H (Hokq & Hq). assert (Hz : zlen (data [(q, bq)]) = p_len bq)
    by (rewrite data_cons, app_nil_r; by apply zlen_pdata).
  induction ls as [|[l b] ls IH]; cbn [app pool_wf] in H |- *.
  - destruct H as (Hok & Hr & Ht & Hm & Hp & _).
    change (data [(r, with_next (Some q) br); (q, bq)]) with (pdata br ++ data [(q, bq)]).
    change (data [(r, br)]) with (pdata br ++ []) in Ht. rewrite app_nil_r in Ht.
    rewrite zlen_app, Hz. simpl. split_and!; try done; try apply Hokq; try apply Hq; lia.
  - destruct H as (Hok & Hr & Ht & Hm & Hp & H). split_and!; try done; [|by apply IH].
    rewrite !data_cons, !data_app, !zlen_app in Ht |- *.
    change (data [(r, with_next (Some q) br); (q, bq)]) with (pdata br ++ data [(q, bq)]).
    change (data [(r, br)]) with (pdata br ++ []) in Ht. rewrite app_nil_r in Ht.
    rewrite zlen_app, Hz. lia.
Qed.

Lemma chain_snoc h p ls r br q bq :
  chain_at h (Some p) (ls ++ [(r, br)]) → q ∉ (ls ++ [(r, br)]).*1 → p_next bq = None →
  chain_at (<[q:=bq]> (<[r:=with_next (Some q) br]> h)) (Some p)
    (ls ++ [(r, with_next (Some q) br); (q, bq)]).
Proof.
  intros H Hq Hn. revert p H. induction ls as [|[l b] ls IH]; intros p H; cbn [app] in *.
  - inversion H as [|? ? ? E Hc]; subst. rewrite fmap_cons in Hq.
    apply not_elem_of_cons in Hq as [Hne _]. simpl in Hne. constructor.
    + rewrite lookup_insert_ne by done. by rewrite lookup_insert_eq.
    + simpl. constructor; [by rewrite lookup_insert_eq|]. rewrite Hn. constructor.
  - inversion H as [|? ? ? E Hc]; subst. pose proof (linked_nodup _ _ _ H) as Hnd.
    rewrite fmap_cons in Hq, Hnd. apply not_elem_of_cons in Hq as [Hne Hq]. simpl in Hne.
    inversion Hnd as [|? ? Hl _]; subst. constructor.
    + rewrite !lookup_insert_ne; [done| |done]. intros ->. apply Hl.
      rewrite fmap_app. apply elem_of_app. right. by left.
    + destruct (p_next b) as [p'|] eqn:En; [by apply IH|]. inversion Hc. by destruct ls.
Qed.

(** ** The loop over the tail *)

(** The block that [mem_malloc] returns. *)
Definition raw (n : Z) h : pbuf :=
  mk_pbuf None (garbage h <$> seq 0 (Z.to_nat n)) 0 0 0 PBUF_RAM (u8 (garbage h 0)) 0 None.

Lemma mem_malloc_eq n h :
  mem_malloc mem_avail garbage n h =
  if mem_avail h (SIZEOF_STRUCT_PBUF + n)
  then inr (Some (fresh (dom h)), <[fresh (dom h):=raw n h]> h) else inr (None, h).
Proof. unfold mem_malloc. rewrite bind_get. by destruct (mem_avail _ _). Qed.

Lemma fresh_none h : h !! fresh (dom h) = None.
Proof. apply not_elem_of_dom. apply is_fresh. Qed.

Lemma zlen_raw n h : 0 ≤ n → zlen (p_mem (raw n h)) = n.
Proof. intros. unfold zlen, raw. simpl. rewrite length_fmap, length_seq. lia. Qed.

(** The pbufs of [ls] did not exist in [h0]; the rest is as in [h0]. *)
Definition new_in ls h0 h : Prop := Forall (λ x, h0 !! fst x = None) ls ∧ only_in ls h0 h.

(** Giving up frees exactly what was allocated. *)
Lemma free_new h0 h p ls rem :
  chain_at h (Some p) ls → pool_wf rem ls → new_in ls h0 h →
  ∃ n, pbuf_free custom_free (Some p) h = inr (n, h0).
Proof.
  intros Hc Hwf [Hnew Ho]. apply pool_wf_owned in Hwf as [Hr Hp]. eexists.
  rewrite (pbuf_free_eq _ _ _ ls); [|done|].
  2:{ rewrite list.Forall_forall in Hr, Hp |- *. intros x Hx. rewrite Hr by done.
      split; [lia|by apply Hp]. }
  do 2 f_equal. apply map_eq. intros l. destruct (decide (l ∈ ls.*1)) as [Hl|Hl].
  - rewrite dropped_owned by done. apply list_elem_of_fmap in Hl as (x & -> & Hx).
    rewrite list.Forall_forall in Hnew. symmetry. by apply Hnew.
  - rewrite dropped_other by done. by apply Ho.
Qed.

(** One more pbuf at the end of the chain. *)
Definition pool_pbuf (rem : Z) h : pbuf :=
  mk_pbuf None (p_mem (raw PBUF_POOL_BUFSIZE_ALIGNED h)) 0 rem
    (Z.min rem PBUF_POOL_BUFSIZE_ALIGNED) PBUF_POOL 0 1 None.

Lemma alloc_tail_step fuel h p r br rem :
  h !! r = Some br → 0 < rem < 0xffff → mem_avail h (SIZEOF_STRUCT_PBUF + PBUF_POOL_BUFSIZE_ALIGNED) = true →
  let q := fresh (dom h) in
  let h' := <[q:=pool_pbuf rem h]> (<[r:=with_next (Some q) br]> h) in
  (∃ b, h' !! p = Some b ∧ p_payload b + p_len b ≤ PBUF_POOL_BUFSIZE_ALIGNED) →
  alloc_tail custom_free mem_avail garbage (S fuel) p r rem h =
  alloc_tail custom_free mem_avail garbage fuel p q
    (rem - Z.min rem PBUF_POOL_BUFSIZE_ALIGNED) h'.
Proof.
  intros Er Hrem Hav q h' (b & Eb & Hb). cbn [alloc_tail].
  rewrite (proj2 (Z.leb_gt rem 0)) by lia.
  assert (Em : mem_malloc mem_avail garbage PBUF_POOL_BUFSIZE_ALIGNED h =
    inr (Some q, <[q:=raw PBUF_POOL_BUFSIZE_ALIGNED h]> h)) by by rewrite mem_malloc_eq, Hav.
  rewrite (bind_ret _ _ _ _ _ Em).
  assert (Hqr : q ≠ r) by (intros Heq; rewrite <-Heq in Er; unfold q in Er; by rewrite fresh_none in Er).
  rewrite (bind_up _ _ (raw PBUF_POOL_BUFSIZE_ALIGNED h)), insert_insert_eq
    by by rewrite lookup_insert_eq.
  set (b1 := with_flags _ _).
  rewrite (bind_up _ _ br) by by rewrite lookup_insert_ne.
  rewrite bind_assert by (apply Z.ltb_lt; lia).
  rewrite (bind_up _ _ b1) by (rewrite lookup_insert_ne by done; by rewrite lookup_insert_eq).
  rewrite (u16_id rem) by (unfold is_u16; lia).
  set (h1 := insert q (mk_pbuf _ _ _ _ _ _ _ _ _) _).
  assert (h1 = h') as ->.
  { unfold h1, h'. rewrite (insert_insert_ne (<[q:=b1]> h) q r), insert_insert_eq by done.
    by rewrite (insert_insert_ne _ r q) by done. }
  rewrite (bind_pb _ _ b) by done. rewrite bind_assert by (apply Z.leb_le; lia). done.
Qed.

Lemma fresh_chain h p ls : chain_at h p ls → fresh (dom h) ∉ ls.*1.
Proof.
  intros Hc ([l b] & Hl & Hin)%list_elem_of_fmap. simpl in Hl. subst.
  apply (linked_lookup _ _ _ _ _ Hc) in Hin. by rewrite fresh_none in Hin.
Qed.

Lemma new_in_snoc h0 h p ls r br bq :
  chain_at h (Some p) (ls ++ [(r, br)]) → new_in (ls ++ [(r, br)]) h0 h →
  let q := fresh (dom h) in
  new_in (ls ++ [(r, with_next (Some q) br); (q, bq)]) h0
    (<[q:=bq]> (<[r:=with_next (Some q) br]> h)).
Proof.
  intros Hc [Hnew Ho] q. apply Forall_app in Hnew as [Hnew Hr%Forall_inv]. simpl in Hr.
  split.
  - apply Forall_app. split; [done|]. constructor; [done|].
    constructor; [|constructor]. simpl.
    rewrite <-Ho; [apply fresh_none|by eapply fresh_chain].
  - intros l. rewrite fmap_app. simpl. rewrite not_elem_of_app, !not_elem_of_cons.
    intros (? & ? & ? & _). rewrite !lookup_insert_ne by done. apply Ho.
    rewrite fmap_app. simpl. rewrite not_elem_of_app, not_elem_of_cons.
    split_and!; try done. apply not_elem_of_nil.
Qed.

Lemma pool_pbuf_wf rem h q :
  0 ≤ rem → let bq := pool_pbuf rem h in pool_wf (rem - p_len bq) [(q, bq)].
Proof.
  intros Hr bq. assert (Hok : pbuf_ok bq).
  { split_and!; [done| |]; unfold bq, pool_pbuf; cbn [p_len p_payload p_mem].
    - change PBUF_POOL_BUFSIZE_ALIGNED with 2048. lia.
    - rewrite zlen_raw by done. lia. }
  cbn [pool_wf]. rewrite data_cons, app_nil_r, zlen_pdata by done.
  split; [done|]. split; [done|]. split; [simpl; lia|]. split; [|done]. by apply zlen_raw.
Qed.

Lemma pool_head h p ls rem :
  chain_at h (Some p) ls → pool_wf rem ls →
  ∃ b, h !! p = Some b ∧ p_payload b + p_len b ≤ PBUF_POOL_BUFSIZE_ALIGNED.
Proof.
  intros Hc Hwf. destruct (linked_some_inv _ _ _ Hc) as (b & ls' & -> & E & _).
  exists b. split; [done|]. by eapply pool_wf_head.
Qed.

Definition head_payload ls : Z := match ls with [] => 0 | (_, b) :: _ => p_payload b end.

Lemma alloc_tail_spec fuel h0 h p ls r br rem :
  chain_at h (Some p) (ls ++ [(r, br)]) → pool_wf rem (ls ++ [(r, br)]) →
  new_in (ls ++ [(r, br)]) h0 h → 0 ≤ rem < 0xffff → (Z.to_nat rem ≤ fuel)%nat →
  returns (alloc_tail custom_free mem_avail garbage fuel p r rem h) (λ o h',
    (o = None ∧ h' = h0) ∨
    (o = Some p ∧ ∃ ls', chain_at h' (Some p) ls' ∧ pool_wf 0 ls' ∧ new_in ls' h0 h' ∧
       zlen (data ls') = zlen (data (ls ++ [(r, br)])) + rem ∧
       head_payload ls' = head_payload (ls ++ [(r, br)]))).
Proof.
  revert h ls r br rem. induction fuel as [|fuel IH]; intros h ls r br rem Hc Hwf Hnew Hrem Hf.
  { assert (rem = 0) as -> by lia. right. split; [done|].
    exists (ls ++ [(r, br)]). split_and!; try done; try apply Hnew. lia. }
  destruct (decide (rem = 0)) as [->|Hr0].
  { right. split; [done|]. exists (ls ++ [(r, br)]). split_and!; try done; try apply Hnew. lia. }
  assert (Er : h !! r = Some br).
  { eapply linked_lookup; [done|]. apply elem_of_app. right. by left. }
  destruct (mem_avail h (SIZEOF_STRUCT_PBUF + PBUF_POOL_BUFSIZE_ALIGNED)) eqn:Hav.
  - set (q := fresh (dom h)). set (bq := pool_pbuf rem h).
    assert (Hq : q ∉ (ls ++ [(r, br)]).*1) by by eapply fresh_chain.
    assert (Hlq : p_len bq = Z.min rem PBUF_POOL_BUFSIZE_ALIGNED) by done.
    assert (Hwq : pool_wf (rem - p_len bq) [(q, bq)]) by (apply pool_pbuf_wf; lia).
    pose proof (pool_wf_snoc _ _ _ _ _ _ Hwf Hwq) as Hwf'.
    pose proof (chain_snoc _ _ _ _ _ _ bq Hc Hq eq_refl) as Hc'.
    pose proof (new_in_snoc _ _ _ _ _ _ bq Hc Hnew) as Hnew'. cbv zeta in Hnew'. fold q in Hnew'.
    rewrite (alloc_tail_step _ _ _ _ br); [|done|lia|done|by eapply pool_head].
    fold q bq.
    replace (ls ++ [(r, with_next (Some q) br); (q, bq)])
      with ((ls ++ [(r, with_next (Some q) br)]) ++ [(q, bq)]) in * by by rewrite <-app_assoc.
    change PBUF_POOL_BUFSIZE_ALIGNED with 2048 in *. rewrite Hlq in Hwf'.
    eapply returns_mono; [eapply (IH _ _ _ _ _ Hc' Hwf' Hnew'); lia|].
    intros o h' [?|(Ho & ls' & H1 & H2 & H3 & H4 & H5)]; [by left|]. right. split; [done|].
    exists ls'. split_and!; try done; try apply H3.
    + rewrite H4, !data_app, !zlen_app. rewrite !data_cons, !app_nil_r.
      rewrite (zlen_pdata bq) by apply Hwq. change (pdata (with_next (Some q) br)) with (pdata br).
      lia.
    + rewrite H5. by destruct ls as [|[] ls].
  - cbn [alloc_tail]. rewrite (proj2 (Z.leb_gt rem 0)) by lia.
    assert (Em : mem_malloc mem_avail garbage PBUF_POOL_BUFSIZE_ALIGNED h = inr (None, h))
      by by rewrite mem_malloc_eq, Hav.
    rewrite (bind_ret _ _ _ _ _ Em). destruct (free_new _ _ _ _ _ Hc Hwf Hnew) as [n En].
    rewrite (bind_ret _ _ _ _ _ En). by left.
Qed.

(** ** Allocation *)

(** A chain that was just allocated, for [length] bytes behind [offset] bytes
    of headroom; nobody else refers to it, and nothing else changed. *)
Definition allocated (offset length : Z) h (o : option loc) h' : Prop :=
  ∃ l ls, o = Some l ∧ chain_at h' (Some l) ls ∧ chain_wf ls ∧ zlen (data ls) = length ∧
    Forall owned ls ∧ head_payload ls = offset ∧ new_in ls h h'.

Lemma layer_offset_range layer :
  0 ≤ layer_offset layer < 2048 ∧
  LWIP_MEM_ALIGN_SIZE (layer_offset layer) = layer_offset layer ∧
  LWIP_MEM_ALIGN_SIZE (SIZEOF_STRUCT_PBUF + layer_offset layer)
  = SIZEOF_STRUCT_PBUF + layer_offset layer.
Proof. destruct layer; done. Qed.

Lemma align_ge n : 0 ≤ n → n ≤ LWIP_MEM_ALIGN_SIZE n.
Proof.
  intros. unfold LWIP_MEM_ALIGN_SIZE, MEM_ALIGNMENT.
  change (Z.lnot (4 - 1)) with (Z.lnot (Z.ones 2)). rewrite <-Z.ldiff_land.
  rewrite Z.ldiff_ones_r, Z.shiftr_div_pow2, Z.shiftl_mul_pow2 by lia.
  change (2 ^ 2) with 4. zdm.
Qed.

Lemma map_ref_id ls :
  Forall (λ x, p_ref (snd x) = 1) ls → map (λ x, (fst x, with_ref 1 (snd x))) ls = ls.
Proof.
  induction 1 as [|[l b] ls Hb Hls IH]; [done|]. simpl in *. f_equal; [|done].
  f_equal. destruct b; simpl in *. by subst.
Qed.

(** The head of a new chain gets its flags and its reference. *)
Lemma alloc_finish h0 h l ls offset :
  chain_at h (Some l) ls → chain_wf (map (λ x, (fst x, with_ref 1 (snd x))) ls) →
  Forall (λ x, plain (snd x)) (tl ls) → Forall (λ x, p_ref (snd x) = 1) (tl ls) →
  head_payload ls = offset → new_in ls h0 h →
  ∃ h', update l (λ b, with_flags 0 (with_ref 1 b)) h = inr ((), h') ∧
        allocated offset (zlen (data ls)) h0 (Some l) h'.
Proof.
  intros Hc Hwf Hpl Hr Hh [Hnew Ho].
  destruct (linked_some_inv _ _ _ Hc) as (b & ls' & -> & E & _).
  eexists. split; [by apply update_eq|]. set (b' := with_flags 0 (with_ref 1 b)).
  exists l, ((l, b') :: ls'). cbn [tl] in *.
  cbn [map fst snd] in Hwf. rewrite map_ref_id in Hwf by done.
  split; [done|]. split; [by eapply chain_update_head|]. split; [exact Hwf|].
  split; [done|]. split; [|split; [done|split; [by inversion Hnew; constructor|]]].
  - constructor; [done|]. clear - Hpl Hr. induction ls' as [|x ls IH]; [constructor|].
    inversion Hpl; inversion Hr; subst. constructor; [done|auto].
  - intros l' Hl'. rewrite lookup_insert_ne.
    + by apply Ho.
    + intros ->. apply Hl'. by left.
Qed.

Lemma alloc_pool_spec layer length h :
  (∀ h, Z.land (u8 (garbage h 0)) PBUF_FLAG_IS_CUSTOM = 0) → is_u16 length →
  returns (alloc_pool custom_free mem_avail garbage (layer_offset layer) length h) (λ o h',
    (o = None ∧ h' = h) ∨
    ∃ l ls, o = Some l ∧ chain_at h' (Some l) ls ∧ pool_wf 0 ls ∧ new_in ls h h' ∧
      zlen (data ls) = length ∧ head_payload ls = layer_offset layer).
Proof.
  intros Hg Hlen. destruct (layer_offset_range layer) as (Hoff & Hal & _).
  unfold alloc_pool. rewrite Hal. set (offset := layer_offset layer) in *. unfold is_u16 in Hlen.
  destruct (mem_avail h (SIZEOF_STRUCT_PBUF + PBUF_POOL_BUFSIZE_ALIGNED)) eqn:Hav.
  2:{ erewrite bind_ret by by rewrite mem_malloc_eq, Hav. by left. }
  erewrite bind_ret by by rewrite mem_malloc_eq, Hav. cbv beta iota zeta.
  set (p := fresh (dom h)). set (len := Z.min length (PBUF_POOL_BUFSIZE_ALIGNED - offset)).
  assert (Hb : PBUF_POOL_BUFSIZE_ALIGNED = 2048) by done.
  rewrite bind_assert by (apply Z.leb_le; unfold len; lia).
  rewrite bind_assert by (apply Z.ltb_lt; lia).
  rewrite (bind_up _ _ (raw PBUF_POOL_BUFSIZE_ALIGNED h)), insert_insert_eq
    by by rewrite lookup_insert_eq.
  set (bp := mk_pbuf _ _ _ _ _ _ _ _ _).
  assert (Hok : pbuf_ok bp).
  { split_and!; cbn [bp p_payload p_len p_mem]; [lia|unfold len; lia|].
    rewrite zlen_raw by done. unfold len. lia. }
  assert (Hwf : pool_wf (length - len) [(p, bp)]).
  { cbn [pool_wf]. rewrite data_cons, app_nil_r, zlen_pdata by done.
    split; [done|]. split; [done|]. split; [simpl; lia|]. split; [by apply zlen_raw|].
    split; [apply Hg|done]. }
  eapply returns_mono.
  - apply (alloc_tail_spec _ h _ p [] p bp); [|done| |unfold len; lia|unfold len; lia].
    + constructor; [by rewrite lookup_insert_eq|constructor].
    + split; [constructor; [apply fresh_none|constructor]|].
      intros l [Hl _]%not_elem_of_cons. by rewrite lookup_insert_ne.
  - intros o h' [?|(-> & ls & Hc & Hwf' & Hnew & Hz & Hp)]; [by left|]. right.
    exists p, ls. split_and!; try done; try apply Hnew. rewrite Hz. cbn [app].
    rewrite data_cons, app_nil_r, zlen_pdata by done. simpl. lia.
Qed.

Lemma alloc_ram_spec layer length h :
  is_u16 length →
  alloc_ram mem_avail garbage (layer_offset layer) length h = inr (None, h) ∨
  ∃ p bp, alloc_ram mem_avail garbage (layer_offset layer) length h = inr (Some p, <[p:=bp]> h) ∧
    pbuf_ok bp ∧ p_len bp = length ∧
    p_next bp = None ∧ p_payload bp = layer_offset layer ∧ p_tot_len bp = length ∧
    h !! p = None ∧ p_type bp = PBUF_RAM.
Proof.
  intros Hlen. destruct (layer_offset_range layer) as (Hoff & _ & Hal).
  unfold alloc_ram. rewrite Hal. unfold is_u16 in Hlen.
  set (n := SIZEOF_STRUCT_PBUF + layer_offset layer - SIZEOF_STRUCT_PBUF + _).
  destruct (mem_avail h (SIZEOF_STRUCT_PBUF + n)) eqn:Hav; [right|left].
  2:{ erewrite bind_ret by by rewrite mem_malloc_eq, Hav. done. }
  erewrite bind_ret by by rewrite mem_malloc_eq, Hav. cbv beta iota.
  rewrite (bind_up _ _ (raw n h)), insert_insert_eq by by rewrite lookup_insert_eq.
  do 2 eexists. split; [done|]. pose proof (align_ge length).
  split; [|split_and!; try done; apply fresh_none].
  split_and!; cbn [p_payload p_len p_mem]; [lia|lia|]. rewrite zlen_raw; unfold n; lia.
Qed.

Lemma pbuf_alloc_returns layer length type h :
  type = PBUF_RAM ∨
  type = PBUF_POOL ∧ (∀ h, Z.land (u8 (garbage h 0)) PBUF_FLAG_IS_CUSTOM = 0) →
  is_u16 length →
  returns (pbuf_alloc custom_free mem_avail garbage layer length type h) (λ o h',
    (o = None ∧ h' = h) ∨ allocated (layer_offset layer) length h o h').
Proof.
  intros [-> | [-> Hg]] Hlen; unfold pbuf_alloc.
  - pose proof (alloc_ram_spec layer length h Hlen) as [E|(p & bp & E & Hok & Hl & Hd)].
    { rewrite (bind_ret _ _ _ _ _ E). by left. }
    rewrite (bind_ret _ _ _ _ _ E). cbv beta iota.
    destruct (alloc_finish h (<[p:=bp]> h) p [(p, bp)] (layer_offset layer)) as (h2 & E2 & Ha).
    + constructor; [by rewrite lookup_insert_eq|]. destruct Hd as (-> & _). constructor.
    + destruct Hd as (_ & _ & Ht & _). unfold is_u16 in Hlen. cbn [map fst snd chain_wf].
      rewrite data_cons, app_nil_r, zlen_pdata by done. simpl. split_and!; try done; lia.
    + constructor.
    + constructor.
    + apply Hd.
    + split; [constructor; [apply Hd|constructor]|].
      intros l [Hl' _]%not_elem_of_cons. by rewrite lookup_insert_ne.
    + rewrite (bind_ret _ _ _ _ _ E2). right.
      replace length with (zlen (data [(p, bp)])); [done|].
      rewrite data_cons, app_nil_r, zlen_pdata by done. done.
  - eapply returns_bind; [by apply alloc_pool_spec|].
    intros o h' [[-> ->]|(l & ls & -> & Hc & Hwf & Hnew & Hz & Hp)]; [by left|].
    destruct (pool_wf_owned _ _ Hwf) as [Hr Hpl].
    assert (Hcw : chain_wf ls) by (apply pool_wf_chain; [done|unfold is_u16 in *; lia]).
    destruct (alloc_finish h h' l ls (layer_offset layer)) as (h2 & E & Ha); try done.
    { by rewrite map_ref_id. }
    { destruct Hpl; done. }
    { destruct Hr; done. }
    rewrite (bind_ret _ _ _ _ _ E). right. by rewrite <-Hz.
Qed.


(** without that condition a failed allocation is not harmless.  When
    memory runs out after the first pbuf of a pool chain, [pbuf_free] reads the
    flags of that pbuf, which were never set: if the recycled memory has the
    [PBUF_FLAG_IS_CUSTOM] bit, it calls a function pointer that was never
    stored. *)
Theorem pbuf_alloc_uninitialised_flags layer length h :
  is_u16 length → PBUF_POOL_BUFSIZE_ALIGNED - layer_offset layer < length →
  mem_avail h (SIZEOF_STRUCT_PBUF + PBUF_POOL_BUFSIZE_ALIGNED) = true →
  (∀ l b, mem_avail (<[l:=b]> h) (SIZEOF_STRUCT_PBUF + PBUF_POOL_BUFSIZE_ALIGNED) = false) →
  Z.land (u8 (garbage h 0)) PBUF_FLAG_IS_CUSTOM ≠ 0 →
  pbuf_alloc custom_free mem_avail garbage layer length PBUF_POOL h = inl Wild.
Proof.
  intros Hlen Hlong Hav Hno Hg. destruct (layer_offset_range layer) as (Hoff & Hal & _).
  unfold is_u16 in Hlen. assert (Hb : PBUF_POOL_BUFSIZE_ALIGNED = 2048) by done.
  unfold pbuf_alloc. apply bind_fault. unfold alloc_pool. rewrite Hal.
  set (offset := layer_offset layer) in *.
  erewrite bind_ret by by rewrite mem_malloc_eq, Hav. cbv beta iota zeta.
  set (p := fresh (dom h)). rewrite Z.min_r by lia.
  rewrite bind_assert by (apply Z.leb_le; lia). rewrite bind_assert by (apply Z.ltb_lt; lia).
  rewrite (bind_up _ _ (raw PBUF_POOL_BUFSIZE_ALIGNED h)), insert_insert_eq
    by by rewrite lookup_insert_eq.
  set (bp := mk_pbuf _ _ _ _ _ _ _ _ _). destruct (Z.to_nat length) eqn:En; [lia|].
  cbn [alloc_tail]. rewrite (proj2 (Z.leb_gt _ 0)) by lia.
  erewrite bind_ret by by rewrite mem_malloc_eq, Hno. cbv beta iota. apply bind_fault.
  assert (Ep : <[p:=bp]> h !! p = Some bp) by by rewrite lookup_insert_eq.
  unfold pbuf_free. rewrite (bind_pb _ _ _ _ Ep), walk_eq. cbn [free_loop].
  rewrite (bind_pb _ _ _ _ Ep), bind_assert, (bind_up _ _ _ _ _ Ep) by done. cbn [Z.eqb].
  apply bind_fault. unfold pbuf_dealloc.
  rewrite (bind_pb _ _ (with_ref 0 bp)) by by rewrite lookup_insert_eq.
  cbn [p_flags with_ref bp raw]. by rewrite (proj2 (Z.eqb_neq _ _) Hg).
Qed.

(** ** Copying between chains *)

(** One packet, not a queue of packets: only the last pbuf carries all that is
    left of the chain. *)
Definition single ls : Prop :=
  Forall (λ x, p_len (snd x) = p_tot_len (snd x) → p_next (snd x) = None) ls.

#[export] Instance single_dec ls : Decision (single ls).
Proof. unfold single. apply _. Defined.

(** The position [o] in the chain [ls] is position [o'] in the chain [ls'],
    which is [ls] or the rest of it. *)
Definition advanced ls o ls' o' : Prop :=
  ∃ pre, ls = pre ++ ls' ∧ zlen (data pre) + o' = o ∧
         match ls' with [] => o' = 0 | (_, b) :: _ => 0 ≤ o' ≤ p_len b end.

Lemma advance h l b ls o :
  chain_at h (Some l) ((l, b) :: ls) → chain_wf ((l, b) :: ls) → 0 ≤ o ≤ p_len b →
  let '(p', o') := if p_len b <=? o then (p_next b, 0) else (Some l, o) in
  ∃ ls', chain_at h p' ls' ∧ advanced ((l, b) :: ls) o ls' o' ∧
         (length ls' ≤ S (length ls))%nat ∧ (p_len b ≤ o → length ls' = length ls).
Proof.
  intros Hc Hwf Ho. inversion Hc as [|? ? ? E Hc']; subst. pose proof Hwf as (Hok & _).
  destruct (Z.leb_spec (p_len b) o).
  - exists ls. split_and!; [done| |lia|done]. exists [(l, b)].
    rewrite data_cons, app_nil_r, zlen_pdata by done. split_and!; [done|lia|].
    destruct ls as [|[l' b'] ls]; [done|]. destruct Hwf as (_ & _ & _ & _ & (_ & ? & _) & _). lia.
  - exists ((l, b) :: ls). split_and!; [done| |simpl; lia|lia]. by exists [].
Qed.

Lemma advanced_drop ls o ls' o' :
  0 ≤ o' → advanced ls o ls' o' →
  drop (Z.to_nat o') (data ls') = drop (Z.to_nat o) (data ls).
Proof.
  intros Ho (pre & -> & <- & _). rewrite data_app. pose proof (zlen_nonneg (data pre)).
  unfold zlen in *. rewrite drop_app_ge by lia. f_equal. lia.
Qed.

Lemma advanced_wf ls o ls' o' : advanced ls o ls' o' → chain_wf ls → chain_wf ls'.
Proof. intros (pre & -> & _). apply chain_wf_app. Qed.

Lemma advanced_single ls o ls' o' : advanced ls o ls' o' → single ls → single ls'.
Proof. intros (pre & -> & _) H. by apply Forall_app in H as [_ ?]. Qed.

(** The check for packet queues passes. *)
Lemma queue_check h p ls :
  chain_at h p ls → single ls →
  (match p with
   | Some l => c ← deref l; passert (negb (p_len c =? p_tot_len c) || bool_decide (p_next c = None))
   | None => mret ()
   end) h = inr ((), h).
Proof.
  intros Hc Hs. destruct p as [l|]; [|done].
  destruct (linked_some_inv _ _ _ Hc) as (b & ls' & -> & E & _). apply Forall_inv in Hs. simpl in Hs.
  rewrite (bind_pb _ _ _ _ E). destruct (Z.eqb_spec (p_len b) (p_tot_len b)) as [Heq|]; [|done].
  cbn [negb orb]. by rewrite bool_decide_eq_true_2 by auto.
Qed.

(** When nothing is left to copy, the source is at its end. *)
Lemma source_done l b ls o :
  chain_wf ((l, b) :: ls) → single ((l, b) :: ls) → 0 ≤ o ≤ p_len b →
  zlen (data ((l, b) :: ls)) ≤ o → p_len b ≤ o ∧ p_next b = None.
Proof.
  intros (Hok & _ & Ht & _) Hs%Forall_inv Ho Hle. simpl in Hs.
  rewrite data_cons, zlen_app, zlen_pdata in * by done. pose proof (zlen_nonneg (data ls)).
  split; [lia|]. apply Hs. lia.
Qed.

(** [l] is overwritten: the target after one round of the loop. *)
Lemma copy_write h t bt lt ot d :
  chain_at h (Some t) ((t, bt) :: lt) → chain_wf ((t, bt) :: lt) → single ((t, bt) :: lt) →
  0 ≤ ot → ot + zlen d ≤ p_len bt →
  let bt' := written ot d bt in
  let lt' := (t, bt') :: lt in
  chain_at (<[t:=bt']> h) (Some t) lt' ∧ chain_wf lt' ∧ single lt' ∧
  data lt' = splice (Z.to_nat ot) d (data ((t, bt) :: lt)).
Proof.
  intros Hc Hwf Hs Ho Hle bt' lt'. destruct Hwf as (Hok & Hr & Ht & Hlt & Hwf).
  destruct (written_ok ot d bt Hok Ho Hle) as [Hok' Hpd].
  assert (Hd : data lt' = splice (Z.to_nat ot) d (data ((t, bt) :: lt))).
  { unfold lt'. rewrite !data_cons. fold bt' in Hpd. rewrite Hpd, splice_app_l; [done|].
    pose proof (zlen_pdata bt Hok). unfold zlen in *. lia. }
  split; [by eapply chain_update_head|]. split; [|split; [|done]].
  - cbn [lt' chain_wf]. rewrite data_cons, zlen_app in *. rewrite (zlen_pdata bt) in Ht by done.
    rewrite (zlen_pdata bt') by done. exact (conj Hok' (conj Hr (conj Ht (conj Hlt Hwf)))).
  - inversion Hs as [|? ? Hb Hls]; subst. by constructor.
Qed.

(** What one round of the loop does: it copies as much as fits and moves on. *)
Lemma copy_loop_step fuel h t bt lt f bf lf ot o :
  chain_at h (Some t) ((t, bt) :: lt) → chain_wf ((t, bt) :: lt) → single ((t, bt) :: lt) →
  chain_at h (Some f) ((f, bf) :: lf) → chain_wf ((f, bf) :: lf) → single ((f, bf) :: lf) →
  (∀ l, l ∈ ((t, bt) :: lt).*1 → l ∉ ((f, bf) :: lf).*1) →
  0 ≤ ot ≤ p_len bt → 0 ≤ o ≤ p_len bf →
  zlen (data ((f, bf) :: lf)) - o ≤ zlen (data ((t, bt) :: lt)) - ot →
  let k := Z.min (p_len bf - o) (p_len bt - ot) in
  let bt' := written ot (take (Z.to_nat k) (drop (Z.to_nat o) (pdata bf))) bt in
  let h' := <[t:=bt']> h in
  ∃ from' lf' o' to' lt' ot',
    chain_at h' from' lf' ∧ advanced ((f, bf) :: lf) (o + k) lf' o' ∧
    chain_at h' to' lt' ∧ advanced ((t, bt') :: lt) (ot + k) lt' ot' ∧
    (length lf' + length lt' ≤ S (length lf + length lt))%nat ∧
    copy_loop (S fuel) t f ot o h =
    match from', to' with
    | None, _ => inr (ERR_OK, h')
    | Some from', Some to' => copy_loop fuel to' from' ot' o' h'
    | Some _, None => inl Abort
    end ∧
    (to' = None → from' = None).
Proof.
  intros Hct Hwt Hst Hcf Hwf Hsf Hdisj Hot Ho Hroom k bt' h'.
  inversion Hct as [|? ? ? Et _]; subst. inversion Hcf as [|? ? ? Ef _]; subst.
  pose proof (chain_wf_len _ _ _ Hwt) as Hlt. pose proof (chain_wf_len _ _ _ Hwf) as Hlf.
  pose proof Hwt as (Hokt & _). pose proof Hwf as (Hokf & _).
  set (d := take (Z.to_nat k) (drop (Z.to_nat o) (pdata bf))).
  assert (Hk : 0 ≤ k ∧ k ≤ p_len bf - o ∧ k ≤ p_len bt - ot ∧
               (k = p_len bf - o ∨ k = p_len bt - ot)) by (unfold k; lia).
  assert (Hd : zlen d = k).
  { pose proof (zlen_pdata bf Hokf). unfold d, zlen in *. rewrite length_take, length_drop. lia. }
  destruct (copy_write h t bt lt ot d Hct Hwt Hst) as (Hct' & Hwt' & Hst' & Hdt'); [lia|lia|].
  change (written ot d bt) with bt' in Hct', Hwt', Hst', Hdt'. fold h' in Hct'.
  assert (Hcf' : chain_at h' (Some f) ((f, bf) :: lf)).
  { apply linked_insert_ne; [done|]. apply Hdisj. by left. }
  pose proof (advance h' f bf lf (o + k) Hcf' Hwf ltac:(lia)) as Haf.
  pose proof (advance h' t bt' lt (ot + k) Hct' Hwt' ltac:(simpl; lia)) as Hat.
  change (p_len bt') with (p_len bt) in Hat. change (p_next bt') with (p_next bt) in Hat.
  destruct (if p_len bf <=? o + k then (p_next bf, 0) else (Some f, o + k)) as [from' o'] eqn:Efr.
  destruct (if p_len bt <=? ot + k then (p_next bt, 0) else (Some t, ot + k)) as [to' ot'] eqn:Eto.
  destruct Haf as (lf' & Hcf1 & Haf & Hl1 & Hl2). destruct Hat as (lt' & Hct1 & Hat & Hl3 & Hl4).
  assert (Hnone : to' = None → from' = None).
  { intros ->. inversion Hct1; subst. destruct Hat as (pre & Hpre & Hz & Hz'). 
    rewrite app_nil_r in Hpre. subst pre.
    destruct (source_done f bf lf (o + k)) as [Hle Hn]; [done|done|lia| |].
    { assert (zlen (data ((t, bt') :: lt)) = zlen (data ((t, bt) :: lt))).
      { rewrite Hdt'. unfold zlen in *. rewrite length_splice; lia. } lia. }
    rewrite (proj2 (Z.leb_le _ _) Hle) in Efr. by simplify_eq. }
  exists from', lf', o', to', lt', ot'. split_and!; try done; [lia|].
  cbn [copy_loop]. rewrite (bind_pb _ _ _ _ Et), (bind_pb _ _ _ _ Ef).
  replace (if p_len bf - o <=? p_len bt - ot then _ else _) with k
    by (unfold k; destruct (Z.leb_spec (p_len bf - o) (p_len bt - ot)); lia).
  rewrite (u16_id k) by (unfold is_u16; lia).
  rewrite (bind_pread _ _ bf) by (done || lia). fold d.
  rewrite (bind_pwrite _ _ bt) by (done || lia).
  change (written ot d bt) with bt'. fold h'.
  rewrite (u16_id (ot + k)), (u16_id (o + k)) by (unfold is_u16; lia).
  rewrite bind_assert by (apply Z.leb_le; lia). rewrite bind_assert by (apply Z.leb_le; lia).
  rewrite Efr. replace (ot + k =? p_len bt) with (p_len bt <=? ot + k).
  2:{ destruct (Z.leb_spec (p_len bt) (ot + k)), (Z.eqb_spec (ot + k) (p_len bt)); lia || done. }
  rewrite Eto. rewrite bind_assert.
  2:{ destruct to'; [done|]. by rewrite Hnone. }
  rewrite (bind_ret _ _ _ _ _ (queue_check _ _ _ Hcf1 (advanced_single _ _ _ _ Haf Hsf))).
  rewrite (bind_ret _ _ _ _ _ (queue_check _ _ _ Hct1 (advanced_single _ _ _ _ Hat Hst'))).
  by destruct from', to'.
Qed.

(** The end of a chain is replaced. *)
Lemma chain_replace_suffix h h' p pre t b s s' :
  chain_at h p (pre ++ (t, b) :: s) → chain_at h' (Some t) s' →
  (∀ l, l ∈ pre.*1 → h' !! l = h !! l) → chain_at h' p (pre ++ s').
Proof.
  revert p. induction pre as [|[l x] pre IH]; intros p Hc Hs Hag; cbn [app] in *.
  - by inversion Hc; subst.
  - inversion Hc as [|? ? ? E Hc']; subst. constructor.
    + rewrite Hag; [done|by left].
    + apply IH; try done. intros l' Hl'. apply Hag. by right.
Qed.

Lemma chain_wf_replace (pre s s' : pchain) :
  chain_wf (pre ++ s) → chain_wf s' → zlen (data s') = zlen (data s) → chain_wf (pre ++ s').
Proof.
  induction pre as [|[l b] pre IH]; intros Hwf Hs Hz; cbn [app chain_wf] in *; [done|].
  destruct Hwf as (Hok & Hr & Ht & Hlt & Hwf). split; [done|]. split; [done|].
  rewrite data_cons, data_app, !zlen_app, Hz in *. split_and!; try done. by apply IH.
Qed.

Lemma copy_loop_eq fuel h t bt lt f bf lf ot o :
  chain_at h (Some t) ((t, bt) :: lt) → chain_wf ((t, bt) :: lt) → single ((t, bt) :: lt) →
  chain_at h (Some f) ((f, bf) :: lf) → chain_wf ((f, bf) :: lf) → single ((f, bf) :: lf) →
  (∀ l, l ∈ ((t, bt) :: lt).*1 → l ∉ ((f, bf) :: lf).*1) →
  0 ≤ ot ≤ p_len bt → 0 ≤ o ≤ p_len bf →
  zlen (data ((f, bf) :: lf)) - o ≤ zlen (data ((t, bt) :: lt)) - ot →
  (length lf + length lt < fuel)%nat →
  ∃ h' ls', copy_loop fuel t f ot o h = inr (ERR_OK, h') ∧
    chain_at h' (Some t) ls' ∧ ls'.*1 = ((t, bt) :: lt).*1 ∧ chain_wf ls' ∧
    only_in ((t, bt) :: lt) h h' ∧
    data ls' = splice (Z.to_nat ot) (drop (Z.to_nat o) (data ((f, bf) :: lf)))
                 (data ((t, bt) :: lt)).
Proof.
  revert h t bt lt f bf lf ot o. induction fuel as [|fuel IH];
    intros h t bt lt f bf lf ot o Hct Hwt Hst Hcf Hwf Hsf Hdisj Hot Ho Hroom Hfuel; [lia|].
  destruct (copy_loop_step fuel h t bt lt f bf lf ot o Hct Hwt Hst Hcf Hwf Hsf Hdisj Hot Ho Hroom)
    as (from' & lf' & o' & to' & lt' & ot' & Hcf1 & Haf & Hct1 & Hat & Hlen & Heq & Hnone).
  set (k := Z.min (p_len bf - o) (p_len bt - ot)) in *.
  set (d := take (Z.to_nat k) (drop (Z.to_nat o) (pdata bf))) in *.
  set (bt' := written ot d bt) in *. set (h1 := <[t:=bt']> h) in *.
  pose proof Hwf as (Hokf & _). pose proof (zlen_pdata bf Hokf) as Hzf.
  assert (Hdk : length d = Z.to_nat k)
    by (unfold d, zlen, k in *; rewrite length_take, length_drop; lia).
  assert (Hd : d ++ drop (Z.to_nat (o + k)) (data ((f, bf) :: lf))
               = drop (Z.to_nat o) (data ((f, bf) :: lf))).
  { rewrite Z2Nat.inj_add, <-drop_drop by (unfold k; lia). unfold d. rewrite data_cons.
    rewrite (drop_app_le (pdata bf)) by (unfold zlen in Hzf; lia).
    rewrite <-(take_app_le _ (data lf)) by (rewrite length_drop; unfold zlen, k in *; lia).
    apply take_drop. }
  destruct (copy_write h t bt lt ot d Hct Hwt Hst) as (Hct' & Hwt' & Hst' & Hdt');
    [lia|unfold zlen; rewrite Hdk; unfold k; lia|]. fold bt' h1 in Hct', Hwt', Hst', Hdt'.
  destruct from' as [f'|].
  2:{ (* all copied *)
      exists h1, ((t, bt') :: lt). split; [done|]. split; [done|]. split; [done|].
      split; [done|]. split.
      { intros l' [Hl' _]%not_elem_of_cons. unfold h1. by rewrite lookup_insert_ne. }
      rewrite Hdt', <-Hd. inversion Hcf1; subst. destruct Haf as (pre & -> & Hz & ->).
      rewrite app_nil_r in *. rewrite drop_ge, app_nil_r by (unfold zlen in Hz; lia). done. }
  destruct to' as [t'|]; [|by discriminate Hnone].
  destruct (linked_some_inv _ _ _ Hcf1) as (bf1 & lf1 & -> & _ & _).
  destruct (linked_some_inv _ _ _ Hct1) as (bt1 & lt1 & -> & _ & _).
  pose proof Haf as (pref & Hpf & Hzpf & Ho'). pose proof Hat as (pret & Hpt & Hzpt & Hot').
  assert (Hzt : zlen (data ((t, bt') :: lt)) = zlen (data ((t, bt) :: lt))).
  { rewrite Hdt'. pose proof (chain_wf_len _ _ _ Hwt). unfold zlen. rewrite length_splice; [done|].
    rewrite Hdk. unfold zlen, k in *. lia. }
  assert (Hlocs : ((t, bt) :: lt).*1 = pret.*1 ++ ((t', bt1) :: lt1).*1)
    by (rewrite <-fmap_app, <-Hpt; done).
  assert (Hpre : ∀ l, l ∈ pret.*1 → l ∉ ((t', bt1) :: lt1).*1).
  { pose proof (linked_nodup _ _ _ Hct) as Hnd. rewrite Hlocs in Hnd.
    by apply list.NoDup_app in Hnd as (_ & ? & _). }
  destruct (IH h1 t' bt1 lt1 f' bf1 lf1 ot' o') as (h2 & ls2 & Heq2 & Hc2 & Hl2 & Hwf2 & Ho2 & Hd2);
    [done|by eapply advanced_wf|by eapply advanced_single|done|by eapply advanced_wf
    |by eapply advanced_single| |done|done| |simpl in Hlen; lia|].
  { intros l Hl Hl'. apply (Hdisj l).
    - rewrite Hlocs. apply elem_of_app. by right.
    - rewrite Hpf, fmap_app. apply elem_of_app. by right. }
  { rewrite Hpf, data_app, zlen_app in Hroom. rewrite Hpt, data_app, zlen_app in Hzt. lia. }
  exists h2, (pret ++ ls2). rewrite Heq, Heq2. split; [done|]. split; [|split; [|split; [|split]]].
  - rewrite Hpt in Hct'. eapply chain_replace_suffix; [done|done|]. intros l Hl.
    apply Ho2. by apply Hpre.
  - by rewrite fmap_app, Hl2, <-Hlocs.
  - pose proof (chain_wf_len _ _ _ (advanced_wf _ _ _ _ Hat Hwt')).
    rewrite Hpt in Hwt'. eapply chain_wf_replace; [done|done|].
    rewrite Hd2. unfold zlen. rewrite length_splice; [done|]. rewrite length_drop.
    rewrite Hpf, data_app, zlen_app in Hroom. rewrite Hpt, data_app, zlen_app in Hzt.
    unfold zlen in *. lia.
  - intros l Hl. assert (l ≠ t) by (intros ->; apply Hl; by left).
    rewrite Hlocs, not_elem_of_app in Hl. rewrite Ho2 by apply Hl.
    unfold h1. by rewrite lookup_insert_ne.
  - rewrite data_app, Hd2, (advanced_drop _ _ _ _ (proj1 Ho') Haf).
    rewrite <-splice_app_r, <-data_app, <-Hpt, Hdt'.
    replace (length (data pret) + Z.to_nat ot')%nat with (Z.to_nat ot + length d)%nat
      by (rewrite Hdk; unfold zlen, k in *; lia).
    rewrite splice_splice, Hd; [done|].
    pose proof (chain_wf_len _ _ _ Hwt). rewrite Hdk. unfold zlen, k in *. lia.
Qed.

(** [pbuf_copy] copies a packet into another one that is at least as long,
    whatever the lengths of the pbufs of the two chains: the target then
    starts with the bytes of the source and is unchanged behind them. *)
Theorem pbuf_copy_spec h t f lt lf :
  chain_at h (Some t) lt → chain_wf lt → single lt →
  chain_at h (Some f) lf → chain_wf lf → single lf →
  (∀ l, l ∈ lt.*1 → l ∉ lf.*1) → zlen (data lf) ≤ zlen (data lt) →
  ∃ h' ls', pbuf_copy (Some t) (Some f) h = inr (ERR_OK, h') ∧
    chain_at h' (Some t) ls' ∧ ls'.*1 = lt.*1 ∧ chain_wf ls' ∧ only_in lt h h' ∧
    data ls' = data lf ++ drop (length (data lf)) (data lt).
Proof.
  intros Hct Hwt Hst Hcf Hwf Hsf Hdisj Hle.
  destruct (linked_some_inv _ _ _ Hct) as (bt & lt' & -> & Et & _).
  destruct (linked_some_inv _ _ _ Hcf) as (bf & lf' & -> & Ef & _).
  pose proof Hwt as ((_ & ? & _) & _ & Htt & _). pose proof Hwf as ((_ & ? & _) & _ & Htf & _).
  pose proof (linked_length _ _ _ Hct). pose proof (linked_length _ _ _ Hcf). simpl in *.
  unfold pbuf_copy. rewrite (bind_pb _ _ _ _ Et), (bind_pb _ _ _ _ Ef).
  rewrite bind_assert, bind_get by (apply Z.leb_le; lia).
  destruct (copy_loop_eq (S (size h + size h)) h t bt lt' f bf lf' 0 0)
    as (h' & ls' & E & Hc & Hl & Hw & Ho & Hd); try done; try lia.
  by exists h', ls'.
Qed.

End alloc.

(** ** Witnesses *)

Definition no_custom : Empty_set → loc → prog (heap Empty_set) unit := λ f, match f with end.


(** Memory for one pool pbuf only, and recycled memory full of ones. *)
Lemma pbuf_alloc_uninitialised_flags_witness :
  pbuf_alloc no_custom (λ h _, bool_decide (h = ∅)) (λ _ _, 255) PBUF_RAW 5000 PBUF_POOL ∅
  = inl Wild.
Proof.
  apply pbuf_alloc_uninitialised_flags; [cdec|done|done| |done].
  intros l b. apply bool_decide_eq_false_2, insert_non_empty.
Defined.

(** The packet of [hello] in one pbuf. *)
Definition flat : pbuf Empty_set :=
  mk_pbuf None (str "................") 4 12 12 PBUF_RAM 0 1 None.
Definition copy_heap : heap Empty_set := <[3%positive:=flat]> hello_heap.

Lemma pbuf_copy_spec_witness :
  ∃ h' ls', pbuf_copy (Some 3%positive) (Some 1%positive) copy_heap = inr (ERR_OK, h') ∧
    chain_at h' (Some 3%positive) ls' ∧ ls'.*1 = [3%positive] ∧ chain_wf ls' ∧
    only_in [(3%positive, flat)] copy_heap h' ∧ data ls' = str "hello world.".
Proof.
  apply (pbuf_copy_spec copy_heap 3%positive 1%positive [(3%positive, flat)] hello);
    try cdec; try (repeat constructor; done).
  intros l Hl Hl'. cbn in Hl, Hl'. apply list_elem_of_singleton in Hl as ->.
  assert (3%positive ∉ [1%positive; 2%positive]) by cdec. done.
Defined.

End PbufAlloc.
