(* ===== verification/Netif.v ===== *)
(** * Network interfaces: [lwip/src/core/netif.c]

    The list of interfaces and the operations that configure them.  A [struct
    netif] is a record in a finite map from addresses; [netif_list] is the list
    of the addresses the [next] fields chain together.  The operations run in
    any state [W] that contains the interfaces: the functions that
    [netif_add] is given run in it, and so does the part of
    [netif_set_ipaddr] that walks the TCP control blocks, which is a parameter. *)

From S2P Require Import Prelude Def Ip4Addr.

Module Netif.
Import Def Ip4Addr.

Definition netif_loc : Type := positive.

Definition NETIF_FLAG_LINK_UP : Z := 0x10.

Record netif_state := mk_netif_state {
  netif_structs : gmap netif_loc netif;
  netif_list : list netif_loc;
  netif_default : option netif_loc;
  netif_num : Z
}.

Definition set_ip ip n := mk_netif ip (nif_netmask n) (nif_gw n) (nif_mtu n) (nif_flags n)
  (nif_name n) (nif_num n).
Definition set_mask m n := mk_netif (nif_ip_addr n) m (nif_gw n) (nif_mtu n) (nif_flags n)
  (nif_name n) (nif_num n).
Definition set_gw g n := mk_netif (nif_ip_addr n) (nif_netmask n) g (nif_mtu n) (nif_flags n)
  (nif_name n) (nif_num n).
Definition set_mtu m n := mk_netif (nif_ip_addr n) (nif_netmask n) (nif_gw n) m (nif_flags n)
  (nif_name n) (nif_num n).
Definition set_flags f n := mk_netif (nif_ip_addr n) (nif_netmask n) (nif_gw n) (nif_mtu n) f
  (nif_name n) (nif_num n).
Definition set_name s n := mk_netif (nif_ip_addr n) (nif_netmask n) (nif_gw n) (nif_mtu n)
  (nif_flags n) s (nif_num n).
Definition set_num k n := mk_netif (nif_ip_addr n) (nif_netmask n) (nif_gw n) (nif_mtu n)
  (nif_flags n) (nif_name n) k.

Definition netif_is_up (n : netif) : bool := negb (Z.land (nif_flags n) NETIF_FLAG_UP =? 0).

Definition nderef (n : netif_loc) : prog netif_state netif :=
  s ← pget; pderef (netif_structs s !! n).
Definition nupdate (n : netif_loc) (f : netif → netif) : prog netif_state unit :=
  b ← nderef n;
  pmodify (λ s, mk_netif_state (<[n:=f b]> (netif_structs s)) (netif_list s)
                  (netif_default s) (netif_num s)).

Definition netif_set_gw (n : netif_loc) (gw : Z) : prog netif_state unit := nupdate n (set_gw gw).
Definition netif_set_netmask (n : netif_loc) (netmask : Z) : prog netif_state unit :=
  nupdate n (set_mask netmask).
Definition netif_set_default (n : option netif_loc) : prog netif_state unit :=
  pmodify (λ s, mk_netif_state (netif_structs s) (netif_list s) n (netif_num s)).

Definition netif_set_up (n : netif_loc) : prog netif_state unit :=
  b ← nderef n;
  if Z.land (nif_flags b) NETIF_FLAG_UP =? 0
  then nupdate n (λ b, set_flags (Z.lor (nif_flags b) NETIF_FLAG_UP) b)
  else mret ().
Definition netif_set_down (n : netif_loc) : prog netif_state unit :=
  b ← nderef n;
  if Z.land (nif_flags b) NETIF_FLAG_UP =? 0 then mret ()
  else nupdate n (λ b, set_flags (Z.land (nif_flags b) (Z.lnot NETIF_FLAG_UP)) b).
Definition netif_set_link_up (n : netif_loc) : prog netif_state unit :=
  b ← nderef n;
  if Z.land (nif_flags b) NETIF_FLAG_LINK_UP =? 0
  then nupdate n (λ b, set_flags (Z.lor (nif_flags b) NETIF_FLAG_LINK_UP) b)
  else mret ().
Definition netif_set_link_down (n : netif_loc) : prog netif_state unit :=
  b ← nderef n;
  if Z.land (nif_flags b) NETIF_FLAG_LINK_UP =? 0 then mret ()
  else nupdate n (λ b, set_flags (Z.land (nif_flags b) (Z.lnot NETIF_FLAG_LINK_UP)) b).

Definition netif_remove (netif : option netif_loc) : prog netif_state unit :=
  match netif with
  | None => mret ()
  | Some n =>
      b ← nderef n;
      (if netif_is_up b then netif_set_down n else mret ());;
      s ← pget;
      if bool_decide (n ∈ netif_list s) then
        pmodify (λ s, mk_netif_state (netif_structs s) (filter (λ m, m ≠ n) (netif_list s))
                        (netif_default s) (netif_num s));;
        if bool_decide (netif_default s = Some n) then netif_set_default None else mret ()
      else mret ()
  end.

Fixpoint find_loop (name : bytes) (num : Z) (l : list netif_loc)
    : prog netif_state (option netif_loc) :=
  match l with
  | [] => mret None
  | n :: l' =>
      b ← nderef n;
      if (num =? nif_num b) && bool_decide (take 2 name = take 2 (nif_name b))
      then mret (Some n) else find_loop name num l'
  end.
(** [name] has at least three bytes. *)
Definition netif_find (name : option bytes) : prog netif_state (option netif_loc) :=
  match name with
  | None => mret None
  | Some name =>
      s ← pget;
      find_loop name (u8 (nth 2 name 0 - 48)) (netif_list s)
  end.

Section add.
Context {W : Type} `{!Lens W netif_state}.
(** The connections bound to the old address are aborted, the listeners moved
    to the new one. *)
Context (tcp_addr_changed : Z → Z → prog W unit).

Definition netif_set_ipaddr (n : netif_loc) (ipaddr : option Z) : prog W unit :=
  b ← lift (nderef n);
  (match ipaddr with
   | Some ip => if negb (ip =? nif_ip_addr b) then tcp_addr_changed (nif_ip_addr b) ip
                else mret ()
   | None => mret ()
   end);;
  lift (nupdate n (set_ip (default 0 ipaddr))).

Definition netif_set_addr (n : netif_loc) (ipaddr netmask gw : option Z) : prog W unit :=
  netif_set_ipaddr n ipaddr;;
  lift (netif_set_netmask n (default 0 netmask));;
  lift (netif_set_gw n (default 0 gw)).

Definition netif_add (n : netif_loc) (ipaddr netmask gw : option Z)
    (init : netif_loc → prog W err_t) : prog W (option netif_loc) :=
  lift (nupdate n (λ b, set_flags 0 (set_gw 0 (set_mask 0 (set_ip 0 b)))));;
  lift (s ← pget;
        nupdate n (set_num (netif_num s));;
        pmodify (λ s, mk_netif_state (netif_structs s) (netif_list s) (netif_default s)
                        (u8 (netif_num s + 1))));;
  netif_set_addr n ipaddr netmask gw;;
  err ← init n;
  if bool_decide (err ≠ ERR_OK) then mret None
  else
    lift (pmodify (λ s, mk_netif_state (netif_structs s) (n :: netif_list s) (netif_default s)
                          (netif_num s)));;
    mret (Some n).

(** [init_oc_netif] of [ocproxy.c]; the output function is a parameter of the
    code that calls it. *)
Definition init_oc_netif (n : netif_loc) : prog W err_t :=
  lift (nupdate n (set_name [117; 110]));;
  mret ERR_OK.

(** What [main] does with its interface. *)
Definition main_netif (n : netif_loc) (ip netmask gw mtu : Z) : prog W unit :=
  netif_add n (Some ip) (Some netmask) (Some gw) init_oc_netif;;
  lift (nupdate n (set_mtu (u16 mtu)));;
  lift (netif_set_default (Some n));;
  lift (netif_set_up n).

End add.
End Netif.
