(* ===== verification/Udp.v ===== *)
(** * UDP control blocks: [lwip/src/core/udp.c]

    The list of UDP protocol control blocks and the operations that create,
    bind, connect and remove them, and the part of [udp_input] that finds the
    block a datagram is for.  A [struct udp_pcb] is a record in a finite map
    from addresses; [udp_pcbs] is the list of the addresses the [next] fields
    chain together.  The receive callbacks and their arguments are parameters,
    and so is whether [memp_malloc] finds memory. *)

From S2P Require Import Prelude Def Ip4Addr.

Module Udp.
Import Def Ip4Addr.

Definition pcb_loc : Type := positive.

Definition UDP_LOCAL_PORT_RANGE_START : Z := 0xc000.
Definition UDP_LOCAL_PORT_RANGE_END : Z := 0xffff.
Definition UDP_HLEN : Z := 8.
Definition UDP_TTL : Z := 255.
Definition UDP_FLAGS_NOCHKSUM : Z := 0x01.
Definition UDP_FLAGS_CONNECTED : Z := 0x04.

(** [F]: the callbacks ([udp_recv_fn]); [A]: their arguments. *)
Record udp_pcb (F A : Type) := mk_udp_pcb {
  u_local_ip : Z;
  u_remote_ip : Z;
  u_tos : Z;
  u_ttl : Z;
  u_flags : Z;
  u_local_port : Z;
  u_remote_port : Z;
  u_recv : option F;
  u_recv_arg : option A
}.
Arguments mk_udp_pcb {F A}.
Arguments u_local_ip {F A}.
Arguments u_remote_ip {F A}.
Arguments u_tos {F A}.
Arguments u_ttl {F A}.
Arguments u_flags {F A}.
Arguments u_local_port {F A}.
Arguments u_remote_port {F A}.
Arguments u_recv {F A}.
Arguments u_recv_arg {F A}.

Record udp_state (F A : Type) := mk_udp_state {
  udp_structs : gmap pcb_loc (udp_pcb F A);
  udp_pcbs : list pcb_loc;
  udp_port : Z
}.
Arguments mk_udp_state {F A}.
Arguments udp_structs {F A}.
Arguments udp_pcbs {F A}.
Arguments udp_port {F A}.

Section udp.
Context {F A : Type}.
Abbreviation udp_pcb := (udp_pcb F A).
Abbreviation udp_state := (udp_state F A).
Implicit Type b : udp_pcb.

Definition with_local ip port b := mk_udp_pcb ip (u_remote_ip b) (u_tos b) (u_ttl b)
  (u_flags b) port (u_remote_port b) (u_recv b) (u_recv_arg b).
Definition with_remote ip port flags b := mk_udp_pcb (u_local_ip b) ip (u_tos b) (u_ttl b)
  flags (u_local_port b) port (u_recv b) (u_recv_arg b).
Definition with_recv (f : option F) (a : option A) b := mk_udp_pcb (u_local_ip b) (u_remote_ip b) (u_tos b) (u_ttl b)
  (u_flags b) (u_local_port b) (u_remote_port b) f a.

Definition set_pcbs l (s : udp_state) := mk_udp_state (udp_structs s) l (udp_port s).
Definition set_port n (s : udp_state) := mk_udp_state (udp_structs s) (udp_pcbs s) n.

Definition udp_init : udp_state := mk_udp_state ∅ [] UDP_LOCAL_PORT_RANGE_START.

Definition uderef (p : pcb_loc) : prog udp_state udp_pcb :=
  s ← pget; pderef (udp_structs s !! p).
Definition uupdate (p : pcb_loc) (f : udp_pcb → udp_pcb) : prog udp_state unit :=
  b ← uderef p;
  pmodify (λ s, mk_udp_state (<[p:=f b]> (udp_structs s)) (udp_pcbs s) (udp_port s)).

(** ** Choosing a port *)

(** Does the loop over the list meet a block with this local port? *)
Fixpoint port_used (l : list pcb_loc) (port : Z) : prog udp_state bool :=
  match l with
  | [] => mret false
  | p :: l' => b ← uderef p;
      if u_local_port b =? port then mret true else port_used l' port
  end.

(** From the label [again]; every jump back to it increments [n]. *)
Fixpoint new_port_again (fuel : nat) (n : Z) : prog udp_state Z :=
  match fuel with
  | O => pfault Hang
  | S fuel' =>
      s ← pget;
      let port := if udp_port s =? UDP_LOCAL_PORT_RANGE_END
                  then UDP_LOCAL_PORT_RANGE_START else u16 (udp_port s + 1) in
      pmodify (set_port port);;
      used ← port_used (udp_pcbs s) port;
      if negb used then mret port
      else
        let n := u16 (n + 1) in
        if UDP_LOCAL_PORT_RANGE_END - UDP_LOCAL_PORT_RANGE_START <? n then mret 0
        else new_port_again fuel' n
  end.

Definition udp_new_port : prog udp_state Z := new_port_again (Z.to_nat 0x4001) 0.

(** ** Binding and connecting *)

(** The loop over the active list: [None] when another block has the address
    and port, otherwise [rebind]. *)
Fixpoint bind_scan (pcb : pcb_loc) (ipaddr port : Z) (l : list pcb_loc) (rebind : bool)
    : prog udp_state (option bool) :=
  match l with
  | [] => mret (Some rebind)
  | p :: l' =>
      if bool_decide (pcb = p) then
        passert (negb rebind);;
        bind_scan pcb ipaddr port l' true
      else
        b ← uderef p;
        if (u_local_port b =? port)
           && (ip_addr_isany (u_local_ip b) || ip_addr_isany ipaddr
               || (u_local_ip b =? ipaddr))
        then mret None
        else bind_scan pcb ipaddr port l' rebind
  end.

Definition udp_bind (pcb : pcb_loc) (ipaddr port : Z) : prog udp_state err_t :=
  s ← pget;
  scan ← bind_scan pcb ipaddr port (udp_pcbs s) false;
  match scan with
  | None => mret ERR_USE
  | Some rebind =>
      uupdate pcb (λ b, with_local ipaddr (u_local_port b) b);;
      port ← (if port =? 0 then udp_new_port else mret port);
      (* only a failed [udp_new_port] leaves it 0 *)
      if port =? 0 then mret ERR_USE
      else
        uupdate pcb (λ b, with_local (u_local_ip b) port b);;
        (if negb rebind then pmodify (λ s, set_pcbs (pcb :: udp_pcbs s) s) else mret ());;
        mret ERR_OK
  end.

Definition udp_connect (pcb : pcb_loc) (ipaddr port : Z) : prog udp_state err_t :=
  b ← uderef pcb;
  err ← (if u_local_port b =? 0 then udp_bind pcb (u_local_ip b) (u_local_port b)
         else mret ERR_OK);
  if bool_decide (err ≠ ERR_OK) then mret err
  else
    uupdate pcb (λ b, with_remote ipaddr port (Z.lor (u_flags b) UDP_FLAGS_CONNECTED) b);;
    s ← pget;
    if bool_decide (pcb ∈ udp_pcbs s) then mret ERR_OK
    else pmodify (λ s, set_pcbs (pcb :: udp_pcbs s) s);; mret ERR_OK.

Definition udp_disconnect (pcb : pcb_loc) : prog udp_state unit :=
  uupdate pcb (λ b, with_remote IPADDR_ANY 0
    (Z.land (u_flags b) (Z.lnot UDP_FLAGS_CONNECTED)) b).

Definition udp_recv (pcb : pcb_loc) (recv : option F) (recv_arg : option A)
    : prog udp_state unit :=
  uupdate pcb (with_recv recv recv_arg).

(** Unlinking: the first block, or every later one whose [next] is [pcb]. *)
Definition unlink (pcb : pcb_loc) (l : list pcb_loc) : list pcb_loc :=
  match l with
  | [] => []
  | p :: l' => if bool_decide (p = pcb) then l' else p :: filter (λ q, q ≠ pcb) l'
  end.

Definition udp_remove (pcb : pcb_loc) : prog udp_state unit :=
  uderef pcb;;
  pmodify (λ s, mk_udp_state (delete pcb (udp_structs s)) (unlink pcb (udp_pcbs s)) (udp_port s)).

Context (mem_avail : udp_state → bool).

Definition udp_new : prog udp_state (option pcb_loc) :=
  s ← pget;
  if mem_avail s then
    let p := fresh (dom (udp_structs s)) in
    pmodify (λ s, mk_udp_state (<[p:=mk_udp_pcb 0 0 0 UDP_TTL 0 0 0 None None]> (udp_structs s))
                    (udp_pcbs s) (udp_port s));;
    mret (Some p)
  else mret None.

(** ** Finding the block for a datagram *)

(** [local_match] of the loop in [udp_input], for a datagram to [dest_ip] and
    port [dest] that came in on [inp]. *)
Definition local_match (inp : netif) (broadcast : bool) (dest_ip dest : Z) b : bool :=
  (u_local_port b =? dest)
  && ((negb broadcast && ip_addr_isany (u_local_ip b))
      || (u_local_ip b =? dest_ip)
      || (broadcast && (ip_addr_isany (u_local_ip b)
                        || ip_addr_netcmp (u_local_ip b) dest_ip (nif_netmask inp)))).

Definition connected b : bool := negb (Z.land (u_flags b) UDP_FLAGS_CONNECTED =? 0).

Definition remote_match (src_ip src : Z) b : bool :=
  (u_remote_port b =? src)
  && (ip_addr_isany (u_remote_ip b) || (u_remote_ip b =? src_ip)).

(** The [for] loop: [passed] are the blocks passed over (the last first),
    whose head is [prev]; a full match moves to the front of the list and is
    the result, otherwise the first unconnected match is. *)
Fixpoint input_loop (inp : netif) (broadcast : bool) (dest_ip dest src_ip src : Z)
    (passed l : list pcb_loc) (uncon_pcb : option pcb_loc)
    : prog udp_state (option pcb_loc) :=
  match l with
  | [] => mret uncon_pcb
  | p :: l' =>
      b ← uderef p;
      let m := local_match inp broadcast dest_ip dest b in
      let uncon_pcb := match uncon_pcb with
        | None => if m && negb (connected b) then Some p else None
        | Some q => Some q
        end in
      if m && remote_match src_ip src b then
        (* to the front of the list *)
        pmodify (set_pcbs (p :: rev passed ++ l'));;
        mret (Some p)
      else input_loop inp broadcast dest_ip dest src_ip src (p :: passed) l' uncon_pcb
  end.

Definition udp_find_pcb (inp : netif) (broadcast : bool) (dest_ip dest src_ip src : Z)
    : prog udp_state (option pcb_loc) :=
  s ← pget;
  input_loop inp broadcast dest_ip dest src_ip src [] (udp_pcbs s) None.

End udp.
End Udp.
