(* ===== verification/UdpPorts.v ===== *)
(** * Properties of the UDP control blocks

    A port chosen by [udp_new_port] is free, and one is found whenever there is
    one; whatever sequence of calls the program makes, no two blocks share a
    local address and port, no call faults, and the fields keep their types;
    and [udp_input] hands a datagram to the only block it can be for. *)

From S2P Require Import Prelude Def Ip4Addr Udp.

Module UdpPorts.
Import Def Ip4Addr Udp.

Section ports.
Context {F A : Type}.
Abbreviation udp_pcb := (udp_pcb F A).
Abbreviation udp_state := (udp_state F A).
Implicit Types (s : udp_state) (b : udp_pcb).

(** Every block of the list is allocated. *)
Definition listed s : Prop := Forall (λ p, is_Some (udp_structs s !! p)) (udp_pcbs s).
Definition dynamic (x : Z) : Prop :=
  UDP_LOCAL_PORT_RANGE_START ≤ x ≤ UDP_LOCAL_PORT_RANGE_END.
(** The local ports of the blocks of the list. *)
Definition ports s : list Z :=
  (λ p, from_option u_local_port 0 (udp_structs s !! p)) <$> udp_pcbs s.

Lemma bind_uderef {B} p b (k : udp_pcb → prog udp_state B) s :
  udp_structs s !! p = Some b → (uderef p ≫= k) s = k b s.
Proof.
  intros E. apply bind_ret. unfold uderef. rewrite bind_get, E. done.
Qed.

Lemma bind_uupdate {B} p b f (k : unit → prog udp_state B) s :
  udp_structs s !! p = Some b →
  (uupdate p f ≫= k) s
  = k tt (mk_udp_state (<[p:=f b]> (udp_structs s)) (udp_pcbs s) (udp_port s)).
Proof.
  intros E. apply bind_ret. unfold uupdate. by rewrite (bind_uderef _ _ _ _ E).
Qed.

(** ** Choosing a port *)

Lemma port_used_spec s x l :
  Forall (λ p, is_Some (udp_structs s !! p)) l →
  port_used l x s
  = inr (bool_decide (x ∈ (λ p, from_option u_local_port 0 (udp_structs s !! p)) <$> l), s).
Proof.
  induction 1 as [|p l [b Hb] _ IH]; [done|]. cbn [port_used].
  rewrite (bind_uderef _ _ _ _ Hb), fmap_cons, Hb. cbn [from_option].
  destruct (Z.eqb_spec (u_local_port b) x) as [->|Hne].
  - by rewrite bool_decide_true by apply list_elem_of_here.
  - rewrite IH. do 2 f_equal. apply bool_decide_ext. rewrite elem_of_cons.
    split; [by right|by intros [->|]].
Qed.

(** The port tried after [k] others. *)
Definition nth_port (x k : Z) : Z :=
  UDP_LOCAL_PORT_RANGE_START + (x - UDP_LOCAL_PORT_RANGE_START + k) mod 0x4000.

Lemma nth_port_range x k : dynamic (nth_port x k).
Proof. unfold dynamic, nth_port, UDP_LOCAL_PORT_RANGE_START, UDP_LOCAL_PORT_RANGE_END. zdm. Qed.

Lemma nth_port_0 x : dynamic x → nth_port x 0 = x.
Proof. unfold dynamic, nth_port, UDP_LOCAL_PORT_RANGE_START, UDP_LOCAL_PORT_RANGE_END. zdm. Qed.

Lemma nth_port_next x k :
  (if nth_port x k =? UDP_LOCAL_PORT_RANGE_END then UDP_LOCAL_PORT_RANGE_START
   else u16 (nth_port x k + 1)) = nth_port x (k + 1).
Proof.
  unfold nth_port, u16, UDP_LOCAL_PORT_RANGE_START, UDP_LOCAL_PORT_RANGE_END.
  case_match eqn:E; [apply Z.eqb_eq in E|apply Z.eqb_neq in E]; zdm.
Qed.

Lemma nth_port_all x y : dynamic y → ∃ k, 1 ≤ k ≤ 0x4000 ∧ y = nth_port x k.
Proof.
  unfold dynamic, nth_port, UDP_LOCAL_PORT_RANGE_START, UDP_LOCAL_PORT_RANGE_END.
  intros Hy. exists ((y - x - 1) mod 0x4000 + 1). zdm.
Qed.

Definition port_chosen s (r : Z) s' : Prop :=
  ∃ x, dynamic x ∧ s' = set_port x s ∧
    ((r = x ∧ x ∉ ports s) ∨ (r = 0 ∧ (∀ y, dynamic y → y ∈ ports s))).

Lemma new_port_again_spec x s fuel n :
  listed s → 0x4001 ≤ n + Z.of_nat fuel → 0 ≤ n < 0x4000 →
  (∀ k, 1 ≤ k ≤ n → nth_port x k ∈ ports s) →
  udp_port s = nth_port x n →
  returns (new_port_again fuel n s) (port_chosen s).
Proof.
  intros Hl. revert n s Hl. induction fuel as [|fuel IH]; intros n s Hl Hf Hn Hk Hx; [lia|].
  cbn [new_port_again]. rewrite bind_get, bind_modify, Hx, nth_port_next.
  rewrite (bind_ret _ _ _ _ _ (port_used_spec (set_port _ s) _ _ Hl)). cbn [set_port udp_structs].
  change ((λ p, from_option u_local_port 0 (udp_structs s !! p)) <$> udp_pcbs s) with (ports s).
  assert (Hr := nth_port_range x (n + 1)).
  case_bool_decide as Hu; cbn [negb]; [|by exists (nth_port x (n + 1)); eauto].
  assert (Hk' : ∀ k, 1 ≤ k ≤ n + 1 → nth_port x k ∈ ports s).
  { intros k ?. destruct (decide (k = n + 1)) as [->|]; [done|]. apply Hk. lia. }
  assert (u16 (n + 1) = n + 1) as -> by (apply u16_id; unfold is_u16; lia).
  unfold UDP_LOCAL_PORT_RANGE_END, UDP_LOCAL_PORT_RANGE_START.
  destruct (Z.ltb_spec (65535 - 49152) (n + 1)).
  - eexists; split_and!; [done..|]. right. split; [done|]. intros y Hy.
    destruct (nth_port_all x y Hy) as (k & ? & ->). apply Hk'. lia.
  - eapply returns_mono; [apply (IH (n + 1) (set_port _ s))|]; [done|lia|lia|done|done|].
    intros r s' (y & Hy & -> & Hc). by exists y.
Qed.

Lemma udp_new_port_chosen s :
  listed s → dynamic (udp_port s) → returns (udp_new_port s) (port_chosen s).
Proof.
  intros Hl Hr. apply (new_port_again_spec (udp_port s)); [done|lia|lia| |].
  - intros k ?. lia.
  - by rewrite nth_port_0.
Qed.

(** With fewer blocks than ports one of the ports is free. *)
Lemma free_port_exists s :
  (length (udp_pcbs s) < Z.to_nat 0x4000)%nat → ¬ (∀ y, dynamic y → y ∈ ports s).
Proof.
  intros Hlt Hall.
  set (l := (λ i : nat, UDP_LOCAL_PORT_RANGE_START + Z.of_nat i) <$> seq 0 (Z.to_nat 0x4000)).
  assert (Hsub : l ⊆+ ports s).
  { apply NoDup_submseteq.
    - apply NoDup_fmap_2_strong; [intros; lia|]. apply NoDup_seq.
    - intros y (i & -> & Hi%elem_of_seq)%list_elem_of_fmap. apply Hall.
      unfold dynamic, UDP_LOCAL_PORT_RANGE_START, UDP_LOCAL_PORT_RANGE_END. lia. }
  apply submseteq_length in Hsub. unfold l, ports in Hsub.
  rewrite !length_fmap, length_seq in Hsub. lia.
Qed.

(** ** Two blocks that would both take a datagram *)

Definition conflict b b' : Prop :=
  u_local_port b = u_local_port b' ∧
  (u_local_ip b = IPADDR_ANY ∨ u_local_ip b' = IPADDR_ANY ∨ u_local_ip b = u_local_ip b').

Lemma conflict_sym b b' : conflict b b' → conflict b' b.
Proof. unfold conflict. intros [? [?|[?|?]]]; auto. Qed.

Record typed b : Prop := {
  typed_local_ip : is_u32 (u_local_ip b);
  typed_remote_ip : is_u32 (u_remote_ip b);
  typed_tos : is_u8 (u_tos b);
  typed_ttl : is_u8 (u_ttl b);
  typed_flags : is_u8 (u_flags b);
  typed_local_port : is_u16 (u_local_port b);
  typed_remote_port : is_u16 (u_remote_port b)
}.

(** A block is on the list exactly when it has a local port, and blocks of
    the list do not conflict. *)
Record udp_ok s : Prop := {
  ok_nodup : NoDup (udp_pcbs s);
  ok_listed : listed s;
  ok_bound p b : udp_structs s !! p = Some b → (p ∈ udp_pcbs s ↔ u_local_port b ≠ 0);
  ok_apart p q b b' : p ∈ udp_pcbs s → q ∈ udp_pcbs s → p ≠ q →
    udp_structs s !! p = Some b → udp_structs s !! q = Some b' → ¬ conflict b b';
  ok_typed p b : udp_structs s !! p = Some b → typed b;
  ok_port : dynamic (udp_port s);
  ok_size : (size (udp_structs s) < Z.to_nat 0x4000)%nat
}.

Lemma listed_length s : udp_ok s → (length (udp_pcbs s) < Z.to_nat 0x4000)%nat.
Proof.
  intros [Hd Hl _ _ _ _ Hs]. eapply Nat.le_lt_trans; [|exact Hs].
  rewrite <- (size_dom (D := gset pcb_loc)), <- (size_list_to_set (C := gset pcb_loc)) by done.
  apply subseteq_size. intros p Hp%elem_of_list_to_set. apply elem_of_dom.
  unfold listed in Hl. rewrite list.Forall_forall in Hl. by apply Hl.
Qed.

(** What [bind_scan] finds out. *)
Lemma bind_scan_spec pcb ipaddr port s l r :
  NoDup l → Forall (λ p, is_Some (udp_structs s !! p)) l → (r = true → pcb ∉ l) →
  ∃ v, bind_scan pcb ipaddr port l r s = inr (v, s) ∧
    match v with
    | None => True
    | Some r' => (r' = true ↔ r = true ∨ pcb ∈ l) ∧
        ∀ p b, p ∈ l → p ≠ pcb → udp_structs s !! p = Some b → u_local_port b = port →
          u_local_ip b ≠ IPADDR_ANY ∧ ipaddr ≠ IPADDR_ANY ∧ u_local_ip b ≠ ipaddr
    end.
Proof.
  intros Hd Hl. revert r Hd. induction Hl as [|p l [b Hb] _ IH]; intros r Hd Hr; cbn [bind_scan].
  { eexists; split; [done|]. split; [rewrite elem_of_nil; tauto|].
    by intros p b []%elem_of_nil. }
  apply list.NoDup_cons in Hd as [Hp Hd]. case_bool_decide as Heq; [subst p|].
  - destruct r; [exfalso; apply Hr; [done|apply list_elem_of_here]|]. rewrite bind_assert by done.
    destruct (IH true Hd (λ _, Hp)) as (v & -> & Hv). eexists; split; [done|].
    destruct v as [r'|]; [|done]. destruct Hv as [Hr' Hv]. split.
    { rewrite Hr'. split; [right; apply list_elem_of_here|by left]. }
    intros p b' [->|?]%elem_of_cons; [done|]. by apply Hv.
  - rewrite (bind_uderef _ _ _ _ Hb). case_match eqn:E; [by eexists; split|].
    destruct (IH r Hd) as (v & -> & Hv); [intros ->; intros ?; apply Hr; [done|by right]|].
    eexists; split; [done|]. destruct v as [r'|]; [|done]. destruct Hv as [Hr' Hv]. split.
    { rewrite Hr', elem_of_cons. tauto. }
    intros q b' [->|?]%elem_of_cons; [|by apply Hv].
    intros _ Hb' Hport. simplify_eq. rewrite Z.eqb_refl in E. cbn [andb] in E.
    apply orb_false_iff in E as [[E1 E2]%orb_false_iff E3].
    unfold ip_addr_isany in *. apply Z.eqb_neq in E1, E2, E3. done.
Qed.

(** ** The operations keep the invariant *)

(** Changing one block, and perhaps putting it on the list. *)
Lemma udp_ok_set s p b0 b l x :
  udp_ok s → udp_structs s !! p = Some b0 → typed b → dynamic x →
  NoDup l → (∀ q, q ≠ p → q ∈ l ↔ q ∈ udp_pcbs s) → (p ∈ l ↔ u_local_port b ≠ 0) →
  (p ∈ l → ∀ q b', q ∈ udp_pcbs s → q ≠ p → udp_structs s !! q = Some b' → ¬ conflict b b') →
  udp_ok (mk_udp_state (<[p:=b]> (udp_structs s)) l x).
Proof.
  intros [Hd Hl Hb Ha Ht Hp Hs] Hp0 Htb Hx Hd' Hq Hin Hc.
  split; cbn [udp_structs udp_pcbs udp_port]; [done| | | | |done|].
  - apply list.Forall_forall. cbn [udp_structs udp_pcbs]. intros q Hql.
    destruct (decide (q = p)) as [->|Hne]; [by rewrite lookup_insert_eq|].
    rewrite lookup_insert_ne by done. unfold listed in Hl. rewrite list.Forall_forall in Hl.
    by apply Hl, Hq.
  - intros q b' [[-> ->]|[Hne Hq']]%lookup_insert_Some; [done|]. by rewrite Hq, Hb.
  - intros q q' b1 b2 H1 H2 Hne [[-> ->]|[Hne1 Hb1]]%lookup_insert_Some
      [[<- ->]|[Hne2 Hb2]]%lookup_insert_Some; [done| | |].
    + apply (Hc H1 q'); [by apply Hq|done|done].
    + intros ?%conflict_sym. by eapply (Hc H2 q); [by apply Hq|..].
    + eapply (Ha q q'); [by apply Hq|by apply Hq|done..].
  - intros q b' [[-> ->]|[Hne Hq']]%lookup_insert_Some; [done|]. by eapply Ht.
  - by rewrite map_size_insert_Some.
Qed.

(** A change that leaves the local address and port alone. *)
Lemma uupdate_ok s p b0 f :
  udp_ok s → udp_structs s !! p = Some b0 → (typed b0 → typed (f b0)) →
  u_local_port (f b0) = u_local_port b0 → u_local_ip (f b0) = u_local_ip b0 →
  udp_ok (mk_udp_state (<[p:=f b0]> (udp_structs s)) (udp_pcbs s) (udp_port s)).
Proof.
  intros Hok Hp Ht Hport Hip.
  eapply udp_ok_set; [done|done| |apply Hok|apply Hok|done| |].
  - by eapply Ht, ok_typed.
  - rewrite Hport. by eapply ok_bound.
  - intros Hin q b' Hq Hne Hb'. unfold conflict. rewrite Hport, Hip.
    by eapply (ok_apart _ Hok p q).
Qed.

Lemma typed_local b ip port :
  typed b → is_u32 ip → is_u16 port → typed (with_local ip port b).
Proof. by intros []; split. Qed.

Lemma dynamic_u16 x : dynamic x → is_u16 x ∧ x ≠ 0.
Proof.
  unfold dynamic, is_u16, UDP_LOCAL_PORT_RANGE_START, UDP_LOCAL_PORT_RANGE_END. lia.
Qed.

(** The last part of [udp_bind]: the block gets its port. *)
Lemma bound_ok s p b0 ip port (rebind : bool) x :
  udp_ok s → udp_structs s !! p = Some b0 → is_u32 ip → is_u16 port → port ≠ 0 →
  dynamic x → (rebind = true ↔ p ∈ udp_pcbs s) →
  (∀ q b, q ∈ udp_pcbs s → q ≠ p → udp_structs s !! q = Some b → u_local_port b = port →
    u_local_ip b ≠ IPADDR_ANY ∧ ip ≠ IPADDR_ANY ∧ u_local_ip b ≠ ip) →
  udp_ok (mk_udp_state (<[p:=with_local ip port b0]> (udp_structs s))
            (if rebind then udp_pcbs s else p :: udp_pcbs s) x).
Proof.
  intros Hok Hp Hip Hport Hne Hx Hr Hfree.
  assert (Hin : p ∈ (if rebind then udp_pcbs s else p :: udp_pcbs s)).
  { destruct rebind; [by apply Hr|apply list_elem_of_here]. }
  eapply udp_ok_set; [done|done| |done| | | |].
  - apply typed_local; [by eapply ok_typed|done..].
  - destruct rebind; [apply Hok|]. apply list.NoDup_cons. split; [|apply Hok].
    intros ?%Hr. done.
  - intros q Hqp. destruct rebind; [done|]. rewrite elem_of_cons. tauto.
  - split; [by intros _|done].
  - intros _ q b' Hq Hqp Hb' [Hpp Hcc]. cbn [with_local u_local_port u_local_ip] in *.
    destruct (Hfree q b') as (? & ? & ?); [done..|]. destruct Hcc as [|[]]; congruence.
Qed.

Definition bound_post s p (e : err_t) s' : Prop :=
  udp_ok s' ∧ dom (udp_structs s') = dom (udp_structs s) ∧ (e = ERR_OK → p ∈ udp_pcbs s').

(** The port [udp_bind] ends up with does not clash with the other blocks. *)
Definition unclashing s p ip (r : Z) : Prop :=
  ∀ q b, q ∈ udp_pcbs s → q ≠ p → udp_structs s !! q = Some b → u_local_port b = r →
    u_local_ip b ≠ IPADDR_ANY ∧ ip ≠ IPADDR_ANY ∧ u_local_ip b ≠ ip.

Lemma chosen_port s p b1 ip port :
  udp_ok s → is_u16 port → unclashing s p ip port →
  let s1 := mk_udp_state (<[p:=b1]> (udp_structs s)) (udp_pcbs s) (udp_port s) in
  returns ((if port =? 0 then udp_new_port else mret port) s1) (λ r s',
    is_u16 r ∧ r ≠ 0 ∧ unclashing s p ip r ∧ ∃ x, dynamic x ∧ s' = set_port x s1).
Proof.
  intros Hok Hport Hfree s1. destruct (Z.eqb_spec port 0) as [->|Hne].
  2: { split_and!; [done..|]. exists (udp_port s). split; [apply Hok|done]. }
  eapply returns_mono; [apply udp_new_port_chosen; [|apply Hok]|].
  - apply list.Forall_forall. intros q Hq. cbn [s1 udp_structs].
    destruct (decide (q = p)) as [->|]; [by rewrite lookup_insert_eq|].
    rewrite lookup_insert_ne by done. assert (Hl := ok_listed _ Hok). unfold listed in Hl.
    rewrite list.Forall_forall in Hl. by apply Hl.
  - intros r s' (x & Hx & -> & [[-> Hnew]|[_ Hfull]]).
    + destruct (dynamic_u16 x Hx). split_and!; [done..| |by exists x].
      intros q b Hq Hqp Hb <-. exfalso. apply Hnew, list_elem_of_fmap. exists q.
      cbn [s1 udp_structs]. by rewrite lookup_insert_ne, Hb.
    + exfalso. revert Hfull. apply free_port_exists. apply (listed_length s Hok).
Qed.

Lemma udp_bind_ok s p b0 ip port :
  udp_ok s → udp_structs s !! p = Some b0 → is_u32 ip → is_u16 port →
  returns (udp_bind p ip port s) (bound_post s p).
Proof.
  intros Hok Hp Hip Hport. unfold udp_bind. rewrite bind_get.
  destruct (bind_scan_spec p ip port s (udp_pcbs s) false) as (v & Hv & Hscan);
    [apply Hok|apply Hok|done|].
  rewrite (bind_ret _ _ _ _ _ Hv). destruct v as [rebind|]; [|by split_and!].
  destruct Hscan as [Hr Hfree]. rewrite (bind_uupdate _ _ _ _ _ Hp).
  eapply returns_bind; [by apply (chosen_port s p _ ip)|].
  intros r s' (Hru & Hr0 & Hapart & x & Hx & ->). rewrite (proj2 (Z.eqb_neq r 0)) by done.
  erewrite bind_uupdate by apply lookup_insert_eq. cbn [set_port udp_structs].
  rewrite insert_insert_eq.
  assert (Hok' : udp_ok (mk_udp_state (<[p:=with_local ip r b0]> (udp_structs s))
            (if rebind then udp_pcbs s else p :: udp_pcbs s) x)).
  { apply bound_ok; try done. rewrite Hr. split; [by intros [|]|by right]. }
  destruct rebind; (split; [exact Hok'|split; [apply dom_insert_lookup_L; by eexists|]]).
  - intros _. by destruct (proj1 Hr eq_refl).
  - intros _. apply list_elem_of_here.
Qed.

Lemma flags_u8 f : is_u8 f →
  is_u8 (Z.lor f UDP_FLAGS_CONNECTED) ∧ is_u8 (Z.land f (Z.lnot UDP_FLAGS_CONNECTED)).
Proof.
  intros Hf. apply (u8_table (λ f, bool_decide (is_u8 (Z.lor f UDP_FLAGS_CONNECTED) ∧
    is_u8 (Z.land f (Z.lnot UDP_FLAGS_CONNECTED))))) in Hf; [|by vm_compute].
  by apply bool_decide_eq_true in Hf.
Qed.

Lemma udp_connect_ok s p b0 ip port :
  udp_ok s → udp_structs s !! p = Some b0 → is_u32 ip → is_u16 port →
  returns (udp_connect p ip port s) (bound_post s p).
Proof.
  intros Hok Hp Hip Hport. unfold udp_connect. rewrite (bind_uderef _ _ _ _ Hp).
  assert (Ht := ok_typed _ Hok p b0 Hp).
  eapply (returns_bind _ _ _ (bound_post s p)).
  { destruct (Z.eqb_spec (u_local_port b0) 0) as [E|Hne].
    - apply (udp_bind_ok s p b0); [done|done|apply Ht|apply Ht].
    - split_and!; [done..|]. intros _. by eapply ok_bound. }
  intros e s1 (Hok1 & Hdom & Hin). case_bool_decide as He; [by split_and!|].
  destruct (decide (e = ERR_OK)) as [->|]; [|done]. specialize (Hin eq_refl).
  assert (is_Some (udp_structs s1 !! p)) as [b1 Hp1].
  { apply elem_of_dom. rewrite Hdom. apply elem_of_dom. by eexists. }
  rewrite (bind_uupdate _ _ _ _ _ Hp1), bind_get. cbn [udp_pcbs].
  rewrite bool_decide_true by done. split_and!; [|cbn [udp_structs]|done].
  - apply (uupdate_ok s1 p b1); [done|done| |done|done]. intros []. split; try done.
    by apply flags_u8.
  - rewrite dom_insert_lookup_L by (by eexists). done.
Qed.

Lemma unlink_filter p l : NoDup l → unlink p l = filter (λ q, q ≠ p) l.
Proof.
  intros Hd. destruct l as [|q l]; [done|]. cbn [unlink]. apply list.NoDup_cons in Hd as [Hq _].
  rewrite filter_cons. case_bool_decide as E; [subst q|by rewrite decide_True].
  rewrite decide_False by (intros H; by apply H). symmetry.
  induction l as [|x l IH]; [done|]. rewrite filter_cons.
  apply not_elem_of_cons in Hq as [Hx Hq]. rewrite decide_True by done. by rewrite IH.
Qed.

Lemma udp_remove_ok s p b0 :
  udp_ok s → udp_structs s !! p = Some b0 → returns (udp_remove p s) (λ _ s', udp_ok s').
Proof.
  intros Hok Hp. unfold udp_remove. rewrite (bind_uderef _ _ _ _ Hp). cbn [returns pmodify].
  rewrite unlink_filter by apply Hok. destruct Hok as [Hd Hl Hb Ha Ht Hx Hs].
  split; cbn [udp_structs udp_pcbs udp_port]; [by apply list.NoDup_filter| | | | |done|].
  - apply list.Forall_forall. intros q [Hne Hq]%list_elem_of_filter. cbn [udp_structs].
    rewrite lookup_delete_ne by done. unfold listed in Hl. rewrite list.Forall_forall in Hl.
    by apply Hl.
  - intros q b [Hne Hq]%lookup_delete_Some. rewrite list_elem_of_filter, <- (Hb q b Hq).
    split; [by intros []|done].
  - intros q q' b b' [_ ?]%list_elem_of_filter [_ ?]%list_elem_of_filter ?
      [_ ?]%lookup_delete_Some [_ ?]%lookup_delete_Some. by eapply (Ha q q').
  - intros q b [_ ?]%lookup_delete_Some. by eapply Ht.
  - rewrite map_size_delete_Some by (by eexists). lia.
Qed.

(** ** Finding a block *)

Definition at_pcb s (f : udp_pcb → bool) (p : pcb_loc) : bool :=
  from_option f false (udp_structs s !! p).

Section find.
Context (inp : netif) (broadcast : bool) (dest_ip dest src_ip src : Z).

(** The two kinds of match: on both ends, and on the local end of a block
    that is not connected. *)
Definition full_match b : bool :=
  local_match inp broadcast dest_ip dest b && remote_match src_ip src b.
Definition open_match b : bool :=
  local_match inp broadcast dest_ip dest b && negb (connected b).

Lemma input_loop_spec s passed l u :
  Forall (λ p, is_Some (udp_structs s !! p)) l →
  match List.find (at_pcb s full_match) l with
  | Some p => ∃ l1 l2, l = l1 ++ p :: l2 ∧
      input_loop inp broadcast dest_ip dest src_ip src passed l u s
      = inr (Some p, set_pcbs (p :: rev passed ++ l1 ++ l2) s)
  | None =>
      input_loop inp broadcast dest_ip dest src_ip src passed l u s
      = inr (match u with Some q => Some q | None => List.find (at_pcb s open_match) l end, s)
  end.
Proof.
  intros Hl. revert passed u. induction Hl as [|p l [b Hb] _ IH]; intros passed u.
  { by destruct u. }
  cbn [List.find input_loop].
  assert (at_pcb s full_match p = full_match b ∧ at_pcb s open_match p = open_match b) as [-> ->].
  { unfold at_pcb. by rewrite Hb. }
  unfold full_match at 1. destruct (_ && remote_match _ _ b) eqn:Hm.
  - exists [], l. split; [done|]. rewrite (bind_uderef _ _ _ _ Hb), Hm. done.
  - specialize (IH (p :: passed) (match u with
      | Some q => Some q | None => if open_match b then Some p else None end)).
    rewrite (bind_uderef _ _ _ _ Hb), Hm. fold (open_match b).
    destruct (List.find (at_pcb s full_match) l) as [q|].
    + destruct IH as (l1 & l2 & -> & E). exists (p :: l1), l2. split; [done|].
      rewrite E. cbn [rev]. by rewrite <- app_assoc.
    + rewrite IH. by destruct u, (open_match b).
Qed.

Lemma udp_find_pcb_eq s :
  listed s →
  ∃ l, l ≡ₚ udp_pcbs s ∧
    udp_find_pcb inp broadcast dest_ip dest src_ip src s
    = inr (match List.find (at_pcb s full_match) (udp_pcbs s) with
           | Some p => Some p
           | None => List.find (at_pcb s open_match) (udp_pcbs s)
           end, set_pcbs l s).
Proof.
  intros Hl. unfold udp_find_pcb. rewrite bind_get.
  assert (H := input_loop_spec s [] (udp_pcbs s) None Hl).
  destruct (List.find (at_pcb s full_match) _) as [p|].
  - destruct H as (l1 & l2 & E & ->). eexists; split; [|done]. rewrite E. cbn [rev app].
    by rewrite Permutation_middle.
  - exists (udp_pcbs s). split; [done|]. rewrite H. by destruct s.
Qed.

End find.

Lemma set_pcbs_ok s l : udp_ok s → l ≡ₚ udp_pcbs s → udp_ok (set_pcbs l s).
Proof.
  intros [Hd Hl Hb Ha Ht Hx Hs] Hp. split; cbn [set_pcbs udp_structs udp_pcbs udp_port]; try done.
  - by rewrite Hp.
  - unfold listed. cbn [set_pcbs udp_structs udp_pcbs]. by rewrite Hp.
  - intros p b. rewrite Hp. apply Hb.
  - intros p q b b'. rewrite !Hp. apply Ha.
Qed.

(** Only one block matches a datagram locally, if it is not a broadcast. *)
Lemma local_match_conflict inp dest_ip dest b b' :
  local_match inp false dest_ip dest b = true → local_match inp false dest_ip dest b' = true →
  conflict b b'.
Proof.
  unfold local_match, ip_addr_isany, conflict. cbn [negb andb]. rewrite !orb_false_r.
  intros [E1%Z.eqb_eq [E2%Z.eqb_eq|E2%Z.eqb_eq]%orb_prop]%andb_prop
    [E3%Z.eqb_eq [E4%Z.eqb_eq|E4%Z.eqb_eq]%orb_prop]%andb_prop; split; try congruence; auto.
  right; right; congruence.
Qed.

Lemma owner_found s inp dest_ip dest src_ip src p b :
  udp_ok s → p ∈ udp_pcbs s → udp_structs s !! p = Some b →
  local_match inp false dest_ip dest b = true →
  connected b = false ∨ remote_match src_ip src b = true →
  match List.find (at_pcb s (full_match inp false dest_ip dest src_ip src)) (udp_pcbs s) with
  | Some p => Some p
  | None => List.find (at_pcb s (open_match inp false dest_ip dest)) (udp_pcbs s)
  end = Some p.
Proof.
  intros Hok Hp Hb Hm Hor.
  assert (Huniq : ∀ q f, q ∈ udp_pcbs s → at_pcb s f q = true →
    (∀ b', f b' = true → local_match inp false dest_ip dest b' = true) → q = p).
  { intros q f Hq Hf Hloc. destruct (decide (q = p)) as [|Hne]; [done|]. exfalso.
    unfold at_pcb in Hf. destruct (udp_structs s !! q) as [b'|] eqn:Hb'; [|done].
    eapply (ok_apart _ Hok q p); [done..|]. eapply local_match_conflict; [by apply Hloc|done]. }
  assert (Hfirst : ∀ f, (∀ b', f b' = true → local_match inp false dest_ip dest b' = true) →
    f b = true → List.find (at_pcb s f) (udp_pcbs s) = Some p).
  { intros f Hloc Hf. destruct (List.find _ _) as [q|] eqn:E.
    - apply find_some in E as [Hq%list_elem_of_In Hq']. f_equal. by eapply Huniq.
    - exfalso. eapply find_none in E; [|by apply list_elem_of_In]. unfold at_pcb in E.
      rewrite Hb in E. cbn [from_option] in E. congruence. }
  destruct Hor as [Hc|Hr].
  - destruct (List.find _ _) as [q|] eqn:E.
    + apply find_some in E as [Hq%list_elem_of_In Hq']. f_equal. eapply Huniq; [done..|].
      by intros b' []%andb_prop.
    + apply Hfirst; [by intros b' []%andb_prop|]. unfold open_match. by rewrite Hm, Hc.
  - rewrite Hfirst; [done|by intros b' []%andb_prop|]. unfold full_match. by rewrite Hm, Hr.
Qed.

(** ** Any sequence of calls *)

Context (mem_avail : udp_state → bool).

Inductive udp_call :=
  | CNew
  | CBind (p : pcb_loc) (ip port : Z)
  | CConnect (p : pcb_loc) (ip port : Z)
  | CDisconnect (p : pcb_loc)
  | CRecv (p : pcb_loc) (f : option F) (a : option A)
  | CRemove (p : pcb_loc)
  | CInput (inp : netif) (broadcast : bool) (dest_ip dest src_ip src : Z).

Definition run_call (c : udp_call) : prog udp_state unit :=
  match c with
  | CNew => udp_new mem_avail;; mret ()
  | CBind p ip port => udp_bind p ip port;; mret ()
  | CConnect p ip port => udp_connect p ip port;; mret ()
  | CDisconnect p => udp_disconnect p
  | CRecv p f a => udp_recv p f a
  | CRemove p => udp_remove p
  | CInput inp bc dest_ip dest src_ip src =>
      udp_find_pcb inp bc dest_ip dest src_ip src;; mret ()
  end.

(** The arguments are a block that exists and values of their types. *)
Definition legal_call s (c : udp_call) : bool :=
  let exists_ p := bool_decide (is_Some (udp_structs s !! p)) in
  match c with
  | CNew | CInput _ _ _ _ _ _ => true
  | CBind p ip port | CConnect p ip port =>
      exists_ p && bool_decide (is_u32 ip) && bool_decide (is_u16 port)
  | CDisconnect p | CRecv p _ _ | CRemove p => exists_ p
  end.

Inductive udp_reachable : udp_state → Prop :=
  | reach_init : udp_reachable udp_init
  | reach_call s c s' : udp_reachable s → legal_call s c = true →
      run_call c s = inr (tt, s') → udp_reachable s'.

(** The heap cannot hold as many blocks as there are ports. *)
Hypothesis mem_avail_bound : ∀ s,
  mem_avail s = true → (S (size (udp_structs s)) < Z.to_nat 0x4000)%nat.

Lemma udp_new_ok s : udp_ok s → returns (udp_new mem_avail s) (λ _ s', udp_ok s').
Proof.
  intros [Hd Hl Hb Ha Ht Hx Hs]. unfold udp_new. rewrite bind_get.
  case_match eqn:Hm; [|by split]. set (p := fresh _).
  assert (Hp : udp_structs s !! p = None) by apply not_elem_of_dom, is_fresh.
  assert (Hnl : p ∉ udp_pcbs s).
  { intros Hin. unfold listed in Hl. rewrite list.Forall_forall in Hl.
    destruct (Hl p Hin). congruence. }
  rewrite bind_modify. cbn [returns mret prog_ret].
  split; cbn [udp_structs udp_pcbs udp_port]; [done| | | | |done|].
  - apply list.Forall_forall. intros q Hq. cbn [udp_structs udp_pcbs] in *.
    rewrite lookup_insert_ne by congruence. unfold listed in Hl.
    rewrite list.Forall_forall in Hl. by apply Hl.
  - intros q b [[<- <-]|[_ Hq]]%lookup_insert_Some; [done|by apply Hb].
  - intros q q' b b' H1 H2 Hne. rewrite !lookup_insert_ne by congruence. by apply Ha.
  - intros q b [[_ <-]|[_ Hq]]%lookup_insert_Some; [by split|by eapply Ht].
  - rewrite map_size_insert_None by done. by apply mem_avail_bound.
Qed.

Lemma run_call_ok s c :
  udp_ok s → legal_call s c = true → returns (run_call c s) (λ _ s', udp_ok s').
Proof.
  intros Hok Hc.
  assert (Hex : ∀ p, bool_decide (is_Some (udp_structs s !! p)) = true →
    ∃ b, udp_structs s !! p = Some b) by (by intros p Hp%bool_decide_eq_true).
  destruct c as [|p ip port|p ip port|p|p f a|p|]; cbn [run_call legal_call] in *;
    try (apply andb_prop in Hc as [[Hc Hip%bool_decide_eq_true]%andb_prop
                                   Hport%bool_decide_eq_true]);
    try (apply Hex in Hc as [b Hb]).
  - eapply returns_bind; [by apply udp_new_ok|by intros].
  - eapply returns_bind; [by eapply udp_bind_ok|by intros ?? []].
  - eapply returns_bind; [by eapply udp_connect_ok|by intros ?? []].
  - unfold udp_disconnect, uupdate. rewrite (bind_uderef _ _ _ _ Hb). cbn [returns pmodify].
    apply uupdate_ok; [done|done| |done|done]. intros []. split; try done. by apply flags_u8.
  - unfold udp_recv, uupdate. rewrite (bind_uderef _ _ _ _ Hb). cbn [returns pmodify].
    apply uupdate_ok; [done|done| |done|done]. intros []. by split.
  - by eapply udp_remove_ok.
  - edestruct udp_find_pcb_eq as (l & Hl & E); [apply Hok|].
    rewrite (bind_ret _ _ _ _ _ E). cbn [returns mret prog_ret]. by apply set_pcbs_ok.
Qed.

Lemma udp_init_ok : udp_ok udp_init.
Proof.
  split; cbn [udp_init udp_structs udp_pcbs udp_port]; [constructor|constructor| | | |done|].
  - by intros p b ?%lookup_empty_Some.
  - by intros p q b b' ?%elem_of_nil.
  - by intros p b ?%lookup_empty_Some.
  - rewrite map_size_empty. lia.
Qed.

Lemma reachable_ok s : udp_reachable s → udp_ok s.
Proof.
  induction 1 as [|s c s' _ IH Hc Hr]; [apply udp_init_ok|].
  assert (H := run_call_ok s c IH Hc). by rewrite Hr in H.
Qed.

(** ** Properties *)

(** [udp_new_port] always returns.  It returns a port of the dynamic range
    that no block of the list has, and remembers it in [udp_port]; it returns
    0 only when every port of the range is taken.  Nothing else changes. *)
Theorem udp_new_port_free s :
  listed s → dynamic (udp_port s) →
  returns (udp_new_port s) (λ r s',
    udp_structs s' = udp_structs s ∧ udp_pcbs s' = udp_pcbs s ∧ dynamic (udp_port s') ∧
    ((dynamic r ∧ (r ∉ ports s) ∧ udp_port s' = r) ∨
     (r = 0 ∧ (∀ y, dynamic y → y ∈ ports s)))).
Proof.
  intros Hl Hr. eapply returns_mono; [by apply udp_new_port_chosen|].
  intros r s' (x & Hx & -> & [[-> Hn]|Hfull]); split_and!; try done; [by left|by right].
Qed.



(** A datagram to an address of ours (not a broadcast) goes to the one block
    that is bound to its destination, unless that block is connected to
    another peer; it goes to no block exactly when there is no such block.
    The search only reorders the list. *)
Theorem udp_datagram_owner s inp dest_ip dest src_ip src :
  udp_reachable s →
  returns (udp_find_pcb inp false dest_ip dest src_ip src s) (λ r s',
    udp_structs s' = udp_structs s ∧ udp_pcbs s' ≡ₚ udp_pcbs s ∧
    ∀ p b, p ∈ udp_pcbs s → udp_structs s !! p = Some b →
      (r = Some p ↔ local_match inp false dest_ip dest b = true ∧
                    (connected b = false ∨ remote_match src_ip src b = true))).
Proof.
  intros Hok%reachable_ok.
  edestruct (udp_find_pcb_eq inp false dest_ip dest src_ip src) as (l & Hl & ->); [apply Hok|].
  split_and!; [done..|]. intros p b Hp Hb. split.
  - intros Hr. assert (at_pcb s (full_match inp false dest_ip dest src_ip src) p = true ∨
      at_pcb s (open_match inp false dest_ip dest) p = true) as Hm.
    { destruct (List.find _ _) as [q|] eqn:E; [left|right].
      - simplify_eq. by apply find_some in E as [].
      - by apply find_some in Hr as []. }
    unfold at_pcb in Hm. rewrite Hb in Hm. cbn [from_option] in Hm.
    destruct Hm as [[? ?]%andb_prop|[? ?%negb_true_iff]%andb_prop]; auto.
  - intros [Hm Hor]. apply (owner_found s inp dest_ip dest src_ip src p b); done.
Qed.

End ports.

(** ** Witnesses *)

(** A program with two blocks: one bound to 10.0.0.1, port 53, the other
    connected to port 53 of 10.0.0.9 from a port of its own. *)
Definition toy_avail (s : udp_state unit unit) : bool :=
  bool_decide (S (size (udp_structs s)) < Z.to_nat 0x4000)%nat.
Definition toy_calls : list (@udp_call unit unit) :=
  [CNew; CNew; CBind 1%positive 0x0100000a 53; CConnect 2%positive 0x0900000a 53].
Fixpoint run_calls (cs : list (@udp_call unit unit)) (s : udp_state unit unit)
    : option (udp_state unit unit) :=
  match cs with
  | [] => Some s
  | c :: cs' =>
      if legal_call s c then
        match run_call toy_avail c s with inr (_, s') => run_calls cs' s' | inl _ => None end
      else None
  end.
Definition toy_state : udp_state unit unit := default udp_init (run_calls toy_calls udp_init).

Lemma toy_avail_bound s :
  toy_avail s = true → (S (size (udp_structs s)) < Z.to_nat 0x4000)%nat.
Proof. apply bool_decide_eq_true. Qed.

Lemma run_calls_reachable cs s s' :
  udp_reachable toy_avail s → run_calls cs s = Some s' → udp_reachable toy_avail s'.
Proof.
  revert s. induction cs as [|c cs IH]; intros s Hs E; cbn [run_calls] in E; [by simplify_eq|].
  destruct (legal_call s c) eqn:Hc; [|done].
  destruct (run_call toy_avail c s) as [|[[] s1]] eqn:Hr; [done|].
  apply (IH s1); [|done]. by eapply reach_call.
Qed.

Lemma toy_reachable : udp_reachable toy_avail toy_state.
Proof. apply (run_calls_reachable toy_calls udp_init); [apply reach_init|by vm_compute]. Qed.

Lemma udp_new_port_free_witness :
  returns (udp_new_port toy_state) (λ r s', r = 0xc002 ∧ r ∉ ports toy_state).
Proof.
  assert (H : listed toy_state) by (by apply (bool_decide_eq_true (Forall _ _)); vm_compute).
  assert (Hr : dynamic (udp_port toy_state)) by (split; by vm_compute).
  assert (Hf := udp_new_port_free toy_state H Hr).
  assert (E : fst <$> match udp_new_port toy_state with inr x => Some x | _ => None end
              = Some 0xc002) by (by vm_compute).
  destruct (udp_new_port toy_state) as [|[r s']]; [done|]. injection E as ->.
  destruct Hf as (_ & _ & _ & [(_ & Hn & _)|[? _]]); [by split|done].
Defined.



Lemma udp_datagram_owner_witness :
  returns (udp_find_pcb (mk_netif 0x0100000a 0x00ffffff 0 1500 1 [] 0) false 0x0100000a 0xc001 0x0900000a 53
             toy_state) (λ r _, r = Some 2%positive).
Proof.
  eapply returns_mono; [apply (udp_datagram_owner toy_avail toy_avail_bound); apply toy_reachable|].
  intros r s' (_ & _ & H).
  destruct (udp_structs toy_state !! 2%positive) as [b|] eqn:Hb; [|by vm_compute in Hb].
  apply (H 2%positive b); [|done|].
  { replace (udp_pcbs toy_state) with [2%positive; 1%positive] by (by vm_compute). by left. }
  vm_compute in Hb. injection Hb as <-. split; [by vm_compute|right; by vm_compute].
Defined.

End UdpPorts.
