(* ===== verification/Stack.v ===== *)
(** * The state of the IP layers

    What [ip4.c], [icmp.c] and [udp.c] work on: the packet buffers, the
    interfaces, the UDP control blocks, the globals of the IP layer
    ([ip_id] of [ip4.c] and the [ip_data] of [lwip/ip.h]), and whatever else
    the program has.  A pointer into a packet is a pbuf and an offset in its
    memory, so a header stays where it is when the payload pointer moves. *)

From S2P Require Import Prelude Def Ip4Addr Netif Udp Pbuf.

Module Stack.
Import Def Ip4Addr Netif Udp Pbuf.

Definition ptr : Type := loc * Z.

Record ip_globals := mk_ip_globals {
  current_netif : option netif_loc;
  current_ip4_header : option ptr;
  current_ip_header_tot_len : Z;
  current_iphdr_src : Z;
  current_iphdr_dest : Z
}.

(** [X]: the rest of the program's state. *)
Record stack (CF F A X : Type) := mk_stack {
  st_pbufs : heap CF;
  st_netifs : netif_state;
  st_udp : udp_state F A;
  st_ip_id : Z;
  st_ip_data : ip_globals;
  st_rest : X
}.
Arguments mk_stack {CF F A X}.
Arguments st_pbufs {CF F A X}.
Arguments st_netifs {CF F A X}.
Arguments st_udp {CF F A X}.
Arguments st_ip_id {CF F A X}.
Arguments st_ip_data {CF F A X}.
Arguments st_rest {CF F A X}.

Section stack.
Context {CF F A X : Type}.
Abbreviation stack := (stack CF F A X).

Definition set_pbufs (h : heap CF) (s : stack) : stack :=
  mk_stack h (st_netifs s) (st_udp s) (st_ip_id s) (st_ip_data s) (st_rest s).
Definition set_netifs n (s : stack) : stack :=
  mk_stack (st_pbufs s) n (st_udp s) (st_ip_id s) (st_ip_data s) (st_rest s).
Definition set_udp (u : udp_state F A) (s : stack) : stack :=
  mk_stack (st_pbufs s) (st_netifs s) u (st_ip_id s) (st_ip_data s) (st_rest s).
Definition set_ip_id i (s : stack) : stack :=
  mk_stack (st_pbufs s) (st_netifs s) (st_udp s) i (st_ip_data s) (st_rest s).
Definition set_ip_data d (s : stack) : stack :=
  mk_stack (st_pbufs s) (st_netifs s) (st_udp s) (st_ip_id s) d (st_rest s).

Definition set_rest x (s : stack) : stack :=
  mk_stack (st_pbufs s) (st_netifs s) (st_udp s) (st_ip_id s) (st_ip_data s) x.

#[export] Instance stack_lens_pbufs : Lens stack (heap CF).
Proof. by refine {| lget := st_pbufs; lput := set_pbufs |}; intros []. Defined.
#[export] Instance stack_lens_netifs : Lens stack netif_state.
Proof. by refine {| lget := st_netifs; lput := set_netifs |}; intros []. Defined.
#[export] Instance stack_lens_udp : Lens stack (udp_state F A).
Proof. by refine {| lget := st_udp; lput := set_udp |}; intros []. Defined.

(** A component whose state is part of the rest. *)
#[export] Instance stack_lens_rest {D} `{HL : Lens X D} : Lens stack D | 10.
Proof.
  refine {| lget := λ s, lget (st_rest s); lput := λ d s, set_rest (lput d (st_rest s)) s |};
    intros; repeat match goal with w : stack |- _ => destruct w end; cbn.
  - apply lget_lput.
  - by rewrite lput_lput.
  - by rewrite lput_lget.
Defined.

End stack.

(** ** Memory behind a pointer *)

Section memory.
Context {CF : Type}.
Abbreviation heap := (heap CF).

(** [p->payload]. *)
Definition payload (p : loc) : prog heap ptr := b ← deref p; mret (p, p_payload b).

Definition mread (q : ptr) (off n : Z) : prog heap bytes :=
  b ← deref (fst q);
  let a := snd q + off in
  if (0 <=? a) && (a + n <=? zlen (p_mem b)) then
    mret (take (Z.to_nat n) (drop (Z.to_nat a) (p_mem b)))
  else pfault Wild.
Definition mwrite (q : ptr) (off : Z) (d : bytes) : prog heap unit :=
  b ← deref (fst q);
  let a := snd q + off in
  if (0 <=? a) && (a + zlen d <=? zlen (p_mem b)) then
    update (fst q) (with_mem (splice (Z.to_nat a) d (p_mem b)))
  else pfault Wild.

(** A field of [n] bytes, as the integer the machine loads or stores. *)
Definition load (n : nat) (q : ptr) (off : Z) : prog heap Z :=
  d ← mread q off (Z.of_nat n); mret (le_load d).
Definition store (n : nat) (q : ptr) (off x : Z) : prog heap unit :=
  mwrite q off (le_bytes n x).

(** The bytes of a chain, each pbuf with the parity of its payload address
    (blocks are aligned): what the checksum functions walk. *)
Fixpoint chain_loop (fuel : nat) (p : option loc) : prog heap (list (bool * bytes)) :=
  match p with
  | None => mret []
  | Some l =>
      match fuel with
      | O => pfault Hang
      | S fuel' =>
          b ← deref l;
          d ← mread (l, p_payload b) 0 (p_len b);
          rest ← chain_loop fuel' (p_next b);
          mret ((Z.odd (p_payload b), d) :: rest)
      end
  end.
Definition chain_of (p : loc) : prog heap (list (bool * bytes)) :=
  walk _ (λ fuel, chain_loop fuel (Some p)).

End memory.
End Stack.
