(* ===== verification/StackMem.v ===== *)
(** * Loads and stores in a packet

    The state in which one pbuf carries given bytes, and what the loads, the
    stores and the movements of the payload pointer do to it. *)

From S2P Require Import Prelude Def Ip4Addr InetChksum Netif Udp Pbuf PbufChain PbufOps Stack.

Module StackMem.
Import Def Ip4Addr InetChksum Netif Udp Pbuf PbufChain PbufOps Stack.

(** The pbuf with other bytes in place of those it carries. *)
Definition with_pdata {CF} (d : bytes) (b : pbuf CF) : pbuf CF :=
  with_mem (take (Z.to_nat (p_payload b)) (p_mem b) ++ d
            ++ drop (Z.to_nat (p_payload b + p_len b)) (p_mem b)) b.

Section pbuf_data.
Context {CF : Type}.
Implicit Type b : pbuf CF.

Lemma with_pdata_mem b d :
  pbuf_ok b → zlen d = p_len b →
  length (take (Z.to_nat (p_payload b)) (p_mem b)) = Z.to_nat (p_payload b) ∧
  zlen (p_mem (with_pdata d b)) = zlen (p_mem b).
Proof.
  intros (? & ? & ?) Hd. unfold with_pdata, zlen in *. cbn [with_mem p_mem].
  rewrite !length_app, !length_take, length_drop. lia.
Qed.

Lemma with_pdata_ok b d : pbuf_ok b → zlen d = p_len b → pbuf_ok (with_pdata d b).
Proof.
  intros Hok Hd. destruct (with_pdata_mem b d Hok Hd) as [_ E]. destruct Hok as (? & ? & ?).
  unfold pbuf_ok. rewrite E. done.
Qed.

Lemma pdata_with_pdata b d : pbuf_ok b → zlen d = p_len b → pdata (with_pdata d b) = d.
Proof.
  intros Hok Hd. destruct (with_pdata_mem b d Hok Hd) as [El _]. unfold pdata, with_pdata in *.
  cbn [with_mem p_mem p_payload p_len]. rewrite drop_app_ge by lia. rewrite El, Nat.sub_diag, drop_0.
  unfold zlen in Hd. rewrite take_app_le by lia. apply take_ge. lia.
Qed.

Lemma with_pdata_pdata b : pbuf_ok b → with_pdata (pdata b) b = b.
Proof.
  intros (? & ? & ?). unfold with_pdata, pdata. destruct b; unfold with_mem; cbn in *. f_equal.
  rewrite Z2Nat.inj_add, <- drop_drop, take_drop, take_drop by lia. done.
Qed.

(** Writing inside the bytes carried. *)
Lemma written_with_pdata b d off x :
  pbuf_ok b → zlen d = p_len b → 0 ≤ off → off + zlen x ≤ p_len b →
  with_mem (splice (Z.to_nat (p_payload b + off)) x (p_mem (with_pdata d b))) (with_pdata d b)
  = with_pdata (splice (Z.to_nat off) x d) b.
Proof.
  intros Hok Hd Hoff Hx. destruct (with_pdata_mem b d Hok Hd) as [El _].
  destruct Hok as (? & ? & ?). unfold with_pdata, with_mem in *.
  cbn [p_mem p_next p_payload p_tot_len p_len p_type p_flags p_ref p_custom] in *. f_equal.
  rewrite Z2Nat.inj_add by lia. rewrite <- El at 1. rewrite splice_app_r. f_equal.
  unfold zlen in *. apply splice_app_l. lia.
Qed.

Lemma mread_eq (h : heap CF) l b off n :
  h !! l = Some b → pbuf_ok b → 0 ≤ off → 0 ≤ n → off + n ≤ p_len b →
  mread (l, p_payload b) off n h = inr (take (Z.to_nat n) (drop (Z.to_nat off) (pdata b)), h).
Proof.
  intros E Hok Hoff Hn Hx. rewrite <- (pread_eq h l b) by done.
  unfold mread, pread. cbn [fst snd]. by rewrite !(bind_pb _ _ _ _ E).
Qed.

End pbuf_data.

Section at_data.
Context {CF F A X : Type}.
Abbreviation stack := (stack CF F A X).
Implicit Types (s : stack) (b : pbuf CF).

(** The state [s] in which the pbuf [b] at [p] carries the bytes [d]. *)
Definition at_data s (p : loc) b (d : bytes) : stack :=
  set_pbufs (<[p:=with_pdata d b]> (st_pbufs s)) s.

Lemma at_data_start s p b :
  st_pbufs s !! p = Some b → pbuf_ok b → s = at_data s p b (pdata b).
Proof.
  intros E Hok. unfold at_data. rewrite with_pdata_pdata, insert_id by done. by destruct s.
Qed.

Lemma bind_lift_deref {B} s p b (k : pbuf CF → prog stack B) :
  st_pbufs s !! p = Some b → (lift (deref p) ≫= k) s = k b s.
Proof. intros E. apply bind_lift_same. by apply deref_eq. Qed.

(** A command on the pbufs. *)
Lemma bind_lift_pbufs {T B} s (m : prog (heap CF) T) a h (k : T → prog stack B) :
  m (st_pbufs s) = inr (a, h) → (lift m ≫= k) s = k a (set_pbufs h s).
Proof. intros E. apply bind_ret. exact (lift_ret m s a h E). Qed.

Lemma bind_lift_payload {B} s p b (k : ptr → prog stack B) :
  st_pbufs s !! p = Some b → (lift (payload p) ≫= k) s = k (p, p_payload b) s.
Proof.
  intros E. apply bind_lift_same. unfold payload. by rewrite (bind_pb _ _ _ _ E).
Qed.

Lemma bind_mwrite_at {B} s p b d off x (k : unit → prog stack B) :
  pbuf_ok b → zlen d = p_len b → 0 ≤ off → off + zlen x ≤ p_len b →
  (lift (mwrite (p, p_payload b) off x) ≫= k) (at_data s p b d)
  = k tt (at_data s p b (splice (Z.to_nat off) x d)).
Proof.
  intros Hok Hd Hoff Hx. destruct (with_pdata_mem b d Hok Hd) as [_ Em].
  pose proof Hok as (? & ? & ?). apply bind_ret. unfold at_data.
  erewrite lift_ret; [done|]. unfold mwrite. cbn [fst snd lget stack_lens_pbufs st_pbufs set_pbufs].
  erewrite bind_pb by apply lookup_insert_eq. rewrite Em.
  rewrite (proj2 (Z.leb_le 0 _)), (proj2 (Z.leb_le (_ + _ + _) _)) by lia. cbn [andb].
  erewrite update_eq by apply lookup_insert_eq. rewrite insert_insert_eq.
  by rewrite written_with_pdata.
Qed.

Lemma bind_store_at {B} n s p b d off x (k : unit → prog stack B) :
  pbuf_ok b → zlen d = p_len b → 0 ≤ off → off + Z.of_nat n ≤ p_len b →
  (lift (store n (p, p_payload b) off x) ≫= k) (at_data s p b d)
  = k tt (at_data s p b (splice (Z.to_nat off) (le_bytes n x) d)).
Proof.
  intros. apply bind_mwrite_at; [done..|]. unfold zlen. by rewrite length_le_bytes.
Qed.

Lemma store_at n s p b d off x :
  pbuf_ok b → zlen d = p_len b → 0 ≤ off → off + Z.of_nat n ≤ p_len b →
  lift (store n (p, p_payload b) off x) (at_data s p b d)
  = inr (tt, at_data s p b (splice (Z.to_nat off) (le_bytes n x) d)).
Proof.
  intros Hok Hd Hoff Hx. assert (H := bind_store_at n s p b d off x mret Hok Hd Hoff Hx).
  unfold mbind, prog_bind in H. by destruct (lift _ _) as [|[[] ?]].
Qed.

Lemma bind_mread_at {B} s p b d off n (k : bytes → prog stack B) :
  pbuf_ok b → zlen d = p_len b → 0 ≤ off → 0 ≤ n → off + n ≤ p_len b →
  (lift (mread (p, p_payload b) off n) ≫= k) (at_data s p b d)
  = k (take (Z.to_nat n) (drop (Z.to_nat off) d)) (at_data s p b d).
Proof.
  intros Hok Hd Hoff Hn Hx. apply bind_lift_same. unfold at_data.
  cbn [lget stack_lens_pbufs st_pbufs set_pbufs].
  rewrite <- (pdata_with_pdata b d) at 2 by done.
  apply (mread_eq _ p (with_pdata d b)); [apply lookup_insert_eq|by apply with_pdata_ok|done..].
Qed.

Lemma bind_load_at {B} n s p b d off (k : Z → prog stack B) :
  pbuf_ok b → zlen d = p_len b → 0 ≤ off → off + Z.of_nat n ≤ p_len b →
  (lift (load n (p, p_payload b) off) ≫= k) (at_data s p b d)
  = k (le_load (take n (drop (Z.to_nat off) d))) (at_data s p b d).
Proof.
  intros Hok Hd Hoff Hx. apply bind_lift_same. unfold load.
  unfold at_data. cbn [lget stack_lens_pbufs st_pbufs set_pbufs].
  erewrite bind_ret; [|apply (mread_eq _ p (with_pdata d b) off (Z.of_nat n));
    [apply lookup_insert_eq|by apply with_pdata_ok|done|lia|done]].
  rewrite pdata_with_pdata, Nat2Z.id by done. done.
Qed.

(** Reading through a pointer that need not be the payload pointer: the
    bytes are those [b] carries, at the pbuf [b'] that has the same memory. *)
Lemma bind_load_hdr {B} n s p b b' off (k : Z → prog stack B) :
  st_pbufs s !! p = Some b' → p_mem b' = p_mem b → pbuf_ok b →
  0 ≤ off → off + Z.of_nat n ≤ p_len b →
  (lift (load n (p, p_payload b) off) ≫= k) s
  = k (le_load (take n (drop (Z.to_nat off) (pdata b)))) s.
Proof.
  intros E Em (? & ? & ?) Hoff Hx. apply bind_lift_same. unfold load, mread. cbn [fst snd].
  rewrite bind_assoc, (bind_pb _ _ _ _ E), Em.
  rewrite (proj2 (Z.leb_le 0 _)), (proj2 (Z.leb_le (_ + _ + _) _)) by lia. cbn [andb].
  rewrite bind_mret. unfold pdata. rewrite skipn_firstn_comm, take_take, drop_drop.
  rewrite Nat2Z.id, Nat.min_l, <- Z2Nat.inj_add by lia. done.
Qed.

End at_data.
End StackMem.
