(* ===== verification/Ip4.v ===== *)
(** * Sending IP packets: [lwip/src/core/ipv4/ip4.c]

    Routing and the output side of the IP layer, in the configuration of
    [src/lwipopts.h]: no options are sent and the header checksum is computed
    while the header is written.  The interface's [output] function and the
    fragmentation of packets larger than its MTU ([ip_frag.c]) are parameters. *)

From S2P Require Import Prelude Def Ip4Addr InetChksum Netif Udp Pbuf Stack.

Module Ip4.
Import Def Ip4Addr InetChksum Netif Udp Pbuf Stack.

Definition IP_HLEN : Z := 20.
Definition IP_PROTO_ICMP : Z := 1.
Definition IP_PROTO_TCP : Z := 6.
Definition IP_PROTO_UDP : Z := 17.
Definition IP_MF : Z := 0x2000.
Definition IP_OFFMASK : Z := 0x1fff.

(** The fields of [struct ip_hdr]. *)
Definition IPH_VHL : Z := 0.
Definition IPH_TOS : Z := 1.
Definition IPH_LEN : Z := 2.
Definition IPH_ID : Z := 4.
Definition IPH_OFFSET : Z := 6.
Definition IPH_TTL : Z := 8.
Definition IPH_PROTO : Z := 9.
Definition IPH_CHKSUM : Z := 10.
Definition IPH_SRC : Z := 12.
Definition IPH_DEST : Z := 16.

Definition LWIP_MAKE_U16 (a b : Z) : Z := Z.lor (Z.shiftl a 8) b.

(** ** Routing *)

Fixpoint route_loop (dest : Z) (l : list netif_loc) : prog netif_state (option netif_loc) :=
  match l with
  | [] => mret None
  | n :: l' =>
      b ← nderef n;
      if netif_is_up b && ip_addr_netcmp dest (nif_ip_addr b) (nif_netmask b)
      then mret (Some n) else route_loop dest l'
  end.

Definition ip_route (dest : Z) : prog netif_state (option netif_loc) :=
  s ← pget;
  r ← route_loop dest (netif_list s);
  match r, netif_default s with
  | Some n, _ => mret (Some n)
  | None, None => mret None
  | None, Some n => b ← nderef n; mret (if netif_is_up b then Some n else None)
  end.

(** ** The header and its checksum *)

(** [chk_sum] when the header is complete, and its folding. *)
Definition chk_add (chk_sum w : Z) : Z := u32 (chk_sum + w).
Definition chk_addr (chk_sum addr : Z) : Z :=
  chk_add (chk_add chk_sum (Z.land addr 0xffff)) (Z.shiftr addr 16).
Definition chk_finish (chk_sum : Z) : Z :=
  let chk_sum := u32 (Z.shiftr chk_sum 16 + Z.land chk_sum 0xffff) in
  let chk_sum := u32 (Z.shiftr chk_sum 16 + chk_sum) in
  u16 (not32 chk_sum).

Section output.
Context {CF F A X : Type}.
Abbreviation stack := (stack CF F A X).
(** [netif->output] and [ip_frag]. *)
Context (output ip_frag : netif_loc → loc → Z → prog stack err_t).

(** The stores into the header at [iphdr], in the order of the code. *)
Definition write_header (p : loc) (iphdr : ptr) (src dest ttl tos proto : Z)
    : prog stack unit :=
  lift (store 1 iphdr IPH_TTL (u8 ttl));;
  lift (store 1 iphdr IPH_PROTO (u8 proto));;
  let chk_sum := chk_add 0 (LWIP_MAKE_U16 proto ttl) in
  lift (store 4 iphdr IPH_DEST dest);;
  let chk_sum := chk_addr chk_sum dest in
  let v_hl := u8 (Z.lor (Z.shiftl 4 4) (IP_HLEN / 4)) in
  lift (store 1 iphdr IPH_VHL v_hl);;
  lift (store 1 iphdr IPH_TOS tos);;
  let chk_sum := chk_add chk_sum (LWIP_MAKE_U16 tos v_hl) in
  b ← lift (deref p);
  let len := lwip_htons (p_tot_len b) in
  lift (store 2 iphdr IPH_LEN len);;
  let chk_sum := chk_add chk_sum len in
  lift (store 2 iphdr IPH_OFFSET 0);;
  s ← pget;
  let id := lwip_htons (st_ip_id s) in
  lift (store 2 iphdr IPH_ID id);;
  let chk_sum := chk_add chk_sum id in
  pmodify (λ s, set_ip_id (u16 (st_ip_id s + 1)) s);;
  lift (store 4 iphdr IPH_SRC src);;
  let chk_sum := chk_addr chk_sum src in
  lift (store 2 iphdr IPH_CHKSUM (chk_finish chk_sum)).

(** The end of [ip_output_if_src]. *)
Definition ip_send (p : loc) (dest : Z) (netif : netif_loc) : prog stack err_t :=
  n ← lift (nderef netif);
  b ← lift (deref p);
  if negb (nif_mtu n =? 0) && (nif_mtu n <? p_tot_len b) then ip_frag netif p dest
  else output netif p dest.

(** [dest = None] is [IP_HDRINCL]: the packet already has its header. *)
Definition ip_output_if_src (p : loc) (src dest : option Z) (ttl tos proto : Z)
    (netif : netif_loc) : prog stack err_t :=
  b ← lift (deref p);
  passert (p_ref b =? 1);;
  match dest with
  | Some dest =>
      ok ← lift (pbuf_header (Some p) IP_HLEN);
      if negb ok then mret ERR_BUF
      else
        iphdr ← lift (payload p);
        b ← lift (deref p);
        passert (20 <=? p_len b);;
        write_header p iphdr (default IPADDR_ANY src) dest ttl tos proto;;
        ip_send p dest netif
  | None =>
      iphdr ← lift (payload p);
      dest_addr ← lift (load 4 iphdr IPH_DEST);
      ip_send p dest_addr netif
  end.

Definition ip_output_if (p : loc) (src dest : option Z) (ttl tos proto : Z)
    (netif : netif_loc) : prog stack err_t :=
  src_used ← match dest with
    | Some _ =>
        if match src with None => true | Some a => ip_addr_isany a end
        then n ← lift (nderef netif); mret (Some (nif_ip_addr n))
        else mret src
    | None => mret src
    end;
  ip_output_if_src p src_used dest ttl tos proto netif.

Definition ip_output (p : loc) (src : option Z) (dest ttl tos proto : Z) : prog stack err_t :=
  b ← lift (deref p);
  passert (p_ref b =? 1);;
  netif ← lift (ip_route dest);
  match netif with
  | None => mret ERR_RTE
  | Some netif => ip_output_if p src (Some dest) ttl tos proto netif
  end.

End output.
End Ip4.
