(* ===== verification/Ip4Props.v ===== *)
(** * The header that the IP layer writes

    The header of an outgoing packet: every field is where RFC 791 puts it, and
    the checksum summed up on the way is the one [inet_chksum] would compute,
    so that the receiver's check succeeds.  Which interface a packet leaves
    by. *)

From S2P Require Import Prelude Def Ip4Addr InetChksum Netif Udp Pbuf Linked PbufChain PbufOps.
From S2P Require Import Stack StackMem Ip4.

Module Ip4Props.
Import Def Ip4Addr InetChksum Netif Udp Pbuf Linked PbufChain PbufOps Stack StackMem Ip4.
Local Open Scope c_scope.

(** ** The checksum *)

(** An IP header without options.  Addresses are kept in network order. *)
Definition ip_header (tos len id ttl proto src dest chksum : Z) : bytes :=
  [0x45; tos] ++ be_bytes 2 len ++ be_bytes 2 id ++ [0; 0; ttl; proto]
  ++ le_bytes 2 chksum ++ le_bytes 4 src ++ le_bytes 4 dest.

(** The sum that [ip_output_if_src] accumulates. *)
Definition header_sum (tos len id ttl proto src dest : Z) : Z :=
  chk_addr (chk_add (chk_add (chk_add (chk_addr (chk_add 0 (LWIP_MAKE_U16 proto ttl)) dest)
    (LWIP_MAKE_U16 tos 0x45)) (lwip_htons len)) (lwip_htons id)) src.

Lemma make_u16 a b : is_u8 a → is_u8 b → LWIP_MAKE_U16 a b = b + 256 * a.
Proof.
  unfold is_u8, LWIP_MAKE_U16. intros. rewrite Z.shiftl_mul_pow2 by lia.
  rewrite (lor_high_low b a 8) by lia. lia.
Qed.

Lemma load_word_oceq x y d :
  is_u8 x → is_u8 y → Forall is_u8 d → le_load (x :: y :: d) ≈ (x + 256 * y) + le_load d.
Proof.
  intros Hx Hy Hd. cbn [le_load]. pose proof (le_load_nonneg d Hd). unfold is_u8 in *.
  replace (x + 256 * (y + 256 * le_load d)) with ((x + 256 * y) + 65536 * le_load d) by lia.
  apply oceq_add; [apply oceq_refl; lia|apply oceq_65536; lia].
Qed.

Lemma load_le2_oceq w d :
  is_u16 w → Forall is_u8 d → le_load (le_bytes 2 w ++ d) ≈ w + le_load d.
Proof.
  intros Hw Hd. unfold is_u16 in Hw. cbn [le_bytes app].
  rewrite load_word_oceq; [|unfold is_u8; zdm|unfold is_u8; zdm|done].
  replace (w mod 256 + 256 * (w / 256 mod 256)) with w by zdm.
  apply oceq_refl. pose proof (le_load_nonneg d Hd). lia.
Qed.

Lemma load_le4_oceq a d :
  is_u32 a → Forall is_u8 d →
  le_load (le_bytes 4 a ++ d) ≈ (Z.land a 0xffff + Z.shiftr a 16) + le_load d.
Proof.
  intros Ha Hd. unfold is_u32 in Ha. rewrite land_65535, Z.shiftr_div_pow2 by lia.
  change (2 ^ 16) with 65536. pose proof (le_load_nonneg d Hd).
  replace (le_bytes 4 a ++ d) with (le_bytes 2 (a mod 65536) ++ le_bytes 2 (a / 65536) ++ d).
  2: { cbn [le_bytes app]. repeat (apply (f_equal2 cons); [zdm|]). done. }
  rewrite load_le2_oceq by (first [unfold is_u16; zdm|apply Forall_app; split; [apply le_bytes_u8|done]]).
  rewrite <- Z.add_assoc. apply oceq_add; [apply oceq_refl; zdm|].
  apply load_le2_oceq; [unfold is_u16; zdm|done].
Qed.

Lemma be_bytes_u8 n x : Forall is_u8 (be_bytes n x).
Proof. apply Forall_rev, le_bytes_u8. Qed.

Create HintDb octets discriminated.
#[local] Hint Resolve be_bytes_u8 le_bytes_u8 Forall_app_2 Forall_nil_2 Forall_cons_2 : octets.
#[local] Hint Extern 1 (is_u8 _) => (assumption || cdec) : octets.

Lemma ip_header_u8 tos len id ttl proto src dest c :
  is_u8 tos → is_u8 ttl → is_u8 proto →
  Forall is_u8 (ip_header tos len id ttl proto src dest c).
Proof. intros. unfold ip_header. auto 20 with octets. Qed.

(** Peels one field off the sum of the bytes of a header. *)
Ltac word :=
  match goal with
  | |- le_load (le_bytes 2 ?w ++ ?d) ≈ _ => transitivity (w + le_load d); [apply load_le2_oceq|]
  | |- le_load (le_bytes 4 ?a ++ ?d) ≈ _ =>
      transitivity (Z.land a 0xffff + Z.shiftr a 16 + le_load d); [apply load_le4_oceq|]
  | |- le_load (?x :: ?y :: ?d) ≈ _ =>
      transitivity (x + 256 * y + le_load d); [apply load_word_oceq|]
  end;
  [first [assumption|unfold is_u8, is_u16; lia|auto 20 with octets]..|apply oceq_add; [apply oceq_refl|]].

Lemma header_sum_oceq tos len id ttl proto src dest :
  is_u8 tos → is_u16 len → is_u16 id → is_u8 ttl → is_u8 proto → is_u32 src → is_u32 dest →
  header_sum tos len id ttl proto src dest ≈ le_load (ip_header tos len id ttl proto src dest 0) ∧
  header_sum tos len id ttl proto src dest ≤ 0xfffff.
Proof.
  intros Ht Hl Hi Httl Hp Hs Hd.
  pose proof (htons_u16 len) as Hlen. pose proof (htons_u16 id) as Hid.
  assert (E : header_sum tos len id ttl proto src dest
    = (0x45 + 256 * tos) + (lwip_htons len + (lwip_htons id + (0 + (ttl + 256 * proto + (0 +
      (Z.land src 0xffff + Z.shiftr src 16 + (Z.land dest 0xffff + Z.shiftr dest 16 + 0)))))))).
  { unfold header_sum, chk_addr, chk_add. rewrite !make_u16 by done.
    unfold is_u8, is_u16, is_u32 in *. rewrite !land_65535, !Z.shiftr_div_pow2 by lia.
    change (2 ^ 16) with 65536. unfold u32. zdm. }
  split.
  - rewrite E. symmetry. unfold ip_header.
    rewrite <- (le_bytes_htons len), <- (le_bytes_htons id) by done.
    rewrite <- (app_nil_r (le_bytes 4 dest)). cbn [app].
    assert (Haddr : ∀ a, is_u32 a → 0 ≤ Z.land a 0xffff + Z.shiftr a 16).
    { intros a Ha. unfold is_u32 in Ha. rewrite land_65535, Z.shiftr_div_pow2 by lia. zdm. }
    do 8 (word; [first [lia|apply Hlen|apply Hid|by apply Haddr|unfold is_u8 in *; lia]|]).
    apply oceq_refl. done.
  - rewrite E. unfold is_u8, is_u16, is_u32 in *.
    rewrite !land_65535, !Z.shiftr_div_pow2 by lia. change (2 ^ 16) with 65536. zdm.
Qed.

Lemma chk_finish_fold S : 0 ≤ S ≤ 0xfffff → chk_finish S = not16 (FOLD_U32T (FOLD_U32T S)).
Proof.
  intros HS. unfold chk_finish, not16, not32, u16, u32.
  rewrite (FOLD_arith S), FOLD_arith. rewrite !land_65535, !Z.shiftr_div_pow2 by lia.
  change (2 ^ 16) with 65536. zdm.
Qed.

(** The receiver's test. *)
Lemma inet_chksum_zero odd d :
  Forall is_u8 d → zlen d ≤ 0x20000 → (inet_chksum odd d = 0 ↔ le_load d ≈ 65535).
Proof.
  intros Hd Hl. destruct (standard_chksum_oceq odd d Hd Hl) as [E R].
  unfold inet_chksum, not16. rewrite u16_id by (unfold is_u16; lia). split; intros H.
  - rewrite <- E. replace (lwip_standard_chksum odd d) with 65535 by lia. by apply oceq_refl.
  - rewrite (oceq_inj (lwip_standard_chksum odd d) 65535); [done| |lia|lia]. by rewrite E.
Qed.

Lemma ip_header_split tos len id ttl proto src dest c :
  ip_header tos len id ttl proto src dest c
  = ([0x45; tos] ++ be_bytes 2 len ++ be_bytes 2 id ++ [0; 0; ttl; proto])
    ++ le_bytes 2 c ++ (le_bytes 4 src ++ le_bytes 4 dest).
Proof. unfold ip_header. by rewrite <- !app_assoc. Qed.

Lemma ip_header_length tos len id ttl proto src dest c :
  length (ip_header tos len id ttl proto src dest c) = 20%nat.
Proof. done. Qed.

Lemma header_chksum odd tos len id ttl proto src dest :
  is_u8 tos → is_u16 len → is_u16 id → is_u8 ttl → is_u8 proto → is_u32 src → is_u32 dest →
  let c := chk_finish (header_sum tos len id ttl proto src dest) in
  c = inet_chksum odd (ip_header tos len id ttl proto src dest 0) ∧
  inet_chksum odd (ip_header tos len id ttl proto src dest c) = 0.
Proof.
  intros Ht Hl Hi Httl Hp Hs Hd c.
  destruct (header_sum_oceq tos len id ttl proto src dest) as [E R]; [done..|].
  set (S := header_sum _ _ _ _ _ _ _) in *. assert (0 ≤ S) by apply E.
  destruct (oceq_fold2 S) as [E2 R2]; [unfold is_u32; lia|].
  assert (Hc : c = not16 (FOLD_U32T (FOLD_U32T S))) by (apply chk_finish_fold; lia).
  assert (Hu : ∀ c, Forall is_u8 (ip_header tos len id ttl proto src dest c))
    by (intros; by apply ip_header_u8).
  split.
  - rewrite Hc. unfold inet_chksum. f_equal.
    destruct (standard_chksum_oceq odd (ip_header tos len id ttl proto src dest 0)) as [E' R'];
      [done|done|]. apply oceq_inj; [|lia|lia]. etransitivity; [exact E2|].
    etransitivity; [exact E|]. by symmetry.
  - apply inet_chksum_zero; [done|done|]. rewrite ip_header_split.
    eapply stored_sum_zero; [auto 20 with octets|auto 20 with octets|done|exact R2| |exact Hc].
    etransitivity; [exact E2|]. rewrite ip_header_split in E. exact E.
Qed.

(** ** Writing the header *)

Lemma le_bytes_1 x : is_u8 x → le_bytes 1 x = [x].
Proof. intros. cbn [le_bytes]. unfold is_u8 in *. by rewrite Z.mod_small by lia. Qed.

Section output.
Context {CF F A X : Type}.
Abbreviation stack := (stack CF F A X).
Implicit Types (s : stack) (b : pbuf CF).

Lemma write_header_eq s p b d src dest ttl tos proto :
  pbuf_ok b → 20 ≤ p_len b → zlen d = p_len b → is_u16 (p_tot_len b) → is_u16 (st_ip_id s) →
  is_u8 tos → is_u8 ttl → is_u8 proto →
  write_header p (p, p_payload b) src dest ttl tos proto (at_data s p b d)
  = inr (tt, at_data (set_ip_id (u16 (st_ip_id s + 1)) s) p b
      (ip_header tos (p_tot_len b) (st_ip_id s) ttl proto src dest
         (chk_finish (header_sum tos (p_tot_len b) (st_ip_id s) ttl proto src dest))
       ++ drop 20 d)).
Proof.
  intros Hok Hlen Hd Htot Hid Htos Httl Hproto. unfold write_header.
  unfold IPH_TTL, IPH_PROTO, IPH_DEST, IPH_VHL, IPH_TOS, IPH_LEN, IPH_OFFSET, IPH_ID, IPH_SRC,
    IPH_CHKSUM.
  do 20 (destruct d as [|? d]; [exfalso; len|]).
  do 5 (rewrite bind_store_at by (done || lia || (rewrite <- Hd; done))).
  erewrite bind_lift_deref by apply lookup_insert_eq.
  do 2 (rewrite bind_store_at by (done || lia || (rewrite <- Hd; done))).
  rewrite bind_get.
  rewrite bind_store_at by (done || lia || (rewrite <- Hd; done)).
  rewrite bind_modify. cbn [with_pdata with_mem p_tot_len at_data set_pbufs st_ip_id].
  match goal with |- context [set_ip_id ?i (at_data s p b ?l)] =>
    change (set_ip_id i (at_data s p b l)) with (at_data (set_ip_id i s) p b l) end.
  rewrite bind_store_at by (done || lia || (rewrite <- Hd; done)).
  rewrite store_at by (done || lia || (rewrite <- Hd; done)).
  fold (header_sum tos (p_tot_len b) (st_ip_id s) ttl proto src dest). unfold ip_header.
  rewrite <- (le_bytes_htons (p_tot_len b)), <- (le_bytes_htons (st_ip_id s)) by done.
  rewrite !(u8_id ttl), !(u8_id proto), !le_bytes_1 by done. reflexivity.
Qed.

(** The block and the state in which the packet is handed on. *)
Definition with_header b (hdr : bytes) : pbuf CF := with_pdata (hdr ++ pdata b) (shifted 20 b).

Lemma with_header_wf p b ls hdr :
  length hdr = 20%nat → chain_wf ((p, b) :: ls) → header_fits 20 b →
  pbuf_ok (shifted 20 b) ∧ zlen (hdr ++ pdata b) = p_len (shifted 20 b) ∧
  chain_wf ((p, with_header b hdr) :: ls) ∧
  data ((p, with_header b hdr) :: ls) = hdr ++ data ((p, b) :: ls).
Proof.
  intros Hh Hwf Hf. pose proof (shifted_wf _ _ _ _ Hwf Hf) as Hwf1.
  pose proof Hwf as (Hok & _). pose proof Hwf1 as (Hok1 & Hr & Ht & Hlt & Hrest).
  assert (Hl : zlen (hdr ++ pdata b) = p_len (shifted 20 b)).
  { rewrite zlen_app, zlen_pdata by done. unfold zlen. rewrite Hh. simpl. lia. }
  assert (Hd : data ((p, with_header b hdr) :: ls) = hdr ++ data ((p, b) :: ls)).
  { rewrite !data_cons. unfold with_header. rewrite pdata_with_pdata by done. by rewrite app_assoc. }
  do 2 (split; [done|]). split; [|done]. split; [by apply with_pdata_ok|].
  split; [exact Hr|]. split; [|split; [exact Hlt|exact Hrest]].
  change (p_tot_len (with_header b hdr)) with (p_tot_len (shifted 20 b)).
  rewrite Ht, Hd, data_cons, !zlen_app, (zlen_pdata (shifted 20 b)) by done.
  rewrite data_cons, zlen_app, zlen_pdata by done. unfold zlen at 2. rewrite Hh. simpl. lia.
Qed.

Context (output ip_frag : netif_loc → loc → Z → prog stack err_t).

Lemma ip_output_if_src_eq s p b ls src dest ttl tos proto netif :
  chain_at (st_pbufs s) (Some p) ((p, b) :: ls) → chain_wf ((p, b) :: ls) →
  header_fits 20 b → p_ref b = 1 → is_u16 (st_ip_id s) →
  is_u8 tos → is_u8 ttl → is_u8 proto →
  let len := p_tot_len b + 20 in
  let hdr := ip_header tos len (st_ip_id s) ttl proto src dest
               (chk_finish (header_sum tos len (st_ip_id s) ttl proto src dest)) in
  ip_output_if_src output ip_frag p (Some src) (Some dest) ttl tos proto netif s
  = ip_send output ip_frag p dest netif
      (set_ip_id (u16 (st_ip_id s + 1)) (set_pbufs (<[p:=with_header b hdr]> (st_pbufs s)) s)).
Proof.
  intros Hc Hwf Hf Hr Hid Ht Httl Hp len hdr. inversion Hc as [|? ? ? Hb _]; subst.
  unfold ip_output_if_src. rewrite (bind_lift_deref _ _ _ _ Hb).
  rewrite bind_assert by (by rewrite Hr).
  erewrite bind_ret; [|apply lift_ret; by eapply pbuf_header_eq].
  cbn [negb lput stack_lens_pbufs]. set (s1 := set_pbufs _ s).
  assert (Hb1 : st_pbufs s1 !! p = Some (shifted 20 b)) by apply lookup_insert_eq.
  destruct (with_header_wf p b ls hdr) as (Hok1 & Hlen & _); [done..|].
  pose proof Hwf as (Hok & _ & Htot & _ & _). pose proof (zlen_nonneg (data ((p, b) :: ls))).
  pose proof Hf as (_ & _ & _ & Hlt & _). pose proof Hok as (_ & Hl0 & _).
  rewrite (bind_lift_payload _ _ _ _ Hb1), (bind_lift_deref _ _ _ _ Hb1).
  rewrite bind_assert by (apply Z.leb_le; simpl; lia).
  rewrite (at_data_start s1 p (shifted 20 b)) by done.
  erewrite bind_ret; [|apply write_header_eq; try done; [simpl; lia|by apply zlen_pdata|]].
  2: { simpl. unfold is_u16. lia. }
  f_equal. unfold at_data, s1. cbn [set_pbufs st_pbufs set_ip_id]. rewrite insert_insert_eq.
  unfold with_header. do 3 f_equal. rewrite <- (pdata_shrink (-20)) by (done || simpl; lia).
  rewrite shifted_shifted. change (-20 + 20) with 0. rewrite shifted_0. done.
Qed.

(** C16: A packet with room for a header in front is handed to the interface
    with an IPv4 header before its data: version 4, five words, the
    given type of service, the length of the whole packet, the next
    identification, no fragmentation, the given time to live, protocol and
    addresses, and the checksum that [inet_chksum] computes for that header
    with the checksum field zero; so the header sums up to zero at the
    receiver, at every address.  The identification counter advances and
    nothing else changes. *)
Theorem ip_output_sends_datagram s p b ls src dest ttl tos proto netif n :
  chain_at (st_pbufs s) (Some p) ((p, b) :: ls) → chain_wf ((p, b) :: ls) →
  header_fits 20 b → p_ref b = 1 → is_u16 (st_ip_id s) →
  is_u8 tos → is_u8 ttl → is_u8 proto → is_u32 src → is_u32 dest →
  netif_structs (st_netifs s) !! netif = Some n →
  nif_mtu n = 0 ∨ p_tot_len b + 20 ≤ nif_mtu n →
  let header := ip_header tos (p_tot_len b + 20) (st_ip_id s) ttl proto src dest in
  ∃ b' c, let s' := set_ip_id (u16 (st_ip_id s + 1))
                      (set_pbufs (<[p:=b']> (st_pbufs s)) s) in
    ip_output_if_src output ip_frag p (Some src) (Some dest) ttl tos proto netif s
    = output netif p dest s' ∧
    chain_at (st_pbufs s') (Some p) ((p, b') :: ls) ∧ chain_wf ((p, b') :: ls) ∧
    data ((p, b') :: ls) = header c ++ data ((p, b) :: ls) ∧
    ∀ odd, c = inet_chksum odd (header 0) ∧ inet_chksum odd (header c) = 0.
Proof.
  intros Hc Hwf Hf Hr Hid Ht Httl Hp Hs Hd Hn Hmtu header.
  set (c := chk_finish (header_sum tos (p_tot_len b + 20) (st_ip_id s) ttl proto src dest)).
  exists (with_header b (header c)), c. intros s'.
  pose proof Hwf as (_ & _ & Htot & _). pose proof (zlen_nonneg (data ((p, b) :: ls))).
  pose proof Hf as (_ & _ & _ & Hlt & _).
  destruct (with_header_wf p b ls (header c)) as (_ & _ & Hwf' & Hdata); [done..|].
  split; [|split; [by eapply chain_update_head|split; [done|split; [done|]]]].
  - rewrite (ip_output_if_src_eq s p b ls) by done. unfold ip_send.
    rewrite (bind_lift_same _ _ _ n) by (unfold nderef; rewrite bind_get;
      cbn [lget stack_lens_netifs st_netifs set_ip_id set_pbufs]; by rewrite Hn).
    erewrite bind_lift_deref by apply lookup_insert_eq.
    rewrite (proj2 (andb_false_iff (negb (nif_mtu n =? 0)) _)); [done|].
    rewrite negb_false_iff, Z.eqb_eq, Z.ltb_ge. done.
  - intros odd. apply header_chksum; try done. unfold is_u16. lia.
Qed.

End output.

(** ** Routing *)

Section route.
Context {W : Type} `{!Lens W netif_state}.
Context (tcp_addr_changed : Z → Z → prog W unit).
(** What happens to TCP connections leaves the interfaces alone. *)
Hypothesis tcp_addr_changed_keeps : ∀ old new w,
  returns (tcp_addr_changed old new w) (λ _ w', lget w' = lget w).

Lemma bind_lift_nderef {B} (w : W) n b (k : netif → prog W B) :
  netif_structs (lget w) !! n = Some b → (lift (nderef n) ≫= k) w = k b w.
Proof.
  intros E. apply bind_lift_same. unfold nderef. rewrite bind_get. by rewrite E.
Qed.

Lemma nupdate_eq s n b f :
  netif_structs s !! n = Some b →
  nupdate n f s = inr (tt, mk_netif_state (<[n:=f b]> (netif_structs s)) (netif_list s)
                             (netif_default s) (netif_num s)).
Proof.
  intros E. unfold nupdate, nderef. rewrite bind_assoc_get. by rewrite E.
Qed.

Lemma lift_step {B C} (m : prog netif_state B) (k : B → prog W C) (w : W) s a s' Q :
  lget w = s → m s = inr (a, s') → (∀ w', lget w' = s' → returns (k a w') Q) →
  returns ((lift m ≫= k) w) Q.
Proof.
  intros <- E Hk. erewrite bind_ret by (by apply lift_ret). apply Hk, lget_lput.
Qed.

Lemma lift_last {B} (m : prog netif_state B) (w : W) s a s' :
  lget w = s → m s = inr (a, s') → returns (lift m w) (λ _ w', lget w' = s').
Proof. intros <- E. rewrite (lift_ret _ _ _ _ E). apply lget_lput. Qed.

(** The interface [n] with other contents. *)
Definition put_netif n b (s : netif_state) : netif_state :=
  mk_netif_state (<[n:=b]> (netif_structs s)) (netif_list s) (netif_default s) (netif_num s).

Lemma put_netif_put n b b' s : put_netif n b (put_netif n b' s) = put_netif n b s.
Proof. unfold put_netif. cbn [netif_structs netif_list netif_default netif_num].
  by rewrite insert_insert_eq. Qed.

Lemma nupdate_put n b f s : nupdate n f (put_netif n b s) = inr (tt, put_netif n (f b) s).
Proof. rewrite (nupdate_eq _ n b) by apply lookup_insert_eq. by rewrite <- (put_netif_put n (f b) b). Qed.

Lemma netif_set_addr_put w s n b ip netmask gw :
  lget w = put_netif n b s →
  returns (netif_set_addr tcp_addr_changed n (Some ip) (Some netmask) (Some gw) w)
    (λ _ w', lget w' = put_netif n (set_gw gw (set_mask netmask (set_ip ip b))) s).
Proof.
  intros E. unfold netif_set_addr, netif_set_ipaddr.
  eapply (returns_bind _ _ _ (λ _ w', lget w' = put_netif n (set_ip ip b) s)).
  - erewrite bind_lift_nderef by (rewrite E; apply lookup_insert_eq).
    eapply (returns_bind _ _ _ (λ _ w', lget w' = put_netif n b s)).
    { case_match; [|done]. eapply returns_mono; [apply tcp_addr_changed_keeps|].
      intros _ w' ->. done. }
    intros _ w1 E1. eapply lift_last; [exact E1|apply nupdate_put].
  - intros _ w1 E1. eapply lift_step; [exact E1|apply nupdate_put|]. intros w2 E2.
    eapply lift_last; [exact E2|apply nupdate_put].
Qed.

(** The state of the interfaces after the set-up in [main]. *)
Lemma main_netif_state w n b0 ip netmask gw mtu :
  let s := lget w in
  netif_structs s !! n = Some b0 →
  returns (main_netif tcp_addr_changed n ip netmask gw mtu w) (λ _ w',
    lget w' = put_netif n
      (mk_netif ip netmask gw (u16 mtu) NETIF_FLAG_UP [117; 110] (netif_num s))
      (mk_netif_state (netif_structs s) (n :: netif_list s) (Some n) (u8 (netif_num s + 1)))).
Proof.
  intros s Hb. unfold main_netif, netif_add. rewrite bind_assoc.
  eapply lift_step; [done|by apply nupdate_eq|]. intros w1 E1. rewrite bind_assoc.
  eapply lift_step; [exact E1|rewrite bind_get;
    erewrite bind_ret by (apply (nupdate_put n _ _ s)); done|]. intros w2 E2. rewrite bind_assoc.
  eapply returns_bind; [eapply (netif_set_addr_put _
    (mk_netif_state (netif_structs s) (netif_list s) (netif_default s) (u8 (netif_num s + 1))));
    exact E2|].
  intros [] w3 E3. unfold init_oc_netif. rewrite !bind_assoc.
  eapply lift_step; [exact E3|apply nupdate_put|]. intros w4 E4. rewrite bind_mret.
  cbn [bool_decide]. rewrite bool_decide_false by (by intros []). rewrite bind_assoc.
  eapply lift_step; [exact E4|done|]. intros w5 E5. rewrite bind_mret.
  eapply lift_step; [exact E5|apply (nupdate_put n _ _ (mk_netif_state (netif_structs s)
    (n :: netif_list s) (netif_default s) (u8 (netif_num s + 1))))|]. intros w6 E6.
  eapply lift_step; [exact E6|done|]. intros w7 E7.
  eapply lift_last; [exact E7|]. unfold netif_set_up.
  erewrite bind_ret; [|unfold nderef; rewrite bind_get; cbn [netif_structs put_netif];
    by rewrite lookup_insert_eq].
  change (Z.land _ NETIF_FLAG_UP =? 0) with true. cbn iota.
  exact (nupdate_put n _ _ (mk_netif_state (netif_structs s) (n :: netif_list s) (Some n)
    (u8 (netif_num s + 1)))).
Qed.

(** After [main] has added its interface, made it the default and set it
    up, every destination is routed to it, whatever the address and the
    netmask it was given; nothing about the other structures of the program
    is assumed but that TCP leaves the interfaces alone. *)
Theorem main_routes_everything w n b0 ip netmask gw mtu :
  netif_structs (lget w) !! n = Some b0 → netif_list (lget w) = [] →
  returns (main_netif tcp_addr_changed n ip netmask gw mtu w) (λ _ w',
    ∀ dest, ip_route dest (lget w') = inr (Some n, lget w')).
Proof.
  intros Hb Hl. eapply returns_mono; [by eapply main_netif_state|].
  intros _ w' -> dest. rewrite Hl. unfold ip_route, put_netif. rewrite bind_get.
  cbn [netif_list netif_default netif_num netif_structs route_loop].
  assert (Hn : ∀ x l d k, netif_structs (mk_netif_state (<[n:=x]> (netif_structs (lget w))) l d k)
                          !! n = Some x) by (intros; apply lookup_insert_eq).
  unfold nderef. rewrite bind_assoc, bind_assoc_get, Hn. cbn [pderef].
  rewrite bind_mret. case_match; [done|].
  rewrite bind_mret, bind_assoc_get, Hn. done.
Qed.

End route.

(** ** Witnesses *)

Definition toy_netif : netif := mk_netif 0x0100000a 0x00ffffff 0 1500 NETIF_FLAG_UP [117; 110] 0.
Definition toy_pbuf : pbuf unit :=
  mk_pbuf None (replicate 20 0 ++ [1; 2; 3]) 20 3 3 PBUF_RAM 0 1 None.
Definition toy_stack : stack unit unit unit unit :=
  mk_stack {[1%positive := toy_pbuf]}
    (mk_netif_state {[1%positive := toy_netif]} [1%positive] (Some 1%positive) 1)
    udp_init 7 (mk_ip_globals None None 0 0 0) tt.

Lemma ip_output_sends_datagram_witness :
  ∃ s', ip_output_if_src (λ _ _ _, mret ERR_OK) (λ _ _ _, mret ERR_OK) 1%positive
          (Some 0x0100000a) (Some 0x0200000a) 255 0 17 1%positive toy_stack = inr (ERR_OK, s') ∧
    pdata <$> (st_pbufs s' !! 1%positive)
    = Some ([0x45; 0; 0; 23; 0; 7; 0; 0; 255; 17; 0xa7; 0xcc; 10; 0; 0; 1; 10; 0; 0; 2] ++ [1; 2; 3]).
Proof.
  destruct (ip_output_sends_datagram (λ _ _ _, mret ERR_OK) (λ _ _ _, mret ERR_OK) toy_stack
    1%positive toy_pbuf [] 0x0100000a 0x0200000a 255 0 17 1%positive toy_netif)
    as (b' & c & E & _ & _ & Hd & Hc); try done.
  - apply linked_cons; [done|apply linked_nil].
  - split_and!; try done. by left.
  - by right.
  - eexists. split; [exact E|]. cbn [set_ip_id set_pbufs st_pbufs]. rewrite lookup_insert_eq.
    cbn [fmap option_fmap option_map]. f_equal. rewrite (proj1 (Hc false)), data_cons, app_nil_r in Hd.
    rewrite Hd. vm_compute. reflexivity.
Defined.

Lemma main_routes_everything_witness :
  returns (main_netif (λ _ _, mret ()) 1%positive 0x0100000a 0x00ffffff 0 1400
             (mk_netif_state {[1%positive := toy_netif]} [] None 0)) (λ _ w',
    ip_route 0x08080808 w' = inr (Some 1%positive, w')).
Proof.
  eapply returns_mono.
  - apply (main_routes_everything (W := netif_state) (λ _ _, mret ())) with (b0 := toy_netif);
      [by intros old new w|done|done].
  - intros [] w' H. apply H.
Defined.

End Ip4Props.
