(* ===== verification/Icmp.v ===== *)
(** * ICMP: [lwip/src/core/ipv4/icmp.c]

    Answering echo requests and sending "unreachable" and "time exceeded"
    messages.  Allocation of pbufs is that of [Pbuf], so whether memory is
    available and what it contains are parameters. *)

From S2P Require Import Prelude Def Ip4Addr InetChksum Netif Udp Pbuf Stack Ip4.

Module Icmp.
Import Def Ip4Addr InetChksum Netif Udp Pbuf Stack Ip4.

Definition ICMP_ER : Z := 0.
Definition ICMP_DUR : Z := 3.
Definition ICMP_ECHO : Z := 8.
Definition ICMP_TE : Z := 11.
Definition ICMP_DUR_PROTO : Z := 2.
Definition ICMP_DUR_PORT : Z := 3.
Definition ICMP_TTL : Z := 255.
Definition ICMP_DEST_UNREACH_DATASIZE : Z := 8.
Definition SIZEOF_ICMP_ECHO_HDR : Z := 8.

(** The fields of [struct icmp_echo_hdr]. *)
Definition ICMPH_TYPE : Z := 0.
Definition ICMPH_CODE : Z := 1.
Definition ICMPH_CHKSUM : Z := 2.
Definition ICMPH_ID : Z := 4.
Definition ICMPH_SEQNO : Z := 6.

(** The checksum of an echo reply from that of the request. *)
Definition adjust_chksum (chksum : Z) : Z :=
  if lwip_htons (0xffff - Z.shiftl ICMP_ECHO 8) <=? chksum
  then u16 (chksum + (lwip_htons (Z.shiftl ICMP_ECHO 8) + 1))
  else u16 (chksum + lwip_htons (Z.shiftl ICMP_ECHO 8)).

Section icmp.
Context {CF F A X : Type}.
Abbreviation stack := (stack CF F A X).
Context (custom_free : CF → loc → prog (heap CF) unit).
Context (mem_avail : heap CF → Z → bool) (garbage : heap CF → nat → Z).
Context (output ip_frag : netif_loc → loc → Z → prog stack err_t).

Definition pfree (p : loc) : prog stack unit := lift (pbuf_free custom_free (Some p));; mret ().

(** [inet_chksum(dataptr, len)]. *)
Definition inet_chksum_at (q : ptr) (len : Z) : prog (heap CF) Z :=
  d ← mread q 0 len; mret (inet_chksum (Z.odd (snd q)) d).

(** Making room for the headers of the reply: the pbuf to use and the address
    of its IP header; [None] is the jump to [memerr], before which [p] may
    have been moved to its IP header. *)
Definition echo_room (p : loc) (iphdr : ptr) (hlen : Z) : prog stack (option (loc * ptr)) :=
  ok ← lift (pbuf_header (Some p) (PBUF_IP_HLEN + PBUF_LINK_HLEN));
  if negb ok then
    moved ← lift (pbuf_header (Some p) hlen);
    passert moved;;
    b ← lift (deref p);
    r ← lift (pbuf_alloc custom_free mem_avail garbage PBUF_LINK (p_tot_len b) PBUF_RAM);
    match r with
    | None => mret None
    | Some r =>
        c ← lift (deref r);
        passert (hlen + SIZEOF_ICMP_ECHO_HDR <=? p_len c);;
        err ← lift (pbuf_copy (Some r) (Some p));
        passert (bool_decide (err = ERR_OK));;
        iphdr ← lift (payload r);
        back ← lift (pbuf_header (Some r) (- hlen));
        passert back;;
        pfree p;;
        mret (Some (r, iphdr))
    end
  else
    back ← lift (pbuf_header (Some p) (- (PBUF_IP_HLEN + PBUF_LINK_HLEN)));
    passert back;;
    mret (Some (p, iphdr)).

(** The reply is made in place. *)
Definition echo_reply (p : loc) (iphdr : ptr) (hlen : Z) (inp : netif_loc) : prog stack unit :=
  iecho ← lift (payload p);
  s ← pget;
  lift (store 4 iphdr IPH_SRC (current_iphdr_dest (st_ip_data s)));;
  lift (store 4 iphdr IPH_DEST (current_iphdr_src (st_ip_data s)));;
  lift (store 1 iecho ICMPH_TYPE ICMP_ER);;
  chksum ← lift (load 2 iecho ICMPH_CHKSUM);
  lift (store 2 iecho ICMPH_CHKSUM (adjust_chksum chksum));;
  lift (store 1 iphdr IPH_TTL ICMP_TTL);;
  lift (store 2 iphdr IPH_CHKSUM 0);;
  ipsum ← lift (inet_chksum_at iphdr IP_HLEN);
  lift (store 2 iphdr IPH_CHKSUM ipsum);;
  ok ← lift (pbuf_header (Some p) hlen);
  passert ok;;
  ip_output_if output ip_frag p (Some (current_iphdr_dest (st_ip_data s))) None
    ICMP_TTL 0 IP_PROTO_ICMP inp;;
  mret ().

Definition icmp_echo (p : loc) (iphdr : ptr) (hlen : Z) (inp : netif_loc) : prog stack unit :=
  s ← pget;
  n ← lift (nderef inp);
  let dest := current_iphdr_dest (st_ip_data s) in
  if ip_addr_ismulticast dest || ip4_addr_isbroadcast dest n then pfree p
  else
    b ← lift (deref p);
    if p_tot_len b <? SIZEOF_ICMP_ECHO_HDR then pfree p
    else
      c ← lift (chain_of p);
      if negb (inet_chksum_pbuf c =? 0) then pfree p
      else
        r ← echo_room p iphdr hlen;
        match r with
        | None => pfree p
        | Some (p, iphdr) => echo_reply p iphdr hlen inp;; pfree p
        end.

Definition icmp_input (p : loc) (inp : netif_loc) : prog stack unit :=
  s ← pget;
  iphdr ← pderef (current_ip4_header (st_ip_data s));
  v_hl ← lift (load 1 iphdr IPH_VHL);
  let hlen := Z.land v_hl 0x0f * 4 in
  b ← lift (deref p);
  if p_len b <? 4 then pfree p
  else
    icmphdr ← lift (payload p);
    type ← lift (load 1 icmphdr ICMPH_TYPE);
    if type =? ICMP_ECHO then icmp_echo p iphdr hlen inp
    else pfree p.

Definition icmp_send_response (p : loc) (type code : Z) : prog stack unit :=
  let len := SIZEOF_ICMP_ECHO_HDR + IP_HLEN + ICMP_DEST_UNREACH_DATASIZE in
  q ← lift (pbuf_alloc custom_free mem_avail garbage PBUF_IP len PBUF_RAM);
  match q with
  | None => mret ()
  | Some q =>
      b ← lift (deref q);
      passert (len <=? p_len b);;
      iphdr ← lift (payload p);
      icmphdr ← lift (payload q);
      lift (store 1 icmphdr ICMPH_TYPE type);;
      lift (store 1 icmphdr ICMPH_CODE code);;
      lift (store 2 icmphdr ICMPH_ID 0);;
      lift (store 2 icmphdr ICMPH_SEQNO 0);;
      d ← lift (mread iphdr 0 (IP_HLEN + ICMP_DEST_UNREACH_DATASIZE));
      lift (mwrite icmphdr SIZEOF_ICMP_ECHO_HDR d);;
      lift (store 2 icmphdr ICMPH_CHKSUM 0);;
      chksum ← lift (inet_chksum_at icmphdr (p_len b));
      lift (store 2 icmphdr ICMPH_CHKSUM chksum);;
      src ← lift (load 4 iphdr IPH_SRC);
      ip_output output ip_frag q None src ICMP_TTL 0 IP_PROTO_ICMP;;
      pfree q
  end.

Definition icmp_dest_unreach (p : loc) (t : Z) : prog stack unit :=
  icmp_send_response p ICMP_DUR t.
Definition icmp_time_exceeded (p : loc) (t : Z) : prog stack unit :=
  icmp_send_response p ICMP_TE t.

End icmp.
End Icmp.
