(* ===== verification/UdpIo.v ===== *)
(** * UDP datagrams: [lwip/src/core/udp.c]

    [udp_input] and the functions that send a datagram.  The receive callback
    of a control block is a parameter: [recv_call f arg pcb p addr port] is the
    call of the function [f]. *)

From S2P Require Import Prelude Def Ip4Addr InetChksum Netif Udp Pbuf Stack Ip4 Icmp.

Module UdpIo.
Import Def Ip4Addr InetChksum Netif Udp Pbuf Stack Ip4 Icmp.

(** The fields of [struct udp_hdr]. *)
Definition UDPH_SRC : Z := 0.
Definition UDPH_DEST : Z := 2.
Definition UDPH_LEN : Z := 4.
Definition UDPH_CHKSUM : Z := 6.

Section udp_io.
Context {CF F A X : Type}.
Abbreviation stack := (stack CF F A X).
Context (custom_free : CF → loc → prog (heap CF) unit).
Context (mem_avail : heap CF → Z → bool) (garbage : heap CF → nat → Z).
Context (output ip_frag : netif_loc → loc → Z → prog stack err_t).
Context (recv_call : F → option A → pcb_loc → loc → Z → Z → prog stack unit).

Abbreviation pfree := (pfree custom_free (F := F) (A := A) (X := X)).

(** ** Receiving *)

(** The datagram is for us and its header has been checked. *)
Definition udp_deliver (pcb : option pcb_loc) (p : loc) (broadcast : bool) (src : Z)
    : prog stack unit :=
  s ← pget;
  let d := st_ip_data s in
  match pcb with
  | Some pcb =>
      u ← lift (uderef pcb);
      match u_recv u with
      | Some f => recv_call f (u_recv_arg u) pcb p (current_iphdr_src d) src
      | None => pfree p
      end
  | None =>
      (if negb broadcast && negb (ip_addr_ismulticast (current_iphdr_dest d)) then
         lift (pbuf_header (Some p) (s16 (current_ip_header_tot_len d + UDP_HLEN)));;
         icmp_dest_unreach custom_free mem_avail garbage output ip_frag p ICMP_DUR_PORT
       else mret ());;
      pfree p
  end.

Definition udp_input (p : loc) (inp : netif_loc) : prog stack unit :=
  b ← lift (deref p);
  if p_len b <? UDP_HLEN then pfree p
  else
    udphdr ← lift (payload p);
    s ← pget;
    n ← lift (nderef inp);
    let dest_ip := current_iphdr_dest (st_ip_data s) in
    let src_ip := current_iphdr_src (st_ip_data s) in
    let broadcast := ip4_addr_isbroadcast dest_ip n in
    src ← lift (load 2 udphdr UDPH_SRC);
    dest ← lift (load 2 udphdr UDPH_DEST);
    let src := lwip_ntohs src in
    let dest := lwip_ntohs dest in
    pcb ← lift (udp_find_pcb n broadcast dest_ip dest src_ip src);
    if bool_decide (pcb ≠ None) || (nif_ip_addr n =? dest_ip) then
      chksum ← lift (load 2 udphdr UDPH_CHKSUM);
      bad ← (if chksum =? 0 then mret false
             else c ← lift (chain_of p);
                  mret (negb (inet_chksum_pseudo c IP_PROTO_UDP (p_tot_len b) src_ip dest_ip =? 0)));
      match bad with
      | true => pfree p
      | false =>
          ok ← lift (pbuf_header (Some p) (- UDP_HLEN));
          passert ok;;
          udp_deliver pcb p broadcast src
      end
    else pfree p.

(** ** Sending *)

(** The pbuf with room for the header in front of [p]; [None]: out of memory. *)
Definition udp_header_room (p : loc) : prog stack (option loc) :=
  ok ← lift (pbuf_header (Some p) UDP_HLEN);
  if negb ok then
    q ← lift (pbuf_alloc custom_free mem_avail garbage PBUF_IP UDP_HLEN PBUF_RAM);
    match q with
    | None => mret None
    | Some q =>
        b ← lift (deref p);
        (if negb (p_tot_len b =? 0) then lift (pbuf_chain (Some q) (Some p)) else mret ());;
        mret (Some q)
    end
  else mret (Some p).

Definition udp_sendto_if_src (pcb : pcb_loc) (p : loc) (dst_ip dst_port : Z)
    (netif : netif_loc) (src_ip : Z) : prog stack err_t :=
  u ← lift (uderef pcb);
  err ← (if u_local_port u =? 0 then lift (udp_bind pcb (u_local_ip u) (u_local_port u))
         else mret ERR_OK);
  if bool_decide (err ≠ ERR_OK) then mret err
  else
    q ← udp_header_room p;
    match q with
    | None => mret ERR_MEM
    | Some q =>
        b ← lift (deref q);
        passert (UDP_HLEN <=? p_len b);;
        u ← lift (uderef pcb);
        udphdr ← lift (payload q);
        lift (store 2 udphdr UDPH_SRC (lwip_htons (u_local_port u)));;
        lift (store 2 udphdr UDPH_DEST (lwip_htons dst_port));;
        lift (store 2 udphdr UDPH_CHKSUM 0);;
        lift (store 2 udphdr UDPH_LEN (lwip_htons (p_tot_len b)));;
        (if Z.land (u_flags u) UDP_FLAGS_NOCHKSUM =? 0 then
           c ← lift (chain_of q);
           let udpchksum := inet_chksum_pseudo c IP_PROTO_UDP (p_tot_len b) src_ip dst_ip in
           lift (store 2 udphdr UDPH_CHKSUM (if udpchksum =? 0 then 0xffff else udpchksum))
         else mret ());;
        err ← ip_output_if_src output ip_frag q (Some src_ip) (Some dst_ip) (u_ttl u) (u_tos u)
                IP_PROTO_UDP netif;
        (if bool_decide (q ≠ p) then pfree q else mret ());;
        mret err
    end.

Definition udp_sendto_if (pcb : pcb_loc) (p : loc) (dst_ip dst_port : Z) (netif : netif_loc)
    : prog stack err_t :=
  u ← lift (uderef pcb);
  n ← lift (nderef netif);
  if ip_addr_isany (u_local_ip u) then
    udp_sendto_if_src pcb p dst_ip dst_port netif (nif_ip_addr n)
  else if negb (u_local_ip u =? nif_ip_addr n) then mret ERR_VAL
  else udp_sendto_if_src pcb p dst_ip dst_port netif (u_local_ip u).

Definition udp_sendto (pcb : pcb_loc) (p : loc) (dst_ip dst_port : Z) : prog stack err_t :=
  netif ← lift (ip_route dst_ip);
  match netif with
  | None => mret ERR_RTE
  | Some netif => udp_sendto_if pcb p dst_ip dst_port netif
  end.

Definition udp_send (pcb : pcb_loc) (p : loc) : prog stack err_t :=
  u ← lift (uderef pcb);
  udp_sendto pcb p (u_remote_ip u) (u_remote_port u).

End udp_io.
End UdpIo.
