(* ===== verification/Ip4Input.v ===== *)
(** * Receiving IP packets: [lwip/src/core/ipv4/ip4.c]

    [ip_input]: the checks of the header, the decision whether a packet is for
    us, and the hand-over to ICMP, UDP or TCP.  Packets are not forwarded in
    this configuration.  Reassembly ([ip_reass] of [ip_frag.c]) and TCP
    ([tcp_input]) are parameters; ICMP and UDP are those of [Icmp] and
    [UdpIo]. *)

From S2P Require Import Prelude Def Ip4Addr InetChksum Netif Udp Pbuf Stack Ip4 Icmp UdpIo.

Module Ip4Input.
Import Def Ip4Addr InetChksum Netif Udp Pbuf Stack Ip4 Icmp UdpIo.

Section ip_input.
Context {CF F A X : Type}.
Abbreviation stack := (stack CF F A X).
Context (custom_free : CF → loc → prog (heap CF) unit).
Context (mem_avail : heap CF → Z → bool) (garbage : heap CF → nat → Z).
Context (output ip_frag : netif_loc → loc → Z → prog stack err_t).
Context (recv_call : F → option A → pcb_loc → loc → Z → Z → prog stack unit).
Context (ip_reass : loc → prog stack (option loc)).
Context (tcp_input : loc → netif_loc → prog stack unit).

Abbreviation pfree := (pfree custom_free (F := F) (A := A) (X := X)).

(** Does the interface take packets to [dest]? *)
Definition netif_accepts (dest : Z) (n : netif) : bool :=
  netif_is_up n && negb (ip_addr_isany (nif_ip_addr n))
  && ((dest =? nif_ip_addr n) || ip4_addr_isbroadcast dest n).

(** The [do ... while] loop: the interface the packet came in on, then the
    others of the list. *)
Fixpoint accept_loop (dest : Z) (inp : netif_loc) (l : list netif_loc)
    : prog netif_state (option netif_loc) :=
  match l with
  | [] => mret None
  | n :: l' =>
      if bool_decide (n = inp) then accept_loop dest inp l'
      else
        b ← nderef n;
        if netif_accepts dest b then mret (Some n) else accept_loop dest inp l'
  end.
Definition ip_accept (dest : Z) (inp : netif_loc) : prog netif_state (option netif_loc) :=
  b ← nderef inp;
  if netif_accepts dest b then mret (Some inp)
  else s ← pget; accept_loop dest inp (netif_list s).

(** The end of [ip_input]: the payload goes to its protocol. *)
Definition ip_dispatch (p : loc) (inp : netif_loc) (iphdr : ptr) (iphdr_hlen : Z)
    : prog stack unit :=
  v_hl ← lift (load 1 iphdr IPH_VHL);
  pmodify (λ s, set_ip_data (mk_ip_globals (Some inp) (Some iphdr) (Z.land v_hl 0x0f * 4)
    (current_iphdr_src (st_ip_data s)) (current_iphdr_dest (st_ip_data s))) s);;
  lift (pbuf_header (Some p) (- iphdr_hlen));;
  proto ← lift (load 1 iphdr IPH_PROTO);
  (if proto =? IP_PROTO_UDP then
     udp_input custom_free mem_avail garbage output ip_frag recv_call p inp
   else if proto =? IP_PROTO_TCP then tcp_input p inp
   else if proto =? IP_PROTO_ICMP then
     icmp_input custom_free mem_avail garbage output ip_frag p inp
   else
     s ← pget;
     n ← lift (nderef inp);
     let dest := current_iphdr_dest (st_ip_data s) in
     (if negb (ip4_addr_isbroadcast dest n) && negb (ip_addr_ismulticast dest) then
        lift (pbuf_header (Some p) iphdr_hlen);;
        lift (update p (with_payload (snd iphdr)));;
        icmp_dest_unreach custom_free mem_avail garbage output ip_frag p ICMP_DUR_PROTO
      else mret ());;
     pfree p);;
  pmodify (set_ip_data (mk_ip_globals None None 0 IPADDR_ANY IPADDR_ANY)).

(** From the trimming of the pbuf on. *)
Definition ip_receive (p : loc) (inp : netif_loc) (iphdr : ptr) (iphdr_hlen iphdr_len : Z)
    : prog stack unit :=
  lift (pbuf_realloc custom_free (Some p) iphdr_len);;
  dest ← lift (load 4 iphdr IPH_DEST);
  src ← lift (load 4 iphdr IPH_SRC);
  pmodify (λ s, let d := st_ip_data s in
    set_ip_data (mk_ip_globals (current_netif d) (current_ip4_header d)
                   (current_ip_header_tot_len d) src dest) s);;
  netif ← lift (ip_accept dest inp);
  n ← lift (nderef inp);
  if ip4_addr_isbroadcast src n || ip_addr_ismulticast src then pfree p
  else if bool_decide (netif = None) then pfree p
  else
    offset ← lift (load 2 iphdr IPH_OFFSET);
    if negb (Z.land offset (lwip_htons (Z.lor IP_OFFMASK IP_MF)) =? 0) then
      r ← ip_reass p;
      match r with
      | None => mret ()
      | Some p => iphdr ← lift (payload p); ip_dispatch p inp iphdr iphdr_hlen
      end
    else ip_dispatch p inp iphdr iphdr_hlen.

(** [ip_input] always returns [ERR_OK]. *)
Definition ip_input (p : loc) (inp : netif_loc) : prog stack unit :=
  iphdr ← lift (payload p);
  v_hl ← lift (load 1 iphdr IPH_VHL);
  if negb (Z.shiftr v_hl 4 =? 4) then pfree p
  else
    let iphdr_hlen := u16 (Z.land v_hl 0x0f * 4) in
    len ← lift (load 2 iphdr IPH_LEN);
    let iphdr_len := lwip_ntohs len in
    b ← lift (deref p);
    if (p_len b <? iphdr_hlen) || (p_tot_len b <? iphdr_len) then pfree p
    else
      chksum ← lift (inet_chksum_at iphdr iphdr_hlen);
      if negb (chksum =? 0) then pfree p
      else ip_receive p inp iphdr iphdr_hlen iphdr_len.

End ip_input.
End Ip4Input.
