(* ===== verification/Ip4InputProps.v ===== *)
(** * What becomes of an incoming packet

    A packet whose header does not pass the checks is dropped; one that is for
    us goes to its protocol, with the header in front of the payload pointer
    and the addresses in the globals of the IP layer. *)

From S2P Require Import Prelude Def Ip4Addr InetChksum Netif Udp Pbuf Linked PbufChain PbufOps.
From S2P Require Import Stack StackMem Ip4 Ip4Props Icmp UdpIo Ip4Input.

Module Ip4InputProps.
Import Def Ip4Addr InetChksum Netif Udp Pbuf Linked PbufChain PbufOps.
Import Stack StackMem Ip4 Ip4Props Icmp UdpIo Ip4Input.

Lemma ntohs_be2 x : is_u16 x → lwip_ntohs (le_load (be_bytes 2 x)) = x.
Proof.
  intros Hx. rewrite <- le_bytes_htons, le_load_bytes by done.
  rewrite Z.mod_small by apply htons_u16. by apply ntohs_htons.
Qed.

Lemma load_le4 x : is_u32 x → le_load (le_bytes 4 x) = x.
Proof. intros Hx. rewrite le_load_bytes. by apply Z.mod_small. Qed.

Section input.
Context {CF F A X : Type}.
Abbreviation stack := (stack CF F A X).
Implicit Types (s : stack) (b : pbuf CF).
Context (custom_free : CF → loc → prog (heap CF) unit).
Context (mem_avail : heap CF → Z → bool) (garbage : heap CF → nat → Z).
Context (output ip_frag : netif_loc → loc → Z → prog stack err_t).
Context (recv_call : F → option A → pcb_loc → loc → Z → Z → prog stack unit).
Context (ip_reass : loc → prog stack (option loc)).
Context (tcp_input : loc → netif_loc → prog stack unit).

Abbreviation input := (ip_input custom_free mem_avail garbage output ip_frag recv_call
  ip_reass tcp_input).

Lemma pfree_eq s p ls :
  chain_at (st_pbufs s) (Some p) ls → chain_wf ls → Forall (λ x, plain (snd x)) ls →
  pfree custom_free p s = inr (tt, set_pbufs (dropped ls (st_pbufs s)) s).
Proof.
  intros Hc Hwf Hp. unfold pfree.
  erewrite bind_ret; [|apply lift_ret, pbuf_free_eq; [done|by apply wf_refs]]. done.
Qed.

(** ** Dropping *)

(** The checks at the start of [ip_input], on the bytes of the first pbuf. *)
Definition header_valid (d : bytes) (odd : bool) (tot_len : Z) : bool :=
  let v_hl := le_load (take 1 d) in
  let hlen := Z.land v_hl 0x0f * 4 in
  let len := lwip_ntohs (le_load (take 2 (drop 2 d))) in
  (Z.shiftr v_hl 4 =? 4) && (hlen <=? zlen d) && (len <=? tot_len)
  && (inet_chksum odd (take (Z.to_nat hlen) d) =? 0).

Lemma ip_input_checks s p inp b :
  st_pbufs s !! p = Some b → pbuf_ok b → 4 ≤ p_len b →
  input p inp s =
  if header_valid (pdata b) (Z.odd (p_payload b)) (p_tot_len b) then
    ip_receive custom_free mem_avail garbage output ip_frag recv_call ip_reass tcp_input p inp
      (p, p_payload b) (Z.land (le_load (take 1 (pdata b))) 0x0f * 4)
      (lwip_ntohs (le_load (take 2 (drop 2 (pdata b))))) s
  else pfree custom_free p s.
Proof.
  intros Hb Hok H4. unfold ip_input, header_valid, IPH_VHL, IPH_LEN.
  rewrite (bind_lift_payload _ _ _ _ Hb).
  rewrite (bind_load_hdr 1 s p b b) by (done || lia). change (Z.to_nat 0) with 0%nat.
  rewrite drop_0. set (v := le_load (take 1 (pdata b))).
  destruct (Z.shiftr v 4 =? 4); [|done]. cbn [negb andb].
  assert (Hv : 0 ≤ Z.land v 0x0f < 16).
  { change 0x0f with (Z.ones 4). rewrite land_ones_mod by lia. change (2 ^ 4) with 16. zdm. }
  rewrite (u16_id (Z.land v 15 * 4)) by (unfold is_u16; lia).
  rewrite (bind_load_hdr 2 s p b b) by (done || lia). change (Z.to_nat 2) with 2%nat.
  rewrite (bind_lift_deref _ _ _ _ Hb). rewrite !zlen_pdata by done.
  rewrite !Z.ltb_antisym. destruct (Z.leb_spec (Z.land v 15 * 4) (p_len b)); [|done].
  destruct (_ <=? p_tot_len b); [|done]. cbn [negb orb andb].
  unfold inet_chksum_at. erewrite bind_lift_same.
  2: { erewrite bind_ret by (apply (mread_eq _ p b); [done|done|done|lia|lia]). done. }
  cbn [snd]. change (Z.to_nat 0) with 0%nat. rewrite drop_0.
  by destruct (_ =? 0).
Qed.

(** ** Is it for us? *)

Definition netifs_listed (ns : netif_state) (inp : netif_loc) : Prop :=
  Forall (λ m, is_Some (netif_structs ns !! m)) (inp :: netif_list ns).
Definition accepted_by (ns : netif_state) (dest : Z) (m : netif_loc) : Prop :=
  ∃ n, netif_structs ns !! m = Some n ∧ netif_accepts dest n = true.

Lemma bind_nderef {B} ns m n (k : netif → prog netif_state B) :
  netif_structs ns !! m = Some n → (nderef m ≫= k) ns = k n ns.
Proof. intros E. apply bind_ret. unfold nderef. rewrite bind_get. by rewrite E. Qed.

Lemma accept_loop_spec ns dest inp l :
  Forall (λ m, is_Some (netif_structs ns !! m)) l →
  ∃ r, accept_loop dest inp l ns = inr (r, ns) ∧
    match r with
    | Some m => m ∈ l ∧ accepted_by ns dest m
    | None => ∀ m, m ∈ l → m ≠ inp → ¬ accepted_by ns dest m
    end.
Proof.
  induction 1 as [|m l [n Hn] _ IH]; cbn [accept_loop].
  { eexists; split; [done|]. by intros m ?%elem_of_nil. }
  destruct IH as (r & E & Hr).
  assert (Hskip : (m = inp ∨ netif_accepts dest n = false) → match r with
    | Some m' => m' ∈ m :: l ∧ accepted_by ns dest m'
    | None => ∀ m', m' ∈ m :: l → m' ≠ inp → ¬ accepted_by ns dest m'
    end).
  { intros Hm. destruct r as [m'|]; [by destruct Hr; split; [right|]|].
    intros m' [->|Hin]%elem_of_cons Hne; [|by apply Hr].
    destruct Hm as [|Hm]; [done|]. intros (n' & Hn' & Ha). congruence. }
  case_bool_decide as Heq; [exists r; split; [done|apply Hskip; by left]|]. rewrite (bind_nderef _ _ _ _ Hn).
  destruct (netif_accepts dest n) eqn:Ha; [|exists r; split; [done|apply Hskip; by right]].
  eexists; split; [done|]. split; [apply list_elem_of_here|by exists n].
Qed.

Lemma ip_accept_spec ns dest inp :
  netifs_listed ns inp →
  ∃ r, ip_accept dest inp ns = inr (r, ns) ∧
    match r with
    | Some m => m ∈ inp :: netif_list ns ∧ accepted_by ns dest m
    | None => ∀ m, m ∈ inp :: netif_list ns → ¬ accepted_by ns dest m
    end.
Proof.
  intros [[n Hn] Hl]%list.Forall_cons. unfold ip_accept. rewrite (bind_nderef _ _ _ _ Hn).
  destruct (netif_accepts dest n) eqn:Ha; [|rewrite bind_get].
  { eexists; split; [done|]. split; [apply list_elem_of_here|by exists n]. }
  destruct (accept_loop_spec ns dest inp _ Hl) as (r & E & Hr).
  exists r. split; [done|]. destruct r as [m|]; [by destruct Hr; split; [right|]|].
  intros m [->|Hm]%elem_of_cons; [intros (n' & ? & ?); congruence|].
  destruct (decide (m = inp)) as [->|]; [intros (n' & ? & ?); congruence|by apply Hr].
Qed.

(** The address fields of the header [d] starts with. *)
Definition header_src (d : bytes) : Z := le_load (take 4 (drop 12 d)).
Definition header_dest (d : bytes) : Z := le_load (take 4 (drop 16 d)).

Definition set_addrs (src dest : Z) s : stack :=
  let g := st_ip_data s in
  set_ip_data (mk_ip_globals (current_netif g) (current_ip4_header g)
                 (current_ip_header_tot_len g) src dest) s.

(** When nothing is to be trimmed. *)
Lemma ip_receive_drop s p inp b ls n hlen len r :
  chain_at (st_pbufs s) (Some p) ((p, b) :: ls) → pbuf_ok b → 20 ≤ p_len b → p_tot_len b ≤ len →
  netif_structs (st_netifs s) !! inp = Some n →
  let src := header_src (pdata b) in
  let dest := header_dest (pdata b) in
  ip_accept dest inp (st_netifs s) = inr (r, st_netifs s) →
  ip4_addr_isbroadcast src n || ip_addr_ismulticast src = true ∨ r = None →
  ip_receive custom_free mem_avail garbage output ip_frag recv_call ip_reass tcp_input p inp
    (p, p_payload b) hlen len s = pfree custom_free p (set_addrs src dest s).
Proof.
  intros Hc Hok H20 Hlen Hn src dest Hr Hbad. inversion Hc as [|? ? ? Hb _]; subst.
  unfold ip_receive. erewrite bind_lift_same.
  2: { unfold pbuf_realloc. rewrite (bind_pb _ _ _ _ Hb). by rewrite (proj2 (Z.leb_le _ _)). }
  unfold IPH_DEST, IPH_SRC.
  rewrite (bind_load_hdr 4 s p b b) by (done || lia). fold dest.
  rewrite (bind_load_hdr 4 s p b b) by (done || lia). fold src.
  rewrite bind_modify. fold (set_addrs src dest s).
  erewrite bind_lift_same by exact Hr.
  rewrite (bind_lift_nderef (set_addrs src dest s) inp n) by done.
  destruct (_ || _); [done|]. destruct Hbad as [?|Hnone]; [done|].
  by rewrite bool_decide_true.
Qed.


(** ** Delivery *)

(** The protocol's input function. *)
Definition upper (proto : Z) : loc → netif_loc → prog stack unit :=
  if proto =? IP_PROTO_UDP then
    udp_input custom_free mem_avail garbage output ip_frag recv_call
  else if proto =? IP_PROTO_TCP then tcp_input
  else icmp_input custom_free mem_avail garbage output ip_frag.

Lemma header_in_front b ls tos len id ttl proto src dest c msg (p : loc) :
  pbuf_ok b → 20 ≤ p_len b →
  data ((p, b) :: ls) = ip_header tos len id ttl proto src dest c ++ msg →
  pdata b = ip_header tos len id ttl proto src dest c ++ drop 20 (pdata b).
Proof.
  intros Hok H20 Hd. pose proof (zlen_pdata b Hok) as Hl. unfold zlen in Hl.
  rewrite <- (take_drop 20 (pdata b)) at 1. f_equal. rewrite data_cons in Hd.
  apply (f_equal (take 20)) in Hd. rewrite take_app_le in Hd by lia. rewrite Hd. done.
Qed.

Lemma header_valid_ip tos len id ttl proto src dest c rest odd tot_len :
  is_u16 len → len ≤ tot_len →
  inet_chksum odd (ip_header tos len id ttl proto src dest c) = 0 →
  let d := ip_header tos len id ttl proto src dest c ++ rest in
  header_valid d odd tot_len = true ∧
  lwip_ntohs (le_load (take 2 (drop 2 d))) = len.
Proof.
  intros Hlen Htot Hsum d.
  assert (El : lwip_ntohs (le_load (take 2 (drop 2 d))) = len) by (by apply ntohs_be2).
  split; [|done]. unfold header_valid. rewrite El.
  change (le_load (take 1 d)) with 0x45. change (Z.shiftr 0x45 4 =? 4) with true.
  change (Z.land 0x45 0x0f * 4) with 20. rewrite (proj2 (Z.leb_le len _)) by done.
  change (take (Z.to_nat 20) d) with (ip_header tos len id ttl proto src dest c).
  rewrite Hsum. cbn [andb]. rewrite (proj2 (Z.leb_le _ _)); [done|].
  unfold d. rewrite zlen_app. pose proof (zlen_nonneg rest).
  change (zlen (ip_header tos len id ttl proto src dest c)) with 20. lia.
Qed.

(** Trimming a single pool pbuf. *)
Lemma realloc_single (h : heap CF) p b len :
  h !! p = Some b → p_type b = PBUF_POOL → p_next b = None → p_tot_len b = p_len b →
  len < p_len b →
  pbuf_realloc custom_free (Some p) len h
  = inr (tt, <[p:=with_next None (with_tot len (with_len len b))]> h).
Proof.
  intros Hb Hty Hnext Htot Hlen. unfold pbuf_realloc.
  rewrite (bind_pb _ _ _ _ Hb), (proj2 (Z.leb_gt _ _)) by lia.
  rewrite bind_walk. cbn [realloc_walk]. rewrite bind_assoc, (bind_pb _ _ _ _ Hb).
  rewrite (proj2 (Z.ltb_ge _ _)) by lia. rewrite bind_mret, (bind_pb _ _ _ _ Hb), Hty.
  rewrite bool_decide_false by done. cbn [andb]. rewrite bind_mret, (bind_up _ _ _ _ _ Hb), Hnext.
  rewrite bind_mret. erewrite update_eq by apply lookup_insert_eq. by rewrite insert_insert_eq.
Qed.

(** From the trimming to the dispatch, for a packet that is for us. *)
Lemma ip_receive_eq s h' p b b' inp n m hlen tos len id ttl proto src dest c rest :
  pbuf_realloc custom_free (Some p) len (st_pbufs s) = inr (tt, h') →
  h' !! p = Some b' → p_mem b' = p_mem b → pbuf_ok b → 20 ≤ p_len b →
  pdata b = ip_header tos len id ttl proto src dest c ++ rest → is_u32 src → is_u32 dest →
  netifs_listed (st_netifs s) inp → netif_structs (st_netifs s) !! inp = Some n →
  ip4_addr_isbroadcast src n || ip_addr_ismulticast src = false →
  m ∈ inp :: netif_list (st_netifs s) → accepted_by (st_netifs s) dest m →
  ip_receive custom_free mem_avail garbage output ip_frag recv_call ip_reass tcp_input p inp
    (p, p_payload b) hlen len s
  = ip_dispatch custom_free mem_avail garbage output ip_frag recv_call tcp_input p inp
      (p, p_payload b) hlen (set_addrs src dest (set_pbufs h' s)).
Proof.
  intros Hre Hb' Hmem Hok H20 Hpd Hs Hdst Hl Hn Hsrc Hm Ha.
  unfold ip_receive, IPH_DEST, IPH_SRC, IPH_OFFSET.
  erewrite bind_ret by (apply lift_ret; exact Hre). cbn [lput stack_lens_pbufs].
  rewrite (bind_load_hdr 4 _ p b b'), (bind_load_hdr 4 _ p b b') by (done || lia).
  rewrite bind_modify, Hpd.
  change (take 4 (drop (Z.to_nat 16) (_ ++ _))) with (le_bytes 4 dest).
  change (take 4 (drop (Z.to_nat 12) (_ ++ _))) with (le_bytes 4 src).
  rewrite !load_le4 by done. fold (set_addrs src dest (set_pbufs h' s)).
  destruct (ip_accept_spec (st_netifs s) dest inp Hl) as ([m'|] & Hr & Hspec);
    [|by destruct (Hspec m Hm)].
  erewrite bind_lift_same by exact Hr.
  rewrite (bind_lift_nderef (set_addrs src dest (set_pbufs h' s)) inp n) by done.
  rewrite Hsrc, bool_decide_false by done.
  rewrite (bind_load_hdr 2 (set_addrs src dest (set_pbufs h' s)) p b b') by (done || lia).
  by rewrite Hpd.
Qed.

(** The state in which the protocol's input function runs. *)
Definition delivered s p b inp src dest : stack :=
  set_ip_data (mk_ip_globals (Some inp) (Some (p, p_payload b)) 20 src dest)
    (set_pbufs (<[p:=shifted (-20) b]> (st_pbufs s)) s).

Lemma ip_dispatch_eq s p b ls inp tos len id ttl proto src dest c rest :
  chain_at (st_pbufs s) (Some p) ((p, b) :: ls) → chain_wf ((p, b) :: ls) → 20 ≤ p_len b →
  pdata b = ip_header tos len id ttl proto src dest c ++ rest →
  proto = IP_PROTO_UDP ∨ proto = IP_PROTO_TCP ∨ proto = IP_PROTO_ICMP →
  ip_dispatch custom_free mem_avail garbage output ip_frag recv_call tcp_input p inp
    (p, p_payload b) 20 s
  = (upper proto p inp;; pmodify (set_ip_data (mk_ip_globals None None 0 IPADDR_ANY IPADDR_ANY)))
      (delivered s p b inp (current_iphdr_src (st_ip_data s))
         (current_iphdr_dest (st_ip_data s))).
Proof.
  intros Hc Hwf H20 Hd Hproto. inversion Hc as [|? ? ? Hb _]; subst.
  pose proof Hwf as (Hok & _ & Htot & Hlt & _). pose proof Hok as (? & ? & _).
  unfold ip_dispatch, IPH_VHL, IPH_PROTO.
  assert (Hv : le_load (take 1 (drop (Z.to_nat 0) (pdata b))) = 0x45) by (by rewrite Hd).
  assert (Hpr : le_load (take 1 (drop (Z.to_nat 9) (pdata b))) = proto).
  { rewrite Hd. change (proto + 256 * 0 = proto). lia. }
  rewrite (bind_load_hdr 1 s p b b) by (done || lia). rewrite Hv, bind_modify.
  change (Z.land 0x45 0x0f * 4) with 20.
  erewrite bind_ret; [|apply lift_ret; eapply (pbuf_header_eq _ _ b ls); [exact Hc|done|]].
  2: { split_and!; try done; lia. }
  erewrite (bind_load_hdr 1 _ p b); [|apply lookup_insert_eq|done|done|lia|lia].
  rewrite Hpr. unfold upper, delivered. by destruct Hproto as [->|[->| ->]].
Qed.

(** C9: A packet whose header (of five words) is intact and whose length is
    that of the packet, from a source that is neither broadcast nor multicast,
    to an address one of the interfaces takes, is handed to UDP, TCP or ICMP
    according to its protocol.  There the payload pointer is behind the header,
    the chain holds exactly the bytes that followed the header, and the globals
    of the IP layer hold the interface, the header and the two addresses.
    When the protocol is done the globals are cleared. *)
Theorem ip_input_delivers s p b ls inp n m tos len id ttl proto src dest c msg :
  chain_at (st_pbufs s) (Some p) ((p, b) :: ls) → chain_wf ((p, b) :: ls) → 20 ≤ p_len b →
  data ((p, b) :: ls) = ip_header tos len id ttl proto src dest c ++ msg →
  len = p_tot_len b → is_u32 src → is_u32 dest →
  inet_chksum (Z.odd (p_payload b)) (ip_header tos len id ttl proto src dest c) = 0 →
  netifs_listed (st_netifs s) inp → netif_structs (st_netifs s) !! inp = Some n →
  ip4_addr_isbroadcast src n || ip_addr_ismulticast src = false →
  m ∈ inp :: netif_list (st_netifs s) → accepted_by (st_netifs s) dest m →
  proto = IP_PROTO_UDP ∨ proto = IP_PROTO_TCP ∨ proto = IP_PROTO_ICMP →
  let s1 := delivered s p b inp src dest in
  input p inp s
  = (upper proto p inp;;
     pmodify (set_ip_data (mk_ip_globals None None 0 IPADDR_ANY IPADDR_ANY))) s1 ∧
  let ls' := (p, shifted (-20) b) :: ls in
  chain_at (st_pbufs s1) (Some p) ls' ∧ chain_wf ls' ∧ data ls' = msg.
Proof.
  intros Hc Hwf H20 Hd -> Hs Hdst Hsum Hl Hn Hsrc Hm Ha Hproto s1.
  inversion Hc as [|? ? ? Hb _]; subst. pose proof Hwf as (Hok & _ & Htot & Hlt & _).
  pose proof (zlen_nonneg (data ((p, b) :: ls))). pose proof Hok as (? & ? & _).
  pose proof (header_in_front b ls _ _ _ _ _ _ _ _ _ p Hok H20 Hd) as Hpd.
  assert (Hf : header_fits (-20) b) by (split_and!; try done; lia).
  split; [|split; [by eapply chain_update_head|split; [by apply shifted_wf|]]].
  - rewrite (ip_input_checks s p inp b) by (done || lia). rewrite Hpd.
    edestruct header_valid_ip as [-> ->]; [unfold is_u16; lia|done|done|].
    change (Z.land (le_load (take 1 (ip_header _ _ _ _ _ _ _ _ ++ _))) 0x0f * 4) with 20.
    rewrite (ip_receive_eq s (st_pbufs s) p b b inp n m 20 tos (p_tot_len b) id ttl proto src dest c
      (drop 20 (pdata b))); try done.
    2: { unfold pbuf_realloc. rewrite (bind_pb _ _ _ _ Hb). by rewrite Z.leb_refl. }
    replace (set_pbufs (st_pbufs s) s) with s by (by destruct s).
    by apply (ip_dispatch_eq (set_addrs src dest s) p b ls inp tos (p_tot_len b) id ttl proto src
      dest c (drop 20 (pdata b))).
  - rewrite data_cons, pdata_shrink by (done || lia). rewrite data_cons, Hpd, <- app_assoc in Hd.
    by apply app_inv_head in Hd.
Qed.

(** C29: [ip_input] does not compare the total length of a packet with the
    length of its header.  A packet for us whose header is intact (and whose
    checksum is right) but announces a total length below 20 is trimmed to
    that length, and skipping the header then fails the check inside
    [pbuf_header], which aborts the program. *)
Theorem ip_input_short_length_aborts s p b inp n m tos len id ttl proto src dest c rest :
  st_pbufs s !! p = Some b → pbuf_ok b → p_type b = PBUF_POOL → p_next b = None →
  p_tot_len b = p_len b → 20 ≤ p_len b →
  pdata b = ip_header tos len id ttl proto src dest c ++ rest →
  0 ≤ len < 20 → is_u32 src → is_u32 dest →
  inet_chksum (Z.odd (p_payload b)) (ip_header tos len id ttl proto src dest c) = 0 →
  netifs_listed (st_netifs s) inp → netif_structs (st_netifs s) !! inp = Some n →
  ip4_addr_isbroadcast src n || ip_addr_ismulticast src = false →
  m ∈ inp :: netif_list (st_netifs s) → accepted_by (st_netifs s) dest m →
  input p inp s = inl Abort.
Proof.
  intros Hb Hok Hty Hnext Htot H20 Hpd Hlen Hs Hdst Hsum Hl Hn Hsrc Hm Ha.
  rewrite (ip_input_checks s p inp b) by (done || lia). rewrite Hpd.
  edestruct header_valid_ip as [-> ->]; [unfold is_u16; lia|lia|done|].
  change (Z.land (le_load (take 1 (ip_header _ _ _ _ _ _ _ _ ++ _))) 0x0f * 4) with 20.
  set (b' := with_next None (with_tot len (with_len len b))).
  erewrite (ip_receive_eq s (<[p:=b']> (st_pbufs s)) p b b'); try done.
  2: { apply realloc_single; try done. lia. }
  2: { apply lookup_insert_eq. }
  unfold ip_dispatch, IPH_VHL.
  rewrite (bind_load_hdr 1 _ p b b') by (done || lia || apply lookup_insert_eq).
  rewrite bind_modify. apply bind_fault, lift_fault. unfold pbuf_header. change (Z.opp 20 =? 0) with false. cbn iota.
  erewrite bind_pb by apply lookup_insert_eq. apply bind_fault.
  cbn [b' with_next with_tot with_len p_len]. rewrite (proj2 (Z.leb_gt _ _)) by lia. done.
Qed.

End input.

(** ** Witnesses *)

(** A stack with one pool pbuf, which holds a packet of 23 bytes for TCP that
    says it has [len] bytes; [tcp_input] only notes that it was called. *)
Definition toy_packet (len c : Z) : bytes :=
  ip_header 0 len 7 64 IP_PROTO_TCP 0x0200000a 0x0100000a c ++ [1; 2; 3].
Definition toy_in (len c : Z) : pbuf unit :=
  mk_pbuf None (toy_packet len c ++ replicate 9 0) 0 23 23 PBUF_POOL 0 1 None.
Definition toy_state (len c : Z) : stack unit unit unit bool :=
  mk_stack {[1%positive := toy_in len c]}
    (mk_netif_state {[1%positive := toy_netif]} [1%positive] (Some 1%positive) 1)
    udp_init 7 (mk_ip_globals None None 0 0 0) false.
Abbreviation toy_stack := (stack unit unit unit bool).
Definition toy_free : unit → loc → prog (heap unit) unit := λ _ _, pfault Wild.
Definition toy_output : netif_loc → loc → Z → prog toy_stack err_t := λ _ _ _, mret ERR_OK.
Definition toy_recv : unit → option unit → pcb_loc → loc → Z → Z → prog toy_stack unit :=
  λ _ _ _ _ _ _, mret ().
Definition toy_reass : loc → prog toy_stack (option loc) := λ _, mret None.
Definition toy_tcp : loc → netif_loc → prog toy_stack unit := λ _ _,
  pmodify (λ s, mk_stack (st_pbufs s) (st_netifs s) (st_udp s) (st_ip_id s) (st_ip_data s) true).
Definition toy_ip_input : loc → netif_loc → prog toy_stack unit :=
  ip_input toy_free (λ _ _, true) (λ _ _, 0) toy_output toy_output toy_recv toy_reass toy_tcp.

Lemma toy_chain len c :
  chain_at (st_pbufs (toy_state len c)) (Some 1%positive) [(1%positive, toy_in len c)].
Proof. apply linked_cons; [done|apply linked_nil]. Qed.

Lemma toy_listed len c : netifs_listed (st_netifs (toy_state len c)) 1%positive.
Proof. repeat apply Forall_cons_2; try apply Forall_nil_2; by eexists. Qed.

Lemma toy_accepts len c :
  accepted_by (st_netifs (toy_state len c)) 0x0100000a 1%positive.
Proof. by exists toy_netif. Qed.


Lemma ip_input_delivers_witness :
  ∃ s', toy_ip_input 1%positive 1%positive (toy_state 23 0xd866) = inr (tt, s') ∧
    st_rest s' = true ∧ pdata <$> (st_pbufs s' !! 1%positive) = Some [1; 2; 3].
Proof.
  destruct (ip_input_delivers toy_free (λ _ _, true) (λ _ _, 0) toy_output toy_output toy_recv
    toy_reass toy_tcp (toy_state 23 0xd866) 1%positive (toy_in 23 0xd866) [] 1%positive toy_netif
    1%positive 0 23 7 64 IP_PROTO_TCP 0x0200000a 0x0100000a 0xd866 [1; 2; 3]) as (E & _ & _ & Hd);
    try done; try apply toy_chain; try apply toy_listed; try apply toy_accepts.
  - by left.
  - by right; left.
  - eexists. split; [exact E|]. split; [done|]. rewrite data_cons, app_nil_r in Hd.
    cbn [st_pbufs delivered set_ip_data set_pbufs]. by rewrite lookup_insert_eq, <- Hd.
Defined.

Lemma ip_input_short_length_aborts_witness :
  toy_ip_input 1%positive 1%positive (toy_state 19 0xdc66) = inl Abort.
Proof.
  apply (ip_input_short_length_aborts toy_free (λ _ _, true) (λ _ _, 0) toy_output toy_output
    toy_recv toy_reass toy_tcp (toy_state 19 0xdc66) 1%positive (toy_in 19 0xdc66) 1%positive
    toy_netif 1%positive 0 19 7 64 IP_PROTO_TCP 0x0200000a 0x0100000a 0xdc66 [1; 2; 3]);
    try done; [apply toy_listed|by left|apply toy_accepts].
Defined.

End Ip4InputProps.
