(* ===== verification/IcmpProps.v ===== *)
(** * Properties of ICMP

    The checksum of an echo reply, which is not computed again but adjusted,
    and runs of the whole input path on packets that show what a reply to a
    packet with options and an "unreachable" message contain. *)

From S2P Require Import Prelude Def Ip4Addr InetChksum Netif Udp Pbuf PbufChain PbufOps.
From S2P Require Import Stack StackMem Ip4 Ip4Props Icmp UdpIo Ip4Input.

Module IcmpProps.
Import Def Ip4Addr InetChksum Netif Udp Pbuf PbufChain PbufOps.
Import Stack StackMem Ip4 Ip4Props Icmp UdpIo Ip4Input.
Local Open Scope c_scope.

(** An ICMP message. *)
Definition icmp_message (type code chksum : Z) (rest : bytes) : bytes :=
  [type; code] ++ le_bytes 2 chksum ++ rest.

Lemma icmp_message_u8 type code chksum rest :
  is_u8 type → is_u8 code → Forall is_u8 rest → Forall is_u8 (icmp_message type code chksum rest).
Proof.
  intros. unfold icmp_message. do 2 (apply Forall_cons_2; [done|]).
  apply Forall_app_2; [apply le_bytes_u8|done].
Qed.

Lemma icmp_message_sum type code chksum rest :
  is_u8 type → is_u8 code → is_u16 chksum → Forall is_u8 rest →
  le_load (icmp_message type code chksum rest)
  = type + 256 * code + 65536 * (chksum + 65536 * le_load rest).
Proof.
  intros Ht Hc Hk Hr. unfold icmp_message. unfold is_u16 in Hk.
  cbn [app le_load le_bytes]. zdm.
Qed.

Lemma adjust_chksum_eq k : is_u16 k →
  adjust_chksum k = if 0xfff7 <=? k then k + 8 - 65535 else k + 8.
Proof.
  intros Hk. unfold is_u16 in Hk. unfold adjust_chksum.
  change (lwip_htons (0xffff - Z.shiftl ICMP_ECHO 8)) with 0xfff7.
  change (lwip_htons (Z.shiftl ICMP_ECHO 8)) with 8.
  destruct (Z.leb_spec 0xfff7 k); unfold u16; zdm.
Qed.

Lemma le_load_zero d : Forall is_u8 d → (le_load d = 0 ↔ Forall (λ x, x = 0) d).
Proof.
  induction 1 as [|x d Hx Hd IH]; [split; [by constructor|done]|]. cbn [le_load].
  pose proof (le_load_nonneg d Hd). unfold is_u8 in Hx. rewrite list.Forall_cons, <- IH. lia.
Qed.

(** The reply to an echo request whose checksum is right has the request's
    bytes with the type 0 and the adjusted checksum.  Its checksum is right
    as well, except when all of the code, the identifier, the sequence number
    and the data are zero: there the adjusted checksum is 0 where it has to be
    0xffff, and a receiver that checks the sum rejects the reply. *)
Theorem icmp_echo_reply_chksum odd code chksum rest :
  is_u8 code → is_u16 chksum → Forall is_u8 rest → zlen rest ≤ 65531 →
  inet_chksum odd (icmp_message ICMP_ECHO code chksum rest) = 0 →
  (inet_chksum odd (icmp_message ICMP_ER code (adjust_chksum chksum) rest) = 0 ↔
   ¬ (code = 0 ∧ Forall (λ x, x = 0) rest)).
Proof.
  intros Hc Hk Hr Hl. rewrite <- le_load_zero by done.
  assert (Hk' : is_u16 (adjust_chksum chksum)).
  { rewrite adjust_chksum_eq by done. unfold is_u16 in *.
    destruct (Z.leb_spec 0xfff7 chksum); lia. }
  assert (Hlen : ∀ t k, zlen (icmp_message t code k rest) ≤ 0x20000).
  { intros. unfold icmp_message. rewrite !zlen_app. unfold zlen at 2. rewrite length_le_bytes.
    change (zlen [t; code]) with 2. lia. }
  rewrite !inet_chksum_zero by (done || by apply icmp_message_u8).
  rewrite !icmp_message_sum, adjust_chksum_eq by done.
  pose proof (le_load_nonneg rest Hr). unfold is_u8, is_u16, oceq, ICMP_ECHO, ICMP_ER in *.
  set (R := le_load rest) in *. intros (_ & _ & E & _). change (65535 mod 65535) with 0 in *.
  set (k' := if 0xfff7 <=? chksum then chksum + 8 - 65535 else chksum + 8).
  assert (Hk'' : k' = chksum + 8 ∧ chksum < 0xfff7 ∨ k' = chksum + 8 - 65535 ∧ 0xfff7 ≤ chksum).
  { unfold k'. destruct (Z.leb_spec 0xfff7 chksum); lia. }
  clearbody k'. split.
  - intros (_ & _ & _ & Hz) [-> HR]. rewrite HR in *. zdm.
  - intros Hnz. split_and!; [lia|lia|zdm|]. split; [|done]. intros Hz. exfalso. apply Hnz. lia.
Qed.

Lemma icmp_echo_reply_chksum_witness :
  inet_chksum false (icmp_message ICMP_ER 0 (adjust_chksum 0xfdf7) [0; 1; 0; 1]) = 0.
Proof.
  apply icmp_echo_reply_chksum; [done|done|repeat apply Forall_cons_2; done|done|by vm_compute|].
  intros [_ Hz]. inversion Hz; subst. inversion select (Forall _ _); subst. lia.
Defined.

(** ** Runs of the input path *)

(** The stack of a program with one interface, 10.0.0.1, that keeps what it
    sends; its packet is in a pool pbuf whose memory behind the packet still
    holds the bytes 170 of an earlier one. *)
Abbreviation wire := (stack unit unit unit (list bytes)).
Definition wire_output : netif_loc → loc → Z → prog wire err_t := λ _ p _,
  b ← lift (deref p);
  pmodify (λ s, mk_stack (st_pbufs s) (st_netifs s) (st_udp s) (st_ip_id s) (st_ip_data s)
                  (st_rest s ++ [pdata b]));;
  mret ERR_OK.
Definition wire_state (packet : bytes) : wire :=
  mk_stack {[1%positive := mk_pbuf None (packet ++ replicate 40 170) 0 (zlen packet) (zlen packet)
                             PBUF_POOL 0 1 None]}
    (mk_netif_state {[1%positive := toy_netif]} [1%positive] (Some 1%positive) 1)
    udp_init 9 (mk_ip_globals None None 0 0 0) [].
Definition wire_input (packet : bytes) : option (list bytes) :=
  match ip_input (λ _ _, pfault Wild) (λ _ _, true) (λ _ _, 170) wire_output wire_output
          (λ _ _ _ _ _ _, mret ()) (λ _, mret None) (λ _ _, mret ())
          1%positive 1%positive (wire_state packet) with
  | inr (_, s) => Some (st_rest s)
  | inl _ => None
  end.

(** An echo request with four bytes of IP options. *)
Definition ping_with_options : bytes :=
  [70; 0; 0; 32; 0; 7; 0; 0; 64; 1; 99; 210; 10; 0; 0; 2; 10; 0; 0; 1; 1; 1; 1; 1]
  ++ [8; 0; 247; 253; 0; 1; 0; 1].

(** The reply to a request with IP options keeps the options, but the checksum of
    its header is computed over the first 20 bytes only, so it is wrong. *)
Lemma icmp_echo_options_bad_chksum :
  inet_chksum false (take 24 ping_with_options) = 0 ∧
  ∃ reply, wire_input ping_with_options = Some [reply] ∧
    take 4 (drop 12 reply) = [10; 0; 0; 1] ∧
    inet_chksum false (take 24 reply) ≠ 0.
Proof.
  split; [by vm_compute|]. eexists. split; [by vm_compute|]. split; by vm_compute.
Qed.

(** A packet of 20 bytes with a protocol that is not supported. *)
Definition bare_header : bytes :=
  [69; 0; 0; 20; 0; 7; 0; 0; 64; 99; 102; 126; 10; 0; 0; 2; 10; 0; 0; 1].

(** The "protocol unreachable" message quotes 28 bytes of a packet that has
    only 20: the last eight are what the memory of the pbuf held before. *)
Lemma icmp_unreach_quotes_stale_memory :
  ∃ reply, wire_input bare_header = Some [reply] ∧ zlen reply = 56 ∧
    drop 28 reply = bare_header ++ replicate 8 170.
Proof. eexists. split; [by vm_compute|]. split; by vm_compute. Qed.

End IcmpProps.
