(* ===== verification/IpReass.v ===== *)
(** * Reassembly of IP datagrams: [lwip/src/core/ipv4/ip_frag.c]

    The queue of datagrams whose fragments are being collected.  A
    [struct ip_reassdata] is a record in a finite map from addresses, linked by
    its [next] field; the fragments of a datagram are linked through the
    [struct ip_reass_helper] that the code writes over the IP header of each of
    them, so the links and the ranges are bytes of the packets here as well (a
    pointer is 8 bytes, [NULL] is 0).  Loops have as much fuel as there are
    objects to walk over. *)

From S2P Require Import Prelude Def Ip4Addr InetChksum Netif Udp Pbuf Stack Ip4 Icmp.

Module IpReass.
Import Def Ip4Addr InetChksum Netif Udp Pbuf Stack Ip4 Icmp.

Abbreviation rloc := positive.

Definition IP_REASS_FLAG_LASTFRAG : Z := 0x01.
Definition IP_REASS_MAXAGE : Z := 3.
Definition IP_REASS_MAX_PBUFS : Z := 10.
Definition ICMP_TE_FRAG : Z := 1.

(** The fields of [struct ip_reass_helper] and its size. *)
Definition IPRH_NEXT_PBUF : Z := 0.
Definition IPRH_START : Z := 8.
Definition IPRH_END : Z := 10.
Definition SIZEOF_IPRH : Z := 12.

(** A pointer as the machine stores it. *)
Definition ptr_enc (p : option loc) : Z := match p with None => 0 | Some l => Z.pos l end.
Definition ptr_dec (z : Z) : option loc := match z with Z.pos l => Some l | _ => None end.

Record ip_reassdata := mk_ip_reassdata {
  r_next : option rloc;
  r_p : option loc;
  r_iphdr : bytes;
  r_datagram_len : Z;
  r_flags : Z;
  r_timer : Z
}.

Definition with_rnext n b := mk_ip_reassdata n (r_p b) (r_iphdr b) (r_datagram_len b)
  (r_flags b) (r_timer b).
Definition with_rp p b := mk_ip_reassdata (r_next b) p (r_iphdr b) (r_datagram_len b)
  (r_flags b) (r_timer b).
Definition with_iphdr h b := mk_ip_reassdata (r_next b) (r_p b) h (r_datagram_len b)
  (r_flags b) (r_timer b).
Definition with_last len b := mk_ip_reassdata (r_next b) (r_p b) (r_iphdr b) len
  (Z.lor (r_flags b) IP_REASS_FLAG_LASTFRAG) (r_timer b).
Definition with_datagram_len len b := mk_ip_reassdata (r_next b) (r_p b) (r_iphdr b) len
  (r_flags b) (r_timer b).
Definition with_timer t b := mk_ip_reassdata (r_next b) (r_p b) (r_iphdr b)
  (r_datagram_len b) (r_flags b) t.

Record reass_state := mk_reass_state {
  reass_structs : gmap rloc ip_reassdata;
  reassdatagrams : option rloc;
  ip_reass_pbufcount : Z
}.

Definition set_structs m s := mk_reass_state m (reassdatagrams s) (ip_reass_pbufcount s).
Definition set_head r s := mk_reass_state (reass_structs s) r (ip_reass_pbufcount s).
Definition set_count n s := mk_reass_state (reass_structs s) (reassdatagrams s) n.

Definition rderef (r : rloc) : prog reass_state ip_reassdata :=
  s ← pget; pderef (reass_structs s !! r).
Definition rupdate (r : rloc) (f : ip_reassdata → ip_reassdata) : prog reass_state unit :=
  b ← rderef r; pmodify (λ s, set_structs (<[r:=f b]> (reass_structs s)) s).

(** A field of the copy of a header. *)
Definition hdr_field (n : nat) (off : Z) (d : bytes) : Z :=
  le_load (take n (drop (Z.to_nat off) d)).

(** The number of pbufs in the queues. *)
Definition count_add (n : Z) : prog reass_state unit :=
  pmodify (λ s, set_count (u16 (ip_reass_pbufcount s + n)) s).

(** ** The queue of datagrams *)

Definition ip_reass_dequeue_datagram (ipr : rloc) (prev : option rloc) : prog reass_state unit :=
  s ← pget;
  b ← rderef ipr;
  (if bool_decide (reassdatagrams s = Some ipr) then pmodify (set_head (r_next b))
   else
     match prev with
     | None => pfault Abort
     | Some q => rupdate q (with_rnext (r_next b))
     end);;
  pmodify (λ s, set_structs (delete ipr (reass_structs s)) s).

(** The search for the entry in front of [ipr]. *)
Fixpoint prev_loop (fuel : nat) (ipr : rloc) (q : option rloc) : prog reass_state (option rloc) :=
  match q with
  | None => mret None
  | Some q =>
      match fuel with
      | O => pfault Hang
      | S fuel' =>
          b ← rderef q;
          if bool_decide (r_next b = Some ipr) then mret (Some q)
          else prev_loop fuel' ipr (r_next b)
      end
  end.
Definition find_prev (ipr : rloc) : prog reass_state (option rloc) :=
  s ← pget;
  if bool_decide (reassdatagrams s = Some ipr) then mret None
  else prev_loop (S (size (reass_structs s))) ipr (reassdatagrams s).

Section ip_reass.
Context {CF F A X : Type} `{HL : Lens X reass_state}.
Abbreviation stack := (stack CF F A X).
Context (custom_free : CF → loc → prog (heap CF) unit).
Context (mem_avail : heap CF → Z → bool) (garbage : heap CF → nat → Z).
Context (output ip_frag : netif_loc → loc → Z → prog stack err_t).
(** Whether [memp_malloc(MEMP_REASSDATA)] finds memory. *)
Context (reass_avail : stack → bool).

Abbreviation pfree := (pfree custom_free (F := F) (A := A) (X := X)).

(** [IP_ADDRESSES_AND_ID_MATCH(&ipr->iphdr, fraghdr)]. *)
Definition ip_addresses_and_id_match (iphdr : bytes) (fraghdr : ptr) : prog stack bool :=
  src ← lift (load 4 fraghdr IPH_SRC);
  dest ← lift (load 4 fraghdr IPH_DEST);
  id ← lift (load 2 fraghdr IPH_ID);
  mret ((hdr_field 4 IPH_SRC iphdr =? src) && (hdr_field 4 IPH_DEST iphdr =? dest)
        && (hdr_field 2 IPH_ID iphdr =? id)).

(** ** Freeing a datagram *)

(** The loop over the fragments, with the number of pbufs freed so far. *)
Fixpoint free_frags (fuel : nat) (p : option loc) (pbufs_freed : Z) : prog stack Z :=
  match p with
  | None => mret pbufs_freed
  | Some pcur =>
      match fuel with
      | O => pfault Hang
      | S fuel' =>
          iprh ← lift (payload pcur);
          next ← lift (load 8 iprh IPRH_NEXT_PBUF);
          clen ← lift (pbuf_clen (Some pcur));
          passert (pbufs_freed + clen <=? 0xffff);;
          pfree pcur;;
          free_frags fuel' (ptr_dec next) (u16 (pbufs_freed + clen))
      end
  end.

Definition ip_reass_free_complete_datagram (ipr : rloc) (prev : option rloc) : prog stack Z :=
  passert (bool_decide (prev ≠ Some ipr));;
  match prev with
  | Some q => b ← lift (rderef q); passert (bool_decide (r_next b = Some ipr))
  | None => mret ()
  end;;
  b ← lift (rderef ipr);
  p ← pderef (r_p b);
  iprh ← lift (payload p);
  start ← lift (load 2 iprh IPRH_START);
  pbufs_freed ←
    (if start =? 0 then
       next ← lift (load 8 iprh IPRH_NEXT_PBUF);
       lift (rupdate ipr (with_rp (ptr_dec next)));;
       lift (mwrite iprh 0 (r_iphdr b));;
       icmp_time_exceeded custom_free mem_avail garbage output ip_frag p ICMP_TE_FRAG;;
       clen ← lift (pbuf_clen (Some p));
       passert (0 + clen <=? 0xffff);;
       pfree p;;
       mret (u16 (0 + clen))
     else mret 0);
  b ← lift (rderef ipr);
  s ← pget;
  pbufs_freed ← free_frags (S (size (st_pbufs s))) (r_p b) pbufs_freed;
  lift (ip_reass_dequeue_datagram ipr prev);;
  rs ← lift (pget : prog reass_state reass_state);
  passert (pbufs_freed <=? ip_reass_pbufcount rs);;
  lift (count_add (- pbufs_freed));;
  mret pbufs_freed.

(** ** The timer *)

Fixpoint tmr_loop (fuel : nat) (r prev : option rloc) : prog stack unit :=
  match r with
  | None => mret ()
  | Some r =>
      match fuel with
      | O => pfault Hang
      | S fuel' =>
          b ← lift (rderef r);
          if 0 <? r_timer b then
            lift (rupdate r (with_timer (u8 (r_timer b - 1))));;
            tmr_loop fuel' (r_next b) (Some r)
          else
            ip_reass_free_complete_datagram r prev;;
            tmr_loop fuel' (r_next b) prev
      end
  end.
Definition ip_reass_tmr : prog stack unit :=
  rs ← lift (pget : prog reass_state reass_state);
  tmr_loop (S (size (reass_structs rs))) (reassdatagrams rs) None.

(** ** Making room *)

(** The walk over the queue: the oldest datagram that [fraghdr] does not
    belong to, the variable [prev], and how many others there are. *)
Fixpoint oldest_loop (fuel : nat) (fraghdr : ptr) (r oldest prev : option rloc)
    (other_datagrams : Z) : prog stack (option rloc * option rloc * Z) :=
  match r with
  | None => mret (oldest, prev, other_datagrams)
  | Some r =>
      match fuel with
      | O => pfault Hang
      | S fuel' =>
          b ← lift (rderef r);
          same ← ip_addresses_and_id_match (r_iphdr b) fraghdr;
          '(oldest, other_datagrams) ←
            match same, oldest with
            | true, _ => mret (oldest, other_datagrams)
            | false, None => mret (Some r, other_datagrams + 1)
            | false, Some o =>
                c ← lift (rderef o);
                mret (if r_timer b <=? r_timer c then Some r else Some o, other_datagrams + 1)
            end;
          let prev := match r_next b with Some _ => Some r | None => prev end in
          oldest_loop fuel' fraghdr (r_next b) oldest prev other_datagrams
      end
  end.

(** The [do ... while] loop. *)
Fixpoint remove_oldest_loop (fuel : nat) (fraghdr : ptr) (pbufs_needed pbufs_freed : Z)
    : prog stack Z :=
  match fuel with
  | O => pfault Hang
  | S fuel' =>
      rs ← lift (pget : prog reass_state reass_state);
      '(oldest, prev, other_datagrams) ←
        oldest_loop (S (size (reass_structs rs))) fraghdr (reassdatagrams rs) None None 0;
      pbufs_freed ←
        match oldest with
        | Some o => n ← ip_reass_free_complete_datagram o prev; mret (pbufs_freed + n)
        | None => mret pbufs_freed
        end;
      if (pbufs_freed <? pbufs_needed) && (1 <? other_datagrams)
      then remove_oldest_loop fuel' fraghdr pbufs_needed pbufs_freed
      else mret pbufs_freed
  end.
Definition ip_reass_remove_oldest_datagram (fraghdr : ptr) (pbufs_needed : Z) : prog stack Z :=
  rs ← lift (pget : prog reass_state reass_state);
  remove_oldest_loop (S (size (reass_structs rs))) fraghdr pbufs_needed 0.

(** ** A new datagram *)

(** [memp_malloc(MEMP_REASSDATA)] and the [memset]. *)
Definition reass_malloc : prog stack (option rloc) :=
  s ← pget;
  if reass_avail s then
    rs ← lift (pget : prog reass_state reass_state);
    let r := fresh (dom (reass_structs rs)) in
    lift (pmodify (λ rs, set_structs (<[r:=mk_ip_reassdata None None (replicate 20 0) 0 0 0]>
                                        (reass_structs rs)) rs));;
    mret (Some r)
  else mret None.

Definition ip_reass_enqueue_new_datagram (fraghdr : ptr) (clen : Z) : prog stack (option rloc) :=
  ipr ← reass_malloc;
  ipr ← match ipr with
        | Some r => mret (Some r)
        | None =>
            freed ← ip_reass_remove_oldest_datagram fraghdr clen;
            if clen <=? freed then reass_malloc else mret None
        end;
  match ipr with
  | None => mret None
  | Some r =>
      lift (rupdate r (with_timer IP_REASS_MAXAGE));;
      rs ← lift (pget : prog reass_state reass_state);
      lift (rupdate r (with_rnext (reassdatagrams rs)));;
      lift (pmodify (set_head (Some r)));;
      h ← lift (mread fraghdr 0 IP_HLEN);
      lift (rupdate r (with_iphdr h));;
      mret (Some r)
  end.

(** ** A fragment *)

(** The fragment goes behind all others; the value of [valid]. *)
Definition place_last (ipr : rloc) (new_p : loc) (start : Z) (iprh_prev : option ptr)
    (valid : bool) : prog stack bool :=
  match iprh_prev with
  | Some prev =>
      prev_end ← lift (load 2 prev IPRH_END);
      passert (prev_end <=? start);;
      lift (store 8 prev IPRH_NEXT_PBUF (ptr_enc (Some new_p)));;
      mret (if prev_end =? start then valid else false)
  | None =>
      b ← lift (rderef ipr);
      passert (bool_decide (r_p b = None));;
      lift (rupdate ipr (with_rp (Some new_p)));;
      mret valid
  end.

(** The fragment goes in front of [q], which begins at [tmp_start]; [None] is
    the jump to [freepbuf]. *)
Definition place_before (ipr : rloc) (new_p : loc) (iprh : ptr) (start end_ : Z) (q : loc)
    (tmp_start : Z) (iprh_prev : option ptr) (valid : bool) : prog stack (option bool) :=
  lift (store 8 iprh IPRH_NEXT_PBUF (ptr_enc (Some q)));;
  match iprh_prev with
  | Some prev =>
      prev_end ← lift (load 2 prev IPRH_END);
      if (start <? prev_end) || (tmp_start <? end_) then mret None
      else
        lift (store 8 prev IPRH_NEXT_PBUF (ptr_enc (Some new_p)));;
        mret (Some valid)
  | None =>
      lift (rupdate ipr (with_rp (Some new_p)));;
      mret (Some valid)
  end.

(** The loop that looks for the place of the fragment at [iprh] (which covers
    the bytes from [start] to [end_]) and links it in, and what follows when
    it reaches the end of the list.  [None] is the jump to [freepbuf];
    otherwise the value of [valid]. *)
Fixpoint place_loop (fuel : nat) (ipr : rloc) (new_p : loc) (iprh : ptr) (start end_ : Z)
    (q : option loc) (iprh_prev : option ptr) (valid : bool) : prog stack (option bool) :=
  match q with
  | None => valid ← place_last ipr new_p start iprh_prev valid; mret (Some valid)
  | Some q =>
      match fuel with
      | O => pfault Hang
      | S fuel' =>
          iprh_tmp ← lift (payload q);
          tmp_start ← lift (load 2 iprh_tmp IPRH_START);
          if start <? tmp_start then
            place_before ipr new_p iprh start end_ q tmp_start iprh_prev valid
          else if start =? tmp_start then mret None
          else
            tmp_end ← lift (load 2 iprh_tmp IPRH_END);
            if start <? tmp_end then mret None
            else
              hole ← match iprh_prev with
                     | Some prev =>
                         prev_end ← lift (load 2 prev IPRH_END);
                         mret (negb (prev_end =? tmp_start))
                     | None => mret false
                     end;
              next ← lift (load 8 iprh_tmp IPRH_NEXT_PBUF);
              place_loop fuel' ipr new_p iprh start end_ (ptr_dec next) (Some iprh_tmp)
                (valid && negb hole)
      end
  end.

(** Are there no holes behind [iprh_prev]?  With the last fragment seen. *)
Fixpoint holes_loop (fuel : nat) (iprh_prev : ptr) (q : option loc) : prog stack (bool * ptr) :=
  match q with
  | None => mret (true, iprh_prev)
  | Some q =>
      match fuel with
      | O => pfault Hang
      | S fuel' =>
          iprh ← lift (payload q);
          prev_end ← lift (load 2 iprh_prev IPRH_END);
          start ← lift (load 2 iprh IPRH_START);
          if negb (prev_end =? start) then mret (false, iprh)
          else
            next ← lift (load 8 iprh IPRH_NEXT_PBUF);
            holes_loop fuel' iprh (ptr_dec next)
      end
  end.

(** The validation, when the last fragment has been received and [valid] is
    still 1. *)
Definition validate (ipr : rloc) (iprh : ptr) : prog stack bool :=
  b ← lift (rderef ipr);
  match r_p b with
  | None => mret false
  | Some p =>
      first ← lift (payload p);
      start ← lift (load 2 first IPRH_START);
      if negb (start =? 0) then mret false
      else
        next ← lift (load 8 iprh IPRH_NEXT_PBUF);
        s ← pget;
        '(valid, iprh) ← holes_loop (S (size (st_pbufs s))) iprh (ptr_dec next);
        if negb valid then mret false
        else
          passert (bool_decide (first ≠ iprh));;
          next ← lift (load 8 iprh IPRH_NEXT_PBUF);
          passert (bool_decide (ptr_dec next = None));;
          end_ ← lift (load 2 iprh IPRH_END);
          passert (end_ =? r_datagram_len b);;
          mret true
  end.

(** [len] and [offset] of a fragment from its header. *)
Definition frag_len (fraghdr : ptr) : prog stack Z :=
  len ← lift (load 2 fraghdr IPH_LEN);
  v_hl ← lift (load 1 fraghdr IPH_VHL);
  mret (u16 (lwip_ntohs len - Z.land v_hl 0x0f * 4)).
Definition frag_offset (fraghdr : ptr) : prog stack Z :=
  offset ← lift (load 2 fraghdr IPH_OFFSET);
  mret (u16 (Z.land (lwip_ntohs offset) IP_OFFMASK * 8)).

Definition ip_reass_chain_frag_into_datagram_and_validate (ipr : rloc) (new_p : loc)
    : prog stack bool :=
  fraghdr ← lift (payload new_p);
  len ← frag_len fraghdr;
  offset ← frag_offset fraghdr;
  passert (SIZEOF_IPRH <=? IP_HLEN);;
  let iprh := fraghdr in
  let end_ := u16 (offset + len) in
  lift (store 8 iprh IPRH_NEXT_PBUF (ptr_enc None));;
  lift (store 2 iprh IPRH_START offset);;
  lift (store 2 iprh IPRH_END end_);;
  b ← lift (rderef ipr);
  s ← pget;
  r ← place_loop (S (size (st_pbufs s))) ipr new_p iprh offset end_ (r_p b) None true;
  match r with
  | None =>
      clen ← lift (pbuf_clen (Some new_p));
      lift (count_add (- clen));;
      pfree new_p;;
      mret false
  | Some valid =>
      b ← lift (rderef ipr);
      if negb (Z.land (r_flags b) IP_REASS_FLAG_LASTFRAG =? 0) && valid
      then validate ipr iprh else mret false
  end.

(** ** Receiving a fragment *)

(** The search for the datagram of a fragment. *)
Fixpoint match_loop (fuel : nat) (fraghdr : ptr) (ipr : option rloc) : prog stack (option rloc) :=
  match ipr with
  | None => mret None
  | Some r =>
      match fuel with
      | O => pfault Hang
      | S fuel' =>
          b ← lift (rderef r);
          same ← ip_addresses_and_id_match (r_iphdr b) fraghdr;
          match same with
          | true => mret (Some r)
          | false => match_loop fuel' fraghdr (r_next b)
          end
      end
  end.

(** The datagram a fragment is for, a new one if there is none yet. *)
Definition datagram_of (fraghdr : ptr) (clen : Z) : prog stack (option rloc) :=
  rs ← lift (pget : prog reass_state reass_state);
  ipr ← match_loop (S (size (reass_structs rs))) fraghdr (reassdatagrams rs);
  match ipr with
  | None => ip_reass_enqueue_new_datagram fraghdr clen
  | Some r =>
      b ← lift (rderef r);
      offset ← lift (load 2 fraghdr IPH_OFFSET);
      (if (Z.land (lwip_ntohs offset) IP_OFFMASK =? 0)
          && negb (Z.land (lwip_ntohs (hdr_field 2 IPH_OFFSET (r_iphdr b))) IP_OFFMASK =? 0)
       then h ← lift (mread fraghdr 0 IP_HLEN); lift (rupdate r (with_iphdr h))
       else mret ());;
      mret (Some r)
  end.

(** The fragments behind the first one lose their header and join the chain. *)
Fixpoint cat_loop (fuel : nat) (p : loc) (r : option loc) : prog stack unit :=
  match r with
  | None => mret ()
  | Some r =>
      match fuel with
      | O => pfault Hang
      | S fuel' =>
          iprh ← lift (payload r);
          lift (pbuf_header (Some r) (- IP_HLEN));;
          lift (pbuf_cat (Some p) (Some r));;
          next ← lift (load 8 iprh IPRH_NEXT_PBUF);
          cat_loop fuel' p (ptr_dec next)
      end
  end.

(** The header is written back into the first fragment. *)
Definition put_header (fraghdr : ptr) (hdr : bytes) (len : Z) : prog stack unit :=
  lift (mwrite fraghdr 0 hdr);;
  lift (store 2 fraghdr IPH_LEN (lwip_htons len));;
  lift (store 2 fraghdr IPH_OFFSET 0);;
  lift (store 2 fraghdr IPH_CHKSUM 0);;
  chksum ← lift (inet_chksum_at fraghdr IP_HLEN);
  lift (store 2 fraghdr IPH_CHKSUM chksum).

(** All fragments are here: the datagram is put together. *)
Definition ip_reass_finish (ipr : rloc) : prog stack loc :=
  b ← lift (rderef ipr);
  let datagram_len := u16 (r_datagram_len b + IP_HLEN) in
  lift (rupdate ipr (with_datagram_len datagram_len));;
  p ← pderef (r_p b);
  fraghdr ← lift (payload p);
  r ← lift (load 8 fraghdr IPRH_NEXT_PBUF);
  put_header fraghdr (r_iphdr b) datagram_len;;
  s ← pget;
  cat_loop (S (size (st_pbufs s))) p (ptr_dec r);;
  prev ← lift (find_prev ipr);
  lift (ip_reass_dequeue_datagram ipr prev);;
  clen ← lift (pbuf_clen (Some p));
  lift (count_add (- clen));;
  mret p.

(** The fragment is accepted into a datagram. *)
Definition ip_reass_add (p : loc) (fraghdr : ptr) (offset len clen : Z) : prog stack (option loc) :=
  ipr ← datagram_of fraghdr clen;
  match ipr with
  | None => pfree p;; mret None
  | Some ipr =>
      lift (count_add clen);;
      off ← lift (load 2 fraghdr IPH_OFFSET);
      (if Z.land off (lwip_htons IP_MF) =? 0
       then lift (rupdate ipr (with_last (u16 (offset + len)))) else mret ());;
      valid ← ip_reass_chain_frag_into_datagram_and_validate ipr p;
      if negb valid then mret None
      else p ← ip_reass_finish ipr; mret (Some p)
  end.

(** Is there room for [clen] more pbufs, possibly after evicting datagrams? *)
Definition ip_reass_room (fraghdr : ptr) (clen : Z) : prog stack bool :=
  rs ← lift (pget : prog reass_state reass_state);
  if IP_REASS_MAX_PBUFS <? ip_reass_pbufcount rs + clen then
    freed ← ip_reass_remove_oldest_datagram fraghdr clen;
    rs ← lift (pget : prog reass_state reass_state);
    mret (negb (freed =? 0) && (ip_reass_pbufcount rs + clen <=? IP_REASS_MAX_PBUFS))
  else mret true.

Definition ip_reass (p : loc) : prog stack (option loc) :=
  fraghdr ← lift (payload p);
  v_hl ← lift (load 1 fraghdr IPH_VHL);
  if negb (Z.land v_hl 0x0f * 4 =? IP_HLEN) then pfree p;; mret None
  else
    offset ← frag_offset fraghdr;
    len ← frag_len fraghdr;
    clen ← lift (pbuf_clen (Some p));
    room ← ip_reass_room fraghdr clen;
    if negb room then pfree p;; mret None
    else ip_reass_add p fraghdr offset len clen.

End ip_reass.
End IpReass.
