(* ===== verification/IpFrag.v ===== *)
(** * Fragmentation of IP datagrams: [lwip/src/core/ipv4/ip_frag.c]

    A packet larger than the MTU is cut into fragments.  Each is a pbuf for the
    headers followed by custom pbufs that refer to the memory of the packet and
    hold a reference to the pbuf they point into, which is released when they
    are freed.  What a custom pbuf refers to is not written through it, so its
    memory is the bytes it refers to. *)

From S2P Require Import Prelude Def Ip4Addr InetChksum Netif Udp Pbuf Stack Ip4 Icmp.

Module IpFrag.
Import Def Ip4Addr InetChksum Netif Udp Pbuf Stack Ip4 Icmp.

(** [sizeof(struct pbuf_custom_ref)] on a 64-bit machine. *)
Definition SIZEOF_PBUF_CUSTOM_REF : Z := 40.

(** ** The custom pbufs *)

(** What is stored in a custom pbuf: [ipfrag_free_pbuf_custom] together with
    the field [original] of the [struct pbuf_custom_ref], or a function of the
    application. *)
Inductive custom_fn (CF : Type) :=
  | IpfragFree (original : option loc)
  | OtherFree (f : CF).
Arguments IpfragFree {CF}.
Arguments OtherFree {CF}.

Section custom.
Context {CF : Type}.
Abbreviation heap := (heap CF).
Context (custom_free : CF → loc → prog heap unit).

Definition ipfrag_free_pbuf_custom (original : option loc) (pcr : loc) : prog heap unit :=
  match original with
  | Some q => pbuf_free custom_free (Some q);; mret ()
  | None => mret ()
  end;;
  pmodify (delete pcr).

End custom.

(** Freeing a custom pbuf can free the pbuf it refers to, which can be custom
    as well; [fuel] is how deep that goes. *)
Fixpoint frag_custom_free {CF} (other : CF → loc → prog (heap (custom_fn CF)) unit) (fuel : nat)
    (f : custom_fn CF) (l : loc) : prog (heap (custom_fn CF)) unit :=
  match f with
  | OtherFree g => other g l
  | IpfragFree original =>
      match fuel with
      | O => pfault Hang
      | S fuel' => ipfrag_free_pbuf_custom (frag_custom_free other fuel') original l
      end
  end.

(** ** Cutting a packet *)

Section ip_frag.
Context {CF F A X : Type}.
Abbreviation stack := (stack (custom_fn CF) F A X).
Abbreviation heap := (heap (custom_fn CF)).
Context (custom_free : custom_fn CF → loc → prog heap unit).
Context (mem_avail : heap → Z → bool) (garbage : heap → nat → Z).
Context (output : netif_loc → loc → Z → prog stack err_t).

Abbreviation pfree := (pfree custom_free (F := F) (A := A) (X := X)).

(** The struct is an object of the heap once it is set up as a pbuf. *)
Definition ip_frag_alloc_pbuf_custom_ref : prog heap (option loc) :=
  h ← pget;
  mret (if mem_avail h SIZEOF_PBUF_CUSTOM_REF then Some (fresh (dom h)) else None).

(** The pbufs that refer to the next [left_to_copy] bytes from [p] on, added
    to the chain of [rambuf]: the last pbuf referred to and [newpbuflen], or
    [None] when memory ran out.  Every turn moves on to the next pbuf. *)
Fixpoint mirror_loop (fuel : nat) (rambuf : loc) (p : option loc) (left_to_copy newpbuflen : Z)
    : prog stack (option (option loc * Z)) :=
  if left_to_copy =? 0 then mret (Some (p, newpbuflen))
  else
    match fuel with
    | O => pfault Hang
    | S fuel' =>
        q ← pderef p;
        b ← lift (deref q);
        let newpbuflen := if left_to_copy <? p_len b then left_to_copy else p_len b in
        if newpbuflen =? 0 then mirror_loop fuel' rambuf (p_next b) left_to_copy newpbuflen
        else
          pcr ← lift ip_frag_alloc_pbuf_custom_ref;
          match pcr with
          | None => pfree rambuf;; mret None
          | Some pcr =>
              d ← lift (mread (q, p_payload b) 0 newpbuflen);
              newpbuf ← lift (pbuf_alloced_custom PBUF_RAW newpbuflen PBUF_REF pcr
                                (IpfragFree (Some q)) d);
              match newpbuf with
              | None => pfree rambuf;; mret None
              | Some newpbuf =>
                  lift (pbuf_ref (Some q));;
                  lift (pbuf_cat (Some rambuf) (Some newpbuf));;
                  let left_to_copy := u16 (left_to_copy - newpbuflen) in
                  if left_to_copy =? 0 then mret (Some (Some q, newpbuflen))
                  else mirror_loop fuel' rambuf (p_next b) left_to_copy newpbuflen
              end
          end
    end.

(** The header of a fragment. *)
Definition frag_header (iphdr : ptr) (tmp cop : Z) : prog stack unit :=
  lift (store 2 iphdr IPH_OFFSET (lwip_htons tmp));;
  lift (store 2 iphdr IPH_LEN (lwip_htons (u16 (cop + IP_HLEN))));;
  lift (store 2 iphdr IPH_CHKSUM 0);;
  chksum ← lift (inet_chksum_at iphdr IP_HLEN);
  lift (store 2 iphdr IPH_CHKSUM chksum).

(** A fragment of [cop] bytes: the pbuf for its headers, the pbuf its data ends
    in and [newpbuflen]; [None] when memory ran out. *)
Definition make_fragment (original_iphdr : ptr) (p : option loc) (poff cop tmp newpbuflen : Z)
    : prog stack (option (loc * option loc * Z)) :=
  rambuf ← lift (pbuf_alloc custom_free mem_avail garbage PBUF_LINK IP_HLEN PBUF_RAM);
  match rambuf with
  | None => mret None
  | Some rambuf =>
      q ← pderef p;
      b ← lift (deref q);
      passert (IP_HLEN <=? p_len b);;
      iphdr ← lift (payload rambuf);
      d ← lift (mread original_iphdr 0 IP_HLEN);
      lift (mwrite iphdr 0 d);;
      lift (update q (λ b, with_len (u16 (p_len b - poff)) (with_payload (p_payload b + poff) b)));;
      s ← pget;
      r ← mirror_loop (S (size (st_pbufs s))) rambuf p cop newpbuflen;
      match r with
      | None => mret None
      | Some (p, newpbuflen) =>
          frag_header iphdr tmp cop;;
          mret (Some (rambuf, p, newpbuflen))
      end
  end.

(** The [while (left)] loop.  [p] and [poff] say where the data not yet sent
    begins, [ofo] its offset in units of 8 bytes; [original_iphdr] is the
    header of the packet. *)
Fixpoint frag_loop (fuel : nat) (netif : netif_loc) (dest : Z) (original_iphdr : ptr)
    (mtu nfb omf : Z) (p : option loc) (poff left ofo newpbuflen : Z) : prog stack err_t :=
  if left =? 0 then mret ERR_OK
  else
    match fuel with
    | O => pfault Hang
    | S fuel' =>
        let last := left <=? mtu - IP_HLEN in
        let tmp := Z.lor omf (Z.land IP_OFFMASK ofo) in
        let tmp := if last then tmp else Z.lor tmp IP_MF in
        let cop := if last then left else u16 (nfb * 8) in
        r ← make_fragment original_iphdr p poff cop tmp newpbuflen;
        match r with
        | None => mret ERR_MEM
        | Some (rambuf, p, newpbuflen) =>
            output netif rambuf dest;;
            pfree rambuf;;
            frag_loop fuel' netif dest original_iphdr mtu nfb omf p newpbuflen
              (u16 (left - cop)) (u16 (ofo + nfb)) newpbuflen
        end
    end.

Definition ip_frag (netif : netif_loc) (p : loc) (dest : Z) : prog stack err_t :=
  n ← lift (nderef netif);
  original_iphdr ← lift (payload p);
  offset ← lift (load 2 original_iphdr IPH_OFFSET);
  let tmp := lwip_ntohs offset in
  let ofo := Z.land tmp IP_OFFMASK in
  let omf := Z.land tmp IP_MF in
  b ← lift (deref p);
  let left := u16 (p_tot_len b - IP_HLEN) in
  (* [/] of C truncates towards zero *)
  let nfb := u16 (Z.quot (nif_mtu n - IP_HLEN) 8) in
  (* each fragment carries at least 8 bytes, unless the MTU is below 28 *)
  frag_loop (Z.to_nat left) netif dest original_iphdr (nif_mtu n) nfb omf (Some p) IP_HLEN left
    ofo 0.

End ip_frag.
End IpFrag.
