(* ===== verification/IpFragRuns.v ===== *)
(** * Runs of fragmentation and reassembly

    A stack with one interface, 10.0.0.1, that receives packets the way
    [lwip_data_cb] does (a pool pbuf without room for a link header) and keeps
    what it sends, with the reassembly and the fragmentation of [IpReass] and
    [IpFrag] behind [ip_input]. *)

From S2P Require Import Prelude Def Ip4Addr InetChksum Netif Udp Pbuf Stack Ip4 Ip4Props Icmp UdpIo.
From S2P Require Import Ip4Input IpReass IpFrag.

Module IpFragRuns.
Import Def Ip4Addr InetChksum Netif Udp Pbuf Stack Ip4 Ip4Props Icmp UdpIo Ip4Input IpReass IpFrag.

(** What [ip_dispatch] gets is left to a TCP that keeps the packet. *)
Abbreviation run_fn := (custom_fn unit).
Abbreviation wire := (stack run_fn unit unit (reass_state * (list bytes * list bytes))).

Definition run_free : run_fn → loc → prog (heap run_fn) unit :=
  frag_custom_free (λ _ _, pfault Wild) 8.
Definition run_avail : heap run_fn → Z → bool := λ _ _, true.
Definition run_garbage : heap run_fn → nat → Z := λ _ _, 170.

Definition chain_bytes (p : loc) : prog (heap run_fn) bytes :=
  c ← chain_of p; mret (concat (snd <$> c)).
Definition run_output : netif_loc → loc → Z → prog wire err_t := λ _ p _,
  d ← lift (chain_bytes p);
  pmodify (λ s, set_rest (fst (st_rest s), ((snd (st_rest s)).1 ++ [d], (snd (st_rest s)).2)) s);;
  mret ERR_OK.
Definition run_ip_frag : netif_loc → loc → Z → prog wire err_t :=
  ip_frag run_free run_avail run_garbage run_output.
Definition run_tcp : loc → netif_loc → prog wire unit := λ p _,
  d ← lift (chain_bytes p);
  pmodify (λ s, set_rest (fst (st_rest s), ((snd (st_rest s)).1, (snd (st_rest s)).2 ++ [d])) s);;
  pfree run_free p.
Definition run_reass : loc → prog wire (option loc) :=
  ip_reass run_free run_avail run_garbage run_output run_ip_frag (λ _, true).
Definition run_input : loc → netif_loc → prog wire unit :=
  ip_input run_free run_avail run_garbage run_output run_ip_frag (λ _ _ _ _ _ _, mret ())
    run_reass run_tcp.

(** [lwip_data_cb] for one packet. *)
Definition run_packet (d : bytes) : prog wire unit :=
  p ← lift (pbuf_alloc run_free run_avail run_garbage PBUF_RAW (zlen d) PBUF_POOL);
  match p with
  | None => mret ()
  | Some p => lift (pbuf_take (Some p) d (zlen d));; run_input p 1%positive
  end.
Fixpoint run_packets (l : list bytes) : prog wire unit :=
  match l with [] => mret () | d :: l' => run_packet d;; run_packets l' end.

Definition run_start (mtu : Z) : wire :=
  mk_stack ∅
    (mk_netif_state {[1%positive := mk_netif 0x0100000a 0x00ffffff 0 mtu NETIF_FLAG_UP
                                      [117; 110] 0]} [1%positive] (Some 1%positive) 1)
    udp_init 9 (mk_ip_globals None None 0 0 0) (mk_reass_state ∅ None 0, ([], [])).

(** What was sent and what TCP got, or how the program died. *)
Definition run (mtu : Z) (l : list bytes) : fault + (list bytes * list bytes) :=
  match run_packets l (run_start mtu) with
  | inl f => inl f
  | inr (_, s) => inr (snd (st_rest s))
  end.

(** A fragment from 10.0.0.2: identification, offset in bytes, more
    fragments, data; the checksum of its header is right. *)
Definition fragment (id offset : Z) (more : bool) (proto : Z) (d : bytes) : bytes :=
  let off := offset / 8 + (if more then IP_MF else 0) in
  let h c := [69; 0; 0; 20 + zlen d; 0; id; off / 256; off mod 256; 64; proto] ++ le_bytes 2 c
             ++ [10; 0; 0; 2; 10; 0; 0; 1] in
  h (inet_chksum false (h 0)) ++ d.

Abbreviation f8 := (λ id offset more x, fragment id offset more IP_PROTO_TCP (replicate 8 x)).

(** What TCP was given. *)
Definition delivered (r : fault + (list bytes * list bytes)) : fault + list bytes :=
  match r with inl f => inl f | inr (_, t) => inr t end.

(** Three fragments, in several orders. *)
Lemma run_orders :
  let a := f8 7 0 true 1 in let b := f8 7 8 true 2 in let c := f8 7 16 false 3 in
  let whole := inr [replicate 8 1 ++ replicate 8 2 ++ replicate 8 3] in
  delivered (run 1500 [a; b; c]) = whole ∧ delivered (run 1500 [b; a; c]) = whole ∧
  delivered (run 1500 [c; b; a]) = whole ∧ delivered (run 1500 [c; a; b]) = whole.
Proof. vm_compute. split_and!; reflexivity. Qed.

(** A repeated fragment is thrown away. *)
Lemma run_repeated :
  let a := f8 7 0 true 1 in let b := f8 7 8 true 2 in let c := f8 7 16 false 3 in
  delivered (run 1500 [a; a; b; a; b; c]) = inr [replicate 8 1 ++ replicate 8 2 ++ replicate 8 3].
Proof. vm_compute. reflexivity. Qed.

(** A datagram with a hole is delivered: when a fragment is put between
    two others, only the gap to the one that follows it is looked at, so the
    fragments [0, 8), [24, 32) (the last one) and [16, 24), in this order, are
    taken for a complete datagram although the bytes [8, 16) never came, and
    TCP gets the 24 bytes that did. *)
Theorem ip_reass_delivers_hole :
  delivered (run 1500 [f8 7 0 true 1; f8 7 24 false 3; f8 7 16 true 2])
  = inr [replicate 8 1 ++ replicate 8 2 ++ replicate 8 3].
Proof. vm_compute. reflexivity. Qed.


(** Twelve packets end the process: when the limit on pbufs makes
    [ip_reass_remove_oldest_datagram] throw a datagram away, the entry it takes
    for the predecessor is not the one in front of the oldest, and an assertion
    in [ip_reass_free_complete_datagram] or [ip_reass_dequeue_datagram] fails. *)
Theorem ip_reass_eviction_aborts :
  run 1500 (f8 1 8 true 1 :: f8 2 8 true 2
            :: ((λ i, f8 1 (8 * Z.of_nat i) true 1) <$> seq 2 10)) = inl Abort.
Proof. vm_compute. reflexivity. Qed.

End IpFragRuns.
