(* ===== verification/IpReassQueue.v ===== *)
(** * The fragments of a datagram

    What the bytes of the packets queued for a datagram mean: a list of ranges
    with their data, linked through the helper structs.  [place] is the
    insertion of a fragment on such lists; the loop of
    [ip_reass_chain_frag_into_datagram_and_validate] refines it. *)

From S2P Require Import Prelude Def Ip4Addr InetChksum Netif Udp Pbuf Linked PbufChain PbufOps Stack.
From S2P Require Import StackMem Ip4 Icmp IpReass.

Module IpReassQueue.
Import Def Ip4Addr InetChksum Netif Udp Pbuf Linked PbufChain PbufOps Stack StackMem Ip4 Icmp IpReass.

(** A queued fragment: its pbufs, the offset of its helper struct in the first
    one, the bytes of the datagram it covers, and these bytes. *)
Record frag := mk_frag {
  f_loc : loc;
  f_pay : Z;
  f_tail : list loc;
  f_start : Z;
  f_end : Z;
  f_data : bytes
}.

Definition f_ptr (f : frag) : ptr := (f_loc f, f_pay f).
Definition f_locs (f : frag) : list loc := f_loc f :: f_tail f.
Definition locs_of (fs : list frag) : list loc := concat (f_locs <$> fs).
Definition head_or (fs : list frag) (e : option loc) : option loc :=
  match fs with [] => e | f :: _ => Some (f_loc f) end.
Abbreviation head_loc fs := (head_or fs None).

(** ** Insertion *)

(** The list behind [prev] with the new fragment in it, and [valid]; [None]
    when the fragment is thrown away. *)
Fixpoint place (f : frag) (prev : option frag) (valid : bool) (fs : list frag)
    : option (list frag * bool) :=
  match fs with
  | [] =>
      Some ([f], match prev with
                 | Some g => if f_end g =? f_start f then valid else false
                 | None => valid
                 end)
  | t :: fs' =>
      if f_start f <? f_start t then
        match prev with
        | Some g =>
            if (f_start f <? f_end g) || (f_start t <? f_end f) then None
            else Some (f :: t :: fs', valid)
        | None => Some (f :: t :: fs', valid)
        end
      else if f_start f =? f_start t then None
      else if f_start f <? f_end t then None
      else
        let hole := match prev with
                    | Some g => negb (f_end g =? f_start t)
                    | None => false
                    end in
        '(l, v) ← place f (Some t) (valid && negb hole) fs'; Some (t :: l, v)
  end.

(** ** Fragments in memory *)

Definition helper (next : option loc) (start end_ : Z) : bytes :=
  le_bytes 8 (ptr_enc next) ++ le_bytes 2 start ++ le_bytes 2 end_.

(** An address of this machine. *)
Definition addr_ok (p : option loc) : Prop := ptr_enc p < 2 ^ 64.

Section frags.
Context {CF : Type}.
Abbreviation heap := (heap CF).
Implicit Type h : heap.

Definition frag_at h (next : option loc) (f : frag) : Prop :=
  ∃ b ls pad,
    chain_at h (Some (f_loc f)) ((f_loc f, b) :: ls) ∧ chain_wf ((f_loc f, b) :: ls) ∧
    Forall (λ x, plain (snd x)) ((f_loc f, b) :: ls) ∧
    p_payload b = f_pay f ∧ ls.*1 = f_tail f ∧ 20 ≤ p_len b ∧ length pad = 8%nat ∧
    data ((f_loc f, b) :: ls) = helper next (f_start f) (f_end f) ++ pad ++ f_data f ∧
    is_u16 (f_start f) ∧ is_u16 (f_end f) ∧ addr_ok next ∧ addr_ok (Some (f_loc f)).

(** Each is linked to the next one, the last one to [e]. *)
Fixpoint frags_to h (fs : list frag) (e : option loc) : Prop :=
  match fs with
  | [] => True
  | f :: fs' => frag_at h (head_or fs' e) f ∧ frags_to h fs' e
  end.
Definition frags_at h (fs : list frag) : Prop := frags_to h fs None.

Lemma head_or_app a b e : head_or (a ++ b) e = head_or a (head_or b e).
Proof. by destruct a. Qed.

Lemma frags_to_app h a b e :
  frags_to h (a ++ b) e ↔ frags_to h a (head_or b e) ∧ frags_to h b e.
Proof.
  induction a as [|f a IH]; simpl; [tauto|]. rewrite head_or_app, IH. tauto.
Qed.

Lemma frag_at_agree h h' next f :
  frag_at h next f → (∀ l, l ∈ f_locs f → h' !! l = h !! l) → frag_at h' next f.
Proof.
  intros (b & ls & pad & Hc & Hwf & Hp & Hpay & Htl & H) Hag. exists b, ls, pad.
  split_and!; try done; try apply H. eapply linked_agree; [done|]. intros l Hl. apply Hag.
  unfold f_locs. by rewrite <-Htl.
Qed.

Lemma frags_to_agree h h' fs e :
  frags_to h fs e → (∀ l, l ∈ locs_of fs → h' !! l = h !! l) → frags_to h' fs e.
Proof.
  induction fs as [|f fs IH]; [done|]. intros [Hf Hfs] Hag. split.
  - eapply frag_at_agree; [done|]. intros l Hl. apply Hag, elem_of_app. by left.
  - apply IH; [done|]. intros l Hl. apply Hag, elem_of_app. by right.
Qed.

(** The head pbuf of a fragment and its first bytes. *)
Lemma frag_at_head h next f :
  frag_at h next f →
  ∃ b, h !! f_loc f = Some b ∧ pbuf_ok b ∧ p_payload b = f_pay f ∧ 20 ≤ p_len b ∧
    take 12 (pdata b) = helper next (f_start f) (f_end f).
Proof.
  intros (b & ls & pad & Hc & Hwf & _ & Hpay & _ & Hlen & _ & Hd & _).
  exists b. inversion Hc; subst. destruct Hwf as (Hok & _). split_and!; try done.
  assert (E := f_equal (take 12) Hd). rewrite data_cons in E.
  rewrite !take_app_le in E; [|done|pose proof (zlen_pdata b Hok); unfold zlen in *; lia]. done.
Qed.

Lemma frag_at_addr h next f : frag_at h next f → addr_ok (Some (f_loc f)).
Proof. by intros (? & ? & ? & _ & _ & _ & _ & _ & _ & _ & _ & _ & _ & _ & ?). Qed.

Lemma length_helper next s e : length (helper next s e) = 12%nat.
Proof. unfold helper. by rewrite !length_app, !length_le_bytes. Qed.

(** Linking a fragment to another one. *)
Definition relinked h (f : frag) (next : option loc) : heap :=
  match h !! f_loc f with
  | Some b => <[f_loc f:=written 0 (le_bytes 8 (ptr_enc next)) b]> h
  | None => h
  end.

Lemma relinked_other h f next l : l ≠ f_loc f → relinked h f next !! l = h !! l.
Proof. intros. unfold relinked. case_match; [by rewrite lookup_insert_ne|done]. Qed.

Lemma helper_splice next next' s e rest :
  splice 0 (le_bytes 8 (ptr_enc next')) (helper next s e ++ rest) = helper next' s e ++ rest.
Proof.
  unfold splice, helper. rewrite take_0, length_le_bytes, <-!app_assoc, Nat.add_0_l.
  rewrite drop_app_ge by (by rewrite length_le_bytes). by rewrite length_le_bytes.
Qed.

Lemma relinked_at h f next next' :
  frag_at h next f → addr_ok next' → frag_at (relinked h f next') next' f.
Proof.
  intros (b & ls & pad & Hc & Hwf & Hp & Hpay & Htl & Hlen & Hpad & Hd & Hs & He & _ & Hown) Ha.
  unfold relinked. inversion Hc as [|? ? ? E Hc']; subst. rewrite E.
  set (b' := written _ _ b). destruct Hwf as (Hok & Hr & Ht & Hlt & Hwf).
  destruct (written_ok 0 (le_bytes 8 (ptr_enc next')) b) as [Hok' Hd'];
    [done|lia|unfold zlen; rewrite length_le_bytes; lia|].
  assert (Hdata : data ((f_loc f, b') :: ls)
                  = helper next' (f_start f) (f_end f) ++ pad ++ f_data f).
  { rewrite data_cons in *. unfold b'. rewrite Hd'. change (Z.to_nat 0) with 0%nat.
    rewrite <-splice_app_l, Hd by (rewrite length_le_bytes; pose proof (zlen_pdata b Hok);
      unfold zlen in *; lia). apply helper_splice. }
  exists b', ls, pad. split_and!; try done; [by eapply chain_update_head|..].
  - refine (conj Hok' (conj Hr (conj _ (conj Hlt Hwf)))).
    change (p_tot_len b = zlen (data ((f_loc f, b') :: ls))).
    rewrite Ht, Hdata, Hd. unfold zlen. by rewrite !length_app, !length_helper.
  - inversion Hp; subst. by constructor.
Qed.

Lemma locs_of_app a b : locs_of (a ++ b) = locs_of a ++ locs_of b.
Proof. unfold locs_of. by rewrite fmap_app, concat_app. Qed.

(** A fragment whose pbufs are not among [fs]. *)
Definition apart (f : frag) (fs : list frag) : Prop := ∀ l, l ∈ f_locs f → l ∉ locs_of fs.

Lemma locs_of_cons f fs : locs_of (f :: fs) = f_locs f ++ locs_of fs.
Proof. done. Qed.

Lemma locs_of_1 g : locs_of [g] = f_locs g.
Proof. unfold locs_of. cbn [fmap list_fmap map concat]. apply app_nil_r. Qed.

Lemma apart_app f a b : apart f (a ++ b) ↔ apart f a ∧ apart f b.
Proof.
  unfold apart. rewrite locs_of_app. setoid_rewrite not_elem_of_app. firstorder.
Qed.

Lemma apart_sym f g : apart f [g] → apart g [f].
Proof. unfold apart. rewrite !locs_of_1. intros H l Hl Hl'. by eapply H. Qed.

Lemma nodup_apart fs g : NoDup (locs_of (fs ++ [g])) → apart g fs.
Proof.
  rewrite locs_of_app, locs_of_1. intros (_ & H & _)%list.NoDup_app l Hl Hl'. by eapply H.
Qed.

Lemma apart_loc f fs l : apart f fs → l ∈ locs_of fs → l ≠ f_loc f.
Proof. intros H Hl ->. by eapply H; [left|]. Qed.

Lemma relinked_apart h f next fs e :
  frags_to h fs e → apart f fs → frags_to (relinked h f next) fs e.
Proof.
  intros Hf Ha. eapply frags_to_agree; [done|]. intros l Hl.
  by apply relinked_other, (apart_loc f fs).
Qed.

Lemma relinked_apart1 h f next g next' :
  frag_at h next' g → apart f [g] → frag_at (relinked h f next) next' g.
Proof.
  intros Hf Ha. by apply (relinked_apart h f next [g] next').
Qed.

(** The last fragment of a list is linked to something else. *)
Lemma relinked_last h fs g e e' :
  frags_to h (fs ++ [g]) e → apart g fs → addr_ok e' →
  frags_to (relinked h g e') (fs ++ [g]) e'.
Proof.
  intros [Hfs [Hg _]]%frags_to_app Ha Hok. apply frags_to_app. split.
  - by apply relinked_apart.
  - split; [|done]. by eapply relinked_at.
Qed.

End frags.

Section stack.
Context {CF F A X : Type}.
Abbreviation stack := (stack CF F A X).
Implicit Type s : stack.

Lemma bind_frag_payload {B} s next f (k : ptr → prog stack B) :
  frag_at (st_pbufs s) next f → (lift (payload (f_loc f)) ≫= k) s = k (f_ptr f) s.
Proof.
  intros (b & E & _ & Hp & _)%frag_at_head. rewrite (bind_lift_payload _ _ _ _ E).
  by unfold f_ptr; rewrite <-Hp.
Qed.

(** The fields of the helper struct. *)
Lemma bind_frag_load {B} n s next f off (k : Z → prog stack B) :
  frag_at (st_pbufs s) next f → 0 ≤ off → off + Z.of_nat n ≤ 12 →
  (lift (load n (f_ptr f) off) ≫= k) s
  = k (le_load (take n (drop (Z.to_nat off) (helper next (f_start f) (f_end f))))) s.
Proof.
  intros (b & E & Hok & Hp & Hl & Hh)%frag_at_head Ho Hn. unfold f_ptr. rewrite <-Hp.
  rewrite (bind_load_hdr n s _ b b) by (done || lia). f_equal. f_equal.
  rewrite <-Hh, skipn_firstn_comm, take_take. f_equal. lia.
Qed.

Lemma bind_load_next {B} s next f (k : Z → prog stack B) :
  frag_at (st_pbufs s) next f →
  (lift (load 8 (f_ptr f) IPRH_NEXT_PBUF) ≫= k) s = k (ptr_enc next) s.
Proof.
  intros H. rewrite (bind_frag_load 8 s next f _ _ H) by (unfold IPRH_NEXT_PBUF; lia).
  unfold helper. rewrite drop_0, take_app_le, take_ge by (by rewrite length_le_bytes).
  rewrite le_load_bytes, Z.mod_small; [done|].
  destruct H as (? & ? & ? & _ & _ & _ & _ & _ & _ & _ & _ & _ & _ & Ha & _).
  unfold addr_ok in Ha. change (256 ^ Z.of_nat 8) with (2 ^ 64). by destruct next; simpl in *.
Qed.

Lemma bind_load_start {B} s next f (k : Z → prog stack B) :
  frag_at (st_pbufs s) next f →
  (lift (load 2 (f_ptr f) IPRH_START) ≫= k) s = k (f_start f) s.
Proof.
  intros H. rewrite (bind_frag_load 2 s next f _ _ H) by (unfold IPRH_START; lia).
  unfold helper, IPRH_START. rewrite drop_app_ge by (by rewrite length_le_bytes).
  rewrite length_le_bytes. change (Z.to_nat 8 - 8)%nat with 0%nat.
  rewrite drop_0, take_app_le, take_ge by (by rewrite length_le_bytes).
  destruct H as (? & ? & ? & _ & _ & _ & _ & _ & _ & _ & _ & Hs & _).
  by rewrite le_load_bytes, Z.mod_small by apply Hs.
Qed.

Lemma bind_load_end {B} s next f (k : Z → prog stack B) :
  frag_at (st_pbufs s) next f →
  (lift (load 2 (f_ptr f) IPRH_END) ≫= k) s = k (f_end f) s.
Proof.
  intros H. rewrite (bind_frag_load 2 s next f _ _ H) by (unfold IPRH_END; lia).
  unfold helper, IPRH_END. rewrite drop_app_ge by (rewrite length_le_bytes; lia).
  rewrite length_le_bytes. change (Z.to_nat 10 - 8)%nat with 2%nat.
  rewrite drop_app_ge, length_le_bytes by (by rewrite length_le_bytes).
  change (2 - 2)%nat with 0%nat. rewrite drop_0, take_ge by (by rewrite length_le_bytes).
  destruct H as (? & ? & ? & _ & _ & _ & _ & _ & _ & _ & _ & _ & He & _).
  by rewrite le_load_bytes, Z.mod_small by apply He.
Qed.

Lemma bind_store_next {B} s next next' f (k : unit → prog stack B) :
  frag_at (st_pbufs s) next f →
  (lift (store 8 (f_ptr f) IPRH_NEXT_PBUF (ptr_enc next')) ≫= k) s
  = k tt (set_pbufs (relinked (st_pbufs s) f next') s).
Proof.
  intros (b & E & Hok & Hp & Hl & _)%frag_at_head. apply bind_ret.
  erewrite lift_ret; [done|]. unfold store, mwrite, f_ptr, relinked. cbn [fst snd].
  rewrite (bind_pb _ _ _ _ E), E, <-Hp. destruct Hok as (? & ? & ?).
  unfold zlen in *. rewrite length_le_bytes. unfold IPRH_NEXT_PBUF.
  rewrite (proj2 (Z.leb_le 0 _)), (proj2 (Z.leb_le (_ + _ + _) _)) by lia. cbn [andb].
  by rewrite (update_eq _ _ _ _ E).
Qed.

End stack.

(** ** The loop *)

Section place.
Context {CF F A X : Type} `{HL : Lens X reass_state}.
Abbreviation stack := (stack CF F A X).
Implicit Type s : stack.

(** The state [s] with the pbufs [h], in which the queue of the datagram [b]
    at [r] begins with [p]. *)
Definition at_queue s (r : rloc) (b : ip_reassdata) (h : heap CF) (p : option loc) : stack :=
  lput (set_structs (<[r:=with_rp p b]> (reass_structs (lget s))) (lget s)) (set_pbufs h s).

Lemma bind_rderef {B} s r b (k : ip_reassdata → prog stack B) :
  reass_structs (lget s) !! r = Some b → (lift (rderef r) ≫= k) s = k b s.
Proof. intros E. apply bind_lift_same. unfold rderef. rewrite bind_get. by rewrite E. Qed.

Lemma bind_rupdate {B} s r b f (k : unit → prog stack B) :
  reass_structs (lget s) !! r = Some b →
  (lift (rupdate r f) ≫= k) s
  = k tt (lput (set_structs (<[r:=f b]> (reass_structs (lget s))) (lget s)) s).
Proof.
  intros E. apply bind_ret, lift_ret. unfold rupdate, rderef. by rewrite bind_assoc_get, E.
Qed.

Lemma at_queue_lookup s r b h p :
  reass_structs (lget (at_queue s r b h p)) !! r = Some (with_rp p b).
Proof. unfold at_queue. rewrite lget_lput. apply lookup_insert_eq. Qed.

Lemma bind_rderef_at {B} s r b h p (k : ip_reassdata → prog stack B) :
  (lift (rderef r) ≫= k) (at_queue s r b h p) = k (with_rp p b) (at_queue s r b h p).
Proof. apply bind_rderef, at_queue_lookup. Qed.

Lemma bind_with_rp_at {B} s r b h p p' (k : unit → prog stack B) :
  (lift (rupdate r (with_rp p')) ≫= k) (at_queue s r b h p) = k tt (at_queue s r b h p').
Proof.
  rewrite (bind_rupdate _ _ _ _ _ (at_queue_lookup s r b h p)). f_equal.
  unfold at_queue. rewrite lget_lput, lput_lput. cbn [reass_structs set_structs].
  unfold set_structs. cbn. by rewrite insert_insert_eq.
Qed.

Lemma bind_link_at {B} s r b h p next next' f (k : unit → prog stack B) :
  frag_at h next f →
  (lift (store 8 (f_ptr f) IPRH_NEXT_PBUF (ptr_enc next')) ≫= k) (at_queue s r b h p)
  = k tt (at_queue s r b (relinked h f next') p).
Proof. intros H. by rewrite (bind_store_next (at_queue s r b h p) next next' f k H). Qed.

(** The end of the list is reached. *)
Lemma place_last_eq s r b h f pre valid :
  frag_at h None f → frags_at h pre → apart f pre →
  NoDup (locs_of pre) → (∀ g, list.last pre = Some g → f_end g ≤ f_start f) →
  ∃ h', place_last r (f_loc f) (f_start f) (f_ptr <$> list.last pre) valid
          (at_queue s r b h (head_loc pre))
    = inr (match list.last pre with
           | Some g => if f_end g =? f_start f then valid else false
           | None => valid
           end, at_queue s r b h' (head_loc (pre ++ [f]))) ∧
    frags_at h' (pre ++ [f]) ∧ ∀ l, l ∉ locs_of pre → h' !! l = h !! l.
Proof.
  intros Hf Hpre Ha Hnd Hend. pose proof (frag_at_addr _ _ _ Hf) as Hok.
  destruct pre as [|g pre _] using rev_ind.
  - exists h. split_and!; [|done|done]. cbn [list.last fmap option_fmap option_map head_or app].
    unfold place_last.
    rewrite bind_rderef_at. rewrite bind_assert by done. by rewrite bind_with_rp_at.
  - rewrite last_snoc in *. specialize (Hend g eq_refl). cbn [fmap option_fmap option_map].
    exists (relinked h g (Some (f_loc f))). unfold place_last.
    pose proof Hpre as [Hpre0 [Hg _]]%frags_to_app.
    rewrite (bind_load_end (at_queue s r b h _) _ g _ Hg).
    rewrite bind_assert by (by apply Z.leb_le). rewrite (bind_link_at _ _ _ _ _ _ _ _ _ Hg).
    apply apart_app in Ha as [_ Ha]. split_and!.
    + by rewrite !head_or_app.
    + apply frags_to_app. split; [|split; [|done]].
      * eapply relinked_last; [done|by apply nodup_apart|done].
      * by apply relinked_apart1, apart_sym.
    + intros l Hl. apply relinked_other. intros ->. apply Hl. rewrite locs_of_app, locs_of_1.
      apply elem_of_app. right. left.
Qed.

(** The fragment goes in front of [t]. *)
Lemma place_here_eq s r b h f pre t fs (valid : bool) :
  frag_at h None f → frags_at h (pre ++ t :: fs) → apart f (pre ++ t :: fs) →
  NoDup (locs_of (pre ++ t :: fs)) →
  ∃ h', (frags_at h' (pre ++ f :: t :: fs)
         ∧ ∀ l, l ≠ f_loc f → l ∉ locs_of pre → h' !! l = h !! l) ∧
    at_queue s r b h' (head_loc (pre ++ f :: t :: fs))
    = match list.last pre with
      | Some g => at_queue s r b (relinked (relinked h f (Some (f_loc t))) g (Some (f_loc f)))
                    (head_loc (pre ++ t :: fs))
      | None => at_queue s r b (relinked h f (Some (f_loc t))) (Some (f_loc f))
      end.
Proof.
  intros Hf Hfs Ha Hnd. pose proof (frag_at_addr _ _ _ Hf) as Hok.
  assert (Hokt : addr_ok (Some (f_loc t))).
  { pose proof Hfs as [_ [Ht _]]%frags_to_app. by eapply frag_at_addr. }
  set (h1 := relinked h f (Some (f_loc t))).
  assert (Hf1 : frag_at h1 (Some (f_loc t)) f) by by eapply relinked_at.
  assert (Hfs1 : frags_at h1 (pre ++ t :: fs)) by by apply relinked_apart.
  destruct pre as [|g pre _] using rev_ind.
  - exists h1. split; [|done]. split; [by split|]. intros l Hl _. by apply relinked_other.
  - rewrite last_snoc. exists (relinked h1 g (Some (f_loc f))).
    apply frags_to_app in Hfs1 as [Hpre1 Hfs1]. rewrite apart_app in Ha.
    rewrite apart_app in Ha. destruct Ha as [[Ha1 Ha2] Ha3].
    assert (Hnd2 : apart g (t :: fs)).
    { rewrite <-app_assoc, locs_of_app, list.NoDup_app in Hnd. destruct Hnd as (_ & _ & Hnd).
      change ([g] ++ t :: fs) with ([g] ++ (t :: fs)) in Hnd.
      rewrite locs_of_app, locs_of_1, list.NoDup_app in Hnd. destruct Hnd as (_ & Hnd & _).
      exact Hnd. }
    rewrite locs_of_app, list.NoDup_app in Hnd. destruct Hnd as (Hnd & _ & _).
    split_and!.
    + change (f :: t :: fs) with ([f] ++ (t :: fs)). apply frags_to_app. split.
      * eapply relinked_last; [done|by apply nodup_apart|done].
      * split; [by apply relinked_apart1, apart_sym|by apply relinked_apart].
    + intros l Hl Hl'. unfold h1. rewrite !relinked_other; [done|done|].
      intros ->. apply Hl'. rewrite locs_of_app, locs_of_1. apply elem_of_app. right. left.
    + by rewrite !head_or_app.
Qed.

(** What [place_loop] leaves: the list of [place], or the old one when the
    fragment is to be thrown away. *)
Definition placed (h h' : heap CF) (f : frag) (pre fs : list frag) (p' : option loc)
    (res : option (list frag * bool)) : Prop :=
  (∀ l, l ≠ f_loc f → l ∉ locs_of (pre ++ fs) → h' !! l = h !! l) ∧
  match res with
  | Some (fs', _) => p' = head_loc (pre ++ fs') ∧ frags_at h' (pre ++ fs')
  | None => p' = head_loc (pre ++ fs) ∧ frags_at h' (pre ++ fs) ∧ ∃ next, frag_at h' next f
  end.

Lemma place_before_eq s r b h f pre t fs valid :
  frag_at h None f → frags_at h (pre ++ t :: fs) → apart f (pre ++ t :: fs) →
  NoDup (locs_of (pre ++ t :: fs)) →
  f_start f < f_start t →
  let res := place f (list.last pre) valid (t :: fs) in
  ∃ h' p', place_before r (f_loc f) (f_ptr f) (f_start f) (f_end f) (f_loc t) (f_start t)
             (f_ptr <$> list.last pre) valid (at_queue s r b h (head_loc (pre ++ t :: fs)))
           = inr (snd <$> res, at_queue s r b h' p') ∧ placed h h' f pre (t :: fs) p' res.
Proof.
  intros Hf Hfs Ha Hnd Hlt res. unfold place_before.
  assert (Hokt : addr_ok (Some (f_loc t))).
  { pose proof Hfs as [_ [Ht _]]%frags_to_app. by eapply frag_at_addr. }
  rewrite (bind_link_at s r b h _ _ (Some (f_loc t)) f _ Hf).
  destruct (place_here_eq s r b h f pre t fs valid) as (h' & [Hfs' Ho] & E); [done..|].
  assert (Ho' : ∀ l, l ≠ f_loc f → l ∉ locs_of (pre ++ t :: fs) → h' !! l = h !! l).
  { intros l Hl Hl'. apply Ho; [done|]. intros ?. apply Hl'. rewrite locs_of_app.
    apply elem_of_app. by left. }
  unfold res. cbn [place]. rewrite (proj2 (Z.ltb_lt _ _) Hlt).
  destruct (list.last pre) as [g|] eqn:El; cbn [fmap option_fmap option_map].
  2:{ rewrite bind_with_rp_at, <-E. by do 2 eexists. }
  apply last_Some in El as [pre0 ->]. set (h1 := relinked h f (Some (f_loc t))) in *.
  assert (Hg : frag_at h1 (Some (f_loc t)) g).
  { pose proof Hfs as [[_ [Hg _]]%frags_to_app _]%frags_to_app. apply relinked_apart1; [done|].
    rewrite !apart_app in Ha. tauto. }
  rewrite (bind_load_end (at_queue s r b h1 _) _ g _ Hg). destruct (_ || _).
  - exists h1, (head_loc ((pre0 ++ [g]) ++ t :: fs)). split; [done|]. split; [|split; [done|split]].
    + intros l Hl _. by apply relinked_other.
    + by apply relinked_apart.
    + exists (Some (f_loc t)). by eapply relinked_at.
  - rewrite (bind_link_at s r b h1 _ _ (Some (f_loc f)) g _ Hg), <-E. by do 2 eexists.
Qed.

Lemma place_loop_eq s r b h f :
  frag_at h None f →
  ∀ fs pre valid fuel,
  frags_at h (pre ++ fs) → apart f (pre ++ fs) → NoDup (locs_of (pre ++ fs)) →
  (length fs ≤ fuel)%nat →
  (∀ g, list.last pre = Some g → f_end g ≤ f_start f) →
  let res := place f (list.last pre) valid fs in
  ∃ h' p', place_loop fuel r (f_loc f) (f_ptr f) (f_start f) (f_end f) (head_loc fs)
             (f_ptr <$> list.last pre) valid (at_queue s r b h (head_loc (pre ++ fs)))
           = inr (snd <$> res, at_queue s r b h' p') ∧ placed h h' f pre fs p' res.
Proof.
  intros Hf. induction fs as [|t fs IH]; intros pre valid fuel Hfs Ha Hnd Hfuel Hend res.
  { rewrite app_nil_r in *. destruct (place_last_eq s r b h f pre valid) as (h' & E & Hfs' & Ho);
      [done..|]. exists h', (head_loc (pre ++ [f])). split; [|split].
    - destruct fuel; cbn [place_loop head_or]; by rewrite (bind_ret _ _ _ _ _ E).
    - intros l _ Hl. apply Ho. by rewrite app_nil_r in Hl.
    - done. }
  destruct fuel as [|fuel]; [simpl in Hfuel; lia|].
  pose proof Hfs as [Hpre [Ht _]]%frags_to_app. cbn [head_or place_loop].
  rewrite (bind_frag_payload (at_queue s r b h _) _ t _ Ht).
  rewrite (bind_load_start (at_queue s r b h _) _ t _ Ht).
  unfold res. destruct (Z.ltb_spec (f_start f) (f_start t)) as [Hlt|Hge].
  { by apply place_before_eq. }
  cbn [place]. rewrite (proj2 (Z.ltb_ge _ _) Hge).
  assert (Hsame : placed h h f pre (t :: fs) (head_loc (pre ++ t :: fs)) None).
  { split; [done|]. split; [done|]. split; [done|]. by exists None. }
  destruct (Z.eqb_spec (f_start f) (f_start t)) as [|Hne]; [by do 2 eexists|].
  rewrite (bind_load_end (at_queue s r b h _) _ t _ Ht).
  destruct (Z.ltb_spec (f_start f) (f_end t)) as [|Hgt]; [by do 2 eexists|].
  set (hole := match list.last pre with Some g => negb (f_end g =? f_start t) | None => false end).
  rewrite (bind_ret _ _ _ hole (at_queue s r b h (head_loc (pre ++ t :: fs)))).
  2:{ unfold hole. destruct (list.last pre) as [g|] eqn:El; [|done]. cbn [fmap option_fmap option_map].
      apply last_Some in El as [pre0 ->]. pose proof Hpre as [_ [Hg _]]%frags_to_app.
      by rewrite (bind_load_end (at_queue s r b h _) _ g _ Hg). }
  rewrite (bind_load_next (at_queue s r b h _) _ t _ Ht).
  assert (Hdec : ptr_dec (ptr_enc (head_loc fs)) = head_loc fs) by by destruct fs.
  rewrite Hdec. specialize (IH (pre ++ [t]) (valid && negb hole) fuel).
  rewrite <-app_assoc in IH. rewrite last_snoc in IH.
  destruct IH as (h' & p' & E & Ho & Hres); [done|done|done|simpl in Hfuel; lia| |].
  { intros g [= <-]. lia. }
  cbn [app] in E. exists h', p'. split.
  + etransitivity; [exact E|]. by destruct (place f _ _ fs) as [[]|].
  + split; [intros l Hl Hl'; apply Ho; [done|by rewrite <-app_assoc]|].
    destruct (place f _ _ fs) as [[fs' v]|]; cbn [mbind option_bind]; rewrite <-!app_assoc in Hres; done.
Qed.

End place.
End IpReassQueue.
