(* ===== verification/IpReassProps.v ===== *)
(** * Reassembly: correctness

    What [ip_reass] does with a fragment in terms of the queue of its datagram:
    the fragment is placed, the verdict whether the datagram is complete, and
    the datagram that is put together. *)

From S2P Require Import Prelude Def Ip4Addr InetChksum Netif Udp Pbuf Linked PbufChain PbufOps Stack.
From S2P Require Import StackMem Ip4 Icmp IpReass IpReassQueue.

Module IpReassProps.
Import Def Ip4Addr InetChksum Netif Udp Pbuf Linked PbufChain PbufOps Stack StackMem Ip4 Icmp IpReass
  IpReassQueue.

(** ** The verdict on a queue *)

(** The fragments follow each other from [e] on. *)
Fixpoint contiguous (e : Z) (fs : list frag) : bool :=
  match fs with
  | [] => true
  | f :: fs' => (e =? f_start f) && contiguous (f_end f) fs'
  end.

(** Where the fragments end that begin at [e]. *)
Definition end_of (e : Z) (fs : list frag) : Z := default e (f_end <$> list.last fs).

Lemma end_of_cons e f fs : end_of e (f :: fs) = end_of (f_end f) fs.
Proof. unfold end_of. rewrite last_cons. by destruct (list.last fs). Qed.

Lemma contiguous_app e a b :
  contiguous e (a ++ b) = contiguous e a && contiguous (end_of e a) b.
Proof.
  revert e. induction a as [|f a IH]; intros e; [done|]. cbn [contiguous app].
  by rewrite IH, end_of_cons, andb_assoc.
Qed.

(** The fragment is placed between [pre] and [post]; [valid] says that the
    fragments in front of it follow each other, but it does not say that the new
    fragment follows them unless it is the last one. *)
Lemma place_spec f prev valid fs fs' v :
  place f prev valid fs = Some (fs', v) →
  ∃ pre post, fs = pre ++ post ∧ fs' = pre ++ f :: post ∧
    v = valid && match prev with
                 | Some g => contiguous (f_end g) pre
                 | None => match pre with [] => true | g :: pre' => contiguous (f_end g) pre' end
                 end
        && (if bool_decide (post = []) then
              match list.last pre, prev with
              | Some g, _ | None, Some g => f_end g =? f_start f
              | None, None => true
              end
            else true).
Proof.
  revert prev valid fs' v. induction fs as [|t fs IH]; intros prev valid fs' v; cbn [place].
  { intros [= <- <-]. exists [], []. split_and!; [done|done|].
    destruct prev as [g|]; cbn; [|by rewrite !andb_true_r].
    rewrite andb_true_r. by destruct (_ =? _); rewrite ?andb_true_r, ?andb_false_r. }
  destruct (_ <? _).
  { intros H. exists [], (t :: fs).
    assert (fs' = f :: t :: fs ∧ v = valid) as [-> ->].
    { destruct prev; [destruct (_ || _); [done|]|]; by simplify_eq. }
    split_and!; [done|done|]. destruct prev; cbn; by rewrite !andb_true_r. }
  destruct (_ =? _); [done|]. destruct (_ <? _); [done|].
  set (hole := match prev with Some g => _ | None => _ end).
  destruct (place f (Some t) (valid && negb hole) fs) as [[l w]|] eqn:E; [|done].
  intros [= <- <-]. destruct (IH _ _ _ _ E) as (pre & post & -> & -> & ->).
  exists (t :: pre), post. split_and!; [done|done|]. unfold hole.
  rewrite last_cons. destruct prev as [g|]; cbn [contiguous];
    destruct (list.last pre); destruct valid; cbn [andb negb]; rewrite ?negb_involutive;
    by rewrite <-?andb_assoc.
Qed.

(** What the validation says when the last fragment has been seen, the new
    fragment is [f], and [valid] is still 1. *)
Definition verdict (datagram_len : Z) (pre : list frag) (f : frag) (post : list frag) : fault + bool :=
  if negb (f_start (hd f pre) =? 0) then inr false
  else if negb (contiguous (f_end f) post) then inr false
  else if bool_decide (pre ++ post = []) then inl Abort
  else if end_of (f_end f) post =? datagram_len then inr true else inl Abort.

Section validate.
Context {CF F A X : Type} `{HL : Lens X reass_state}.
Abbreviation stack := (stack CF F A X).
Implicit Type s : stack.

Lemma ptr_dec_enc e : ptr_dec (ptr_enc e) = e.
Proof. by destruct e. Qed.

Lemma holes_loop_eq s g fs fuel :
  frags_at (st_pbufs s) (g :: fs) → (length fs ≤ fuel)%nat →
  ∃ q, holes_loop fuel (f_ptr g) (head_loc fs) s = inr ((contiguous (f_end g) fs, q), s) ∧
    (contiguous (f_end g) fs = true → q = f_ptr (default g (list.last fs))).
Proof.
  revert g fuel. induction fs as [|t fs IH]; intros g fuel Hfs Hf.
  { exists (f_ptr g). split; [by destruct fuel|done]. }
  destruct fuel as [|fuel]; [simpl in Hf; lia|]. destruct Hfs as [Hg Hfs].
  pose proof Hfs as [Ht _]. cbn [head_or holes_loop contiguous].
  rewrite (bind_frag_payload s _ t _ Ht), (bind_load_end s _ g _ Hg), (bind_load_start s _ t _ Ht).
  destruct (f_end g =? f_start t); cbn [negb andb]; [|by eexists].
  rewrite (bind_load_next s _ t _ Ht), ptr_dec_enc.
  destruct (IH t fuel Hfs ltac:(simpl in Hf; lia)) as (q & -> & Hq). exists q. split; [done|].
  intros Hc. rewrite (Hq Hc), last_cons. by destruct (list.last fs).
Qed.

Lemma frags_last h (g : frag) fs :
  frags_at h (g :: fs) → frag_at (CF := CF) h None (default g (list.last fs)).
Proof.
  revert g. induction fs as [|t fs IH]; intros g [Hg Hfs]; [done|].
  rewrite last_cons. specialize (IH t Hfs). by destruct (list.last fs).
Qed.

Lemma frags_nodup_ptr pre (f : frag) post :
  NoDup (locs_of (pre ++ f :: post)) →
  f_ptr (hd f pre) = f_ptr (default f (list.last post)) → pre ++ post = [].
Proof.
  intros Hnd E. assert (El : f_loc (hd f pre) = f_loc (default f (list.last post)))
    by (by inversion E). clear E.
  assert (Hin : f_loc (default f (list.last post)) ∈ locs_of (f :: post)).
  { destruct (list.last post) as [g|] eqn:Eg; [|by left]. apply last_Some in Eg as [post0 ->].
    rewrite locs_of_cons, locs_of_app, locs_of_1, !elem_of_app. right. right. left. }
  destruct pre as [|g pre].
  - destruct (list.last post) as [g|] eqn:Eg; [|by apply last_None in Eg as ->].
    exfalso. apply last_Some in Eg as [post0 ->]. cbn [hd default] in El.
    cbn [app] in Hnd. change (f :: post0 ++ [g]) with ((f :: post0) ++ [g]) in Hnd.
    apply nodup_apart in Hnd.
    apply (Hnd (f_loc g)); [left|]. cbn in El. rewrite <-El. left.
  - exfalso. cbn [hd] in El. cbn [app] in Hnd.
    rewrite locs_of_cons, locs_of_app in Hnd.
    apply list.NoDup_app in Hnd as (_ & Hd & _). apply (Hd (f_loc g)); [left|].
    apply elem_of_app. right. by rewrite El.
Qed.

Lemma frags_head_at h pre (f : frag) post :
  frags_at (CF := CF) h (pre ++ f :: post) → ∃ next, frag_at h next (hd f pre).
Proof. destruct pre; intros [? _]; by eexists. Qed.

Lemma frags_size h fs e :
  frags_to (CF := CF) h fs e → NoDup (locs_of fs) → (length fs ≤ size h)%nat.
Proof.
  intros Hfs Hnd. rewrite <-(length_fmap f_loc), <-(size_list_to_set (C:=gset loc) (f_loc <$> fs)).
  - rewrite <-(size_dom h). apply subseteq_size. intros l Hl. apply elem_of_list_to_set in Hl.
    clear Hnd. induction fs as [|f fs IH]; [by apply elem_of_nil in Hl|]. destruct Hfs as [Hf Hfs].
    cbn in Hl. apply elem_of_cons in Hl as [->|Hl]; [|by apply IH].
    apply frag_at_head in Hf as (b & E & _). by apply elem_of_dom.
  - clear Hfs. induction fs as [|f fs IH]; [constructor|]. rewrite locs_of_cons in Hnd.
    apply list.NoDup_app in Hnd as (_ & Hd & Hnd). constructor; [|by apply IH].
    intros Hin. apply (Hd (f_loc f)); [left|]. clear -Hin. induction fs as [|g fs IH].
    + by apply elem_of_nil in Hin.
    + rewrite locs_of_cons. cbn in Hin. apply elem_of_cons in Hin as [->|Hin].
      * left.
      * apply elem_of_app. right. by apply IH.
Qed.

Lemma validate_eq s r b h pre f post :
  frags_at h (pre ++ f :: post) → NoDup (locs_of (pre ++ f :: post)) →
  let S' := at_queue s r b h (head_loc (pre ++ f :: post)) in
  validate r (f_ptr f) S'
  = match verdict (r_datagram_len b) pre f post with
    | inl e => inl e
    | inr v => inr (v, S')
    end.
Proof.
  intros Hfs Hnd S'. unfold validate, verdict. unfold S'. rewrite bind_rderef_at. fold S'.
  destruct (frags_head_at _ _ _ _ Hfs) as [next Hh].
  assert (Hp : head_loc (pre ++ f :: post) = Some (f_loc (hd f pre))) by by destruct pre.
  cbn [with_rp r_p r_datagram_len]. rewrite Hp.
  rewrite (bind_frag_payload S' _ _ _ Hh), (bind_load_start S' _ _ _ Hh).
  destruct (negb (f_start (hd f pre) =? 0)); [done|].
  pose proof (frags_size _ _ _ Hfs Hnd) as Hsz. rewrite length_app in Hsz. simpl in Hsz.
  pose proof Hfs as [_ Hpost]%frags_to_app. pose proof Hpost as [Hf _].
  rewrite (bind_load_next S' _ f _ Hf), ptr_dec_enc, bind_get.
  destruct (holes_loop_eq S' f post (S (size (st_pbufs S'))) Hpost) as (q & E & Hq).
  { change (st_pbufs S') with h. lia. }
  rewrite (bind_ret _ _ _ _ _ E). destruct (contiguous (f_end f) post); [|done]. cbn [negb].
  rewrite (Hq eq_refl). pose proof (frags_last _ _ _ Hpost) as Hl.
  destruct (decide (pre ++ post = [])) as [He|He].
  { rewrite (bool_decide_eq_true_2 _ He). apply app_eq_nil in He as [-> ->].
    rewrite bool_decide_eq_false_2 by (intros Hn; by apply Hn). done. }
  rewrite (bool_decide_eq_false_2 _ He).
  rewrite bind_assert by (apply bool_decide_eq_true_2; intros Hn; by apply He, (frags_nodup_ptr _ f)).
  rewrite (bind_load_next S' _ _ _ Hl). rewrite bind_assert by done.
  rewrite (bind_load_end S' _ _ _ Hl).
  assert (Hend : f_end (default f (list.last post)) = end_of (f_end f) post).
  { unfold end_of. by destruct (list.last post). }
  rewrite Hend. by destruct (_ =? _).
Qed.

End validate.

(** ** A fragment as a packet *)

(** [len] and [offset] of the fragment with the header [hdr]. *)
Definition hdr_len (hdr : bytes) : Z :=
  u16 (lwip_ntohs (hdr_field 2 IPH_LEN hdr) - Z.land (hdr_field 1 IPH_VHL hdr) 0x0f * 4).
Definition hdr_offset (hdr : bytes) : Z :=
  u16 (Z.land (lwip_ntohs (hdr_field 2 IPH_OFFSET hdr)) IP_OFFMASK * 8).
Definition hdr_more (hdr : bytes) : bool :=
  negb (Z.land (hdr_field 2 IPH_OFFSET hdr) (lwip_htons IP_MF) =? 0).

Section packet.
Context {CF F A X : Type} `{HL : Lens X reass_state}.
Abbreviation stack := (stack CF F A X).
Implicit Type s : stack.

(** The chain at [p] carries a header of 20 bytes, all of it in the first
    pbuf, and the data [d]. *)
Definition packet_at (h : heap CF) (p : loc) (b : pbuf CF) ls (hdr d : bytes) : Prop :=
  chain_at h (Some p) ((p, b) :: ls) ∧ chain_wf ((p, b) :: ls) ∧
  Forall (λ x, plain (snd x)) ((p, b) :: ls) ∧ 20 ≤ p_len b ∧ length hdr = 20%nat ∧
  data ((p, b) :: ls) = hdr ++ d ∧ addr_ok (Some p).

Lemma packet_head h p b ls hdr d :
  packet_at h p b ls hdr d → h !! p = Some b ∧ pbuf_ok b ∧ take 20 (pdata b) = hdr.
Proof.
  intros (Hc & Hwf & _ & Hl & Hh & Hd & _). inversion Hc; subst.
  destruct Hwf as (Hok & _). split_and!; try done.
  apply (f_equal (take 20)) in Hd. rewrite data_cons in Hd.
  pose proof (zlen_pdata b Hok). unfold zlen in *.
  rewrite take_app_le in Hd by lia. rewrite Hd, take_app_le, take_ge by lia. done.
Qed.

Lemma bind_load_packet {B} n s p b ls hdr d off (k : Z → prog stack B) :
  packet_at (st_pbufs s) p b ls hdr d → 0 ≤ off → off + Z.of_nat n ≤ 20 →
  (lift (load n (p, p_payload b) off) ≫= k) s = k (hdr_field n off hdr) s.
Proof.
  intros Hp Ho Hn. destruct (packet_head _ _ _ _ _ _ Hp) as (E & Hok & Hh).
  destruct Hp as (_ & _ & _ & Hl & _).
  rewrite (bind_load_hdr n s p b b) by (done || lia). unfold hdr_field. do 2 f_equal.
  rewrite <-Hh, skipn_firstn_comm, take_take. f_equal. lia.
Qed.

(** The first pbuf of a chain gets other bytes. *)
Lemma chain_with_pdata (h : heap CF) p b ls d :
  chain_at h (Some p) ((p, b) :: ls) → chain_wf ((p, b) :: ls) → zlen d = p_len b →
  let ls' := (p, with_pdata d b) :: ls in
  chain_at (<[p:=with_pdata d b]> h) (Some p) ls' ∧ chain_wf ls' ∧ data ls' = d ++ data ls.
Proof.
  intros Hc (Hok & Hr & Ht & Hlt & Hwf) Hd ls'.
  assert (Hdata : data ls' = d ++ data ls).
  { unfold ls'. by rewrite data_cons, pdata_with_pdata. }
  split_and!; [by eapply chain_update_head| |done].
  refine (conj (with_pdata_ok _ _ Hok Hd) (conj Hr (conj _ (conj Hlt Hwf)))).
  change (p_tot_len b = zlen (data ls')). rewrite Hdata, Ht, data_cons, !zlen_app.
  by rewrite zlen_pdata, Hd.
Qed.

(** The helper struct is written over the header. *)
Lemma helper_written (d : bytes) start end_ :
  (12 ≤ length d)%nat →
  splice 10 (le_bytes 2 end_) (splice 8 (le_bytes 2 start) (splice 0 (le_bytes 8 (ptr_enc None)) d))
  = helper None start end_ ++ drop 12 d.
Proof.
  intros Hl. assert (E1 := splice_splice 0 (le_bytes 8 (ptr_enc None)) (le_bytes 2 start) d).
  rewrite length_le_bytes in E1. cbn [Nat.add] in E1. rewrite E1 by lia.
  assert (E2 := splice_splice 0 (le_bytes 8 (ptr_enc None) ++ le_bytes 2 start) (le_bytes 2 end_) d).
  rewrite length_app, !length_le_bytes in E2. cbn [Nat.add] in E2. rewrite E2 by lia.
  unfold helper, splice. rewrite take_0, !length_app, !length_le_bytes. by rewrite <-!app_assoc.
Qed.

Lemma packet_to_frag h p b ls hdr d start end_ :
  packet_at h p b ls hdr d → is_u16 start → is_u16 end_ →
  frag_at (<[p:=with_pdata (helper None start end_ ++ drop 12 (pdata b)) b]> h) None
    (mk_frag p (p_payload b) ls.*1 start end_ d).
Proof.
  intros (Hc & Hwf & Hp & Hl & Hh & Hd & Ha) Hs He. pose proof Hwf as (Hok & _).
  pose proof (zlen_pdata b Hok) as Hz.
  destruct (chain_with_pdata h p b ls (helper None start end_ ++ drop 12 (pdata b)) Hc Hwf)
    as (Hc' & Hwf' & Hd').
  { unfold zlen in *. rewrite length_app, length_helper, length_drop. lia. }
  do 2 eexists. exists (drop 12 hdr). cbn [f_loc f_pay f_tail f_start f_end f_data].
  split_and!; try done.
  - inversion Hp; subst. by constructor.
  - by rewrite length_drop, Hh.
  - rewrite Hd', <-app_assoc. f_equal. apply (f_equal (drop 12)) in Hd. rewrite data_cons in Hd.
    unfold zlen in Hz. rewrite !drop_app_le in Hd by lia. done.
Qed.

Lemma at_queue_start s r b h :
  reass_structs (lget s) !! r = Some b → at_queue s r b h (r_p b) = set_pbufs h s.
Proof.
  intros E. unfold at_queue.
  assert (with_rp (r_p b) b = b) as -> by by destruct b. rewrite insert_id by done.
  assert (set_structs (reass_structs (lget s)) (lget s) = lget s) as -> by by destruct (lget s).
  change (lget s) with (lget (D := reass_state) (set_pbufs h s)). apply lput_lget.
Qed.

Lemma bind_frag_len {B} s p b ls hdr d (k : Z → prog stack B) :
  packet_at (st_pbufs s) p b ls hdr d → (frag_len (p, p_payload b) ≫= k) s = k (hdr_len hdr) s.
Proof.
  intros Hp. unfold frag_len. rewrite bind_assoc.
  rewrite (bind_load_packet 2 s _ _ _ _ _ _ _ Hp), bind_assoc by (unfold IPH_LEN; lia).
  by rewrite (bind_load_packet 1 s _ _ _ _ _ _ _ Hp) by (unfold IPH_VHL; lia).
Qed.

Lemma bind_frag_offset {B} s p b ls hdr d (k : Z → prog stack B) :
  packet_at (st_pbufs s) p b ls hdr d →
  (frag_offset (p, p_payload b) ≫= k) s = k (hdr_offset hdr) s.
Proof.
  intros Hp. unfold frag_offset. rewrite bind_assoc.
  by rewrite (bind_load_packet 2 s _ _ _ _ _ _ _ Hp) by (unfold IPH_OFFSET; lia).
Qed.

Lemma bind_helper {B} s p b ls hdr d start end_ (k : unit → prog stack B) :
  packet_at (st_pbufs s) p b ls hdr d →
  (lift (store 8 (p, p_payload b) IPRH_NEXT_PBUF (ptr_enc None)) ≫= λ _,
   lift (store 2 (p, p_payload b) IPRH_START start) ≫= λ _,
   lift (store 2 (p, p_payload b) IPRH_END end_) ≫= k) s
  = k tt (set_pbufs (<[p:=with_pdata (helper None start end_ ++ drop 12 (pdata b)) b]>
                       (st_pbufs s)) s).
Proof.
  intros Hp. destruct (packet_head _ _ _ _ _ _ Hp) as (E & Hok & _).
  pose proof Hp as (_ & _ & _ & Hl & _). pose proof (zlen_pdata b Hok) as Hz.
  pose proof (at_data_start s p b E Hok) as Es.
  match goal with |- ?m s = _ => transitivity (m (at_data s p b (pdata b))) end; [by rewrite <-Es|].
  rewrite bind_store_at by (done || unfold IPRH_NEXT_PBUF; lia).
  change (Z.to_nat IPRH_NEXT_PBUF) with 0%nat. set (d0 := splice 0 _ (pdata b)).
  assert (Hz0 : zlen d0 = p_len b).
  { unfold zlen, d0 in *. rewrite length_splice; [done|]. rewrite length_le_bytes. lia. }
  rewrite bind_store_at by (done || unfold IPRH_START; lia).
  change (Z.to_nat IPRH_START) with 8%nat.
  rewrite bind_store_at; [|done| |unfold IPRH_END; lia..].
  2:{ unfold zlen in *. rewrite length_splice; [done|]. rewrite length_le_bytes. lia. }
  change (Z.to_nat IPRH_END) with 10%nat. unfold d0.
  rewrite helper_written by (unfold zlen in Hz; lia). done.
Qed.

(** The fragment that a packet is. *)
Definition frag_of (p : loc) (b : pbuf CF) (ls : list (loc * pbuf CF)) (hdr d : bytes) : frag :=
  mk_frag p (p_payload b) ls.*1 (hdr_offset hdr) (u16 (hdr_offset hdr + hdr_len hdr)) d.

Context (custom_free : CF → loc → prog (heap CF) unit).

(** The fragment is placed and, if the last one has been seen, the queue is
    validated; or it is thrown away. *)
Lemma chain_frag_eq s r br fs p b ls hdr d :
  reass_structs (lget s) !! r = Some br → r_p br = head_loc fs →
  frags_at (st_pbufs s) fs → NoDup (locs_of fs) →
  packet_at (st_pbufs s) p b ls hdr d →
  let f := frag_of p b ls hdr d in
  apart f fs →
  ∃ h' p', placed (st_pbufs s) h' f [] fs p' (place f None true fs) ∧
    let S' := at_queue s r br h' p' in
    ip_reass_chain_frag_into_datagram_and_validate custom_free r p s =
    match place f None true fs with
    | None =>
        (clen ← lift (pbuf_clen (Some p));
         lift (count_add (- clen));; pfree custom_free p;; mret false) S'
    | Some (_, v) =>
        if negb (Z.land (r_flags br) IP_REASS_FLAG_LASTFRAG =? 0) && v
        then validate r (f_ptr f) S' else inr (false, S')
    end.
Proof.
  intros Er Hp0 Hfs Hnd Hp f Ha. destruct (packet_head _ _ _ _ _ _ Hp) as (E & Hok & _).
  unfold ip_reass_chain_frag_into_datagram_and_validate.
  rewrite (bind_lift_payload _ _ _ _ E), (bind_frag_len s _ _ _ _ _ _ Hp).
  rewrite (bind_frag_offset s _ _ _ _ _ _ Hp), bind_assert by done.
  rewrite (bind_helper s _ _ _ _ _ _ _ _ Hp). set (h1 := <[p:=_]> (st_pbufs s)).
  assert (Hf : frag_at h1 None f).
  { apply packet_to_frag with hdr; [done|apply u16_range|apply u16_range]. }
  rewrite <-(at_queue_start s r br h1 Er), bind_rderef_at, bind_get.
  cbn [with_rp r_p]. rewrite Hp0.
  assert (Hfs1 : frags_at h1 fs).
  { eapply frags_to_agree; [done|]. intros l Hl'. unfold h1. rewrite lookup_insert_ne; [done|].
    intros <-. eapply Ha; [left|done]. }
  destruct (place_loop_eq s r br h1 f Hf fs [] true (S (size (st_pbufs (at_queue s r br h1 (head_loc fs))))))
    as (h' & p' & El & Hpl); [done|done|done| |done|].
  { change (st_pbufs _) with h1. pose proof (frags_size _ _ _ Hfs1 Hnd). lia. }
  exists h', p'. split.
  - destruct Hpl as [Ho Hpl]. split; [|done]. intros l Hl1 Hl2. rewrite Ho by done.
    unfold h1. by rewrite lookup_insert_ne.
  - cbn [list.last fmap option_fmap option_map app] in El. rewrite (bind_ret _ _ _ _ _ El).
    destruct (place f None true fs) as [[fs' v]|]; cbn [fmap option_fmap option_map snd]; [|done].
    rewrite bind_rderef_at. cbn [with_rp r_flags]. by destruct (_ && _).
Qed.

End packet.
End IpReassProps.
