(* ===== verification/IpReassDone.v ===== *)
(** * Reassembly: the datagram

    The fragments that arrive in order are put together to the datagram they
    were cut from. *)

From S2P Require Import Prelude Def Ip4Addr InetChksum Netif Udp Pbuf Linked PbufChain PbufOps Stack.
From S2P Require Import StackMem Ip4 Icmp IpReass IpReassQueue IpReassProps.

Module IpReassDone.
Import Def Ip4Addr InetChksum Netif Udp Pbuf Linked PbufChain PbufOps Stack StackMem Ip4 Icmp IpReass
  IpReassQueue IpReassProps.

Section cat.
Context {CF F A X : Type}.
Abbreviation stack := (stack CF F A X).
Implicit Type s : stack.

Lemma helper_next next start end_ :
  addr_ok next → le_load (take 8 (helper next start end_)) = ptr_enc next.
Proof.
  intros Ha. unfold helper. rewrite take_app_le, take_ge by (by rewrite length_le_bytes).
  rewrite le_load_bytes, Z.mod_small; [done|].
  unfold addr_ok in Ha. change (256 ^ Z.of_nat 8) with (2 ^ 64). by destruct next; simpl in *.
Qed.

(** A fragment without its header, and the link that is still in its memory. *)
Lemma frag_stripped h next f :
  frag_at (CF := CF) h next f →
  ∃ b ls, chain_at h (Some (f_loc f)) ((f_loc f, b) :: ls) ∧ pbuf_ok b ∧ ls.*1 = f_tail f ∧
    p_payload b = f_pay f ∧ 20 ≤ p_len b ∧ le_load (take 8 (pdata b)) = ptr_enc next ∧
    let h' := <[f_loc f:=shifted (-20) b]> h in
    let ls' := (f_loc f, shifted (-20) b) :: ls in
    pbuf_header (Some (f_loc f)) (- IP_HLEN) h = inr (true, h') ∧
    chain_at h' (Some (f_loc f)) ls' ∧ chain_wf ls' ∧ Forall (λ x, plain (snd x)) ls' ∧
    data ls' = f_data f.
Proof.
  intros Hf. pose proof (frag_at_head _ _ _ Hf) as (b0 & E0 & _ & _ & _ & Hh).
  destruct Hf as (b & ls & pad & Hc & Hwf & Hp & Hpay & Htl & Hl & Hpad & Hd & _ & _ & Ha & _).
  inversion Hc; subst. assert (b0 = b) as -> by congruence. pose proof Hwf as ((? & ? & ?) & ? & ? & ? & ?).
  destruct (pbuf_header_spec h (f_loc f) b ls (-20) Hc Hwf) as (Eh & Hc' & Hwf' & Hd' & _).
  { unfold header_fits. split_and!; [lia..|intros; lia]. }
  exists b, ls. do 5 (split; [done|]). split; [|do 3 (split; [done|]); split].
  - rewrite <-(helper_next next (f_start f) (f_end f)) by done. rewrite <-Hh, take_take.
    f_equal.
  - inversion Hp; subst. by constructor.
  - rewrite Hd' by lia. rewrite Hd, app_assoc. change (Z.to_nat (- (-20))) with 20%nat.
    rewrite drop_app_ge by (rewrite length_app, length_helper; lia).
    rewrite length_app, length_helper, Hpad. done.
Qed.

(** The fragments join the chain at [p]. *)
Lemma cat_loop_eq s p ls rest fuel :
  chain_at (st_pbufs s) (Some p) ls → chain_wf ls →
  frags_at (st_pbufs s) rest → NoDup (locs_of rest) → (∀ l, l ∈ ls.*1 → l ∉ locs_of rest) →
  zlen (data ls) + zlen (concat (f_data <$> rest)) < 65536 → (length rest ≤ fuel)%nat →
  ∃ h' ls', cat_loop fuel p (head_loc rest) s = inr (tt, set_pbufs h' s) ∧
    chain_at h' (Some p) ls' ∧ chain_wf ls' ∧
    ls'.*1 = ls.*1 ++ locs_of rest ∧ data ls' = data ls ++ concat (f_data <$> rest) ∧
    ∀ l, l ∉ ls.*1 ++ locs_of rest → h' !! l = st_pbufs s !! l.
Proof.
  revert s ls fuel. induction rest as [|f rest IH]; intros s ls fuel Hc Hwf Hfs Hnd Hd Hlt Hfu.
  { exists (st_pbufs s), ls. cbn. rewrite !app_nil_r. split_and!; try done.
    destruct fuel; by destruct s. }
  destruct fuel as [|fuel]; [simpl in Hfu; lia|]. destruct Hfs as [Hf Hfs].
  rewrite locs_of_cons in *. apply list.NoDup_app in Hnd as (Hnd1 & Hnd2 & Hnd).
  destruct (frag_stripped _ _ _ Hf) as (b & ls2 & Hc2 & Hok & Htl & Hpay & Hl & Hnx & Eh & Hc2' & Hwf2 & Hpl2 & Hd2).
  cbn [head_or cat_loop]. rewrite (bind_frag_payload _ _ _ _ Hf).
  rewrite (bind_ret _ _ _ true (set_pbufs (<[f_loc f:=shifted (-20) b]> (st_pbufs s)) s))
    by (by erewrite lift_ret).
  cbn [fmap list_fmap map concat] in Hlt. rewrite zlen_app in Hlt.
  set (h1 := <[f_loc f:=_]> (st_pbufs s)) in *. pose proof (zlen_nonneg (concat (f_data <$> rest))).
  assert (Hni : f_loc f ∉ ls.*1) by (intros Hin; by apply (Hd _ Hin); left).
  assert (Hlocs : ((f_loc f, shifted (-20) b) :: ls2).*1 = f_locs f).
  { unfold f_locs. by rewrite <-Htl. }
  destruct (pbuf_cat_spec h1 p (f_loc f) ls ((f_loc f, shifted (-20) b) :: ls2))
    as (h2 & ls3 & Ecat & Hc3 & Hwf3 & Hl3 & Hd3 & Ho3); [by apply linked_insert_ne|done|done|done| | |].
  { intros l Hin Hin'. rewrite Hlocs in Hin'. apply (Hd l Hin), elem_of_app. by left. }
  { rewrite Hd2. lia. }
  rewrite (bind_ret _ _ _ tt (set_pbufs h2 s)) by (erewrite lift_ret; [done|exact Ecat]).
  assert (E2 : h2 !! f_loc f = Some (shifted (-20) b)).
  { rewrite Ho3 by done. apply lookup_insert_eq. }
  unfold f_ptr. rewrite <-Hpay, (bind_load_hdr 8 (set_pbufs h2 s) _ b (shifted (-20) b))
    by (done || unfold IPRH_NEXT_PBUF; lia).
  rewrite drop_0, Hnx, ptr_dec_enc. rewrite Hlocs in Hl3.
  destruct (IH (set_pbufs h2 s) ls3 fuel) as (h' & ls' & E & Hc' & Hwf' & Hl' & Hd' & Ho');
    [done|done| |done| | |simpl in Hfu; lia|].
  - eapply frags_to_agree; [done|]. intros l Hin. cbn [st_pbufs set_pbufs]. rewrite Ho3.
    + unfold h1. rewrite lookup_insert_ne; [done|]. intros <-. by eapply Hnd2; [left|].
    + intros Hin'. apply (Hd l Hin'), elem_of_app. by right.
  - rewrite Hl3. intros l [Hin|Hin]%elem_of_app Hin'.
    + apply (Hd l Hin), elem_of_app. by right.
    + by eapply Hnd2.
  - rewrite Hd3, Hd2, zlen_app. lia.
  - exists h', ls'. rewrite E, Hl', Hl3, Hd', Hd3, Hd2. cbn [fmap list_fmap map concat].
    rewrite <-!app_assoc. split_and!; try done. intros l Hl''. rewrite Ho'.
    + cbn [st_pbufs set_pbufs]. rewrite !not_elem_of_app in Hl''. destruct Hl'' as (? & Hn & ?).
      rewrite Ho3 by done. unfold h1. rewrite lookup_insert_ne; [done|]. intros <-. apply Hn. left.
    + by rewrite Hl3, <-app_assoc.
Qed.

End cat.

(** ** The header of the datagram *)

Definition final_header (odd : bool) (hdr : bytes) (len : Z) : bytes :=
  let h := splice 10 (le_bytes 2 0)
             (splice 6 (le_bytes 2 0) (splice 2 (le_bytes 2 (lwip_htons len)) hdr)) in
  splice 10 (le_bytes 2 (inet_chksum odd h)) h.

Lemma length_field off x (y : bytes) :
  (off + 2 ≤ length y)%nat → length (splice off (le_bytes 2 x) y) = length y.
Proof. intros. rewrite length_splice; [done|]. by rewrite length_le_bytes. Qed.

Section finish.
Context {CF F A X : Type} `{HL : Lens X reass_state}.
Abbreviation stack := (stack CF F A X).
Implicit Type s : stack.

Lemma bind_store_hdr {B} n s p b hd rest off x (k : unit → prog stack B) :
  pbuf_ok b → zlen (hd ++ rest) = p_len b → length hd = 20%nat → 0 ≤ off → off + Z.of_nat n ≤ 20 →
  (lift (store n (p, p_payload b) off x) ≫= k) (at_data s p b (hd ++ rest))
  = k tt (at_data s p b (splice (Z.to_nat off) (le_bytes n x) hd ++ rest)).
Proof.
  intros Hok Hz Hh Ho Hn. rewrite bind_store_at; [|done|done|done|].
  - by rewrite splice_app_l by (rewrite length_le_bytes; lia).
  - rewrite zlen_app in Hz. unfold zlen in *. lia.
Qed.

Lemma bind_chksum_at {B} s p b d n (k : Z → prog stack B) :
  pbuf_ok b → zlen d = p_len b → 0 ≤ n ≤ p_len b →
  (lift (inet_chksum_at (p, p_payload b) n) ≫= k) (at_data s p b d)
  = k (inet_chksum (Z.odd (p_payload b)) (take (Z.to_nat n) d)) (at_data s p b d).
Proof.
  intros Hok Hd Hn. apply bind_lift_same. unfold inet_chksum_at.
  unfold at_data. cbn [lget stack_lens_pbufs st_pbufs set_pbufs snd].
  erewrite bind_ret; [|apply (mread_eq _ p (with_pdata d b) 0 n);
    [apply lookup_insert_eq|by apply with_pdata_ok|done|lia|simpl; lia]].
  rewrite pdata_with_pdata by done. done.
Qed.

Lemma put_header_eq s p b hdr len :
  st_pbufs s !! p = Some b → pbuf_ok b → 20 ≤ p_len b → length hdr = 20%nat →
  put_header (p, p_payload b) hdr len s
  = inr (tt, at_data s p b (final_header (Z.odd (p_payload b)) hdr len ++ drop 20 (pdata b))).
Proof.
  intros E Hok Hl Hh. unfold put_header. pose proof (zlen_pdata b Hok) as Hz.
  pose proof (at_data_start s p b E Hok) as Es.
  match goal with |- ?m s = _ => transitivity (m (at_data s p b (pdata b))) end; [by rewrite <-Es|].
  rewrite bind_mwrite_at by (done || unfold zlen in *; lia). change (Z.to_nat 0) with 0%nat.
  assert (splice 0 hdr (pdata b) = hdr ++ drop 20 (pdata b)) as ->.
  { unfold splice. by rewrite Hh. }
  assert (Hz' : ∀ x, length x = 20%nat → zlen (x ++ drop 20 (pdata b)) = p_len b).
  { intros x Hx. unfold zlen in *. rewrite length_app, length_drop. lia. }
  rewrite bind_store_hdr by (done || unfold IPH_LEN; try apply Hz'; done || lia).
  change (Z.to_nat IPH_LEN) with 2%nat. set (x1 := splice 2 _ hdr).
  assert (Hx1 : length x1 = 20%nat) by (etransitivity; [apply length_field; lia|done]).
  rewrite bind_store_hdr by (done || unfold IPH_OFFSET; try apply Hz'; done || lia).
  change (Z.to_nat IPH_OFFSET) with 6%nat. set (x2 := splice 6 _ x1).
  assert (Hx2 : length x2 = 20%nat) by (etransitivity; [apply length_field; lia|done]).
  rewrite bind_store_hdr by (done || unfold IPH_CHKSUM; try apply Hz'; done || lia).
  change (Z.to_nat IPH_CHKSUM) with 10%nat. set (x3 := splice 10 _ x2).
  assert (Hx3 : length x3 = 20%nat) by (etransitivity; [apply length_field; lia|done]).
  rewrite bind_chksum_at by (done || apply Hz'; done || unfold IP_HLEN; lia).
  rewrite take_app_le, take_ge by (change (Z.to_nat IP_HLEN) with 20%nat; lia).
  rewrite store_at; [|done|by apply Hz'|unfold IPH_CHKSUM; lia..].
  by rewrite splice_app_l by (rewrite length_le_bytes, Hx3; change (Z.to_nat IPH_CHKSUM) with 10%nat; lia).
Qed.

Lemma clen_eq (h : heap CF) p ls :
  chain_at h (Some p) ls → pbuf_clen (Some p) h = inr (u8 (zlen ls), h).
Proof.
  intros Hc. unfold pbuf_clen. rewrite walk_eq. pose proof (linked_length _ _ _ Hc).
  by rewrite (clen_loop_eq h _ ls) by (done || lia).
Qed.

(** Dequeueing the first entry. *)
Lemma dequeue_first rs r b :
  reassdatagrams rs = Some r → reass_structs rs !! r = Some b →
  find_prev r rs = inr (None, rs) ∧
  ip_reass_dequeue_datagram r None rs
  = inr (tt, mk_reass_state (delete r (reass_structs rs)) (r_next b) (ip_reass_pbufcount rs)).
Proof.
  intros Eh Er. unfold find_prev, ip_reass_dequeue_datagram. rewrite !bind_get.
  rewrite bool_decide_eq_true_2 by done. split; [done|].
  unfold rderef. rewrite bind_assoc_get, Er. done.
Qed.

(** The entry of a complete datagram is released. *)
Lemma release_eq s r b p ls :
  let rs := lget (D := reass_state) s in
  reassdatagrams rs = Some r → reass_structs rs !! r = Some b →
  chain_at (st_pbufs s) (Some p) ls →
  (prev ← lift (find_prev r);
   lift (ip_reass_dequeue_datagram r prev);;
   clen ← lift (pbuf_clen (Some p));
   lift (count_add (- clen));;
   mret p) s
  = inr (p, lput (mk_reass_state (delete r (reass_structs rs)) (r_next b)
                    (u16 (ip_reass_pbufcount rs - u8 (zlen ls)))) s).
Proof.
  intros rs Eh Er Hc. destruct (dequeue_first rs r b Eh Er) as [Ep Ed].
  rewrite (bind_lift_same _ _ s None) by done.
  rewrite (bind_ret _ _ _ _ _ (lift_ret _ _ _ _ Ed)).
  rewrite (bind_lift_same _ _ _ (u8 (zlen ls))) by (by apply clen_eq).
  erewrite bind_ret; [|by apply lift_ret]. rewrite lget_lput, lput_lput. done.
Qed.

Lemma frag_with_header h next f b :
  frag_at (CF := CF) h next f → h !! f_loc f = Some b →
  ∀ x, length x = 20%nat →
  ∃ ls, let ls' := (f_loc f, with_pdata (x ++ drop 20 (pdata b)) b) :: ls in
    let h' := <[f_loc f:=with_pdata (x ++ drop 20 (pdata b)) b]> h in
    chain_at h' (Some (f_loc f)) ls' ∧ chain_wf ls' ∧ ls'.*1 = f_locs f ∧
    data ls' = x ++ f_data f.
Proof.
  intros (b' & ls & pad & Hc & Hwf & _ & _ & Htl & Hl & Hpad & Hd & _) E x Hx.
  inversion Hc; subst. assert (b' = b) as -> by congruence. exists ls.
  pose proof Hwf as (Hok & _). pose proof (zlen_pdata b Hok) as Hz.
  destruct (chain_with_pdata h (f_loc f) b ls (x ++ drop 20 (pdata b)) Hc Hwf) as (Hc' & Hwf' & Hd').
  { unfold zlen in *. rewrite length_app, length_drop. lia. }
  split; [done|]. split; [done|]. split; [unfold f_locs; by rewrite <-Htl|].
  rewrite Hd', <-app_assoc. f_equal. apply (f_equal (drop 20)) in Hd. rewrite data_cons in Hd.
  unfold zlen in Hz. rewrite drop_app_le in Hd by lia. rewrite Hd, app_assoc.
  rewrite drop_app_ge by (rewrite length_app, length_helper; lia).
  by rewrite length_app, length_helper, Hpad.
Qed.

Lemma length_final_header odd hdr len : length hdr = 20%nat → length (final_header odd hdr len) = 20%nat.
Proof.
  intros Hh. assert (H : ∀ off x y, (off + 2 ≤ 20)%nat → length y = 20%nat →
    length (splice off (le_bytes 2 x) y) = 20%nat) by (intros; rewrite length_field; lia).
  unfold final_header. do 4 (apply H; [lia|]). done.
Qed.

Lemma ip_reass_finish_eq s r br f rest :
  let rs := lget (D := reass_state) s in
  reass_structs rs !! r = Some br → reassdatagrams rs = Some r → r_p br = Some (f_loc f) →
  length (r_iphdr br) = 20%nat → frags_at (st_pbufs s) (f :: rest) → NoDup (locs_of (f :: rest)) →
  20 + zlen (concat (f_data <$> f :: rest)) < 65536 →
  let len := u16 (r_datagram_len br + IP_HLEN) in
  ∃ h' ls', ip_reass_finish r s
      = inr (f_loc f, lput (mk_reass_state (delete r (reass_structs rs)) (r_next br)
                              (u16 (ip_reass_pbufcount rs - u8 (zlen ls')))) (set_pbufs h' s)) ∧
    chain_at h' (Some (f_loc f)) ls' ∧ chain_wf ls' ∧ ls'.*1 = locs_of (f :: rest) ∧
    data ls' = final_header (Z.odd (f_pay f)) (r_iphdr br) len ++ concat (f_data <$> f :: rest) ∧
    ∀ l, l ∉ locs_of (f :: rest) → h' !! l = st_pbufs s !! l.
Proof.
  intros rs Er Eh Ep Hh Hfs Hnd Hlt len. unfold ip_reass_finish.
  rewrite (bind_rderef _ _ _ _ Er), (bind_rupdate _ _ _ _ _ Er). fold len.
  set (s1 := lput _ s). rewrite (bind_deref _ _ _ _ Ep). destruct Hfs as [Hf Hfs].
  assert (Hf1 : frag_at (st_pbufs s1) (head_loc rest) f) by done.
  rewrite (bind_frag_payload _ _ _ _ Hf1), (bind_load_next _ _ _ _ Hf1), ptr_dec_enc.
  destruct (frag_at_head _ _ _ Hf) as (b & E & Hok & Hpay & Hl & _).
  set (hd := final_header (Z.odd (f_pay f)) (r_iphdr br) len).
  set (h2 := <[f_loc f:=with_pdata (hd ++ drop 20 (pdata b)) b]> (st_pbufs s)).
  rewrite (bind_ret _ _ _ tt (set_pbufs h2 s1)).
  2:{ unfold f_ptr. rewrite <-Hpay. rewrite (put_header_eq s1 _ b) by done. unfold h2, hd.
      by rewrite <-Hpay. }
  rewrite bind_get. rewrite locs_of_cons in *. apply list.NoDup_app in Hnd as (_ & Hd & Hnd).
  destruct (frag_with_header _ _ _ _ Hf E hd) as (ls & Hc & Hwf & Hls & Hdt).
  { by apply length_final_header. }
  cbn [fmap list_fmap map concat] in Hlt. rewrite zlen_app in Hlt.
  assert (Hfs2 : frags_at h2 rest).
  { eapply frags_to_agree; [done|]. intros l Hin. unfold h2. rewrite lookup_insert_ne; [done|].
    intros <-. by eapply Hd; [left|]. }
  destruct (cat_loop_eq (set_pbufs h2 s1) (f_loc f) _ rest (S (size (st_pbufs (set_pbufs h2 s1)))) Hc Hwf Hfs2 Hnd)
    as (h' & ls' & Ecat & Hc' & Hwf' & Hls' & Hdt' & Ho').
  { by rewrite Hls. }
  { rewrite Hdt, zlen_app. unfold zlen at 1. unfold hd. rewrite length_final_header by done. lia. }
  { cbn [st_pbufs set_pbufs]. pose proof (frags_size _ _ _ Hfs2 Hnd). lia. }
  rewrite (bind_ret _ _ _ _ _ Ecat). exists h', ls'. rewrite Hls in *. rewrite Hdt in Hdt'.
  split_and!; try done; [|by rewrite Hdt', <-app_assoc|].
  2:{ intros l Hin. rewrite Ho' by done. cbn [st_pbufs set_pbufs]. unfold h2.
      rewrite lookup_insert_ne; [done|]. intros <-. apply Hin. left. }
  assert (Els : lget (set_pbufs h' (set_pbufs h2 s1))
            = set_structs (<[r:=with_datagram_len len br]> (reass_structs rs)) rs) by apply lget_lput.
  rewrite (release_eq _ r (with_datagram_len len br) (f_loc f) ls'); rewrite ?Els; try done.
  2:{ apply lookup_insert_eq. }
  cbn [set_structs reass_structs reassdatagrams ip_reass_pbufcount with_datagram_len r_next].
  rewrite delete_insert_eq.
  change (set_pbufs h' (set_pbufs h2 s1)) with (lput (D := reass_state)
    (set_structs (<[r:=with_datagram_len len br]> (reass_structs rs)) rs) (set_pbufs h' s)).
  by rewrite lput_lput.
Qed.

End finish.
End IpReassDone.
