(* ===== verification/IpReassOrder.v ===== *)
(** * Reassembly of fragments that arrive in order

    The fragments of a datagram, received one after the other, are collected
    until the last one is there; then [ip_reass] returns the datagram they were
    cut from and the queue is as before. *)

From S2P Require Import Prelude Def Ip4Addr InetChksum Netif Udp Pbuf Linked PbufChain PbufOps Stack.
From S2P Require Import StackMem Ip4 Icmp IpReass IpReassQueue IpReassProps IpReassDone.

Module IpReassOrder.
Import Def Ip4Addr InetChksum Netif Udp Pbuf Linked PbufChain PbufOps Stack StackMem Ip4 Icmp IpReass
  IpReassQueue IpReassProps IpReassDone.

(** ** Queues without holes *)

(** The fragments are not empty and have as much data as they say. *)
Definition nonempty (fs : list frag) : Prop :=
  Forall (λ f, f_start f < f_end f ∧ zlen (f_data f) = f_end f - f_start f) fs.

Lemma end_of_ge e fs : contiguous e fs = true → nonempty fs → e ≤ end_of e fs.
Proof.
  revert e. induction fs as [|f fs IH]; intros e; [done|]. cbn [contiguous].
  intros [->%Z.eqb_eq Hc]%andb_true_iff Hn. inversion Hn; subst. rewrite end_of_cons.
  specialize (IH _ Hc ltac:(done)). lia.
Qed.

Lemma contiguous_data e fs :
  contiguous e fs = true → nonempty fs → zlen (concat (f_data <$> fs)) = end_of e fs - e.
Proof.
  revert e. induction fs as [|f fs IH]; intros e; [intros; unfold end_of, zlen; simpl; lia|].
  cbn [contiguous]. intros [->%Z.eqb_eq Hc]%andb_true_iff Hn. inversion Hn as [|? ? [Hf Hd] Hn']; subst.
  rewrite end_of_cons. cbn [fmap list_fmap map concat]. rewrite zlen_app, (IH _ Hc Hn'). lia.
Qed.

Lemma place_behind f g fs :
  contiguous (f_end g) fs = true → nonempty fs → f_start f = end_of (f_end g) fs →
  place f (Some g) true fs = Some (fs ++ [f], true).
Proof.
  revert g. induction fs as [|t fs IH]; intros g Hc Hn Hs.
  { cbn in *. by rewrite Hs, Z.eqb_refl. }
  cbn [contiguous] in Hc. apply andb_true_iff in Hc as [E Hc]. inversion Hn as [|? ? Ht Hn']; subst.
  rewrite end_of_cons in Hs. pose proof (end_of_ge _ _ Hc Hn') as Hge. cbn [place].
  rewrite (proj2 (Z.ltb_ge (f_start f) (f_start t))), (proj2 (Z.eqb_neq (f_start f) (f_start t))),
    (proj2 (Z.ltb_ge (f_start f) (f_end t))), E by lia.
  cbn [negb andb]. by rewrite (IH t Hc Hn' Hs).
Qed.

Lemma place_append f fs :
  contiguous 0 fs = true → nonempty fs → f_start f = end_of 0 fs →
  place f None true fs = Some (fs ++ [f], true).
Proof.
  intros Hc Hn Hs. destruct fs as [|t fs]; [done|]. cbn [contiguous] in Hc.
  apply andb_true_iff in Hc as [_ Hc]. inversion Hn as [|? ? Ht Hn']; subst.
  rewrite end_of_cons in Hs. pose proof (end_of_ge _ _ Hc Hn') as Hge. cbn [place].
  rewrite (proj2 (Z.ltb_ge (f_start f) (f_start t))), (proj2 (Z.eqb_neq (f_start f) (f_start t))),
    (proj2 (Z.ltb_ge (f_start f) (f_end t))) by lia.
  cbn [negb andb]. by rewrite (place_behind f t fs Hc Hn' Hs).
Qed.

(** ** Packets *)

(** A received packet: its pbufs, its header and its data. *)
Record packet (CF : Type) := mk_packet {
  k_loc : loc;
  k_pbuf : pbuf CF;
  k_tail : list (loc * pbuf CF);
  k_hdr : bytes;
  k_data : bytes
}.
Arguments mk_packet {CF}.
Arguments k_loc {CF}.
Arguments k_pbuf {CF}.
Arguments k_tail {CF}.
Arguments k_hdr {CF}.
Arguments k_data {CF}.

Section order.
Context {CF F A X : Type} `{HL : Lens X reass_state}.
Abbreviation stack := (stack CF F A X).
Abbreviation packet := (packet CF).
Implicit Types (s : stack) (k : packet).

Definition k_locs k : list loc := k_loc k :: (k_tail k).*1.
Definition k_frag k : frag := frag_of (k_loc k) (k_pbuf k) (k_tail k) (k_hdr k) (k_data k).
Definition in_memory (h : heap CF) k : Prop :=
  packet_at h (k_loc k) (k_pbuf k) (k_tail k) (k_hdr k) (k_data k).

(** The packet is the fragment of the datagram of [hdr] that begins at [e]. *)
Definition fragment_of (hdr : bytes) (e : Z) (more : bool) k : Prop :=
  Z.land (hdr_field 1 IPH_VHL (k_hdr k)) 0x0f = 5 ∧
  hdr_field 4 IPH_SRC (k_hdr k) = hdr_field 4 IPH_SRC hdr ∧
  hdr_field 4 IPH_DEST (k_hdr k) = hdr_field 4 IPH_DEST hdr ∧
  hdr_field 2 IPH_ID (k_hdr k) = hdr_field 2 IPH_ID hdr ∧
  hdr_offset (k_hdr k) = e ∧ hdr_len (k_hdr k) = zlen (k_data k) ∧ 0 < zlen (k_data k) ∧
  hdr_more (k_hdr k) = more ∧ 20 + (e + zlen (k_data k)) < 65536.

Lemma k_frag_range hdr e more k :
  fragment_of hdr e more k → 0 ≤ e →
  f_start (k_frag k) = e ∧ f_end (k_frag k) = e + zlen (k_data k) ∧ f_data (k_frag k) = k_data k.
Proof.
  intros (_ & _ & _ & _ & Ho & Hl & Hp & _ & Hlt) He. unfold k_frag, frag_of.
  cbn [f_start f_end f_data]. rewrite Ho, Hl, u16_id by (unfold is_u16; lia). done.
Qed.

Lemma k_locs_frag k : f_locs (k_frag k) = k_locs k.
Proof. done. Qed.

(** ** Finding the datagram *)

Definition same_datagram (iphdr hdr : bytes) : bool :=
  (hdr_field 4 IPH_SRC iphdr =? hdr_field 4 IPH_SRC hdr)
  && (hdr_field 4 IPH_DEST iphdr =? hdr_field 4 IPH_DEST hdr)
  && (hdr_field 2 IPH_ID iphdr =? hdr_field 2 IPH_ID hdr).

Lemma bind_match {B} s k iphdr (c : bool → prog stack B) :
  in_memory (st_pbufs s) k →
  (ip_addresses_and_id_match iphdr (k_loc k, p_payload (k_pbuf k)) ≫= c) s
  = c (same_datagram iphdr (k_hdr k)) s.
Proof.
  intros Hk. unfold ip_addresses_and_id_match. rewrite bind_assoc.
  rewrite (bind_load_packet 4 s _ _ _ _ _ _ _ Hk), bind_assoc by (unfold IPH_SRC; lia).
  rewrite (bind_load_packet 4 s _ _ _ _ _ _ _ Hk), bind_assoc by (unfold IPH_DEST; lia).
  by rewrite (bind_load_packet 2 s _ _ _ _ _ _ _ Hk) by (unfold IPH_ID; lia).
Qed.

Lemma match_loop_none s k q ls fuel :
  in_memory (st_pbufs s) k → linked r_next (reass_structs (lget s)) q ls →
  Forall (λ x, same_datagram (r_iphdr x.2) (k_hdr k) = false) ls → (length ls ≤ fuel)%nat →
  match_loop fuel (k_loc k, p_payload (k_pbuf k)) q s = inr (None, s).
Proof.
  intros Hk Hl. revert fuel. induction Hl as [|r b ls E Hl IH]; intros fuel Hn Hf.
  { by destruct fuel. }
  destruct fuel as [|fuel]; [simpl in Hf; lia|]. inversion Hn as [|? ? Hb Hn']; subst.
  cbn [snd] in Hb. cbn [match_loop]. rewrite (bind_rderef _ _ _ _ E), (bind_match _ _ _ _ Hk), Hb.
  apply IH; [done|simpl in Hf; lia].
Qed.

(** ** One fragment *)

Context (custom_free : CF → loc → prog (heap CF) unit).
Context (mem_avail : heap CF → Z → bool) (garbage : heap CF → nat → Z).
Context (output ip_frag : netif_loc → loc → Z → prog stack err_t).
Context (reass_avail : stack → bool).

Abbreviation ip_reass :=
  (ip_reass custom_free mem_avail garbage output ip_frag reass_avail).
Abbreviation ip_reass_add :=
  (ip_reass_add custom_free mem_avail garbage output ip_frag reass_avail).
Abbreviation datagram_of :=
  (datagram_of custom_free mem_avail garbage output ip_frag reass_avail).

(** The number of pbufs of a packet. *)
Definition k_clen k : Z := u8 (1 + zlen (k_tail k)).

Lemma ip_reass_start s k :
  in_memory (st_pbufs s) k → Z.land (hdr_field 1 IPH_VHL (k_hdr k)) 0x0f = 5 →
  ip_reass_pbufcount (lget s) + k_clen k ≤ IP_REASS_MAX_PBUFS →
  ip_reass (k_loc k) s
  = ip_reass_add (k_loc k) (k_loc k, p_payload (k_pbuf k)) (hdr_offset (k_hdr k))
      (hdr_len (k_hdr k)) (k_clen k) s.
Proof.
  intros Hk Hv Hr. unfold IpReass.ip_reass. destruct (packet_head _ _ _ _ _ _ Hk) as (E & _ & _).
  rewrite (bind_lift_payload _ _ _ _ E).
  rewrite (bind_load_packet 1 s _ _ _ _ _ _ _ Hk) by (unfold IPH_VHL; lia).
  rewrite Hv. change (5 * 4 =? IP_HLEN) with true. cbn [negb].
  rewrite (bind_frag_offset s _ _ _ _ _ _ Hk), (bind_frag_len s _ _ _ _ _ _ Hk).
  pose proof Hk as (Hc & _). rewrite (bind_lift_same _ _ s (k_clen k)).
  2:{ cbn [lget stack_lens_pbufs]. rewrite (clen_eq _ _ _ Hc). unfold k_clen. by rewrite zlen_cons. }
  rewrite (bind_ret _ _ s true s); [done|]. unfold ip_reass_room.
  rewrite (bind_lift_same _ _ s (lget s)) by done. by rewrite (proj2 (Z.ltb_ge _ _) Hr).
Qed.

(** The datagram is the first one of the queue, and the fragment is not its
    first one. *)
Lemma datagram_of_head s k r b :
  in_memory (st_pbufs s) k → reassdatagrams (lget s) = Some r →
  reass_structs (lget s) !! r = Some b → same_datagram (r_iphdr b) (k_hdr k) = true →
  hdr_offset (k_hdr k) ≠ 0 →
  datagram_of (k_loc k, p_payload (k_pbuf k)) (k_clen k) s = inr (Some r, s).
Proof.
  intros Hk Eh Er Hm Ho. unfold IpReass.datagram_of. rewrite (bind_lift_same _ _ s (lget s)) by done.
  rewrite Eh. cbn [match_loop]. rewrite (bind_ret _ _ s (Some r) s).
  2:{ by rewrite (bind_rderef _ _ _ _ Er), (bind_match _ _ _ _ Hk), Hm. }
  rewrite (bind_rderef _ _ _ _ Er).
  rewrite (bind_load_packet 2 s _ _ _ _ _ _ _ Hk) by (unfold IPH_OFFSET; lia).
  unfold hdr_offset in Ho. destruct (Z.eqb_spec (Z.land (lwip_ntohs (hdr_field 2 IPH_OFFSET (k_hdr k)))
    IP_OFFMASK) 0) as [E|_]; [by rewrite E in Ho|]. done.
Qed.

(** A new datagram is put in front of the others. *)
Lemma datagram_of_new s k ls :
  in_memory (st_pbufs s) k → linked r_next (reass_structs (lget s)) (reassdatagrams (lget s)) ls →
  Forall (λ x, same_datagram (r_iphdr x.2) (k_hdr k) = false) ls → reass_avail s = true →
  let rs := lget (D := reass_state) s in
  let r := fresh (dom (reass_structs rs)) in
  datagram_of (k_loc k, p_payload (k_pbuf k)) (k_clen k) s
  = inr (Some r, lput (mk_reass_state
      (<[r:=mk_ip_reassdata (reassdatagrams rs) None (k_hdr k) 0 0 IP_REASS_MAXAGE]> (reass_structs rs))
      (Some r) (ip_reass_pbufcount rs)) s).
Proof.
  intros Hk Hl Hn Ha rs r. unfold IpReass.datagram_of. rewrite (bind_lift_same _ _ s rs) by done.
  rewrite (bind_ret _ _ s None s).
  2:{ apply match_loop_none with ls; try done. pose proof (linked_length _ _ _ Hl). unfold rs. lia. }
  unfold ip_reass_enqueue_new_datagram, reass_malloc. rewrite bind_assoc, bind_get, Ha.
  rewrite (bind_assoc (lift pget)), (bind_lift_same _ _ s rs) by done. fold r.
  rewrite bind_assoc. erewrite (bind_ret (lift (pmodify _))); [|by apply lift_ret].
  rewrite bind_mret, bind_mret. fold rs. set (b0 := mk_ip_reassdata None None _ _ _ _).
  assert (Eu : ∀ b f m hd n, rupdate r f (mk_reass_state (<[r:=b]> m) hd n)
            = inr (tt, mk_reass_state (<[r:=f b]> m) hd n)).
  { intros. unfold rupdate, rderef. rewrite bind_assoc_get. cbn [reass_structs].
    rewrite lookup_insert_eq, (bind_deref _ _ _ _ eq_refl). unfold pmodify, set_structs. cbn.
    by rewrite insert_insert_eq. }
  unfold set_structs. rewrite (bind_lift_put _ _ _ _ _ _ (Eu _ _ _ _ _)).
  rewrite (bind_lift_put pget _ s _ _ _ eq_refl). cbn [reassdatagrams].
  rewrite (bind_lift_put _ _ _ _ _ _ (Eu _ _ _ _ _)).
  erewrite bind_lift_put by done. cbn [set_head reass_structs ip_reass_pbufcount].
  unfold set_head. cbn [reass_structs ip_reass_pbufcount].
  destruct (packet_head _ _ _ _ _ _ Hk) as (E & Hok & Hh). pose proof Hk as (_ & _ & _ & Hl20 & _).
  rewrite (bind_lift_same _ _ _ (k_hdr k)).
  2:{ cbn [lget stack_lens_pbufs]. change (st_pbufs (lput _ s)) with (st_pbufs s).
      rewrite (mread_eq _ _ (k_pbuf k)) by (done || unfold IP_HLEN; lia).
      change (Z.to_nat IP_HLEN) with 20%nat. by rewrite drop_0, Hh. }
  rewrite (bind_lift_put _ _ _ _ _ _ (Eu _ _ _ _ _)). done.
Qed.

(** What is left to do once the datagram is known. *)
Definition ip_reass_chain (r : rloc) (p : loc) : prog stack (option loc) :=
  valid ← ip_reass_chain_frag_into_datagram_and_validate custom_free r p;
  if negb valid then mret None
  else p ← ip_reass_finish r; mret (Some p).

(** The entry of a datagram that gets a fragment. *)
Definition noted k (b : ip_reassdata) : ip_reassdata :=
  if hdr_more (k_hdr k) then b
  else with_last (u16 (hdr_offset (k_hdr k) + hdr_len (k_hdr k))) b.

Lemma ip_reass_add_eq S s k r b m hd n :
  in_memory (st_pbufs s) k →
  datagram_of (k_loc k, p_payload (k_pbuf k)) (k_clen k) S
  = inr (Some r, lput (mk_reass_state (<[r:=b]> m) hd n) s) →
  ip_reass_add (k_loc k) (k_loc k, p_payload (k_pbuf k)) (hdr_offset (k_hdr k))
    (hdr_len (k_hdr k)) (k_clen k) S
  = ip_reass_chain r (k_loc k)
      (lput (mk_reass_state (<[r:=noted k b]> m) hd (u16 (n + k_clen k))) s).
Proof.
  intros Hk Ed. unfold IpReass.ip_reass_add. rewrite (bind_ret _ _ _ _ _ Ed).
  erewrite bind_lift_put by done. unfold set_count. cbn [reass_structs reassdatagrams ip_reass_pbufcount].
  assert (Hk' : in_memory (st_pbufs (lput (mk_reass_state (<[r:=b]> m) hd (u16 (n + k_clen k))) s)) k)
    by exact Hk.
  rewrite (bind_load_packet 2 _ _ _ _ _ _ _ _ Hk') by (unfold IPH_OFFSET; lia).
  unfold noted, hdr_more. destruct (_ =? 0); cbn [negb]; [|done].
  erewrite bind_lift_put; [done|]. unfold rupdate, rderef. rewrite bind_assoc_get.
  cbn [reass_structs]. rewrite lookup_insert_eq, (bind_deref _ _ _ _ eq_refl).
  unfold pmodify, set_structs. cbn. by rewrite insert_insert_eq.
Qed.

(** The state while fragments of the datagram [hdr] are collected at [r] in
    front of the queue of [rs]: the first one is [p], and [n] pbufs are queued. *)
Definition during (rs : reass_state) (r : rloc) (hdr : bytes) (p : option loc) (n : Z) : reass_state :=
  mk_reass_state
    (<[r:=mk_ip_reassdata (reassdatagrams rs) p hdr 0 0 IP_REASS_MAXAGE]> (reass_structs rs))
    (Some r) n.

(** The fragments collected so far. *)
Definition collected (h : heap CF) (fs : list frag) : Prop :=
  frags_at h fs ∧ NoDup (locs_of fs) ∧ contiguous 0 fs = true ∧ nonempty fs.

Lemma collected_snoc h h' fs hdr more k :
  collected h fs → frags_at h' (fs ++ [k_frag k]) → apart (k_frag k) fs →
  fragment_of hdr (end_of 0 fs) more k → NoDup (k_locs k) → collected h' (fs ++ [k_frag k]).
Proof.
  intros (Hfs & Hnd & Hc & Hn) Hfs' Ha Hk Hndk.
  pose proof (end_of_ge _ _ Hc Hn) as He. destruct (k_frag_range _ _ _ _ Hk He) as (Es & Ee & _).
  pose proof Hk as (_ & _ & _ & _ & _ & _ & Hp & _). split; [done|]. split_and!.
  - rewrite locs_of_app, locs_of_1. apply list.NoDup_app. split_and!; [done| |done].
    intros l Hl Hl'. by eapply Ha.
  - rewrite contiguous_app, Hc. cbn [contiguous andb]. by rewrite Es, Z.eqb_refl.
  - apply Forall_app_2; [done|]. constructor; [|constructor].
    unfold k_frag, frag_of in *. cbn [f_start f_end f_data] in *. lia.
Qed.

Lemma in_memory_nodup h k : in_memory h k → NoDup (k_locs k).
Proof. intros (Hc & _). apply (linked_nodup _ _ _ Hc). Qed.

(** Placing the next fragment, in the state [rs] in which [b] is the entry. *)
Lemma chain_frag_next s r b fs k :
  reass_structs (lget s) !! r = Some b → r_p b = head_loc fs → collected (st_pbufs s) fs →
  in_memory (st_pbufs s) k → apart (k_frag k) fs →
  (∃ hdr more, fragment_of hdr (end_of 0 fs) more k) →
  ∃ h', collected h' (fs ++ [k_frag k]) ∧
    (∀ l, l ∉ locs_of fs → l ≠ k_loc k → h' !! l = st_pbufs s !! l) ∧
    let S' := at_queue s r b h' (head_loc (fs ++ [k_frag k])) in
    ip_reass_chain_frag_into_datagram_and_validate custom_free r (k_loc k) s
    = if negb (Z.land (r_flags b) IP_REASS_FLAG_LASTFRAG =? 0)
      then validate r (f_ptr (k_frag k)) S' else inr (false, S').
Proof.
  intros Er Ep Hcol Hk Ha (hdr & more & Hf). pose proof Hcol as (Hfs & Hnd & Hc & Hn).
  destruct (chain_frag_eq custom_free s r b fs (k_loc k) (k_pbuf k) (k_tail k) (k_hdr k) (k_data k)
    Er Ep Hfs Hnd Hk Ha) as (h' & p' & [Ho Hpl] & E).
  destruct (k_frag_range _ _ _ _ Hf (end_of_ge _ _ Hc Hn)) as (Es & _).
  fold (k_frag k) in *. rewrite (place_append _ _ Hc Hn Es) in *. destruct Hpl as [-> Hfs'].
  exists h'. split_and!.
  - eapply collected_snoc; try done. by eapply in_memory_nodup.
  - intros l Hl Hl'. by apply Ho.
  - rewrite E. cbn [app]. by rewrite andb_true_r.
Qed.

Lemma at_queue_put s r b m hd n h h' p :
  at_queue (lput (mk_reass_state (<[r:=b]> m) hd n) (set_pbufs h s)) r b h' p
  = lput (mk_reass_state (<[r:=with_rp p b]> m) hd n) (set_pbufs h' s).
Proof.
  unfold at_queue. rewrite lget_lput. cbn [reass_structs set_structs reassdatagrams ip_reass_pbufcount].
  unfold set_structs. cbn [reass_structs reassdatagrams ip_reass_pbufcount]. rewrite insert_insert_eq.
  change (set_pbufs h' (lput ?d (set_pbufs h s))) with (lput (D := reass_state) d (set_pbufs h' s)).
  by rewrite lput_lput.
Qed.

Definition entry (rs : reass_state) (hdr : bytes) (p : option loc) : ip_reassdata :=
  mk_ip_reassdata (reassdatagrams rs) p hdr 0 0 IP_REASS_MAXAGE.

Lemma fragment_same hdr e more k : fragment_of hdr e more k → same_datagram hdr (k_hdr k) = true.
Proof.
  intros (_ & E1 & E2 & E3 & _). unfold same_datagram. by rewrite E1, E2, E3, !Z.eqb_refl.
Qed.

(** A fragment that is not the first one finds its datagram. *)
Lemma ip_reass_next s rs r hdr fs more n h k :
  collected h fs → fs ≠ [] → in_memory h k →
  fragment_of hdr (end_of 0 fs) more k → n + k_clen k ≤ IP_REASS_MAX_PBUFS →
  ip_reass (k_loc k) (lput (during rs r hdr (head_loc fs) n) (set_pbufs h s))
  = ip_reass_chain r (k_loc k)
      (lput (mk_reass_state (<[r:=noted k (entry rs hdr (head_loc fs))]> (reass_structs rs)) (Some r)
               (u16 (n + k_clen k))) (set_pbufs h s)).
Proof.
  intros Hcol Hne Hk Hf Hmax. set (S' := lput _ _).
  assert (ES : lget S' = during rs r hdr (head_loc fs) n) by apply lget_lput.
  assert (HkS : in_memory (st_pbufs S') k) by done.
  rewrite ip_reass_start; [|done|apply Hf|by rewrite ES].
  rewrite (ip_reass_add_eq S' (set_pbufs h s) k r (entry rs hdr (head_loc fs)) (reass_structs rs)
    (Some r) n); [done|done|].
  apply (datagram_of_head S' k r (entry rs hdr (head_loc fs))); rewrite ?ES; try done.
  - apply lookup_insert_eq.
  - by eapply fragment_same.
  - destruct Hf as (_ & _ & _ & _ & -> & _). destruct Hcol as (_ & _ & Hc & Hn).
    destruct fs as [|f fs]; [done|]. cbn [contiguous] in Hc.
    apply andb_true_iff in Hc as [E%Z.eqb_eq Hc]. inversion Hn; subst.
    rewrite end_of_cons. pose proof (end_of_ge _ _ Hc ltac:(done)). lia.
Qed.

(** A fragment that is neither the first nor the last one. *)
Lemma ip_reass_middle s rs r hdr fs n h k :
  collected h fs → fs ≠ [] → in_memory h k → apart (k_frag k) fs →
  fragment_of hdr (end_of 0 fs) true k → 0 ≤ n → n + k_clen k ≤ IP_REASS_MAX_PBUFS →
  ∃ h', ip_reass (k_loc k) (lput (during rs r hdr (head_loc fs) n) (set_pbufs h s))
      = inr (None, lput (during rs r hdr (head_loc (fs ++ [k_frag k])) (n + k_clen k)) (set_pbufs h' s)) ∧
    collected h' (fs ++ [k_frag k]) ∧
    ∀ l, l ∉ locs_of (fs ++ [k_frag k]) → h' !! l = h !! l.
Proof.
  intros Hcol Hne Hk Ha Hf Hn Hmax. rewrite (ip_reass_next _ _ _ _ _ true) by done.
  unfold noted. pose proof Hf as (_ & _ & _ & _ & _ & _ & _ & -> & _).
  set (S1 := lput _ _). set (b := entry _ _ _) in *.
  assert (E1 : reass_structs (lget S1) !! r = Some b).
  { unfold S1. rewrite lget_lput. apply lookup_insert_eq. }
  destruct (chain_frag_next S1 r b fs k E1 eq_refl Hcol Hk Ha) as (h' & Hcol' & Ho & E); [by eauto|].
  exists h'. split_and!; [|apply Hcol'..|].
  - unfold ip_reass_chain. rewrite (bind_ret _ _ _ _ _ E). cbn [negb]. unfold S1.
    rewrite at_queue_put. rewrite u16_id; [done|]. unfold is_u16, IP_REASS_MAX_PBUFS in *.
    pose proof (u8_range (1 + zlen (k_tail k))). unfold k_clen, is_u8 in *. lia.
  - intros l Hl. rewrite locs_of_app, not_elem_of_app, locs_of_1 in Hl. destruct Hl as [Hl Hl'].
    apply Ho; [done|]. intros ->. apply Hl'. left.
Qed.

(** The first fragment. *)
Lemma ip_reass_first s k ls :
  let rs := lget (D := reass_state) s in
  let r := fresh (dom (reass_structs rs)) in
  in_memory (st_pbufs s) k → linked r_next (reass_structs rs) (reassdatagrams rs) ls →
  Forall (λ x, same_datagram (r_iphdr x.2) (k_hdr k) = false) ls → reass_avail s = true →
  fragment_of (k_hdr k) 0 true k → 0 ≤ ip_reass_pbufcount rs →
  ip_reass_pbufcount rs + k_clen k ≤ IP_REASS_MAX_PBUFS →
  ∃ h', ip_reass (k_loc k) s
      = inr (None, lput (during rs r (k_hdr k) (head_loc [k_frag k]) (ip_reass_pbufcount rs + k_clen k))
                     (set_pbufs h' s)) ∧
    collected h' [k_frag k] ∧ ∀ l, l ∉ k_locs k → h' !! l = st_pbufs s !! l.
Proof.
  intros rs r Hk Hl Hn Ha Hf Hc Hmax. rewrite ip_reass_start; [|done|apply Hf|done].
  rewrite (ip_reass_add_eq _ s _ r _ _ _ _ Hk (datagram_of_new s k ls Hk Hl Hn Ha)).
  unfold noted. pose proof Hf as (_ & _ & _ & _ & _ & _ & _ & -> & _). fold rs.
  set (S1 := lput _ _). set (b := mk_ip_reassdata _ _ _ _ _ _) in *.
  assert (E1 : reass_structs (lget S1) !! r = Some b).
  { unfold S1. rewrite lget_lput. apply lookup_insert_eq. }
  destruct (chain_frag_next S1 r b [] k E1 eq_refl) as (h' & Hcol' & Ho & E).
  { split_and!; [done|constructor|done|constructor]. }
  { done. }
  { intros l _ Hl'. by apply elem_of_nil in Hl'. }
  { eauto. }
  exists h'. split_and!; [|apply Hcol'..|].
  - unfold ip_reass_chain. rewrite (bind_ret _ _ _ _ _ E). cbn [negb]. unfold S1.
    assert (Es : s = set_pbufs (st_pbufs s) s) by by destruct s. rewrite Es at 1.
    rewrite at_queue_put. rewrite u16_id; [done|]. unfold is_u16, IP_REASS_MAX_PBUFS in *.
    pose proof (u8_range (1 + zlen (k_tail k))). unfold k_clen, is_u8 in *. lia.
  - intros l Hl'. apply Ho; [by apply not_elem_of_nil|]. intros ->. apply Hl'. left.
Qed.

End order.
End IpReassOrder.
