(* ===== verification/IpReassAll.v ===== *)
(** * Reassembly of a whole datagram

    The last fragment completes the datagram; all fragments of a datagram, in
    order, give back its bytes. *)

From S2P Require Import Prelude Def Ip4Addr InetChksum Netif Udp Pbuf Linked PbufChain PbufOps Stack.
From S2P Require Import StackMem Ip4 Icmp IpReass IpFrag IpReassQueue IpReassProps IpReassDone.
From S2P Require Import IpReassOrder IpFragRuns.

Module IpReassAll.
Import Def Ip4Addr InetChksum Netif Udp Pbuf Linked PbufChain PbufOps Stack StackMem Ip4 Icmp IpReass
  IpFrag IpReassQueue IpReassProps IpReassDone IpReassOrder IpFragRuns.

Section all.
Context {CF F A X : Type} `{HL : Lens X reass_state}.
Abbreviation stack := (stack CF F A X).
Abbreviation packet := (packet CF).
Implicit Types (s : stack) (k : packet).
Context (custom_free : CF → loc → prog (heap CF) unit).
Context (mem_avail : heap CF → Z → bool) (garbage : heap CF → nat → Z).
Context (output ip_frag : netif_loc → loc → Z → prog stack err_t).
Context (reass_avail : stack → bool).

Abbreviation ip_reass :=
  (ip_reass custom_free mem_avail garbage output ip_frag reass_avail).

(** The fragments [ks] of the datagram with the header [hdr], from [e] on, in
    order. *)
Fixpoint in_order (hdr : bytes) (e : Z) (ks : list packet) : Prop :=
  match ks with
  | [] => False
  | [k] => fragment_of hdr e false k
  | k :: ks' => fragment_of hdr e true k ∧ in_order hdr (e + zlen (k_data k)) ks'
  end.

Definition all_locs (ks : list packet) : list loc := concat (k_locs <$> ks).

Lemma verdict_last fs f :
  fs ≠ [] → contiguous 0 fs = true → verdict (f_end f) fs f [] = inr true.
Proof.
  intros Hne Hc. unfold verdict. destruct fs as [|g fs]; [done|].
  cbn [contiguous] in Hc. apply andb_true_iff in Hc as [E _]. cbn [hd]. rewrite Z.eqb_sym, E.
  cbn [negb contiguous app]. rewrite bool_decide_eq_false_2 by done.
  unfold end_of. cbn. by rewrite Z.eqb_refl.
Qed.

(** The last fragment. *)
Lemma ip_reass_last s rs r hdr f fs n h k :
  collected h (f :: fs) → length hdr = 20%nat → in_memory h k → apart (k_frag k) (f :: fs) →
  fragment_of hdr (end_of 0 (f :: fs)) false k → reass_structs rs !! r = None →
  0 ≤ n → n + k_clen k ≤ IP_REASS_MAX_PBUFS →
  let gs := f :: fs ++ [k_frag k] in
  ∃ h' ls', ip_reass (k_loc k) (lput (during rs r hdr (head_loc (f :: fs)) n) (set_pbufs h s))
      = inr (Some (f_loc f), lput (set_count (u16 (n + k_clen k - u8 (zlen ls'))) rs) (set_pbufs h' s)) ∧
    chain_at h' (Some (f_loc f)) ls' ∧ chain_wf ls' ∧ ls'.*1 = locs_of gs ∧
    data ls' = final_header (Z.odd (f_pay f)) hdr (20 + zlen (concat (f_data <$> gs)))
               ++ concat (f_data <$> gs) ∧
    ∀ l, l ∉ locs_of gs → h' !! l = h !! l.
Proof.
  intros Hcol Hh Hk Ha Hf Hr Hn Hmax gs.
  rewrite (ip_reass_next _ _ _ _ _ _ s rs r hdr (f :: fs) false) by done.
  pose proof Hcol as (_ & _ & Hc & Hne). pose proof (end_of_ge _ _ Hc Hne) as He.
  destruct (k_frag_range _ _ _ _ Hf He) as (Es & Ee & Ed).
  pose proof Hf as (_ & _ & _ & _ & Ho & Hl & Hp & Hm & Hlt).
  unfold noted. rewrite Hm, Ho, Hl. set (S1 := lput _ _). set (b := with_last _ _) in *.
  assert (E1 : reass_structs (lget S1) !! r = Some b).
  { unfold S1. rewrite lget_lput. apply lookup_insert_eq. }
  destruct (chain_frag_next custom_free S1 r b (f :: fs) k E1 eq_refl Hcol Hk Ha)
    as (h1 & Hcol1 & Ho1 & E); [by eauto|].
  unfold ip_reass_chain. pose proof Hcol1 as (Hfs1 & Hnd1 & Hc1 & Hne1).
  cbv zeta in E. rewrite validate_eq in E by done.
  assert (Hb : r_datagram_len b = f_end (k_frag k)).
  { unfold b. cbn [with_last r_datagram_len]. rewrite Ee. apply u16_id. unfold is_u16. lia. }
  rewrite Hb, verdict_last in E by done.
  change (Z.land (r_flags b) IP_REASS_FLAG_LASTFRAG) with 1 in E. cbn [Z.eqb negb] in E.
  rewrite (bind_ret _ _ _ _ _ E). cbn [negb]. unfold S1. rewrite at_queue_put.
  assert (Hz : zlen (concat (f_data <$> gs)) = end_of 0 (f :: fs) + zlen (k_data k)).
  { unfold gs. change (f :: fs ++ [k_frag k]) with ((f :: fs) ++ [k_frag k]).
    rewrite fmap_app, concat_app, zlen_app, (contiguous_data _ _ Hc Hne).
    cbn [fmap list_fmap map concat]. rewrite app_nil_r, Ed. lia. }
  set (S2 := lput _ (set_pbufs h1 s)).
  assert (E2 : lget S2 = mk_reass_state (<[r:=with_rp (Some (f_loc f)) b]> (reass_structs rs)) (Some r)
                 (u16 (n + k_clen k))) by apply lget_lput.
  destruct (ip_reass_finish_eq S2 r (with_rp (Some (f_loc f)) b) f (fs ++ [k_frag k]))
    as (h' & ls' & E3 & Hch & Hwf & Hls & Hd & Ho3); rewrite ?E2; try done.
  { apply lookup_insert_eq. }
  { fold gs. lia. }
  exists h', ls'. rewrite (bind_ret _ _ _ _ _ E3), E2.
  cbn [reass_structs reassdatagrams ip_reass_pbufcount with_rp r_next b r_datagram_len r_iphdr] in *.
  split; [|split; [done|split; [done|split; [done|split]]]].
  - rewrite delete_insert_id by done. unfold b. cbn.
    change (set_pbufs h' S2) with (lput (D := reass_state) (mk_reass_state
      (<[r:=with_rp (Some (f_loc f)) b]> (reass_structs rs)) (Some r) (u16 (n + k_clen k)))
      (set_pbufs h' s)). rewrite lput_lput. rewrite (u16_id (n + k_clen k)); [done|].
    unfold is_u16, IP_REASS_MAX_PBUFS in *. pose proof (u8_range (1 + zlen (k_tail k))).
    unfold k_clen, is_u8 in *. lia.
  - rewrite Hd. fold gs. rewrite Hb, Ee, Hz.
    rewrite (u16_id (_ + _ + _)) by (unfold is_u16, IP_HLEN; lia). unfold IP_HLEN. do 2 f_equal. lia.
  - intros l Hl'. fold gs in Ho3. rewrite Ho3 by done. cbn [S2 st_pbufs].
    change (st_pbufs S2) with h1. unfold gs in Hl'.
    change (f :: fs ++ [k_frag k]) with ((f :: fs) ++ [k_frag k]) in Hl'.
    rewrite locs_of_app, not_elem_of_app, locs_of_1 in Hl'. destruct Hl' as [Hl1 Hl2].
    rewrite Ho1; [done|done|]. intros ->. apply Hl2. left.
Qed.

(** ** All fragments *)

(** [ip_reass] for one packet after the other; the results. *)
Fixpoint reass_all (ps : list loc) : prog stack (list (option loc)) :=
  match ps with
  | [] => mret []
  | p :: ps' => r ← ip_reass p; rs ← reass_all ps'; mret (r :: rs)
  end.

Lemma in_memory_agree h h' k :
  in_memory h k → (∀ l, l ∈ k_locs k → h' !! l = h !! l) → in_memory h' k.
Proof.
  intros (Hc & H) Hag. split; [|done]. eapply linked_agree; [done|]. intros l Hl. by apply Hag.
Qed.

Lemma all_locs_cons k ks : all_locs (k :: ks) = k_locs k ++ all_locs ks.
Proof. done. Qed.

Lemma in_order_cons hdr e k k' ks :
  in_order hdr e (k :: k' :: ks) ↔ fragment_of hdr e true k ∧ in_order hdr (e + zlen (k_data k)) (k' :: ks).
Proof. done. Qed.

Lemma k_clen_small k n : 0 ≤ n → n + zlen (k_locs k) ≤ IP_REASS_MAX_PBUFS → k_clen k = zlen (k_locs k).
Proof.
  unfold k_clen, k_locs, IP_REASS_MAX_PBUFS. rewrite zlen_cons. unfold zlen.
  rewrite length_fmap. intros. apply u8_id. unfold is_u8. lia.
Qed.

Lemma all_locs_elem k ks l : k ∈ ks → l ∈ k_locs k → l ∈ all_locs ks.
Proof.
  intros Hk Hl. unfold all_locs. apply list_elem_of_In, in_concat. exists (k_locs k).
  split; apply list_elem_of_In; [|done]. by apply list_elem_of_fmap_2.
Qed.

Lemma rest_facts fs k ks n :
  NoDup (locs_of fs ++ all_locs (k :: ks)) → 0 ≤ n →
  n + zlen (all_locs (k :: ks)) ≤ IP_REASS_MAX_PBUFS →
  k_clen k = zlen (k_locs k) ∧ n + k_clen k ≤ IP_REASS_MAX_PBUFS ∧ apart (k_frag k) fs ∧
  ∀ l, l ∈ all_locs ks → l ∉ locs_of (fs ++ [k_frag k]).
Proof.
  intros (_ & Hd & Hnd)%list.NoDup_app Hn Hmax. rewrite all_locs_cons in *.
  apply list.NoDup_app in Hnd as (_ & Hd2 & _). rewrite zlen_app in Hmax.
  pose proof (zlen_nonneg (all_locs ks)). assert (Hcl := k_clen_small k n Hn ltac:(lia)).
  split_and!; [done|lia| |].
  - intros l Hl Hl'. apply (Hd l Hl'), elem_of_app. by left.
  - intros l Hl. rewrite locs_of_app, locs_of_1. intros [Hl'|Hl']%elem_of_app.
    + apply (Hd l Hl'), elem_of_app. by right.
    + by apply (Hd2 l Hl').
Qed.

(** From the state in which some fragments have been collected. *)
Lemma reass_rest s rs r hdr f k ks fs n h :
  collected h (f :: fs) → length hdr = 20%nat → reass_structs rs !! r = None →
  Forall (in_memory h) (k :: ks) → NoDup (locs_of (f :: fs) ++ all_locs (k :: ks)) →
  in_order hdr (end_of 0 (f :: fs)) (k :: ks) →
  0 ≤ n → n + zlen (all_locs (k :: ks)) ≤ IP_REASS_MAX_PBUFS →
  let gs := f :: fs ++ (k_frag <$> k :: ks) in
  ∃ h' ls', reass_all (k_loc <$> k :: ks) (lput (during rs r hdr (head_loc (f :: fs)) n) (set_pbufs h s))
      = inr (replicate (length ks) None ++ [Some (f_loc f)],
             lput (set_count (u16 (n + zlen (all_locs (k :: ks)) - u8 (zlen ls'))) rs) (set_pbufs h' s)) ∧
    chain_at h' (Some (f_loc f)) ls' ∧ chain_wf ls' ∧ ls'.*1 = locs_of gs ∧
    data ls' = final_header (Z.odd (f_pay f)) hdr (20 + zlen (concat (f_data <$> gs)))
               ++ concat (f_data <$> gs) ∧
    ∀ l, l ∉ locs_of gs → h' !! l = h !! l.
Proof.
  revert k fs n h. induction ks as [|k' ks IH]; intros k fs n h Hcol Hh Hr Hmem Hnd Hord Hn Hmax gs;
    destruct (rest_facts (f :: fs) k _ n Hnd Hn Hmax) as (Hcl & Hmax1 & Hap & Hap');
    inversion Hmem as [|? ? Hk Hmem']; subst.
  - destruct (ip_reass_last s rs r hdr f fs n h k) as (h' & ls' & E & H); try done.
    exists h', ls'. split; [|done]. cbn [fmap list_fmap map reass_all].
    rewrite (bind_ret _ _ _ _ _ E). rewrite bind_mret, Hcl, all_locs_cons.
    unfold all_locs. cbn [fmap list_fmap map concat]. by rewrite app_nil_r.
  - apply in_order_cons in Hord as [Hf Hord].
    destruct (ip_reass_middle custom_free mem_avail garbage output ip_frag reass_avail
      s rs r hdr (f :: fs) n h k) as (h1 & E1 & Hcol1 & Ho1); try done.
    rewrite (all_locs_cons k), zlen_app, <-Hcl in *.
    assert (Heq : gs = f :: (fs ++ [k_frag k]) ++ (k_frag <$> k' :: ks)).
    { unfold gs. by rewrite <-app_assoc. }
    destruct (IH k' (fs ++ [k_frag k]) (n + k_clen k) h1) as (h' & ls' & E & Hc & Hwf & Hl & Hd & Ho);
      [done|done|done| | | |rewrite Hcl; pose proof (zlen_nonneg (k_locs k)); lia|lia|].
    + apply list.Forall_forall. intros k2 Hk2. eapply in_memory_agree.
      * by eapply (proj1 (list.Forall_forall _ _) Hmem').
      * intros l Hl. by apply Ho1, Hap', (all_locs_elem k2).
    + change (f :: fs ++ [k_frag k]) with ((f :: fs) ++ [k_frag k]).
      by rewrite locs_of_app, locs_of_1, <-app_assoc.
    + change (f :: fs ++ [k_frag k]) with ((f :: fs) ++ [k_frag k]).
      unfold end_of at 1. rewrite last_snoc. destruct Hcol as (_ & _ & Hct & Hne).
      destruct (k_frag_range _ _ _ _ Hf (end_of_ge _ _ Hct Hne)) as (_ & Ee & _).
      cbn [fmap option_fmap option_map default]. by rewrite Ee.
    + exists h', ls'. rewrite Heq. split; [|split; [done|split; [done|split; [done|split; [done|]]]]].
      * cbn [fmap list_fmap map]. cbn [reass_all]. rewrite (bind_ret _ _ _ _ _ E1).
        cbn [app] in E. rewrite (bind_ret _ _ _ _ _ E). rewrite Z.add_assoc. done.
      * intros l Hl'. rewrite Ho by done. apply Ho1. intros Hin. apply Hl'.
        rewrite app_comm_cons, locs_of_app. apply elem_of_app. by left.
Qed.

Lemma frags_of_packets ks :
  locs_of (k_frag <$> ks) = all_locs ks ∧ f_data <$> (k_frag <$> ks) = k_data <$> ks.
Proof.
  unfold locs_of, all_locs. split; [f_equal|]; induction ks as [|k ks IH]; [done| |done|];
    rewrite !fmap_cons; by f_equal.
Qed.

(** The pbufs of the datagram are no longer counted. *)
Lemma count_back rs n k ks (ls : list (loc * pbuf CF)) :
  ls.*1 = all_locs (k :: ks) → n = zlen (k_locs k) → 0 ≤ ip_reass_pbufcount rs →
  ip_reass_pbufcount rs + (n + zlen (all_locs ks)) ≤ IP_REASS_MAX_PBUFS →
  set_count (u16 (ip_reass_pbufcount rs + n + zlen (all_locs ks) - u8 (zlen ls))) rs = rs.
Proof.
  intros Hls -> Hn Hmax. assert (Hzl : zlen ls = zlen (k_locs k) + zlen (all_locs ks)).
  { rewrite <-zlen_app, <-all_locs_cons, <-Hls. unfold zlen. by rewrite length_fmap. }
  pose proof (zlen_nonneg (all_locs ks)). pose proof (zlen_nonneg (k_locs k)).
  unfold IP_REASS_MAX_PBUFS in *. rewrite Hzl, u8_id by (unfold is_u8; lia).
  rewrite u16_id by (unfold is_u16; lia). destruct rs. unfold set_count. cbn. f_equal. lia.
Qed.

(** Every fragment of a datagram, with no other packet between them. *)
Lemma reass_in_order s k0 k1 ks ls :
  let rs := lget (D := reass_state) s in
  let all := k0 :: k1 :: ks in
  linked r_next (reass_structs rs) (reassdatagrams rs) ls →
  Forall (λ x, same_datagram (r_iphdr x.2) (k_hdr k0) = false) ls →
  reass_avail s = true →
  Forall (in_memory (st_pbufs s)) all → NoDup (all_locs all) → in_order (k_hdr k0) 0 all →
  0 ≤ ip_reass_pbufcount rs →
  ip_reass_pbufcount rs + zlen (all_locs all) ≤ IP_REASS_MAX_PBUFS →
  let d := concat (k_data <$> all) in
  ∃ h' ls', reass_all (k_loc <$> all) s
      = inr (replicate (S (length ks)) None ++ [Some (k_loc k0)], set_pbufs h' s) ∧
    chain_at h' (Some (k_loc k0)) ls' ∧ chain_wf ls' ∧ ls'.*1 = all_locs all ∧
    data ls' = final_header (Z.odd (p_payload (k_pbuf k0))) (k_hdr k0) (20 + zlen d) ++ d ∧
    ∀ l, l ∉ all_locs all → h' !! l = st_pbufs s !! l.
Proof.
  intros rs all Hl Hnm Hav Hmem Hnd Hord Hn Hmax d.
  apply in_order_cons in Hord as [Hf Hord]. inversion Hmem as [|? ? Hk Hmem']; subst.
  destruct (rest_facts [] k0 (k1 :: ks) (ip_reass_pbufcount rs) Hnd Hn Hmax)
    as (Hcl & Hmax1 & _ & Hap).
  destruct (ip_reass_first custom_free mem_avail garbage output ip_frag reass_avail s k0 ls)
    as (h1 & E1 & Hcol & Ho1); try done. fold rs in E1. set (r := fresh _) in *.
  pose proof (zlen_nonneg (k_locs k0)) as Hz. unfold all in Hmax, Hnd.
  rewrite (all_locs_cons k0), zlen_app in Hmax.
  destruct (k_frag_range _ _ _ _ Hf ltac:(lia)) as (_ & Ee & _).
  destruct (reass_rest s rs r (k_hdr k0) (k_frag k0) k1 ks [] (ip_reass_pbufcount rs + k_clen k0) h1)
    as (h' & ls' & E & Hc & Hwf & Hls & Hd & Ho).
  { done. }
  { apply Hk. }
  { apply not_elem_of_dom, is_fresh. }
  { apply list.Forall_forall. intros k2 Hk2. eapply in_memory_agree.
    - by eapply (proj1 (list.Forall_forall _ _) Hmem').
    - intros l Hin. apply Ho1. intros Hin'. apply (Hap l); [by apply (all_locs_elem k2)|].
      rewrite app_nil_l, locs_of_1. done. }
  { by rewrite locs_of_1. }
  { unfold end_of. cbn [list.last fmap option_fmap option_map default]. by rewrite Ee. }
  { lia. }
  { lia. }
  destruct (frags_of_packets all) as [Fl Fd].
  change (k_frag k0 :: [] ++ (k_frag <$> k1 :: ks)) with (k_frag <$> all) in *.
  rewrite Fl, Fd in *. exists h', ls'. split; [|split; [done|split; [done|split; [done|split; [done|]]]]].
  - unfold all. rewrite fmap_cons. cbn [reass_all]. rewrite (bind_ret _ _ _ _ _ E1).
    rewrite (bind_ret _ _ _ _ _ E). 
    rewrite (count_back rs (k_clen k0) k0 (k1 :: ks) ls') by (done || lia).
    change rs with (lget (D := reass_state) (set_pbufs h' s)). by rewrite lput_lget.
  - intros l Hin. rewrite Ho by done. apply Ho1. intros Hin'. apply Hin. unfold all.
    rewrite all_locs_cons. apply elem_of_app. by left.
Qed.

(** The fragments of a datagram that arrive one after the other, in order,
    are reassembled: [ip_reass] returns nothing for all but the last one, and
    for the last one the chain that starts with the first fragment, whose data
    is the header of the first fragment (with the length of the datagram, no
    offset and no flags, and a new checksum) followed by the data of all
    fragments.  The queue of other datagrams is as before, and nothing else in
    memory changes. *)
Theorem ip_reass_in_order s k0 k1 ks ls :
  let rs := lget (D := reass_state) s in
  let all := k0 :: k1 :: ks in
  linked r_next (reass_structs rs) (reassdatagrams rs) ls →
  Forall (λ x, same_datagram (r_iphdr x.2) (k_hdr k0) = false) ls →
  reass_avail s = true →
  Forall (in_memory (st_pbufs s)) all → NoDup (all_locs all) → in_order (k_hdr k0) 0 all →
  0 ≤ ip_reass_pbufcount rs →
  ip_reass_pbufcount rs + zlen (all_locs all) ≤ IP_REASS_MAX_PBUFS →
  let d := concat (k_data <$> all) in
  ∃ h' ls', reass_all (k_loc <$> all) s
      = inr (replicate (S (length ks)) None ++ [Some (k_loc k0)], set_pbufs h' s) ∧
    chain_at h' (Some (k_loc k0)) ls' ∧ chain_wf ls' ∧ ls'.*1 = all_locs all ∧
    data ls' = final_header (Z.odd (p_payload (k_pbuf k0))) (k_hdr k0) (20 + zlen d) ++ d ∧
    ∀ l, l ∉ all_locs all → h' !! l = st_pbufs s !! l.
Proof. apply reass_in_order. Qed.
End all.

(** *** A run *)

(** Packets in one pool pbuf each, and a stack that holds them. *)
Definition toy_packet (l : loc) (d : bytes) : packet run_fn :=
  mk_packet l (mk_pbuf None d 0 (zlen d) (zlen d) PBUF_POOL 0 1 None) [] (take 20 d) (drop 20 d).
Definition toy_stack (ks : list (packet run_fn)) : wire :=
  set_pbufs (list_to_map ((λ k, (k_loc k, k_pbuf k)) <$> ks)) (run_start 1500).

Lemma toy_in_memory (ks : list (packet run_fn)) :
  NoDup (k_loc <$> ks) →
  Forall (λ k, ∃ l d, k = toy_packet l d ∧ 20 ≤ zlen d < 65536 ∧ addr_ok (Some l)) ks →
  Forall (in_memory (st_pbufs (toy_stack ks))) ks.
Proof.
  intros Hnd Hk. apply list.Forall_forall. intros k Hin.
  assert (Hl : st_pbufs (toy_stack ks) !! k_loc k = Some (k_pbuf k)).
  { apply elem_of_list_to_map_1; [by rewrite <-list_fmap_compose|].
    by apply (list_elem_of_fmap_2 (λ k, (k_loc k, k_pbuf k)) ks k). }
  destruct (proj1 (list.Forall_forall _ _) Hk k Hin) as (l & d & -> & Hd & Ha).
  unfold in_memory, packet_at, toy_packet in *. cbn [k_loc k_pbuf k_tail k_hdr k_data] in *.
  set (b := mk_pbuf _ _ _ _ _ _ _ _ _) in *.
  assert (Hp : pdata b = d).
  { unfold pdata, b. cbn [p_mem p_payload p_len]. change (Z.to_nat 0) with 0%nat. rewrite drop_0.
    apply take_ge. unfold zlen. lia. }
  assert (Hdt : data [(l, b)] = d) by (unfold data; cbn; by rewrite Hp, app_nil_r).
  split; [by repeat econstructor|]. split.
  { cbn [chain_wf]. rewrite Hdt. unfold pbuf_ok. cbn. lia. }
  split; [by repeat constructor|]. split; [cbn; lia|]. split; [rewrite length_take; unfold zlen in *; lia|].
  split; [by rewrite Hdt, take_drop|done].
Qed.

Definition toy_fragments : list (packet run_fn) :=
  [toy_packet 1 (f8 7 0 true 1); toy_packet 2 (f8 7 8 true 2); toy_packet 3 (f8 7 16 false 3)].

Lemma toy_fragments_in_memory : Forall (in_memory (st_pbufs (toy_stack toy_fragments))) toy_fragments.
Proof.
  apply toy_in_memory; [by apply (bool_decide_unpack _)|].
  repeat constructor; eexists _, _; (split; [reflexivity|by vm_compute]).
Qed.

Lemma ip_reass_in_order_witness :
  ∃ h' ls', reass_all run_free run_avail run_garbage run_output run_ip_frag (λ _, true)
              [1%positive; 2%positive; 3%positive] (toy_stack toy_fragments)
      = inr ([None; None; Some 1%positive], set_pbufs h' (toy_stack toy_fragments)) ∧
    chain_at h' (Some 1%positive) ls' ∧
    drop 20 (data ls') = replicate 8 1 ++ replicate 8 2 ++ replicate 8 3.
Proof.
  destruct (ip_reass_in_order run_free run_avail run_garbage run_output run_ip_frag (λ _, true)
    (toy_stack toy_fragments) (toy_packet 1 (f8 7 0 true 1)) (toy_packet 2 (f8 7 8 true 2))
    [toy_packet 3 (f8 7 16 false 3)] []) as (h' & ls' & E & Hc & _ & _ & Hd & _).
  - constructor.
  - constructor.
  - reflexivity.
  - apply toy_fragments_in_memory.
  - by apply (bool_decide_unpack _).
  - cbv [in_order fragment_of]. repeat split; by vm_compute.
  - by vm_compute.
  - by vm_compute.
  - exists h', ls'. split; [exact E|]. split; [exact Hc|]. rewrite Hd. vm_compute. reflexivity.
Defined.
End IpReassAll.
