(* ===== verification/IpFragProps.v ===== *)
(** * Fragmentation: correctness

    The fragments of a packet as a function of its bytes; [ip_frag] sends
    exactly these, and puts the heap back. *)

From S2P Require Import Prelude Def Ip4Addr InetChksum Netif Udp Pbuf Linked PbufChain PbufOps PbufAlloc.
From S2P Require Import Stack StackMem Ip4 Ip4Props Icmp IpFrag IpReassDone.

Module IpFragProps.
Import Def Ip4Addr InetChksum Netif Udp Pbuf Linked PbufChain PbufOps PbufAlloc Stack StackMem Ip4
  Ip4Props Icmp IpFrag IpReassDone.

(** ** The fragments of a packet *)

(** The header [hdr] with another offset and length. *)
Definition frag_hdr (hdr : bytes) (tmp len : Z) : bytes :=
  let h := splice 10 (le_bytes 2 0)
             (splice 2 (le_bytes 2 (lwip_htons len)) (splice 6 (le_bytes 2 (lwip_htons tmp)) hdr)) in
  splice 10 (le_bytes 2 (inet_chksum false h)) h.

(** The fragments of the data [d] that begins at [ofo * 8], at most [mtu] long
    with their header; [fuel] is as in [frag_loop]. *)
Fixpoint fragments_from (fuel : nat) (hdr : bytes) (mtu omf ofo : Z) (d : bytes) : list bytes :=
  match fuel, d with
  | O, _ | _, [] => []
  | S fuel', _ =>
      let nfb := (mtu - 20) / 8 in
      let last := zlen d <=? mtu - 20 in
      let cop := if last then zlen d else nfb * 8 in
      let tmp := Z.lor omf (Z.land IP_OFFMASK ofo) in
      let tmp := if last then tmp else Z.lor tmp IP_MF in
      (frag_hdr hdr tmp (20 + cop) ++ take (Z.to_nat cop) d)
      :: fragments_from fuel' hdr mtu omf (ofo + nfb) (drop (Z.to_nat cop) d)
  end.
Definition fragments (hdr : bytes) (mtu : Z) (d : bytes) : list bytes :=
  fragments_from (length d) hdr mtu 0 0 d.

Section frag.
Context {CF F A X : Type}.
Abbreviation stack := (stack (custom_fn CF) F A X).
Abbreviation heap := (heap (custom_fn CF)).
Abbreviation pbuf := (pbuf (custom_fn CF)).
Implicit Types (s : stack) (h : heap) (b : pbuf).
Context (other : CF → loc → prog heap unit) (depth : nat).
Context (mem_avail : heap → Z → bool) (garbage : heap → nat → Z).
Context (output : netif_loc → loc → Z → prog stack err_t).
Context (mem_avail_true : ∀ h n, mem_avail h n = true).

Abbreviation custom_free := (frag_custom_free other (S depth)).

(** ** The pbufs of a fragment *)

(** The pbuf for the headers, before and after the rest is added. *)
Definition ram_raw h : pbuf :=
  mk_pbuf None (garbage h <$> seq 0 36) 16 20 20 PBUF_RAM 0 1 None.
Definition ram_full h (c : loc) (cop : Z) : pbuf :=
  mk_pbuf (Some c) (garbage h <$> seq 0 36) 16 (20 + cop) 20 PBUF_RAM 0 1 None.
(** The pbuf that refers to data of [p]. *)
Definition mirror (p : loc) (d : bytes) : pbuf :=
  mk_pbuf None d 0 (zlen d) (zlen d) PBUF_REF PBUF_FLAG_IS_CUSTOM 1 (Some (IpfragFree (Some p))).
(** The packet from [off] on. *)
Definition moved (off : Z) b : pbuf := with_len (p_len b - off) (with_payload (p_payload b + off) b).

Lemma ram_alloc_eq h :
  pbuf_alloc custom_free mem_avail garbage PBUF_LINK IP_HLEN PBUF_RAM h
  = inr (Some (fresh (dom h)), <[fresh (dom h):=ram_raw h]> h).
Proof.
  unfold pbuf_alloc, alloc_ram. rewrite bind_assoc.
  erewrite bind_ret by (rewrite mem_malloc_eq, mem_avail_true; done). cbv beta iota.
  rewrite bind_assoc, (bind_up _ _ _ _ _ (lookup_insert_eq _ _ _)), insert_insert_eq, bind_mret.
  rewrite (bind_up _ _ _ _ _ (lookup_insert_eq _ _ _)), insert_insert_eq. done.
Qed.

Lemma ram_raw_ok h : pbuf_ok (ram_raw h).
Proof. unfold pbuf_ok, ram_raw, zlen. cbn. lia. Qed.
Lemma ram_full_ok h c cop : pbuf_ok (ram_full h c cop).
Proof. unfold pbuf_ok, ram_full, zlen. cbn. lia. Qed.

Lemma moved_ok off b :
  pbuf_ok b → 0 ≤ off ≤ p_len b → pbuf_ok (moved off b) ∧ pdata (moved off b) = drop (Z.to_nat off) (pdata b).
Proof.
  intros (? & ? & ?) Hoff. split; [split_and!; simpl; lia|]. unfold pdata, moved. simpl.
  rewrite skipn_firstn_comm, drop_drop. f_equal; [lia|]. f_equal. lia.
Qed.

(** Adding the second pbuf to the first one. *)
Lemma cat_pair h r br c bc :
  h !! r = Some br → p_next br = None → p_tot_len br = p_len br → h !! c = Some bc → r ≠ c →
  pbuf_cat (Some r) (Some c) h
  = inr (tt, <[r:=with_next (Some c) (with_tot (u16 (p_tot_len br + p_tot_len bc)) br)]> h).
Proof.
  intros Er Hn Ht Ec Hne. unfold pbuf_cat. rewrite bind_walk. cbn [cat_walk].
  rewrite bind_assoc, (bind_pb _ _ _ _ Er), Hn, bind_mret, (bind_pb _ _ _ _ Er).
  rewrite bind_assert by (by apply Z.eqb_eq). rewrite (bind_pb _ _ _ _ Ec), (bind_up _ _ _ _ _ Er).
  erewrite update_eq by apply lookup_insert_eq. by rewrite insert_insert_eq.
Qed.

(** The heap while a fragment with the data [d] is sent. *)
Definition sending h (p r c : loc) (br cur : pbuf) (d : bytes) : heap :=
  <[r:=br]> (<[p:=with_ref 2 cur]> (<[c:=mirror p d]> h)).

Lemma mirror_eq s fuel p r cur n cop :
  let h := st_pbufs s in
  let c := fresh (dom h) in
  let d := take (Z.to_nat cop) (pdata cur) in
  h !! p = Some cur → pbuf_ok cur → p_ref cur = 1 → 0 < cop ≤ p_len cur → is_u16 (20 + cop) →
  ∀ br, h !! r = Some br → p_next br = None → p_tot_len br = 20 → p_len br = 20 → r ≠ p →
  mirror_loop custom_free mem_avail (S fuel) r (Some p) cop n s
  = inr (Some (Some p, cop),
         set_pbufs (sending h p r c (with_next (Some c) (with_tot (20 + cop) br)) cur d) s).
Proof.
  intros h c d Ep Hok Hr Hcop Hu br Er Hbn Hbt Hbl Hrp. cbn [mirror_loop].
  rewrite (proj2 (Z.eqb_neq cop 0)) by lia. rewrite (bind_deref _ _ _ _ eq_refl).
  rewrite (bind_lift_deref _ _ _ _ Ep).
  assert (Hnew : (if cop <? p_len cur then cop else p_len cur) = cop).
  { destruct (Z.ltb_spec cop (p_len cur)); lia. }
  rewrite Hnew, (proj2 (Z.eqb_neq cop 0)) by lia.
  rewrite (bind_lift_same _ _ s (Some c)).
  2:{ unfold ip_frag_alloc_pbuf_custom_ref. rewrite bind_get, mem_avail_true. done. }
  rewrite (bind_lift_same _ _ s d).
  2:{ cbn [lget stack_lens_pbufs]. rewrite (mread_eq _ _ cur) by (done || lia). by rewrite drop_0. }
  assert (Hz : zlen d = cop).
  { unfold d, zlen. pose proof (zlen_pdata cur Hok). unfold zlen in *. rewrite length_take. lia. }
  assert (Hcne : ∀ x y, h !! x = Some y → x ≠ c).
  { intros x y Ex ->. unfold c, h in Ex. rewrite fresh_none in Ex. done. }
  rewrite (bind_lift_pbufs s _ (Some c) (<[c:=mirror p d]> h)).
  2:{ unfold pbuf_alloced_custom, mirror. rewrite Hz.
      change (LWIP_MEM_ALIGN_SIZE (layer_offset PBUF_RAW)) with 0.
      by rewrite (proj2 (Z.ltb_ge _ _)) by lia. }
  set (h1 := <[c:=mirror p d]> h).
  assert (Ep1 : h1 !! p = Some cur).
  { unfold h1. rewrite lookup_insert_ne; [done|]. apply not_eq_sym. by eapply Hcne. }
  rewrite (bind_lift_pbufs (set_pbufs h1 s) _ tt (<[p:=with_ref 2 cur]> h1)).
  2:{ cbn [st_pbufs set_pbufs]. unfold pbuf_ref. rewrite (update_eq _ _ _ _ Ep1), Hr. done. }
  rewrite (bind_lift_pbufs _ _ tt
    (sending h p r c (with_next (Some c) (with_tot (20 + cop) br)) cur d)).
  2:{ cbn [st_pbufs set_pbufs]. rewrite (cat_pair _ r br c (mirror p d)).
      - unfold sending. rewrite Hbt. cbn [mirror p_tot_len]. rewrite Hz, u16_id by done. done.
      - rewrite lookup_insert_ne by done. unfold h1. rewrite lookup_insert_ne; [exact Er|].
        apply not_eq_sym. by eapply Hcne.
      - done.
      - lia.
      - rewrite lookup_insert_ne by (by eapply Hcne). apply lookup_insert_eq.
      - by eapply Hcne. }
  rewrite Z.sub_diag. change (u16 0 =? 0) with true. done.
Qed.

Lemma length_frag_hdr hdr tmp len : length hdr = 20%nat → length (frag_hdr hdr tmp len) = 20%nat.
Proof.
  intros Hh. assert (H : ∀ off x y, (off + 2 ≤ 20)%nat → length y = 20%nat →
    length (splice off (le_bytes 2 x) y) = 20%nat) by (intros; rewrite length_field; lia).
  unfold frag_hdr. do 4 (apply H; [lia|]). done.
Qed.

Lemma frag_header_eq s r b hdr tmp cop :
  pbuf_ok b → p_len b = 20 → p_payload b = 16 → length hdr = 20%nat →
  frag_header (r, 16) tmp cop (at_data s r b hdr)
  = inr (tt, at_data s r b (frag_hdr hdr tmp (u16 (cop + IP_HLEN)))).
Proof.
  intros Hok Hl Hp Hh. unfold frag_header. rewrite <-Hp.
  assert (Hz : ∀ x : bytes, length x = 20%nat → zlen x = p_len b) by (intros x Hx; unfold zlen; lia).
  rewrite bind_store_at; [|done|auto|unfold IPH_OFFSET; lia..].
  change (Z.to_nat IPH_OFFSET) with 6%nat. set (x1 := splice 6 _ hdr).
  assert (Hx1 : length x1 = 20%nat) by (etransitivity; [apply length_field; lia|done]).
  rewrite bind_store_at; [|done|auto|unfold IPH_LEN; lia..].
  change (Z.to_nat IPH_LEN) with 2%nat. set (x2 := splice 2 _ x1).
  assert (Hx2 : length x2 = 20%nat) by (etransitivity; [apply length_field; lia|done]).
  rewrite bind_store_at; [|done|auto|unfold IPH_CHKSUM; lia..].
  change (Z.to_nat IPH_CHKSUM) with 10%nat. set (x3 := splice 10 _ x2).
  assert (Hx3 : length x3 = 20%nat) by (etransitivity; [apply length_field; lia|done]).
  rewrite bind_chksum_at by (done || auto || unfold IP_HLEN; lia).
  rewrite take_ge by (change (Z.to_nat IP_HLEN) with 20%nat; lia).
  rewrite store_at; [|done|auto|unfold IPH_CHKSUM; lia..]. by rewrite Hp.
Qed.

(** The references of a fragment that was sent are dropped. *)
Lemma free_sending g r c p x br cur d :
  g !! r = None → g !! c = None → r ≠ c → g !! p = Some x → p_ref cur = 1 → plain cur →
  p_next br = Some c → p_ref br = 1 → plain br →
  ∃ n, pbuf_free custom_free (Some r) (sending g p r c br cur d) = inr (n, <[p:=cur]> g).
Proof.
  intros Er Ec Hrc Ep Hr Hpl Hbn Hbr Hbp.
  assert (r ≠ p) as Hrp by congruence. assert (c ≠ p) as Hcp by congruence.
  unfold pbuf_free, sending. rewrite (bind_pb _ _ _ _ (lookup_insert_eq _ _ _)), walk_eq.
  set (g1 := <[p:=with_ref 2 cur]> (<[c:=mirror p d]> g)).
  assert (Hsz : ∃ n, size (<[r:=br]> g1) = S (S n)).
  { unfold g1. rewrite map_size_insert_None, map_size_insert_Some, map_size_insert_None.
    - by eexists.
    - done.
    - rewrite lookup_insert_ne by done. by eexists.
    - rewrite !lookup_insert_ne by done. done. }
  destruct Hsz as [n ->]. cbn [free_loop].
  rewrite (bind_pb _ _ _ _ (lookup_insert_eq _ _ _)), Hbr.
  rewrite bind_assert by done. rewrite (bind_up _ _ _ _ _ (lookup_insert_eq _ _ _)), insert_insert_eq.
  change (u16 (1 - 1)) with 0. cbn [Z.eqb].
  assert (Ed : pbuf_dealloc custom_free r (<[r:=with_ref 0 br]> g1) = inr (tt, g1)).
  { unfold pbuf_dealloc. rewrite (bind_pb _ _ _ _ (lookup_insert_eq _ _ _)). cbn [with_ref p_flags].
    rewrite Hbp. cbn [Z.eqb]. unfold pmodify. rewrite delete_insert_id; [done|].
    unfold g1. by rewrite !lookup_insert_ne by done. }
  rewrite (bind_ret _ _ _ _ _ Ed), Hbn.
  assert (Ec1 : g1 !! c = Some (mirror p d)).
  { unfold g1. rewrite lookup_insert_ne by done. apply lookup_insert_eq. }
  rewrite (bind_pb _ _ _ _ Ec1). rewrite bind_assert by done. rewrite (bind_up _ _ _ _ _ Ec1).
  cbn [mirror p_ref p_next]. change (u16 (1 - 1)) with 0. cbn [Z.eqb].
  set (g2 := <[c:=_]> g1).
  assert (Ef : pbuf_dealloc custom_free c g2 = inr (tt, <[p:=cur]> g)).
  { unfold pbuf_dealloc, g2. rewrite (bind_pb _ _ _ _ (lookup_insert_eq _ _ _)).
    cbn [with_ref p_flags mirror p_custom]. change (Z.land PBUF_FLAG_IS_CUSTOM PBUF_FLAG_IS_CUSTOM =? 0) with false.
    cbv iota. cbn [frag_custom_free]. unfold ipfrag_free_pbuf_custom.
    fold (mirror p d). fold g2.
    assert (Ep2 : g2 !! p = Some (with_ref 2 cur)).
    { unfold g2. rewrite lookup_insert_ne by done. apply lookup_insert_eq. }
    rewrite bind_assoc. erewrite bind_ret; [|unfold pbuf_free; rewrite (bind_pb _ _ _ _ Ep2), walk_eq].
    2:{ cbn [free_loop]. rewrite (bind_pb _ _ _ _ Ep2). rewrite bind_assert by done.
        rewrite (bind_up _ _ _ _ _ Ep2). done. }
    rewrite bind_mret. unfold pmodify. f_equal. f_equal.
    assert (with_ref (u16 (p_ref (with_ref 2 cur) - 1)) (with_ref 2 cur) = cur) as ->.
    { clear -Hr. destruct cur as [? ? ? ? ? ? ? rf ?]. cbn in Hr. by subst rf. }
    rewrite delete_insert_ne by done. unfold g2, g1. rewrite delete_insert_eq.
    rewrite delete_insert_ne by done. rewrite delete_insert_id by done. by rewrite insert_insert_eq. }
  rewrite (bind_ret _ _ _ _ _ Ef). eexists. by destruct n.
Qed.

(** ** One turn of the loop *)

Context (netif : netif_loc) (dest : Z) (sent : bytes → X → X).
(** The interface sends the bytes of the chain and leaves it alone. *)
Context (output_sends : ∀ s r ls,
  chain_at (st_pbufs s) (Some r) ls → chain_wf ls →
  ∃ e, output netif r dest s = inr (e, set_rest (sent (data ls) (st_rest s)) s)).

Lemma sending_chain g r c p br cur d :
  g !! c = None → r ≠ c → c ≠ p → pbuf_ok br → p_len br = 20 → p_next br = Some c →
  p_ref br = 1 → p_tot_len br = 20 + zlen d → 20 + zlen d < 65536 →
  let ls := [(r, br); (c, mirror p d)] in
  chain_at (sending g p r c br cur d) (Some r) ls ∧ chain_wf ls ∧ data ls = pdata br ++ d.
Proof.
  intros Ec Hrc Hcp Hok Hl Hn Hr Ht Hlt ls.
  assert (Hd : pdata (mirror p d) = d).
  { unfold pdata, mirror, zlen. cbn. rewrite drop_0, Nat2Z.id. by apply take_ge. }
  assert (Hdt : data ls = pdata br ++ d).
  { unfold ls. rewrite !data_cons, Hd. unfold data. cbn. by rewrite app_nil_r. }
  pose proof (zlen_nonneg d). split; [|split; [|done]].
  - unfold sending. constructor; [apply lookup_insert_eq|]. rewrite Hn. constructor; [|constructor].
    rewrite !lookup_insert_ne by done. apply lookup_insert_eq.
  - refine (conj Hok (conj _ (conj _ (conj _ _)))); [lia| |lia|].
    + fold ls. rewrite Hdt, zlen_app, zlen_pdata, Ht, Hl by done. done.
    + refine (conj _ (conj _ (conj _ (conj _ I)))); cbn; try lia.
      * unfold pbuf_ok. cbn. lia.
      * unfold data. cbn. by rewrite Hd, app_nil_r.
Qed.

(** The header is copied into the new pbuf. *)
Lemma ram_write_eq s h r hdr :
  length hdr = 20%nat →
  mwrite (r, p_payload (ram_raw h)) 0 hdr (st_pbufs (set_pbufs (<[r:=ram_raw h]> h) s))
  = inr (tt, <[r:=with_pdata hdr (ram_raw h)]> h).
Proof.
  intros Hh. cbn [st_pbufs set_pbufs]. unfold mwrite. cbn [fst snd].
  rewrite (bind_pb _ _ _ _ (lookup_insert_eq _ _ _)).
  assert (Hm : zlen (p_mem (ram_raw h)) = 36) by done.
  unfold zlen in *. rewrite Hm, Hh. change (p_payload (ram_raw h)) with 16.
  change ((0 <=? 16 + 0) && (16 + 0 + Z.of_nat 20 <=? 36)) with true. cbv iota.
  rewrite (update_eq _ _ _ _ (lookup_insert_eq _ _ _)), insert_insert_eq.
  unfold with_pdata, splice. rewrite Hh. done.
Qed.

(** The old contents of the pbuf for the headers do not matter. *)
Lemma sending_insert g p r c br x cur y d :
  r ≠ p → sending (<[p:=y]> (<[r:=x]> g)) p r c br cur d = sending (<[p:=y]> g) p r c br cur d.
Proof.
  intros Hrp. unfold sending. apply map_eq. intros i.
  destruct (decide (i = r)) as [->|Hr]; [by rewrite !lookup_insert_eq|].
  rewrite !(lookup_insert_ne _ r) by done.
  destruct (decide (i = p)) as [->|Hp]; [by rewrite !lookup_insert_eq|].
  rewrite !(lookup_insert_ne _ p) by done.
  destruct (decide (i = c)) as [->|Hc]; [by rewrite !lookup_insert_eq|].
  rewrite !(lookup_insert_ne _ c) by done. rewrite !(lookup_insert_ne _ p), (lookup_insert_ne _ r) by done.
  done.
Qed.

(** The packet at [p] still has [left] bytes to send behind the first [poff],
    and its header at [o]. *)
Definition to_send h (p : loc) (cur : pbuf) (o : Z) (hdr : bytes) : Prop :=
  h !! p = Some cur ∧ p_next cur = None ∧ p_ref cur = 1 ∧ plain cur ∧ pbuf_ok cur ∧
  20 ≤ p_len cur ∧ 0 ≤ o ∧ o + 20 ≤ zlen (p_mem cur) ∧ length hdr = 20%nat ∧
  take 20 (drop (Z.to_nat o) (p_mem cur)) = hdr.

Lemma make_fragment_eq s p cur o hdr poff cop tmp n :
  let h := st_pbufs s in
  to_send h p cur o hdr → 0 ≤ poff → 0 < cop → poff + cop ≤ p_len cur → 20 + cop < 65536 →
  p_len cur < 65536 →
  let d := take (Z.to_nat cop) (drop (Z.to_nat poff) (pdata cur)) in
  ∃ r c br, make_fragment custom_free mem_avail garbage (p, o) (Some p) poff cop tmp n s
      = inr (Some (r, Some p, cop),
             set_pbufs (sending (<[p:=moved poff cur]> h) p r c br (moved poff cur) d) s) ∧
    h !! r = None ∧ h !! c = None ∧ r ≠ c ∧ pbuf_ok br ∧ pdata br = frag_hdr hdr tmp (20 + cop) ∧
    p_len br = 20 ∧ p_next br = Some c ∧ p_ref br = 1 ∧ plain br ∧ p_tot_len br = 20 + zlen d.
Proof.
  intros h (Ep & Hn & Hr & Hpl & Hok & Hl & Ho & Hom & Hh & Hhd) Hpoff Hcop Hle Hlt Hu d.
  unfold make_fragment. set (r := fresh (dom h)).
  rewrite (bind_lift_pbufs s _ _ _ _ (ram_alloc_eq (st_pbufs s))). fold h r.
  assert (Err : h !! r = None) by apply fresh_none. assert (r ≠ p) as Hrp by congruence.
  set (h1 := <[r:=ram_raw h]> h).
  assert (Ep1 : st_pbufs (set_pbufs h1 s) !! p = Some cur).
  { cbn. unfold h1. by rewrite lookup_insert_ne. }
  assert (Er1 : st_pbufs (set_pbufs h1 s) !! r = Some (ram_raw h)) by apply lookup_insert_eq.
  rewrite (bind_deref _ _ _ _ eq_refl), (bind_lift_deref _ _ _ _ Ep1).
  rewrite bind_assert by (by apply Z.leb_le). rewrite (bind_lift_payload _ _ _ _ Er1).
  rewrite (bind_lift_same _ _ _ hdr).
  2:{ cbn [lget stack_lens_pbufs]. unfold mread. cbn [fst snd]. rewrite (bind_pb _ _ _ _ Ep1).
      rewrite Z.add_0_r, (proj2 (Z.leb_le 0 o)), (proj2 (Z.leb_le (_ + _) _)) by (done || unfold IP_HLEN; lia).
      cbn [andb]. change (Z.to_nat IP_HLEN) with 20%nat. by rewrite Hhd. }
  rewrite (bind_lift_pbufs _ _ tt (<[r:=with_pdata hdr (ram_raw h)]> h)) by by apply ram_write_eq.
  set (h2 := <[r:=_]> h).
  assert (Ep2 : h2 !! p = Some cur) by (unfold h2; by rewrite lookup_insert_ne).
  rewrite (bind_lift_pbufs _ _ tt (<[p:=moved poff cur]> h2)).
  2:{ cbn [st_pbufs set_pbufs]. rewrite (update_eq _ _ _ _ Ep2). unfold moved.
      rewrite u16_id by (unfold is_u16; lia). done. }
  rewrite bind_get. destruct (moved_ok poff cur Hok ltac:(lia)) as [Hok' Hd'].
  set (h3 := <[p:=moved poff cur]> h2). set (s3 := set_pbufs h3 _).
  assert (Er3 : h3 !! r = Some (with_pdata hdr (ram_raw h))).
  { unfold h3. rewrite lookup_insert_ne by done. apply lookup_insert_eq. }
  rewrite (bind_ret _ _ _ _ _ (mirror_eq s3 _ p r (moved poff cur) n cop (lookup_insert_eq _ _ _) Hok'
    Hr ltac:(simpl; lia) ltac:(unfold is_u16; lia) _ Er3 eq_refl eq_refl eq_refl Hrp)).
  set (c := fresh (dom (st_pbufs s3))). rewrite Hd'. fold d.
  assert (Ec : h3 !! c = None) by apply fresh_none. assert (c ≠ r) as Hcr by congruence.
  assert (c ≠ p) as Hcp.
  { intros ->. unfold h3 in Ec. by rewrite lookup_insert_eq in Ec. }
  set (S4 := set_pbufs (<[p:=with_ref 2 (moved poff cur)]> (<[c:=mirror p d]> h3)) s3).
  change (set_pbufs (sending _ _ _ _ _ _ _) s3) with (at_data S4 r (ram_full h c cop) hdr).
  change (p_payload (ram_raw h)) with 16.
  rewrite (bind_ret _ _ _ _ _ (frag_header_eq S4 r (ram_full h c cop) hdr tmp cop (ram_full_ok _ _ _)
    eq_refl eq_refl Hh)).
  rewrite (u16_id (cop + _)) by (unfold is_u16, IP_HLEN; lia). rewrite (Z.add_comm cop).
  change (IP_HLEN + cop) with (20 + cop). set (fh := frag_hdr hdr tmp (20 + cop)).
  assert (Hfh : zlen fh = 20) by (unfold zlen, fh; by rewrite length_frag_hdr).
  exists r, c, (with_pdata fh (ram_full h c cop)). split_and!; try done.
  - rewrite <-(sending_insert h p r c _ (with_pdata hdr (ram_raw h))) by done. done.
  - unfold h3, h2 in Ec. by rewrite !lookup_insert_ne in Ec by done.
  - apply with_pdata_ok; [apply ram_full_ok|done].
  - apply pdata_with_pdata; [apply ram_full_ok|done].
  - cbn. f_equal. unfold d, zlen. pose proof (zlen_pdata cur Hok). unfold zlen in *.
    rewrite length_take, length_drop. lia.
Qed.

Lemma frag_step fuel s p cur o hdr mtu omf poff left ofo n :
  to_send (st_pbufs s) p cur o hdr → 0 ≤ poff ≤ p_len cur → left = p_len cur - poff → 0 < left →
  28 ≤ mtu → 20 + left < 65536 → p_len cur < 65536 →
  let nfb := (mtu - 20) / 8 in
  let last := left <=? mtu - 20 in
  let cop := if last then left else nfb * 8 in
  let tmp := Z.lor omf (Z.land IP_OFFMASK ofo) in
  let tmp := if last then tmp else Z.lor tmp IP_MF in
  let d := take (Z.to_nat cop) (drop (Z.to_nat poff) (pdata cur)) in
  frag_loop custom_free mem_avail garbage output (S fuel) netif dest (p, o) mtu nfb omf (Some p)
    poff left ofo n s
  = frag_loop custom_free mem_avail garbage output fuel netif dest (p, o) mtu nfb omf (Some p)
      cop (left - cop) (u16 (ofo + nfb)) cop
      (set_pbufs (<[p:=moved poff cur]> (st_pbufs s))
         (set_rest (sent (frag_hdr hdr tmp (20 + cop) ++ d) (st_rest s)) s)).
Proof.
  intros Hs Hpoff -> Hleft Hmtu Hlt Hu nfb last cop tmp0 tmp d.
  set (left := p_len cur - poff) in *. set (h := st_pbufs s) in *.
  assert (Hcop : 0 < cop ≤ left).
  { unfold cop, last, nfb. destruct (Z.leb_spec left (mtu - 20)); [lia|]. zdm. }
  cbn [frag_loop]. rewrite (proj2 (Z.eqb_neq left 0)) by lia. change (mtu - IP_HLEN) with (mtu - 20).
  fold last tmp0 tmp. assert (Ecop : (if last then left else u16 (nfb * 8)) = cop).
  { unfold cop in *. destruct last; [done|]. apply u16_id. unfold is_u16. lia. }
  rewrite Ecop.
  destruct (make_fragment_eq s p cur o hdr poff cop tmp n Hs)
    as (r & c & br & E & Er & Ec & Hrc & Hbr & Hpd & Hbl & Hbn & Hbref & Hbp & Hbt);
    [lia..|]. fold d in E, Hbt. fold h in E, Er, Ec.
  pose proof Hs as (Ep & _ & Hr & Hpl & Hok & _).
  rewrite (bind_ret _ _ _ _ _ E). set (g := <[p:=moved poff cur]> h) in *.
  assert (r ≠ p) as Hrp by congruence. assert (c ≠ p) as Hcp by congruence.
  assert (Hzd : zlen d = cop).
  { unfold d, zlen. pose proof (zlen_pdata cur Hok). unfold zlen in *. rewrite length_take, length_drop. lia. }
  assert (Erg : g !! r = None) by (unfold g; by rewrite lookup_insert_ne).
  assert (Ecg : g !! c = None) by (unfold g; by rewrite lookup_insert_ne).
  destruct (sending_chain g r c p br (moved poff cur) d) as (Hch & Hwf & Hdt); try done; [lia|].
  destruct (output_sends (set_pbufs (sending g p r c br (moved poff cur) d) s) r _ Hch Hwf) as [e Eo].
  rewrite (bind_ret _ _ _ _ _ Eo), Hdt, Hpd. unfold pfree. rewrite bind_assoc.
  destruct (free_sending g r c p (moved poff cur) br (moved poff cur) d) as [m Ef];
    try done; [apply lookup_insert_eq|].
  assert (Eg : <[p:=moved poff cur]> g = g) by apply insert_insert_eq. rewrite Eg in Ef.
  rewrite (bind_lift_pbufs _ _ m g) by exact Ef.
  rewrite bind_mret, u16_id by (unfold is_u16; lia). done.
Qed.

(** ** The whole packet *)

Abbreviation send_all := (foldl (λ (x : X) (f : bytes), sent f x)).

Lemma to_send_moved h p cur o hdr poff :
  to_send h p cur o hdr → 0 ≤ poff → 20 ≤ p_len cur - poff →
  to_send (<[p:=moved poff cur]> h) p (moved poff cur) o hdr.
Proof.
  intros (Ep & Hn & Hr & Hpl & Hok & Hl & Ho & Hom & Hh & Hhd) Hpoff Hle.
  destruct (moved_ok poff cur Hok ltac:(lia)) as [Hok' _].
  split_and!; try done. apply lookup_insert_eq.
Qed.

Lemma frag_loop_eq fuel s p cur o hdr mtu omf poff ofo n :
  to_send (st_pbufs s) p cur o hdr → 0 ≤ poff ≤ p_len cur → 40 ≤ mtu → 0 ≤ ofo →
  p_len cur < 65536 → ofo * 8 + (20 + (p_len cur - poff)) < 65536 →
  let d := drop (Z.to_nat poff) (pdata cur) in
  (length d ≤ fuel)%nat →
  ∃ cur', frag_loop custom_free mem_avail garbage output fuel netif dest (p, o) mtu ((mtu - 20) / 8)
            omf (Some p) poff (p_len cur - poff) ofo n s
    = inr (ERR_OK, set_pbufs (<[p:=cur']> (st_pbufs s))
                     (set_rest (send_all (st_rest s) (fragments_from fuel hdr mtu omf ofo d)) s)).
Proof.
  revert s cur poff ofo n. induction fuel as [|fuel IH]; intros s cur poff ofo n Hs Hpoff Hmtu Hofo Hu Hlt d Hf;
    pose proof Hs as (Ep & _ & _ & _ & Hok & Hl & _);
    assert (Hz : zlen d = p_len cur - poff)
      by (unfold d, zlen; pose proof (zlen_pdata cur Hok); unfold zlen in *; rewrite length_drop; lia).
  { destruct d; [|simpl in Hf; lia]. exists cur. rewrite zlen_nil in Hz. rewrite <-Hz. cbn.
    rewrite insert_id by done. by destruct s. }
  destruct (decide (p_len cur - poff = 0)) as [E0|E0].
  { rewrite E0. exists cur. rewrite E0 in Hz. destruct d; [|rewrite zlen_cons in Hz; pose proof (zlen_nonneg d); lia].
    cbn. rewrite insert_id by done. by destruct s. }
  rewrite (frag_step fuel s p cur o hdr) by (done || lia). fold d.
  assert (Efr : fragments_from (S fuel) hdr mtu omf ofo d
    = (let last := zlen d <=? mtu - 20 in
       let cop := if last then zlen d else (mtu - 20) / 8 * 8 in
       let tmp := Z.lor omf (Z.land IP_OFFMASK ofo) in
       (frag_hdr hdr (if last then tmp else Z.lor tmp IP_MF) (20 + cop) ++ take (Z.to_nat cop) d)
       :: fragments_from fuel hdr mtu omf (ofo + (mtu - 20) / 8) (drop (Z.to_nat cop) d))).
  { destruct d; [rewrite zlen_nil in Hz; lia|done]. }
  rewrite Efr, Hz. cbv zeta. cbn [foldl]. set (left := p_len cur - poff) in *.
  destruct (Z.leb_spec left (mtu - 20)) as [Hlast|Hmore].
  - exists (moved poff cur). rewrite Z.sub_diag.
    rewrite (drop_ge d) by (unfold zlen in Hz; lia).
    replace (fragments_from fuel _ _ _ _ []) with (@nil bytes) by by destruct fuel.
    by destruct fuel.
  - set (nfb := (mtu - 20) / 8) in *. assert (Hnfb : 0 < nfb ∧ nfb * 8 ≤ mtu - 20) by (unfold nfb; zdm).
    set (f := frag_hdr _ _ _ ++ _). set (s' := set_pbufs _ _).
    destruct (IH s' (moved poff cur) (nfb * 8) (ofo + nfb) (nfb * 8)) as [cur' E].
    + apply to_send_moved; [done|lia|unfold left in *; lia].
    + simpl. lia.
    + done.
    + lia.
    + simpl. lia.
    + simpl. lia.
    + destruct (moved_ok poff cur Hok ltac:(lia)) as [_ ->]. fold d. rewrite length_drop. lia.
    + exists cur'. rewrite u16_id by (unfold is_u16; lia).
      change (left - nfb * 8) with (p_len (moved poff cur) - nfb * 8). rewrite E.
      destruct (moved_ok poff cur Hok ltac:(lia)) as [_ ->]. fold d. unfold s'.
      cbn [st_pbufs set_pbufs st_rest set_rest]. by rewrite insert_insert_eq.
Qed.


End frag.

(** *** A run *)

(** An interface that keeps what it is given, as [lwip_data_out] copies it. *)
Abbreviation recorder := (stack (custom_fn unit) unit unit (list bytes)).
Definition toy_output : netif_loc → loc → Z → prog recorder err_t := λ _ p _,
  '(_, d) ← lift (pbuf_copy_partial (Some p) 65535 0);
  pmodify (λ s, set_rest (st_rest s ++ [d]) s);;
  mret ERR_OK.

Lemma toy_output_sends netif dest s r ls :
  chain_at (st_pbufs s) (Some r) ls → chain_wf ls →
  ∃ e, toy_output netif r dest s = inr (e, set_rest (st_rest s ++ [data ls]) s).
Proof.
  intros Hc Hwf. exists ERR_OK. unfold toy_output.
  erewrite bind_lift_pbufs; [|apply (pbuf_copy_partial_spec _ _ ls); first [done|by vm_compute]].
  cbv beta iota. assert (Hd : zlen (data ls) < 65536).
  { destruct ls as [|[l b] ls]; [done|]. destruct Hwf as (_ & _ & Ht & Hlt & _). lia. }
  change (Z.to_nat 0) with 0%nat. rewrite drop_0, take_ge by (unfold zlen in Hd; lia). by destruct s.
Qed.

Definition toy_ip_packet : bytes :=
  [69; 0; 0; 60; 0; 7; 0; 0; 64; 17; 0x66; 0xac; 10; 0; 0; 1; 10; 0; 0; 2] ++ (Z.of_nat <$> seq 1 40).
Definition toy_sender : recorder :=
  mk_stack {[1%positive := mk_pbuf None (replicate 16 0 ++ toy_ip_packet) 16 60 60 PBUF_RAM 0 1 None]}
    (mk_netif_state {[1%positive := mk_netif 0x0100000a 0x00ffffff 0 40 NETIF_FLAG_UP [117; 110] 0]}
       [1%positive] (Some 1%positive) 1)
    udp_init 9 (mk_ip_globals None None 0 0 0) [].

End IpFragProps.
