(* ===== verification/IpFragTrip.v ===== *)
(** * Fragmentation and reassembly

    What [ip_frag] sends is what [ip_reass] puts together again. *)

From S2P Require Import Prelude Def Ip4Addr InetChksum Netif Udp Pbuf Linked PbufChain PbufOps Stack.
From S2P Require Import StackMem Ip4 Ip4Props Icmp IpReass IpFrag IpReassQueue IpReassProps IpReassDone.
From S2P Require Import IpReassOrder IpFragRuns IpReassAll IpFragProps.

Module IpFragTrip.
Import Def Ip4Addr InetChksum Netif Udp Pbuf Linked PbufChain PbufOps Stack StackMem Ip4 Ip4Props Icmp
  IpReass IpFrag IpReassQueue IpReassProps IpReassDone IpReassOrder IpFragRuns IpReassAll
  IpFragProps.

(** ** The header of a fragment *)

Ltac twenty hdr := do 20 (destruct hdr as [|? hdr]; [done|]); destruct hdr; [|done].

Lemma le_load_htons x : le_load (le_bytes 2 (lwip_htons x)) = lwip_htons x.
Proof. rewrite le_load_bytes. apply Z.mod_small, htons_u16. Qed.

Lemma frag_hdr_fields hdr tmp len :
  length hdr = 20%nat →
  let f := frag_hdr hdr tmp len in
  hdr_field 1 IPH_VHL f = hdr_field 1 IPH_VHL hdr ∧
  hdr_field 4 IPH_SRC f = hdr_field 4 IPH_SRC hdr ∧
  hdr_field 4 IPH_DEST f = hdr_field 4 IPH_DEST hdr ∧
  hdr_field 2 IPH_ID f = hdr_field 2 IPH_ID hdr ∧
  hdr_field 2 IPH_LEN f = lwip_htons len ∧ hdr_field 2 IPH_OFFSET f = lwip_htons tmp.
Proof.
  intros Hh f. rewrite <-(le_load_htons len), <-(le_load_htons tmp). unfold f, frag_hdr.
  generalize (lwip_htons len) (lwip_htons tmp). intros x y.
  generalize (inet_chksum false). intros c. twenty hdr. split_and!; reflexivity.
Qed.

(** Reassembly overwrites all that fragmentation changed. *)
Lemma final_frag_hdr odd hdr tmp len len' :
  length hdr = 20%nat → final_header odd (frag_hdr hdr tmp len) len' = final_header odd hdr len'.
Proof.
  intros Hh. unfold frag_hdr, final_header. generalize (lwip_htons len) (lwip_htons tmp) (lwip_htons len').
  intros x y z. generalize (inet_chksum false) (inet_chksum odd). intros c c'. twenty hdr. reflexivity.
Qed.

(** Offset and flag. *)
Lemma land_pow2 y n : 0 ≤ n → Z.land y (2 ^ n) = (y / 2 ^ n) mod 2 * 2 ^ n.
Proof.
  intros Hn. rewrite <-Z.shiftr_div_pow2, <-(Z.shiftl_mul_pow2 _ n), <-Z.bit0_mod by done.
  rewrite Z.shiftr_spec, Z.add_0_l by lia. apply Z.bits_inj'. intros m Hm.
  rewrite Z.land_spec, Z.shiftl_spec by done. rewrite Z.pow2_bits_eqb by done.
  destruct (Z.eqb_spec n m) as [<-|Hne].
  - rewrite andb_true_r, Z.sub_diag. by destruct (Z.testbit y n).
  - rewrite andb_false_r. symmetry. destruct (Z.ltb_spec m n).
    + by rewrite Z.testbit_neg_r by lia.
    + destruct (Z.testbit y n); cbn [Z.b2z]; [|apply Z.bits_0].
      destruct (m - n) eqn:E; [lia|done|lia].
Qed.

Lemma frag_flags ofo (more : bool) :
  0 ≤ ofo < 8192 →
  let tmp := Z.lor 0 (Z.land IP_OFFMASK ofo) in
  let tmp := if more then Z.lor tmp IP_MF else tmp in
  is_u16 tmp ∧ Z.land tmp IP_OFFMASK = ofo ∧
  (Z.land (lwip_htons tmp) (lwip_htons IP_MF) =? 0) = negb more.
Proof.
  intros Ho tmp0 tmp. assert (E0 : tmp0 = ofo).
  { unfold tmp0, IP_OFFMASK. rewrite Z.lor_0_l, Z.land_comm. change 0x1fff with (Z.ones 13).
    rewrite Z.land_ones by lia. apply Z.mod_small. lia. }
  assert (E : tmp = ofo + (if more then 8192 else 0)).
  { unfold tmp. rewrite E0. destruct more; [|lia]. unfold IP_MF. rewrite Z.lor_comm.
    change 0x2000 with (1 * 2 ^ 13). rewrite (lor_high_low ofo 1 13); lia. }
  split_and!.
  - unfold is_u16. rewrite E. destruct more; lia.
  - unfold IP_OFFMASK. change 0x1fff with (Z.ones 13). rewrite Z.land_ones, E by lia.
    change (2 ^ 13) with 8192. destruct more; zdm.
  - change (lwip_htons IP_MF) with (2 ^ 5). rewrite land_pow2, htons_arith, E by lia.
    change (2 ^ 5) with 32. destruct more; cbn [negb]; [apply Z.eqb_neq|apply Z.eqb_eq]; zdm.
Qed.

Section trip.
Context {CF : Type}.
Abbreviation packet := (packet CF).
Implicit Type k : packet.

Lemma fragment_of_frag_hdr hdr H ofo (more : bool) k cop :
  length hdr = 20%nat → Z.land (hdr_field 1 IPH_VHL hdr) 0x0f = 5 → same_datagram H hdr = true →
  0 ≤ ofo → 0 < cop → 20 + (ofo * 8 + cop) < 65536 → zlen (k_data k) = cop →
  k_hdr k = frag_hdr hdr (let tmp := Z.lor 0 (Z.land IP_OFFMASK ofo) in
                          if more then Z.lor tmp IP_MF else tmp) (20 + cop) →
  fragment_of H (ofo * 8) more k.
Proof.
  intros Hh Hv Hs Ho Hc Hlt Hd Hk. destruct (frag_flags ofo more) as (Hu & Hof & Hm); [lia|].
  cbv zeta in Hk. set (tmp := if more then _ else _) in *.
  destruct (frag_hdr_fields hdr tmp (20 + cop) Hh) as (F1 & F2 & F3 & F4 & F5 & F6).
  rewrite <-Hk in F1, F2, F3, F4, F5, F6. unfold same_datagram in Hs.
  apply andb_true_iff in Hs as [[Hs1%Z.eqb_eq Hs2%Z.eqb_eq]%andb_true_iff Hs3%Z.eqb_eq].
  unfold fragment_of. rewrite F1, F2, F3, F4, Hv.
  split; [done|split; [done|split; [done|split; [done|split; [|split; [|split; [lia|split; [|lia]]]]]]]].
  - unfold hdr_offset. rewrite F6, ntohs_htons, Hof by done. apply u16_id. unfold is_u16. lia.
  - unfold hdr_len. rewrite F5, F1, Hv, ntohs_htons, Hd by (unfold is_u16; lia).
    rewrite u16_id; [lia|unfold is_u16; lia].
  - unfold hdr_more. by rewrite F6, Hm, negb_involutive.
Qed.

Lemma same_datagram_frag_hdr H hdr tmp len :
  length hdr = 20%nat → same_datagram H hdr = same_datagram H (frag_hdr hdr tmp len).
Proof.
  intros Hh. destruct (frag_hdr_fields hdr tmp len Hh) as (_ & F2 & F3 & F4 & _).
  unfold same_datagram. by rewrite F2, F3, F4.
Qed.

(** The packets that carry the fragments are fragments of the datagram, in
    order, with its data. *)
Lemma fragments_in_order fuel hdr H mtu ofo d (ks : list packet) :
  length hdr = 20%nat → Z.land (hdr_field 1 IPH_VHL hdr) 0x0f = 5 → same_datagram H hdr = true →
  28 ≤ mtu → 0 ≤ ofo → 20 + (ofo * 8 + zlen d) < 65536 → (length d ≤ fuel)%nat → d ≠ [] →
  Forall (λ k, length (k_hdr k) = 20%nat) ks →
  (λ k, k_hdr k ++ k_data k) <$> ks = fragments_from fuel hdr mtu 0 ofo d →
  in_order H (ofo * 8) ks ∧ concat (k_data <$> ks) = d.
Proof.
  intros Hh Hv Hs Hmtu. revert ofo d ks. induction fuel as [|fuel IH]; intros ofo d ks Ho Hlt Hf Hne Hl Hk.
  { destruct d; [done|simpl in Hf; lia]. }
  destruct d as [|x d']; [done|]. set (d := x :: d') in *. cbn [fragments_from] in Hk.
  assert (Hdz : 0 < zlen d) by (unfold d; rewrite zlen_cons; pose proof (zlen_nonneg d'); lia).
  unfold d at 1 in Hk. cbv beta iota zeta in Hk. fold d in Hk.
  set (nfb := (mtu - 20) / 8) in *. set (last := zlen d <=? mtu - 20) in *.
  set (cop := if last then zlen d else nfb * 8) in *.
  assert (Hcop : 0 < cop ≤ zlen d ∧ (last = false → cop = nfb * 8 ∧ 0 < nfb ∧ cop < zlen d) ∧
                 (last = true → cop = zlen d)).
  { unfold cop, last, nfb. destruct (Z.leb_spec (zlen d) (mtu - 20)); split; try done; try lia; zdm. }
  destruct Hcop as (Hcop & Hmore & Hlast).
  destruct ks as [|k ks]; [done|]. rewrite fmap_cons in Hk. injection Hk as Hk Hks.
  inversion Hl as [|? ? Hlk Hl']; subst. apply app_inj_1 in Hk as [Ek Ed];
    [|rewrite Hlk; symmetry; by apply length_frag_hdr].
  assert (Hkz : zlen (k_data k) = cop) by (rewrite Ed; unfold zlen in *; rewrite length_take; lia).
  assert (Hfr : fragment_of H (ofo * 8) (negb last) k).
  { apply (fragment_of_frag_hdr hdr H ofo (negb last) k cop); try done; try lia.
    rewrite Ek. by destruct last. }
  rewrite fmap_cons. cbn [concat]. destruct last eqn:El.
  - rewrite Hlast in Hks by done. rewrite drop_ge in Hks by (unfold zlen; lia).
    replace (fragments_from fuel _ _ _ _ []) with (@nil bytes) in Hks by by destruct fuel.
    apply fmap_nil_inv in Hks as ->. split; [done|]. cbn. rewrite app_nil_r, Ed.
    rewrite Hlast by done. apply take_ge. unfold zlen. lia.
  - destruct (Hmore eq_refl) as (E1 & E2 & E3).
    assert (Hz2 : zlen (drop (Z.to_nat cop) d) = zlen d - cop)
      by (unfold zlen in *; rewrite length_drop; lia).
    destruct (IH (ofo + nfb) (drop (Z.to_nat cop) d) ks) as [Ho2 Hc2]; try done; try lia.
    + unfold zlen in *. lia.
    + intros E. rewrite E, zlen_nil in Hz2. lia.
    + destruct ks as [|k' ks]; [done|]. split.
      * apply in_order_cons. split; [done|]. rewrite Hkz, E1.
        by replace (ofo * 8 + nfb * 8) with ((ofo + nfb) * 8) by lia.
      * by rewrite Hc2, Ed, take_drop.
Qed.
End trip.

(** ** The header of the datagram *)

Lemma final_ip_header odd tos len id ttl proto src dest :
  is_u8 tos → is_u16 len → is_u16 id → is_u8 ttl → is_u8 proto → is_u32 src → is_u32 dest →
  let hdr := ip_header tos len id ttl proto src dest
               (chk_finish (header_sum tos len id ttl proto src dest)) in
  final_header odd hdr len = hdr.
Proof.
  intros Ht Hl Hi Httl Hp Hs Hd hdr. unfold hdr.
  destruct (header_chksum odd tos len id ttl proto src dest) as [Hc _]; [done..|].
  unfold final_header.
  rewrite le_bytes_htons by done. set (z := splice 10 (le_bytes 2 0) _).
  assert (z = ip_header tos len id ttl proto src dest 0) as -> by reflexivity.
  rewrite <-Hc. reflexivity.
Qed.

(** ** There and back *)

Lemma same_datagram_refl H : same_datagram H H = true.
Proof. unfold same_datagram. by rewrite !Z.eqb_refl. Qed.

Section back.
Context {CF F A X : Type} `{HL : Lens X reass_state}.
Abbreviation stack := (stack CF F A X).
Abbreviation packet := (packet CF).
Implicit Types (s : stack) (k : packet).
Context (custom_free : CF → loc → prog (heap CF) unit).
Context (mem_avail : heap CF → Z → bool) (garbage : heap CF → nat → Z).
Context (output ip_frag : netif_loc → loc → Z → prog stack err_t).
Context (reass_avail : stack → bool).

Lemma in_memory_hdr h k : in_memory h k → length (k_hdr k) = 20%nat.
Proof. intros (_ & _ & _ & _ & H & _). done. Qed.

(** A packet that does not fit is sent in two fragments or more; the first
    one has the header of the packet but for length, offset and checksum. *)
Lemma fragments_first hdr mtu d (ks : list packet) :
  length hdr = 20%nat → 28 ≤ mtu < 20 + zlen d →
  Forall (λ k, length (k_hdr k) = 20%nat) ks →
  (λ k, k_hdr k ++ k_data k) <$> ks = fragments hdr mtu d →
  ∃ k0 ks', ks = k0 :: ks' ∧ zlen (k_data k0) < zlen d ∧
    ∃ tmp len, k_hdr k0 = frag_hdr hdr tmp len.
Proof.
  intros Hh Hmtu Hl Hk. unfold fragments in Hk.
  destruct d as [|x d']; [rewrite zlen_nil in Hmtu; lia|]. set (d := x :: d') in *.
  change (length d) with (S (length d')) in Hk. cbn [fragments_from] in Hk. unfold d at 1 in Hk. cbv beta iota zeta in Hk. fold d in Hk.
  rewrite (proj2 (Z.leb_gt (zlen d) (mtu - 20))) in Hk by lia.
  destruct ks as [|k ks]; [done|]. rewrite fmap_cons in Hk. injection Hk as Hk _.
  inversion Hl as [|? ? Hlk _]; subst. apply app_inj_1 in Hk as [Ek Ed];
    [|rewrite Hlk; symmetry; by apply length_frag_hdr].
  exists k, ks. split; [done|]. split; [|by eauto].
  rewrite Ed. unfold zlen at 1. rewrite length_take. zdm.
Qed.

End back.

(** *** A run: 20 bytes of data over an MTU of 28 bytes *)

Definition toy_data : bytes := Z.of_nat <$> seq 1 20.
Definition toy_header : bytes :=
  ip_header 0 40 7 64 IP_PROTO_TCP 0x0200000a 0x0100000a
    (chk_finish (header_sum 0 40 7 64 IP_PROTO_TCP 0x0200000a 0x0100000a)).
Definition toy_sent : list (packet run_fn) :=
  match fragments toy_header 28 toy_data with
  | [a; b; c] => [toy_packet 1 a; toy_packet 2 b; toy_packet 3 c]
  | _ => []
  end.

End IpFragTrip.
