(* ===== verification/StackKeeps.v ===== *)
(** * What the IP layers change

    The functions of the IP layers, ICMP and UDP change the packet buffers, the
    interfaces, the UDP control blocks and the globals of the IP layer, and
    whatever the output function of the interface and the callbacks of the
    program change.  So a relation that is closed under the former and that
    the latter keep is kept by all of them. *)

From S2P Require Import Prelude Def Ip4Addr InetChksum Netif Udp Pbuf Stack Ip4 Icmp UdpIo.
From S2P Require Import Ip4Input IpReass IpFrag.

Module StackKeeps.
Import Def Ip4Addr InetChksum Netif Udp Pbuf Stack Ip4 Icmp UdpIo Ip4Input IpReass IpFrag.

(** ** Relations that do not look at the state of the IP layers *)

Class Closed {CF F A X} (R : relation (stack CF F A X)) : Prop := {
  closed_preorder :: PreOrder R;
  closed_pbufs h s : R s (set_pbufs h s);
  closed_netifs n s : R s (set_netifs n s);
  closed_udp u s : R s (set_udp u s);
  closed_ip_id i s : R s (set_ip_id i s);
  closed_ip_data d s : R s (set_ip_data d s)
}.

(** The part of the rest that a component has. *)
Definition closed_in {CF F A X} (D : Type) `{Lens X D} (R : relation (stack CF F A X)) : Prop :=
  ∀ (d : D) s, R s (set_rest (lput d (st_rest s)) s).

Lemma keeps_lift {S D B} `{!Lens S D} (R : relation S) (m : prog D B) :
  (∀ d s, R s (lput d s)) → keeps R (lift m).
Proof. intros H s a s' E. unfold lift in E. destruct (m _) as [|[??]]; simplify_eq. apply H. Qed.

Section closed.
Context {CF F A X : Type}.
Abbreviation stack := (stack CF F A X).
Context (R : relation stack) `{!Closed R}.

Lemma closed_lift_pbufs {B} (m : prog (heap CF) B) : keeps R (lift m).
Proof. apply keeps_lift. intros. apply closed_pbufs. Qed.
Lemma closed_lift_netifs {B} (m : prog netif_state B) : keeps R (lift m).
Proof. apply keeps_lift. intros. apply closed_netifs. Qed.
Lemma closed_lift_udp {B} (m : prog (udp_state F A) B) : keeps R (lift m).
Proof. apply keeps_lift. intros. apply closed_udp. Qed.
Lemma closed_lift_in {D B} `{HL : !Lens X D} (m : prog D B) : closed_in D R → keeps R (lift m).
Proof. intros H. apply keeps_lift. intros. apply H. Qed.
Lemma closed_modify_id f : keeps R (pmodify (λ s, set_ip_id (f s) s)).
Proof. apply keeps_modify. intros. apply closed_ip_id. Qed.
Lemma closed_modify_data f : keeps R (pmodify (λ s, set_ip_data (f s) s)).
Proof. apply keeps_modify. intros. apply closed_ip_data. Qed.
End closed.

#[export] Hint Resolve closed_lift_pbufs closed_lift_netifs closed_lift_udp closed_lift_in
  closed_modify_id closed_modify_data : keeps.

Section stack.
Context {CF F A X : Type} `{HL : Lens X reass_state}.
Abbreviation stack := (stack CF F A X).
Context (R : relation stack) `{!Closed R} (R_reass : closed_in reass_state R).
Context (custom_free : CF → loc → prog (heap CF) unit).
Context (mem_avail : heap CF → Z → bool) (garbage : heap CF → nat → Z).
Context (output ip_frag : netif_loc → loc → Z → prog stack err_t).
Context (R_output : ∀ n p d, keeps R (output n p d)) (R_frag : ∀ n p d, keeps R (ip_frag n p d)).
Context (recv_call : F → option A → pcb_loc → loc → Z → Z → prog stack unit).
Context (R_recv : ∀ f a pcb p addr port, keeps R (recv_call f a pcb p addr port)).
Context (ip_reass : loc → prog stack (option loc)) (R_ip_reass : ∀ p, keeps R (ip_reass p)).
Context (tcp_input : loc → netif_loc → prog stack unit) (R_tcp_input : ∀ p n, keeps R (tcp_input p n)).
Context (reass_avail : stack → bool).
#[local] Hint Resolve R_output R_frag R_recv R_ip_reass R_tcp_input R_reass : keeps.

Lemma closed_write_header p iphdr src dest ttl tos proto :
  keeps R (write_header p iphdr src dest ttl tos proto).
Proof. unfold write_header. keeps. Qed.
Lemma closed_ip_send p dest netif : keeps R (ip_send output ip_frag p dest netif).
Proof. unfold ip_send. keeps. Qed.
#[local] Hint Resolve closed_write_header closed_ip_send : keeps.
Lemma closed_ip_output_if_src p src dest ttl tos proto netif :
  keeps R (ip_output_if_src output ip_frag p src dest ttl tos proto netif).
Proof. unfold ip_output_if_src. keeps. Qed.
#[local] Hint Resolve closed_ip_output_if_src : keeps.
Lemma closed_ip_output_if p src dest ttl tos proto netif :
  keeps R (ip_output_if output ip_frag p src dest ttl tos proto netif).
Proof. unfold ip_output_if. keeps. Qed.
#[local] Hint Resolve closed_ip_output_if : keeps.
Lemma closed_ip_output p src dest ttl tos proto :
  keeps R (ip_output output ip_frag p src dest ttl tos proto).
Proof. unfold ip_output. keeps. Qed.
Lemma closed_pfree p : keeps R (pfree custom_free p).
Proof. unfold pfree. keeps. Qed.
#[local] Hint Resolve closed_ip_output closed_pfree : keeps.
Lemma closed_echo_room p iphdr hlen :
  keeps R (echo_room custom_free mem_avail garbage p iphdr hlen).
Proof. unfold echo_room. keeps. Qed.
Lemma closed_echo_reply p iphdr hlen inp : keeps R (echo_reply output ip_frag p iphdr hlen inp).
Proof. unfold echo_reply. keeps. Qed.
#[local] Hint Resolve closed_echo_room closed_echo_reply : keeps.
Lemma closed_icmp_echo p iphdr hlen inp :
  keeps R (icmp_echo custom_free mem_avail garbage output ip_frag p iphdr hlen inp).
Proof. unfold icmp_echo. keeps. Qed.
#[local] Hint Resolve closed_icmp_echo : keeps.
Lemma closed_icmp_input p inp :
  keeps R (icmp_input custom_free mem_avail garbage output ip_frag p inp).
Proof. unfold icmp_input. keeps. Qed.
Lemma closed_icmp_send_response p type code :
  keeps R (icmp_send_response custom_free mem_avail garbage output ip_frag p type code).
Proof. unfold icmp_send_response. keeps. Qed.
#[local] Hint Resolve closed_icmp_input closed_icmp_send_response : keeps.
Lemma closed_icmp_dest_unreach p t :
  keeps R (icmp_dest_unreach custom_free mem_avail garbage output ip_frag p t).
Proof. unfold icmp_dest_unreach. keeps. Qed.
Lemma closed_icmp_time_exceeded p t :
  keeps R (icmp_time_exceeded custom_free mem_avail garbage output ip_frag p t).
Proof. unfold icmp_time_exceeded. keeps. Qed.
#[local] Hint Resolve closed_icmp_dest_unreach closed_icmp_time_exceeded : keeps.
Lemma closed_udp_deliver pcb p broadcast src :
  keeps R (udp_deliver custom_free mem_avail garbage output ip_frag recv_call pcb p broadcast src).
Proof. unfold udp_deliver. keeps. Qed.
#[local] Hint Resolve closed_udp_deliver : keeps.
Lemma closed_udp_input p inp :
  keeps R (udp_input custom_free mem_avail garbage output ip_frag recv_call p inp).
Proof. unfold udp_input. keeps. Qed.
Lemma closed_udp_header_room p : keeps R (udp_header_room custom_free mem_avail garbage p).
Proof. unfold udp_header_room. keeps. Qed.
#[local] Hint Resolve closed_udp_input closed_udp_header_room : keeps.
Lemma closed_udp_sendto_if_src pcb p dst_ip dst_port netif src_ip :
  keeps R (udp_sendto_if_src custom_free mem_avail garbage output ip_frag pcb p dst_ip dst_port
    netif src_ip).
Proof. unfold udp_sendto_if_src. keeps. Qed.
#[local] Hint Resolve closed_udp_sendto_if_src : keeps.
Lemma closed_udp_sendto_if pcb p dst_ip dst_port netif :
  keeps R (udp_sendto_if custom_free mem_avail garbage output ip_frag pcb p dst_ip dst_port netif).
Proof. unfold udp_sendto_if. keeps. Qed.
#[local] Hint Resolve closed_udp_sendto_if : keeps.
Lemma closed_udp_sendto pcb p dst_ip dst_port :
  keeps R (udp_sendto custom_free mem_avail garbage output ip_frag pcb p dst_ip dst_port).
Proof. unfold udp_sendto. keeps. Qed.
#[local] Hint Resolve closed_udp_sendto : keeps.
Lemma closed_udp_send pcb p : keeps R (udp_send custom_free mem_avail garbage output ip_frag pcb p).
Proof. unfold udp_send. keeps. Qed.
Lemma closed_ip_dispatch p inp iphdr iphdr_hlen :
  keeps R (ip_dispatch custom_free mem_avail garbage output ip_frag recv_call tcp_input p inp
    iphdr iphdr_hlen).
Proof. unfold ip_dispatch. keeps. Qed.
#[local] Hint Resolve closed_udp_send closed_ip_dispatch : keeps.
Lemma closed_ip_receive p inp iphdr iphdr_hlen iphdr_len :
  keeps R (ip_receive custom_free mem_avail garbage output ip_frag recv_call ip_reass tcp_input p
    inp iphdr iphdr_hlen iphdr_len).
Proof. unfold ip_receive. keeps. Qed.
#[local] Hint Resolve closed_ip_receive : keeps.
Lemma closed_ip_input p inp :
  keeps R (ip_input custom_free mem_avail garbage output ip_frag recv_call ip_reass tcp_input p
    inp).
Proof. unfold ip_input. keeps. Qed.
Lemma closed_ip_addresses_and_id_match iphdr fraghdr :
  keeps R (ip_addresses_and_id_match iphdr fraghdr).
Proof. unfold ip_addresses_and_id_match. keeps. Qed.
Lemma closed_free_frags fuel p pbufs_freed : keeps R (free_frags custom_free fuel p pbufs_freed).
Proof. revert p pbufs_freed. induction fuel; intros; cbn [free_frags]; keeps. Qed.
#[local] Hint Resolve closed_ip_input closed_ip_addresses_and_id_match closed_free_frags : keeps.
Lemma closed_ip_reass_free_complete_datagram ipr prev :
  keeps R (ip_reass_free_complete_datagram custom_free mem_avail garbage output ip_frag ipr prev).
Proof. unfold ip_reass_free_complete_datagram. keeps. Qed.
#[local] Hint Resolve closed_ip_reass_free_complete_datagram : keeps.
Lemma closed_tmr_loop fuel r prev :
  keeps R (tmr_loop custom_free mem_avail garbage output ip_frag fuel r prev).
Proof. revert r prev. induction fuel; intros; cbn [tmr_loop]; keeps. Qed.
#[local] Hint Resolve closed_tmr_loop : keeps.
Lemma closed_ip_reass_tmr : keeps R (ip_reass_tmr custom_free mem_avail garbage output ip_frag).
Proof. unfold ip_reass_tmr. keeps. Qed.
Lemma closed_oldest_loop fuel fraghdr r oldest prev other :
  keeps R (oldest_loop fuel fraghdr r oldest prev other).
Proof. revert r oldest prev other. induction fuel; intros; cbn [oldest_loop]; keeps. Qed.
#[local] Hint Resolve closed_oldest_loop : keeps.
Lemma closed_remove_oldest_loop fuel fraghdr pbufs_needed pbufs_freed :
  keeps R (remove_oldest_loop custom_free mem_avail garbage output ip_frag fuel fraghdr
    pbufs_needed pbufs_freed).
Proof.
  revert fraghdr pbufs_needed pbufs_freed. induction fuel; intros; cbn [remove_oldest_loop]; keeps.
Qed.
#[local] Hint Resolve closed_ip_reass_tmr closed_remove_oldest_loop : keeps.
Lemma closed_ip_reass_remove_oldest_datagram fraghdr pbufs_needed :
  keeps R (ip_reass_remove_oldest_datagram custom_free mem_avail garbage output ip_frag fraghdr
    pbufs_needed).
Proof. unfold ip_reass_remove_oldest_datagram. keeps. Qed.
Lemma closed_reass_malloc : keeps R (reass_malloc reass_avail).
Proof. unfold reass_malloc. keeps. Qed.
#[local] Hint Resolve closed_ip_reass_remove_oldest_datagram closed_reass_malloc : keeps.
Lemma closed_ip_reass_enqueue_new_datagram fraghdr clen :
  keeps R (ip_reass_enqueue_new_datagram custom_free mem_avail garbage output ip_frag reass_avail
    fraghdr clen).
Proof. unfold ip_reass_enqueue_new_datagram. keeps. Qed.
Lemma closed_place_last ipr new_p start iprh_prev valid :
  keeps R (place_last ipr new_p start iprh_prev valid).
Proof. unfold place_last. keeps. Qed.
Lemma closed_place_before ipr new_p iprh start end_ q tmp_start iprh_prev valid :
  keeps R (place_before ipr new_p iprh start end_ q tmp_start iprh_prev valid).
Proof. unfold place_before. keeps. Qed.
#[local] Hint Resolve closed_ip_reass_enqueue_new_datagram closed_place_last closed_place_before
  : keeps.
Lemma closed_place_loop fuel ipr new_p iprh start end_ q iprh_prev valid :
  keeps R (place_loop fuel ipr new_p iprh start end_ q iprh_prev valid).
Proof.
  revert ipr new_p iprh start end_ q iprh_prev valid.
  induction fuel; intros; cbn [place_loop]; keeps.
Qed.
Lemma closed_holes_loop fuel iprh_prev q : keeps R (holes_loop fuel iprh_prev q).
Proof. revert iprh_prev q. induction fuel; intros; cbn [holes_loop]; keeps. Qed.
#[local] Hint Resolve closed_place_loop closed_holes_loop : keeps.
Lemma closed_validate ipr iprh : keeps R (validate ipr iprh).
Proof. unfold validate. keeps. Qed.
Lemma closed_frag_len fraghdr : keeps R (frag_len fraghdr).
Proof. unfold frag_len. keeps. Qed.
Lemma closed_frag_offset fraghdr : keeps R (frag_offset fraghdr).
Proof. unfold frag_offset. keeps. Qed.
Lemma closed_match_loop fuel fraghdr ipr : keeps R (match_loop fuel fraghdr ipr).
Proof. revert fraghdr ipr. induction fuel; intros; cbn [match_loop]; keeps. Qed.
#[local] Hint Resolve closed_validate closed_frag_len closed_frag_offset closed_match_loop : keeps.
Lemma closed_chain_frag ipr new_p :
  keeps R (ip_reass_chain_frag_into_datagram_and_validate custom_free ipr new_p).
Proof. unfold ip_reass_chain_frag_into_datagram_and_validate. keeps. Qed.
#[local] Hint Resolve closed_chain_frag : keeps.
Lemma closed_datagram_of fraghdr clen :
  keeps R (datagram_of custom_free mem_avail garbage output ip_frag reass_avail fraghdr clen).
Proof. unfold datagram_of. keeps. Qed.
Lemma closed_cat_loop fuel p r : keeps R (cat_loop fuel p r).
Proof. revert p r. induction fuel; intros; cbn [cat_loop]; keeps. Qed.
Lemma closed_put_header fraghdr hdr len : keeps R (put_header fraghdr hdr len).
Proof. unfold put_header. keeps. Qed.
#[local] Hint Resolve closed_datagram_of closed_cat_loop closed_put_header : keeps.
Lemma closed_ip_reass_finish ipr : keeps R (ip_reass_finish ipr).
Proof. unfold ip_reass_finish. keeps. Qed.
#[local] Hint Resolve closed_ip_reass_finish : keeps.
Lemma closed_ip_reass_add p fraghdr offset len clen :
  keeps R (ip_reass_add custom_free mem_avail garbage output ip_frag reass_avail p fraghdr offset
    len clen).
Proof. unfold ip_reass_add. keeps. Qed.
Lemma closed_ip_reass_room fraghdr clen :
  keeps R (ip_reass_room custom_free mem_avail garbage output ip_frag fraghdr clen).
Proof. unfold ip_reass_room. keeps. Qed.
#[local] Hint Resolve closed_ip_reass_add closed_ip_reass_room : keeps.
Lemma closed_ip_reass p :
  keeps R (IpReass.ip_reass custom_free mem_avail garbage output ip_frag reass_avail p).
Proof. unfold IpReass.ip_reass. keeps. Qed.
#[local] Hint Resolve closed_ip_reass : keeps.
End stack.

(** ** Fragmentation *)

Section frag.
Context {CF F A X : Type}.
Abbreviation stack := (stack (custom_fn CF) F A X).
Context (R : relation stack) `{!Closed R}.
Context (custom_free : custom_fn CF → loc → prog (heap (custom_fn CF)) unit).
Context (mem_avail : heap (custom_fn CF) → Z → bool) (garbage : heap (custom_fn CF) → nat → Z).
Context (output : netif_loc → loc → Z → prog stack err_t).
Context (R_output : ∀ n p d, keeps R (output n p d)).
#[local] Hint Resolve R_output closed_pfree : keeps.

Lemma closed_mirror_loop fuel rambuf p left_to_copy newpbuflen :
  keeps R (mirror_loop custom_free mem_avail fuel rambuf p left_to_copy newpbuflen).
Proof. revert rambuf p left_to_copy newpbuflen. induction fuel; intros; cbn [mirror_loop]; keeps. Qed.
Lemma closed_frag_header iphdr tmp cop : keeps R (frag_header iphdr tmp cop).
Proof. unfold frag_header. keeps. Qed.
#[local] Hint Resolve closed_mirror_loop closed_frag_header : keeps.
Lemma closed_make_fragment original_iphdr p poff cop tmp newpbuflen :
  keeps R (make_fragment custom_free mem_avail garbage original_iphdr p poff cop tmp newpbuflen).
Proof. unfold make_fragment. keeps. Qed.
#[local] Hint Resolve closed_make_fragment : keeps.
Lemma closed_frag_loop fuel netif dest original_iphdr mtu nfb omf p poff left ofo newpbuflen :
  keeps R (frag_loop custom_free mem_avail garbage output fuel netif dest original_iphdr mtu nfb
    omf p poff left ofo newpbuflen).
Proof. revert netif dest original_iphdr mtu nfb omf p poff left ofo newpbuflen. induction fuel; intros; cbn [frag_loop]; keeps. Qed.
#[local] Hint Resolve closed_frag_loop : keeps.
Lemma closed_ip_frag netif p dest :
  keeps R (ip_frag custom_free mem_avail garbage output netif p dest).
Proof. unfold ip_frag. keeps. Qed.
#[local] Hint Resolve closed_ip_frag : keeps.
End frag.
End StackKeeps.
