(* ===== verification/Timers.v ===== *)
(** * Timers of the stack

    [timers.c] with [NO_SYS] 0: the list of timeouts, in which every entry
    holds the time between the one before it and itself, waiting for a message
    while timeouts run, and the timeouts that the stack starts by itself.  The
    entries are only reached through the list, so the list is a Rocq list.
    Waiting for the mailbox, the timer functions of TCP, reassembly and DNS and
    the handlers of the program are parameters.

    [schedule] gives the absolute deadlines.  Every operation is one on a queue
    sorted by deadline: starting a timeout puts it behind all that are due no
    later, stopping one removes it, and neither this nor the passing of time
    moves the deadline of any other. *)

From Stdlib Require Import Sorting.Sorted.
From S2P Require Import Prelude.

Module Timers.

(** ** The list *)

(** [tcpip_tcp_timer], [ip_reass_timer], [dns_timer] and others. *)
Inductive handler (U : Type) :=
  | TcpipTcpTimer
  | IpReassTimer
  | DnsTimer
  | UserHandler (u : U).
Arguments TcpipTcpTimer {U}.
Arguments IpReassTimer {U}.
Arguments DnsTimer {U}.
Arguments UserHandler {U}.

#[export] Instance handler_eq_dec {U} `{EqDecision U} : EqDecision (handler U).
Proof. solve_decision. Defined.

Record sys_timeo (U : Type) := mk_sys_timeo {
  t_time : Z;
  t_h : option (handler U);
  t_arg : Z
}.
Arguments mk_sys_timeo {U}.
Arguments t_time {U}.
Arguments t_h {U}.
Arguments t_arg {U}.

Record timers (U : Type) := mk_timers {
  next_timeout : list (sys_timeo U);
  tcpip_tcp_timer_active : Z
}.
Arguments mk_timers {U}.
Arguments next_timeout {U}.
Arguments tcpip_tcp_timer_active {U}.

Definition TCP_TMR_INTERVAL : Z := 250.
Definition IP_TMR_INTERVAL : Z := 1000.
Definition DNS_TMR_INTERVAL : Z := 1000.
Definition SYS_ARCH_TIMEOUT : Z := 0xffffffff.

Section lists.
Context {U : Type} `{EqDecision U}.
Abbreviation sys_timeo := (sys_timeo U).
Abbreviation timers := (timers U).

Definition with_time (x : Z) (t : sys_timeo) : sys_timeo := mk_sys_timeo x (t_h t) (t_arg t).
Definition set_next_timeout (l : list sys_timeo) (d : timers) : timers :=
  mk_timers l (tcpip_tcp_timer_active d).
Definition set_active (x : Z) (d : timers) : timers := mk_timers (next_timeout d) x.

(** The [for] loop of [sys_timeout], from the entry [t] on. *)
Fixpoint put_behind (timeout : sys_timeo) (t : sys_timeo) (rest : list sys_timeo) : list sys_timeo :=
  let timeout := with_time (u32 (t_time timeout - t_time t)) timeout in
  match rest with
  | [] => [t; timeout]
  | t' :: rest' =>
      if t_time timeout <? t_time t'
      then t :: timeout :: with_time (u32 (t_time t' - t_time timeout)) t' :: rest'
      else t :: put_behind timeout t' rest'
  end.

Definition put_timeout (timeout : sys_timeo) (l : list sys_timeo) : list sys_timeo :=
  match l with
  | [] => [timeout]
  | t :: rest =>
      if t_time timeout <? t_time t
      then timeout :: with_time (u32 (t_time t - t_time timeout)) t :: rest
      else put_behind timeout t rest
  end.

(** The [for] loop of [sys_untimeout]. *)
Fixpoint sys_untimeout_loop (h : option (handler U)) (arg : Z) (l : list sys_timeo)
    : list sys_timeo :=
  match l with
  | [] => []
  | t :: rest =>
      if bool_decide (t_h t = h) && (t_arg t =? arg) then
        match rest with
        | [] => []
        | t' :: rest' => with_time (u32 (t_time t' + t_time t)) t' :: rest'
        end
      else t :: sys_untimeout_loop h arg rest
  end.

End lists.

(** ** The operations *)

Section ops.
Context {U : Type} `{EqDecision U}.
Context {W : Type} `{!Lens W (timers U)}.
(** Is there memory for one more entry? *)
Context (timeout_avail : W → bool).
(** The mailbox: [sys_arch_mbox_fetch mbox msg timeout]. *)
Context (sys_arch_mbox_fetch : Z → prog W Z).
Context (tcp_tmr ip_reass_tmr dns_tmr : prog W unit).
(** [tcp_active_pcbs || tcp_tw_pcbs]. *)
Context (tcp_busy : W → bool).
Context (user : U → Z → prog W unit).

Definition sys_timeout (msecs : Z) (h : option (handler U)) (arg : Z) : prog W unit :=
  w ← pget;
  passert (timeout_avail w);;
  lift (pmodify (λ d : timers U, set_next_timeout (put_timeout (mk_sys_timeo msecs h arg)
                                                    (next_timeout d)) d)).

Definition sys_untimeout (h : option (handler U)) (arg : Z) : prog W unit :=
  lift (pmodify (λ d : timers U, set_next_timeout (sys_untimeout_loop h arg (next_timeout d)) d)).

Definition tcpip_tcp_timer : prog W unit :=
  tcp_tmr;;
  w ← pget;
  if tcp_busy w then sys_timeout TCP_TMR_INTERVAL (Some TcpipTcpTimer) 0
  else lift (pmodify (λ d : timers U, set_active 0 d)).

Definition tcp_timer_needed : prog W unit :=
  w ← pget;
  if (tcpip_tcp_timer_active (lget (D := timers U) w) =? 0) && tcp_busy w then
    lift (pmodify (λ d : timers U, set_active 1 d));;
    sys_timeout TCP_TMR_INTERVAL (Some TcpipTcpTimer) 0
  else mret ().

Definition ip_reass_timer : prog W unit :=
  ip_reass_tmr;; sys_timeout IP_TMR_INTERVAL (Some IpReassTimer) 0.

Definition dns_timer : prog W unit :=
  dns_tmr;; sys_timeout DNS_TMR_INTERVAL (Some DnsTimer) 0.

Definition sys_timeouts_init : prog W unit :=
  sys_timeout IP_TMR_INTERVAL (Some IpReassTimer) 0;;
  sys_timeout DNS_TMR_INTERVAL (Some DnsTimer) 0.

Definition call_handler (h : handler U) (arg : Z) : prog W unit :=
  match h with
  | TcpipTcpTimer => tcpip_tcp_timer
  | IpReassTimer => ip_reass_timer
  | DnsTimer => dns_timer
  | UserHandler u => user u arg
  end.

(** One pass from [again] on: a message was fetched, or a timeout has run. *)
Definition fetch_once : prog W bool :=
  d ← lift (pget (S := timers U));
  match next_timeout d with
  | [] => sys_arch_mbox_fetch 0;; mret true
  | t :: _ =>
      time_needed ← (if 0 <? t_time t then sys_arch_mbox_fetch (t_time t) else mret SYS_ARCH_TIMEOUT);
      d ← lift (pget (S := timers U));
      match next_timeout d with
      | [] => pfault Wild
      | t :: rest =>
          if time_needed =? SYS_ARCH_TIMEOUT then
            lift (pmodify (λ d : timers U, set_next_timeout rest d));;
            match t_h t with Some h => call_handler h (t_arg t) | None => mret () end;;
            mret false
          else
            let x := if time_needed <? t_time t then u32 (t_time t - time_needed) else 0 in
            lift (pmodify (λ d : timers U, set_next_timeout (with_time x t :: rest) d));;
            mret true
      end
  end.

(** [goto again] until a message is there. *)
Fixpoint sys_timeouts_mbox_fetch (fuel : nat) : prog W unit :=
  match fuel with
  | O => pfault Hang
  | S fuel' => b ← fetch_once; if (b : bool) then mret () else sys_timeouts_mbox_fetch fuel'
  end.

End ops.

(** ** Deadlines *)

Section deadlines.
Context {U : Type} `{EqDecision U}.
Abbreviation sys_timeo := (sys_timeo U).
Abbreviation entry := (Z * option (handler U) * Z)%type.
Implicit Types (t : sys_timeo) (l : list sys_timeo) (q : list entry).

(** When the timeouts of the list are due, if it is [now]. *)
Fixpoint schedule (now : Z) l : list entry :=
  match l with
  | [] => []
  | t :: l' => (now + t_time t, t_h t, t_arg t) :: schedule (now + t_time t) l'
  end.

(** A queue sorted by deadline. *)
Definition due (x : entry) : Z := x.1.1.
Fixpoint insert_due (x : entry) q : list entry :=
  match q with
  | [] => [x]
  | y :: q' => if due x <? due y then x :: y :: q' else y :: insert_due x q'
  end.
Fixpoint remove_first (h : option (handler U)) (arg : Z) q : list entry :=
  match q with
  | [] => []
  | y :: q' =>
      if bool_decide (y.1.2 = h) && (y.2 =? arg) then q' else y :: remove_first h arg q'
  end.

(** The times are those of C, and so are the deadlines. *)
Fixpoint total l : Z := match l with [] => 0 | t :: l' => t_time t + total l' end.
Definition times_ok l : Prop := Forall (λ t, 0 ≤ t_time t) l ∧ total l < 4294967296.

Lemma total_nonneg l : Forall (λ t, 0 ≤ t_time t) l → 0 ≤ total l.
Proof. induction 1; cbn; lia. Qed.

Lemma times_ok_cons t l : times_ok (t :: l) ↔ 0 ≤ t_time t ∧ t_time t + total l < 4294967296 ∧ times_ok l.
Proof.
  unfold times_ok. rewrite list.Forall_cons. cbn [total]. split.
  - intros [[H1 H2] H3]. pose proof (total_nonneg l H2). split_and!; try done; lia.
  - tauto.
Qed.

Lemma total_times l now : times_ok l → Forall (λ x : entry, now ≤ due x) (schedule now l).
Proof.
  revert now. induction l as [|t l IH]; intros now; [constructor|]. rewrite times_ok_cons.
  intros (H0 & _ & H). constructor; [cbn; lia|].
  eapply list.Forall_impl; [by apply IH|]. cbn. lia.
Qed.

Lemma schedule_sorted now l : times_ok l → StronglySorted (λ x y, due x ≤ due y) (schedule now l).
Proof.
  revert now. induction l as [|t l IH]; intros now; [constructor|]. rewrite times_ok_cons.
  intros (_ & _ & H). constructor; [by apply IH|]. by apply total_times.
Qed.

(** The time of the next entry is made up for. *)
Lemma schedule_shift now d t l :
  times_ok (t :: l) → 0 ≤ d ≤ t_time t →
  schedule (now + d) (with_time (u32 (t_time t - d)) t :: l) = schedule now (t :: l) ∧
  times_ok (with_time (u32 (t_time t - d)) t :: l) ∧
  d + total (with_time (u32 (t_time t - d)) t :: l) = total (t :: l).
Proof.
  rewrite !times_ok_cons. intros (H0 & Hb & H) Hd. pose proof (total_nonneg l (proj1 H)).
  cbn. rewrite u32_id by (unfold is_u32; lia).
  replace (now + d + (t_time t - d)) with (now + t_time t) by lia. split; [done|].
  split; [|lia]. split; [lia|]. split; [lia|done].
Qed.

Lemma put_behind_spec now new t l :
  times_ok (t :: l) → t_time t ≤ t_time new < 4294967296 →
  schedule now (put_behind new t l)
  = (now + t_time t, t_h t, t_arg t)
    :: insert_due (now + t_time new, t_h new, t_arg new) (schedule (now + t_time t) l) ∧
  times_ok (put_behind new t l) ∧
  total (put_behind new t l) = Z.max (total (t :: l)) (t_time new).
Proof.
  revert now new t. induction l as [|t' l IH]; intros now new t Hok Hn;
    rewrite times_ok_cons in Hok; destruct Hok as (H0 & Hb & H).
  - cbn. rewrite u32_id by (unfold is_u32; lia).
    replace (now + t_time t + (t_time new - t_time t)) with (now + t_time new) by lia.
    split; [done|]. split; [|cbn in Hb; lia].
    repeat (rewrite times_ok_cons; cbn; split; [lia|]; split; [lia|]). done.
  - cbn [put_behind]. cbv zeta. rewrite u32_id by (unfold is_u32; lia).
    set (new' := with_time _ new). assert (E : t_time new' = t_time new - t_time t) by done.
    assert (En : now + t_time t + t_time new' = now + t_time new) by lia.
    cbn [schedule insert_due due fst snd]. destruct (Z.ltb_spec (t_time new') (t_time t')) as [Hlt|Hge].
    + rewrite (proj2 (Z.ltb_lt _ _)) by lia.
      destruct (schedule_shift (now + t_time t) (t_time new') t' l H) as (E1 & E2 & E3); [lia|].
      cbn [schedule] in *. rewrite En in *. rewrite E1. split; [done|]. cbn [total] in *.
      pose proof (total_nonneg _ (proj1 H)) as Hnn. pose proof H as (_ & _ & H2)%times_ok_cons.
      pose proof (total_nonneg _ (proj1 H2)). split; [|lia].
      rewrite !times_ok_cons. rewrite times_ok_cons in E2. cbn [total]. split_and!; try lia; apply H2.
    + rewrite (proj2 (Z.ltb_ge _ _)) by lia.
      destruct (IH (now + t_time t) new' t' H) as (E1 & E2 & E3); [lia|].
      cbn [schedule]. rewrite E1, En. split; [done|]. cbn [total] in *.
      split; [|lia]. rewrite times_ok_cons. split; [lia|]. split; [lia|done].
Qed.

Lemma put_timeout_spec now new l :
  times_ok l → 0 ≤ t_time new < 4294967296 →
  schedule now (put_timeout new l)
  = insert_due (now + t_time new, t_h new, t_arg new) (schedule now l) ∧ times_ok (put_timeout new l).
Proof.
  intros Hok Hn. destruct l as [|t l]; cbn [put_timeout schedule insert_due].
  { split; [done|]. rewrite times_ok_cons. cbn. split; [lia|]. split; [lia|done]. }
  unfold due. cbn [fst]. destruct (Z.ltb_spec (t_time new) (t_time t)) as [Hlt|Hge].
  - rewrite (proj2 (Z.ltb_lt _ _)) by lia.
    destruct (schedule_shift now (t_time new) t l Hok) as (E1 & E2 & E3); [lia|].
    cbn [schedule] in *. rewrite E1. split; [done|]. rewrite times_ok_cons.
    split; [lia|]. split; [|done]. destruct Hok. lia.
  - rewrite (proj2 (Z.ltb_ge _ _)) by lia.
    destruct (put_behind_spec now new t l Hok) as (E1 & E2 & E3); [lia|]. done.
Qed.

Lemma untimeout_spec now h arg l :
  times_ok l →
  schedule now (sys_untimeout_loop h arg l) = remove_first h arg (schedule now l) ∧
  times_ok (sys_untimeout_loop h arg l) ∧ total (sys_untimeout_loop h arg l) ≤ total l.
Proof.
  revert now. induction l as [|t l IH]; intros now; [done|].
  rewrite times_ok_cons. intros (H0 & Hb & H). cbn [sys_untimeout_loop schedule remove_first fst snd].
  destruct (_ && _).
  - destruct l as [|t' l]; [split; [done|split; [done|cbn; lia]]|].
    rewrite times_ok_cons in H. destruct H as (H1 & Hb1 & H). cbn [total schedule] in *.
    pose proof (total_nonneg l (proj1 H)). cbn [t_time with_time t_h t_arg].
    rewrite u32_id by (unfold is_u32; lia).
    replace (now + (t_time t' + t_time t)) with (now + t_time t + t_time t') by lia.
    split; [done|]. rewrite times_ok_cons. cbn. split; [|lia]. split; [lia|]. split; [lia|done].
  - destruct (IH (now + t_time t) H) as (E1 & E2 & E3). cbn [schedule total]. rewrite E1.
    split; [done|]. split; [|lia]. rewrite times_ok_cons. split; [lia|]. split; [lia|done].
Qed.
End deadlines.

(** ** The operations keep the deadlines *)

Section keep.
Context {U : Type} `{EqDecision U}.
Context {W : Type} `{!Lens W (timers U)}.
Context (timeout_avail : W → bool) (sys_arch_mbox_fetch : Z → prog W Z).
Context (tcp_tmr ip_reass_tmr dns_tmr : prog W unit) (tcp_busy : W → bool).
Context (user : U → Z → prog W unit).

Abbreviation sys_timeout := (sys_timeout timeout_avail).
Abbreviation fetch_once :=
  (fetch_once timeout_avail sys_arch_mbox_fetch tcp_tmr ip_reass_tmr dns_tmr tcp_busy user).
Abbreviation call_handler :=
  (call_handler timeout_avail tcp_tmr ip_reass_tmr dns_tmr tcp_busy user).

Definition timeouts (w : W) : list (sys_timeo U) := next_timeout (lget (D := timers U) w).
Definition with_timeouts (l : list (sys_timeo U)) (w : W) : W :=
  lput (set_next_timeout l (lget (D := timers U) w)) w.

Lemma timeouts_with l w : timeouts (with_timeouts l w) = l.
Proof. unfold timeouts, with_timeouts. by rewrite lget_lput. Qed.

Lemma fetch_message w t l n :
  timeouts w = t :: l → 0 < t_time t → n ≠ SYS_ARCH_TIMEOUT →
  sys_arch_mbox_fetch (t_time t) w = inr (n, w) →
  fetch_once w = inr (true, with_timeouts
    (with_time (if n <? t_time t then u32 (t_time t - n) else 0) t :: l) w).
Proof.
  intros El Ht Hn Ef. unfold fetch_once. rewrite (bind_lift_same pget _ w _ eq_refl).
  unfold timeouts in El. rewrite El, (proj2 (Z.ltb_lt _ _)) by done.
  rewrite (bind_ret _ _ _ _ _ Ef), (bind_lift_same pget _ w _ eq_refl), El.
  rewrite (proj2 (Z.eqb_neq _ _)) by done. done.
Qed.

Lemma fetch_expired w t l :
  timeouts w = t :: l →
  (0 < t_time t → sys_arch_mbox_fetch (t_time t) w = inr (SYS_ARCH_TIMEOUT, w)) →
  fetch_once w
  = (match t_h t with Some h => call_handler h (t_arg t) | None => mret () end;; mret false)
      (with_timeouts l w).
Proof.
  intros El Ef. unfold fetch_once. rewrite (bind_lift_same pget _ w _ eq_refl).
  unfold timeouts in El. rewrite El.
  assert (E : (if 0 <? t_time t then sys_arch_mbox_fetch (t_time t) else mret SYS_ARCH_TIMEOUT) w
              = inr (SYS_ARCH_TIMEOUT, w)).
  { destruct (Z.ltb_spec 0 (t_time t)); [by apply Ef|done]. }
  rewrite (bind_ret _ _ _ _ _ E), (bind_lift_same pget _ w _ eq_refl), El.
  rewrite Z.eqb_refl. done.
Qed.

(** C15: The list of timeouts is a queue sorted by deadline.  Starting a timeout
    that is due in [msecs] puts it behind all that are due no later; stopping
    one removes the first entry with that handler and argument and no other;
    waiting for a message for less than the time to the first timeout changes
    no deadline; and when the wait times out, the timeout with the earliest
    deadline runs, at its deadline, while those of all others are unchanged. *)
Theorem timeouts_keep_deadlines w now :
  times_ok (timeouts w) →
  (∀ msecs h arg, is_u32 msecs → timeout_avail w = true →
     ∃ w', sys_timeout msecs h arg w = inr (tt, w') ∧ times_ok (timeouts w') ∧
       schedule now (timeouts w') = insert_due (now + msecs, h, arg) (schedule now (timeouts w))) ∧
  (∀ h arg, ∃ w', sys_untimeout h arg w = inr (tt, w') ∧ times_ok (timeouts w') ∧
     schedule now (timeouts w') = remove_first h arg (schedule now (timeouts w))) ∧
  StronglySorted (λ x y, due x ≤ due y) (schedule now (timeouts w)) ∧
  ∀ t l, timeouts w = t :: l →
    (∀ n, 0 ≤ n < t_time t → sys_arch_mbox_fetch (t_time t) w = inr (n, w) →
       ∃ w', fetch_once w = inr (true, w') ∧ times_ok (timeouts w') ∧
         schedule (now + n) (timeouts w') = schedule now (timeouts w)) ∧
    ((0 < t_time t → sys_arch_mbox_fetch (t_time t) w = inr (SYS_ARCH_TIMEOUT, w)) →
       ∃ w', fetch_once w
             = (match t_h t with Some h => call_handler h (t_arg t) | None => mret () end;; mret false) w' ∧
         times_ok (timeouts w') ∧
         schedule now (timeouts w)
         = (now + t_time t, t_h t, t_arg t) :: schedule (now + t_time t) (timeouts w')).
Proof.
  intros Hok. split; [|split; [|split]].
  - intros msecs h arg Hm Hav.
    destruct (put_timeout_spec now (mk_sys_timeo msecs h arg) _ Hok Hm) as [E1 E2].
    exists (with_timeouts (put_timeout (mk_sys_timeo msecs h arg) (timeouts w)) w).
    rewrite timeouts_with. split; [|done]. unfold sys_timeout.
    by rewrite bind_get, bind_assert.
  - intros h arg. destruct (untimeout_spec now h arg _ Hok) as (E1 & E2 & _).
    exists (with_timeouts (sys_untimeout_loop h arg (timeouts w)) w).
    rewrite timeouts_with. done.
  - by apply schedule_sorted.
  - intros t l El. rewrite El in Hok |- *. split.
    + intros n Hn Ef. pose proof Hok as (H0 & Hb & Hl)%times_ok_cons.
      pose proof (total_nonneg _ (proj1 Hl)).
      destruct (schedule_shift now n t l Hok) as (E1 & E2 & _); [lia|].
      rewrite (fetch_message w t l n El) by (done || lia || unfold SYS_ARCH_TIMEOUT; lia).
      rewrite (proj2 (Z.ltb_lt _ _)) by lia. eexists. split; [done|]. by rewrite timeouts_with.
    + intros Ef. exists (with_timeouts l w). rewrite timeouts_with.
      split; [by apply fetch_expired|]. by apply times_ok_cons in Hok as (_ & _ & Hl).
Qed.
End keep.

(** *** A run *)

(** The mailbox stays empty, as for a program that only has timers; the timer
    functions write down that they ran. *)
Abbreviation toy := (timers Empty_set * list nat)%type.
Definition toy_fetch : Z → prog toy Z := λ _, mret SYS_ARCH_TIMEOUT.
Definition toy_note (n : nat) : prog toy unit := pmodify (λ w, (w.1, w.2 ++ [n])).
Definition toy_fetch_once : prog toy bool :=
  fetch_once (λ _, true) toy_fetch (toy_note 1) (toy_note 2) (toy_note 3) (λ _, true)
    (λ u _, match u : Empty_set with end).
Definition toy_started : toy :=
  (mk_timers [mk_sys_timeo 250 (Some TcpipTcpTimer) 0; mk_sys_timeo 750 (Some IpReassTimer) 0;
              mk_sys_timeo 0 (Some DnsTimer) 0] 1, []).

(** One second after the stack was initialised and the TCP timer was needed. *)
Lemma toy_second :
  (sys_timeouts_init (λ _, true);; tcp_timer_needed (λ _, true) (λ _, true))
    (mk_timers [] 0, [] : list nat) = inr (tt, toy_started) ∧
  (x ← repeat_prog 6 (toy_fetch_once;; mret ()); mret x) toy_started
  = inr (tt, (mk_timers [mk_sys_timeo 250 (Some TcpipTcpTimer) 0; mk_sys_timeo 750 (Some IpReassTimer) 0;
              mk_sys_timeo 0 (Some DnsTimer) 0] 1, [1; 1; 1; 2; 3; 1]%nat)).
Proof. split; vm_compute; reflexivity. Qed.

Lemma timeouts_keep_deadlines_witness :
  ∃ w', toy_fetch_once toy_started
        = (call_handler (λ _, true) (toy_note 1) (toy_note 2) (toy_note 3) (λ _, true)
             (λ u _, match u : Empty_set with end) TcpipTcpTimer 0;; mret false) w' ∧
    schedule 250 (timeouts w') = [(1000, Some IpReassTimer, 0); (1000, Some DnsTimer, 0)].
Proof.
  destruct (timeouts_keep_deadlines (λ _, true) toy_fetch (toy_note 1) (toy_note 2) (toy_note 3)
    (λ _, true) (λ u _, match u : Empty_set with end) toy_started 0) as (_ & _ & _ & H).
  - split; [repeat constructor; cbn; lia|reflexivity].
  - destruct (H _ _ eq_refl) as [_ Hf]. destruct Hf as (w' & E & _ & Es); [done|].
    exists w'. split; [exact E|]. injection Es as Es. symmetry. exact Es.
Defined.
End Timers.
