(* ===== verification/Tcp.v ===== *)
(** * TCP control blocks: [lwip/tcp.h], [lwip/tcp_impl.h]

    The data of TCP in the configuration of [src/lwipopts.h]: control blocks,
    segments, the lists of control blocks and the variables of [tcp.c] and
    [tcp_in.c], with the macros of the headers.

    Control blocks are reached through four lists and through pointers that
    the application and the callbacks hold, so they are records in finite maps
    from addresses, linked by their [next] fields; the shorter structure of a
    listening block has a map of its own.  A segment belongs to one queue of
    one block, so a queue is a list.  The header of a segment stays in the
    memory of its pbuf, and [s_tcphdr] points there.  Function pointers and the
    arguments of callbacks are abstract values. *)

From S2P Require Import Prelude RecordSet Def Ip4Addr InetChksum Netif Udp Pbuf Stack Ip4.

Module Tcp.
Import RecordSet Def Ip4Addr InetChksum Netif Udp Pbuf Stack Ip4.

(** ** Constants *)

Definition TCP_TTL : Z := 255.
Definition TCP_MSS : Z := 1024.
Definition TCP_SND_BUF : Z := 65534.
Definition TCP_SND_QUEUELEN : Z := 4 * TCP_SND_BUF / TCP_MSS.
Definition TCP_WND : Z := 65534.
Definition TCP_MAXRTX : Z := 12.
Definition TCP_SYNMAXRTX : Z := 4.
Definition TCP_OVERSIZE : Z := TCP_MSS.
Definition TCP_WND_UPDATE_THRESHOLD : Z := TCP_WND / 4.

Definition TCP_LOCAL_PORT_RANGE_START : Z := 0xc000.
Definition TCP_LOCAL_PORT_RANGE_END : Z := 0xffff.

Definition TCP_FIN : Z := 0x01.
Definition TCP_SYN : Z := 0x02.
Definition TCP_RST : Z := 0x04.
Definition TCP_PSH : Z := 0x08.
Definition TCP_ACK : Z := 0x10.
Definition TCP_FLAGS : Z := 0x3f.
Definition TCP_HLEN : Z := 20.
Definition TCP_TMR_INTERVAL : Z := 250.
Definition TCP_SLOW_INTERVAL : Z := 2 * TCP_TMR_INTERVAL.
Definition TCP_FIN_WAIT_TIMEOUT : Z := 20000.
Definition TCP_SYN_RCVD_TIMEOUT : Z := 20000.
Definition TCP_OOSEQ_TIMEOUT : Z := 6.
Definition TCP_MSL : Z := 60000.
Definition TCP_KEEPIDLE_DEFAULT : Z := 7200000.
Definition TCP_KEEPINTVL_DEFAULT : Z := 75000.
Definition TCP_KEEPCNT_DEFAULT : Z := 9.
Definition TCP_PRIO_NORMAL : Z := 64.
Definition TCP_PRIO_MAX : Z := 127.
Definition TCP_SNDQUEUELEN_OVERFLOW : Z := 0xffff - 3.
Definition TCP_WRITE_FLAG_COPY : Z := 0x01.
Definition TCP_WRITE_FLAG_MORE : Z := 0x02.

(** [pcb->flags] *)
Definition TF_ACK_DELAY : Z := 0x01.
Definition TF_ACK_NOW : Z := 0x02.
Definition TF_INFR : Z := 0x04.
Definition TF_RXCLOSED : Z := 0x10.
Definition TF_FIN : Z := 0x20.
Definition TF_NODELAY : Z := 0x40.
Definition TF_NAGLEMEMERR : Z := 0x80.
(** [recv_flags] *)
Definition TF_RESET : Z := 0x08.
Definition TF_CLOSED : Z := 0x10.
Definition TF_GOT_FIN : Z := 0x20.
(** [seg->flags] *)
Definition TF_SEG_OPTS_MSS : Z := 0x01.
Definition LWIP_TCP_OPT_LEN_MSS : Z := 4.
Definition LWIP_TCP_OPT_LENGTH (flags : Z) : Z :=
  if Z.land flags TF_SEG_OPTS_MSS =? 0 then 0 else LWIP_TCP_OPT_LEN_MSS.
Definition TCP_BUILD_MSS_OPTION (mss : Z) : Z :=
  lwip_htonl (Z.lor 0x02040000 (Z.land mss 0xffff)).

(** [p->flags] *)
Definition PBUF_FLAG_PUSH : Z := 0x01.
Definition PBUF_FLAG_TCP_FIN : Z := 0x20.

Definition SOF_ACCEPTCONN : Z := 0x02.
Definition SOF_KEEPALIVE : Z := 0x08.
Definition SOF_INHERITED : Z := Z.lor 0x04 (Z.lor SOF_KEEPALIVE 0x80).

(** ** Sequence numbers *)

Definition TCP_SEQ_LT (a b : Z) : bool := s32 (a - b) <? 0.
Definition TCP_SEQ_LEQ (a b : Z) : bool := s32 (a - b) <=? 0.
Definition TCP_SEQ_GT (a b : Z) : bool := 0 <? s32 (a - b).
Definition TCP_SEQ_GEQ (a b : Z) : bool := 0 <=? s32 (a - b).
Definition TCP_SEQ_BETWEEN (a b c : Z) : bool := TCP_SEQ_GEQ a b && TCP_SEQ_LEQ a c.

(** Flags in an integer. *)
Definition has (flags f : Z) : bool := negb (Z.land flags f =? 0).
Definition clear (f flags : Z) : Z := Z.ldiff flags f.

(** ** Data *)

Inductive tcp_state :=
  | CLOSED | LISTEN | SYN_SENT | SYN_RCVD | ESTABLISHED | FIN_WAIT_1 | FIN_WAIT_2
  | CLOSE_WAIT | CLOSING | LAST_ACK | TIME_WAIT.

#[export] Instance tcp_state_eq_dec : EqDecision tcp_state.
Proof. solve_decision. Defined.

Definition state_num (s : tcp_state) : Z :=
  match s with
  | CLOSED => 0 | LISTEN => 1 | SYN_SENT => 2 | SYN_RCVD => 3 | ESTABLISHED => 4
  | FIN_WAIT_1 => 5 | FIN_WAIT_2 => 6 | CLOSE_WAIT => 7 | CLOSING => 8 | LAST_ACK => 9
  | TIME_WAIT => 10
  end.
Definition is_state (a b : tcp_state) : bool := bool_decide (a = b).

(** The callbacks that lwIP itself installs, and those of the application. *)
Inductive fn := Tcp_recv_null | Tcp_accept_null | App (k : positive).

(** [TCP_OVERSIZE_DBGCHECK] is on. *)
Record tcp_seg := mk_tcp_seg {
  s_p : option loc;
  s_len : Z;
  s_oversize_left : Z;
  s_flags : Z;
  s_tcphdr : ptr
}.
#[export] Instance eta_tcp_seg : Eta tcp_seg := λ g,
  mk_tcp_seg (s_p g) (s_len g) (s_oversize_left g) (s_flags g) (s_tcphdr g).

Abbreviation tloc := positive.

Record tcp_pcb := mk_tcp_pcb {
  (* [IP_PCB] *)
  t_local_ip : Z; t_remote_ip : Z; t_so_options : Z; t_tos : Z; t_ttl : Z;
  (* [TCP_PCB_COMMON] *)
  t_next : option tloc; t_callback_arg : Z; t_accept : option fn; t_state : tcp_state;
  t_prio : Z; t_local_port : Z;
  t_remote_port : Z; t_flags : Z;
  t_polltmr : Z; t_pollinterval : Z; t_last_timer : Z; t_tmr : Z;
  t_rcv_nxt : Z; t_rcv_wnd : Z; t_rcv_ann_wnd : Z; t_rcv_ann_right_edge : Z;
  t_rtime : Z; t_mss : Z; t_rttest : Z; t_rtseq : Z; t_sa : Z; t_sv : Z; t_rto : Z; t_nrtx : Z;
  t_dupacks : Z; t_lastack : Z; t_cwnd : Z; t_ssthresh : Z;
  t_snd_nxt : Z; t_snd_wl1 : Z; t_snd_wl2 : Z; t_snd_lbb : Z; t_snd_wnd : Z; t_snd_wnd_max : Z;
  t_acked : Z; t_snd_buf : Z; t_snd_queuelen : Z; t_unsent_oversize : Z;
  t_unsent : list tcp_seg; t_unacked : list tcp_seg; t_ooseq : list tcp_seg;
  t_refused_data : option loc;
  t_sent : option fn; t_recv : option fn; t_connected : option fn; t_poll : option fn;
  t_errf : option fn;
  t_keep_idle : Z; t_keep_intvl : Z; t_keep_cnt : Z;
  t_persist_cnt : Z; t_persist_backoff : Z; t_keep_cnt_sent : Z
}.
#[export] Instance eta_tcp_pcb : Eta tcp_pcb := λ b, mk_tcp_pcb
  (t_local_ip b) (t_remote_ip b) (t_so_options b) (t_tos b) (t_ttl b)
  (t_next b) (t_callback_arg b) (t_accept b) (t_state b) (t_prio b) (t_local_port b)
  (t_remote_port b) (t_flags b)
  (t_polltmr b) (t_pollinterval b) (t_last_timer b) (t_tmr b)
  (t_rcv_nxt b) (t_rcv_wnd b) (t_rcv_ann_wnd b) (t_rcv_ann_right_edge b)
  (t_rtime b) (t_mss b) (t_rttest b) (t_rtseq b) (t_sa b) (t_sv b) (t_rto b) (t_nrtx b)
  (t_dupacks b) (t_lastack b) (t_cwnd b) (t_ssthresh b)
  (t_snd_nxt b) (t_snd_wl1 b) (t_snd_wl2 b) (t_snd_lbb b) (t_snd_wnd b) (t_snd_wnd_max b)
  (t_acked b) (t_snd_buf b) (t_snd_queuelen b) (t_unsent_oversize b)
  (t_unsent b) (t_unacked b) (t_ooseq b) (t_refused_data b)
  (t_sent b) (t_recv b) (t_connected b) (t_poll b) (t_errf b)
  (t_keep_idle b) (t_keep_intvl b) (t_keep_cnt b)
  (t_persist_cnt b) (t_persist_backoff b) (t_keep_cnt_sent b).

Record tcp_pcb_listen := mk_tcp_pcb_listen {
  l_local_ip : Z; l_so_options : Z; l_tos : Z; l_ttl : Z;
  l_next : option tloc; l_callback_arg : Z; l_accept : option fn; l_prio : Z; l_local_port : Z
}.
#[export] Instance eta_tcp_pcb_listen : Eta tcp_pcb_listen := λ b, mk_tcp_pcb_listen
  (l_local_ip b) (l_so_options b) (l_tos b) (l_ttl b) (l_next b) (l_callback_arg b) (l_accept b)
  (l_prio b) (l_local_port b).

(** The static variables of [tcp_in.c]. *)
Record tcp_input_vars := mk_tcp_input_vars {
  i_inseg : tcp_seg; i_tcphdr : ptr; i_tcphdr_opt1len : Z; i_tcphdr_opt2 : option ptr;
  i_tcp_optidx : Z; i_seqno : Z; i_ackno : Z; i_flags : Z; i_tcplen : Z;
  i_recv_flags : Z; i_recv_data : option loc
}.
#[export] Instance eta_tcp_input_vars : Eta tcp_input_vars := λ i, mk_tcp_input_vars
  (i_inseg i) (i_tcphdr i) (i_tcphdr_opt1len i) (i_tcphdr_opt2 i)
  (i_tcp_optidx i) (i_seqno i) (i_ackno i) (i_flags i) (i_tcplen i) (i_recv_flags i) (i_recv_data i).

(** The control blocks and the variables of [tcp.c]. *)
Record tcp_vars := mk_tcp_vars {
  tcp_structs : gmap tloc tcp_pcb;
  tcp_listen_structs : gmap tloc tcp_pcb_listen;
  tcp_listen_pcbs : option tloc;
  tcp_bound_pcbs : option tloc;
  tcp_active_pcbs : option tloc;
  tcp_tw_pcbs : option tloc;
  tcp_port : Z; tcp_ticks : Z; tcp_active_pcbs_changed : Z; tcp_timer : Z; tcp_timer_ctr : Z;
  tcp_iss : Z;
  tcp_input_pcb : option tloc;
  tcp_in : tcp_input_vars
}.
#[export] Instance eta_tcp_vars : Eta tcp_vars := λ v, mk_tcp_vars
  (tcp_structs v) (tcp_listen_structs v) (tcp_listen_pcbs v) (tcp_bound_pcbs v)
  (tcp_active_pcbs v) (tcp_tw_pcbs v)
  (tcp_port v) (tcp_ticks v) (tcp_active_pcbs_changed v) (tcp_timer v) (tcp_timer_ctr v)
  (tcp_iss v) (tcp_input_pcb v) (tcp_in v).

Definition tcp_vars_init : tcp_vars :=
  mk_tcp_vars ∅ ∅ None None None None TCP_LOCAL_PORT_RANGE_START 0 0 0 0 6510 None
    (mk_tcp_input_vars (mk_tcp_seg None 0 0 0 (1%positive, 0)) (1%positive, 0) 0 None 0 0 0 0 0 0 None).

(** ** Control blocks in memory *)

Definition tderef (l : tloc) : prog tcp_vars tcp_pcb := v ← pget; pderef (tcp_structs v !! l).
Definition tupdate (l : tloc) (f : tcp_pcb → tcp_pcb) : prog tcp_vars unit :=
  b ← tderef l; pmodify (λ v, v <|tcp_structs ::= <[l:=f b]>|>).
Definition lderef (l : tloc) : prog tcp_vars tcp_pcb_listen :=
  v ← pget; pderef (tcp_listen_structs v !! l).
Definition lupdate (l : tloc) (f : tcp_pcb_listen → tcp_pcb_listen) : prog tcp_vars unit :=
  b ← lderef l; pmodify (λ v, v <|tcp_listen_structs ::= <[l:=f b]>|>).

Definition tcp_fresh (v : tcp_vars) : tloc := fresh (dom (tcp_structs v) ∪ dom (tcp_listen_structs v)).
(** [memp_free] of a block. *)
Definition tcp_free (l : tloc) : prog tcp_vars unit :=
  tderef l;; pmodify (λ v, v <|tcp_structs ::= delete l|>).
Definition tcp_listen_free (l : tloc) : prog tcp_vars unit :=
  lderef l;; pmodify (λ v, v <|tcp_listen_structs ::= delete l|>).

(** The members that both kinds of blocks have. *)
Definition is_listen (l : tloc) : prog tcp_vars bool :=
  v ← pget; mret (bool_decide (is_Some (tcp_listen_structs v !! l))).
Definition next_of (l : tloc) : prog tcp_vars (option tloc) :=
  b ← is_listen l;
  if (b : bool) then b ← lderef l; mret (l_next b) else b ← tderef l; mret (t_next b).
Definition set_next_of (l : tloc) (n : option tloc) : prog tcp_vars unit :=
  b ← is_listen l;
  if (b : bool) then lupdate l (λ b, b <|l_next := n|>) else tupdate l (λ b, b <|t_next := n|>).
(** [local_ip] and [local_port]. *)
Definition local_of (l : tloc) : prog tcp_vars (Z * Z) :=
  b ← is_listen l;
  if (b : bool) then b ← lderef l; mret (l_local_ip b, l_local_port b)
  else b ← tderef l; mret (t_local_ip b, t_local_port b).

(** ** The lists *)

Inductive pcb_list := LISTEN_PCBS | BOUND_PCBS | ACTIVE_PCBS | TW_PCBS.

Definition head_of (pcbs : pcb_list) (v : tcp_vars) : option tloc :=
  match pcbs with
  | LISTEN_PCBS => tcp_listen_pcbs v
  | BOUND_PCBS => tcp_bound_pcbs v
  | ACTIVE_PCBS => tcp_active_pcbs v
  | TW_PCBS => tcp_tw_pcbs v
  end.
Definition set_head_of (pcbs : pcb_list) (l : option tloc) (v : tcp_vars) : tcp_vars :=
  match pcbs with
  | LISTEN_PCBS => v <|tcp_listen_pcbs := l|>
  | BOUND_PCBS => v <|tcp_bound_pcbs := l|>
  | ACTIVE_PCBS => v <|tcp_active_pcbs := l|>
  | TW_PCBS => v <|tcp_tw_pcbs := l|>
  end.

(** Enough for a walk along any list. *)
Definition list_fuel (v : tcp_vars) : nat :=
  S (size (tcp_structs v) + size (tcp_listen_structs v)).

Fixpoint rmv_loop (fuel : nat) (tmp : option tloc) (npcb : tloc) : prog tcp_vars unit :=
  match tmp with
  | None => mret ()
  | Some t =>
      match fuel with
      | O => pfault Hang
      | S fuel' =>
          n ← next_of t;
          if bool_decide (n = Some npcb) then n' ← next_of npcb; set_next_of t n'
          else rmv_loop fuel' n npcb
      end
  end.
Definition TCP_RMV (pcbs : pcb_list) (npcb : tloc) : prog tcp_vars unit :=
  v ← pget;
  (if bool_decide (head_of pcbs v = Some npcb) then
     n ← next_of npcb; pmodify (set_head_of pcbs n)
   else rmv_loop (list_fuel v) (head_of pcbs v) npcb);;
  set_next_of npcb None.

(** [TCP_REG] without the call of [tcp_timer_needed]. *)
Definition reg (pcbs : pcb_list) (npcb : tloc) : prog tcp_vars unit :=
  v ← pget; set_next_of npcb (head_of pcbs v);; pmodify (set_head_of pcbs (Some npcb)).

(** ** The header of a segment *)

Definition TCPH_SRC : Z := 0.
Definition TCPH_DEST : Z := 2.
Definition TCPH_SEQNO : Z := 4.
Definition TCPH_ACKNO : Z := 8.
Definition TCPH_HDRLEN_RSVD_FLAGS : Z := 12.
Definition TCPH_WND : Z := 14.
Definition TCPH_CHKSUM : Z := 16.
Definition TCPH_URGP : Z := 18.
Definition SIZEOF_TCP_HDR : Z := 20.

Section header.
Context {CF : Type}.
Abbreviation heap := (heap CF).

Definition TCPH_HDRLEN (phdr : ptr) : prog heap Z :=
  w ← load 2 phdr TCPH_HDRLEN_RSVD_FLAGS; mret (Z.shiftr (lwip_ntohs w) 12).
Definition TCPH_FLAGS (phdr : ptr) : prog heap Z :=
  w ← load 2 phdr TCPH_HDRLEN_RSVD_FLAGS; mret (Z.land (lwip_ntohs w) TCP_FLAGS).
Definition TCPH_FLAGS_SET (phdr : ptr) (flags : Z) : prog heap unit :=
  w ← load 2 phdr TCPH_HDRLEN_RSVD_FLAGS;
  store 2 phdr TCPH_HDRLEN_RSVD_FLAGS
    (Z.lor (Z.land w (lwip_htons (not16 TCP_FLAGS))) (lwip_htons flags)).
Definition TCPH_HDRLEN_FLAGS_SET (phdr : ptr) (len flags : Z) : prog heap unit :=
  store 2 phdr TCPH_HDRLEN_RSVD_FLAGS (lwip_htons (Z.lor (Z.shiftl len 12) flags)).
Definition TCPH_SET_FLAG (phdr : ptr) (flags : Z) : prog heap unit :=
  w ← load 2 phdr TCPH_HDRLEN_RSVD_FLAGS;
  store 2 phdr TCPH_HDRLEN_RSVD_FLAGS (Z.lor w (lwip_htons flags)).

(** [ntohl(seg->tcphdr->seqno)], for a segment to be sent. *)
Definition seg_seqno (g : tcp_seg) : prog heap Z :=
  w ← load 4 (s_tcphdr g) TCPH_SEQNO; mret (lwip_ntohl w).
Definition TCP_TCPLEN (g : tcp_seg) : prog heap Z :=
  f ← TCPH_FLAGS (s_tcphdr g); mret (s_len g + (if has f (Z.lor TCP_FIN TCP_SYN) then 1 else 0)).

End header.

(** ** Small functions of [tcp.c] *)

Definition tcp_next_iss : prog tcp_vars Z :=
  v ← pget;
  let iss := u32 (tcp_iss v + tcp_ticks v) in
  pmodify (λ v, v <|tcp_iss := iss|>);; mret iss.

Definition tcp_eff_send_mss (sendmss dest : Z) : prog netif_state Z :=
  outif ← ip_route dest;
  match outif with
  | None => mret sendmss
  | Some outif =>
      n ← nderef outif;
      let mtu := s16 (nif_mtu n) in
      if mtu =? 0 then mret sendmss
      else mret (Z.min sendmss (u16 (mtu - IP_HLEN - TCP_HLEN)))
  end.

(** [tcp_pcb_lists]. *)
Definition tcp_pcb_lists : list pcb_list := [LISTEN_PCBS; BOUND_PCBS; ACTIVE_PCBS; TW_PCBS].

(** Is there a block with a matching address in the list? *)
Fixpoint exists_loop (fuel : nat) (f : Z → Z → bool) (pcb : option tloc) : prog tcp_vars bool :=
  match pcb with
  | None => mret false
  | Some pcb =>
      match fuel with
      | O => pfault Hang
      | S fuel' =>
          '(ip, port) ← local_of pcb;
          if f ip port then mret true else n ← next_of pcb; exists_loop fuel' f n
      end
  end.
Fixpoint exists_in (f : Z → Z → bool) (ls : list pcb_list) : prog tcp_vars bool :=
  match ls with
  | [] => mret false
  | pcbs :: ls' =>
      v ← pget;
      b ← exists_loop (list_fuel v) f (head_of pcbs v);
      if (b : bool) then mret true else exists_in f ls'
  end.

(** [again]: [n] counts the ports found in use. *)
Fixpoint tcp_new_port_again (fuel : nat) (n : Z) : prog tcp_vars Z :=
  match fuel with
  | O => pfault Hang
  | S fuel' =>
      v ← pget;
      let port := if tcp_port v =? TCP_LOCAL_PORT_RANGE_END then TCP_LOCAL_PORT_RANGE_START
                  else u16 (tcp_port v + 1) in
      pmodify (λ v, v <|tcp_port := port|>);;
      used ← exists_in (λ _ p, p =? port) tcp_pcb_lists;
      if (used : bool) then
        let n := u16 (n + 1) in
        if TCP_LOCAL_PORT_RANGE_END - TCP_LOCAL_PORT_RANGE_START <? n then mret 0
        else tcp_new_port_again fuel' n
      else mret port
  end.
Definition tcp_new_port : prog tcp_vars Z :=
  tcp_new_port_again (Z.to_nat (TCP_LOCAL_PORT_RANGE_END - TCP_LOCAL_PORT_RANGE_START + 2)) 0.

Definition tcp_update_rcv_ann_wnd (pcb : tloc) : prog tcp_vars Z :=
  b ← tderef pcb;
  let new_right_edge := u32 (t_rcv_nxt b + t_rcv_wnd b) in
  if TCP_SEQ_GEQ new_right_edge (t_rcv_ann_right_edge b + Z.min (TCP_WND / 2) (t_mss b)) then
    tupdate pcb (λ b, b <|t_rcv_ann_wnd := t_rcv_wnd b|>);;
    mret (u32 (new_right_edge - t_rcv_ann_right_edge b))
  else
    (if TCP_SEQ_GT (t_rcv_nxt b) (t_rcv_ann_right_edge b) then
       tupdate pcb (λ b, b <|t_rcv_ann_wnd := 0|>)
     else
       let new_rcv_ann_wnd := u32 (t_rcv_ann_right_edge b - t_rcv_nxt b) in
       passert (new_rcv_ann_wnd <=? 0xffff);;
       tupdate pcb (λ b, b <|t_rcv_ann_wnd := new_rcv_ann_wnd|>));;
    mret 0.

(** ** Settings of a block *)

Definition tcp_setprio (pcb : tloc) (prio : Z) : prog tcp_vars unit :=
  tupdate pcb (λ b, b <|t_prio := prio|>).
Definition tcp_arg (pcb : tloc) (arg : Z) : prog tcp_vars unit :=
  b ← is_listen pcb;
  if (b : bool) then lupdate pcb (λ b, b <|l_callback_arg := arg|>)
  else tupdate pcb (λ b, b <|t_callback_arg := arg|>).
Definition tcp_accept (pcb : tloc) (accept : option fn) : prog tcp_vars unit :=
  b ← is_listen pcb;
  if (b : bool) then lupdate pcb (λ b, b <|l_accept := accept|>)
  else tupdate pcb (λ b, b <|t_accept := accept|>).
(** The others assert that the block is not a listening one. *)
Definition not_listen (pcb : tloc) : prog tcp_vars unit := b ← is_listen pcb; passert (negb b).
Definition tcp_recv (pcb : tloc) (recv : option fn) : prog tcp_vars unit :=
  not_listen pcb;; tupdate pcb (λ b, b <|t_recv := recv|>).
Definition tcp_sent (pcb : tloc) (sent : option fn) : prog tcp_vars unit :=
  not_listen pcb;; tupdate pcb (λ b, b <|t_sent := sent|>).
Definition tcp_err (pcb : tloc) (err : option fn) : prog tcp_vars unit :=
  not_listen pcb;; tupdate pcb (λ b, b <|t_errf := err|>).
Definition tcp_poll (pcb : tloc) (poll : option fn) (interval : Z) : prog tcp_vars unit :=
  not_listen pcb;; tupdate pcb (λ b, b <|t_poll := poll|> <|t_pollinterval := interval|>).

End Tcp.
