(* ===== verification/TcpOut.v ===== *)
(** * Sending TCP segments: [lwip/src/core/tcp_out.c]

    Segments are made by [tcp_write] and [tcp_enqueue_flags], sent by
    [tcp_output] within the window, and put back for retransmission.  Data that
    is not copied ([TCP_WRITE_FLAG_COPY] not set) is referred to by a pbuf; the
    application must not change it, so the pbuf of the model has its bytes. *)

From S2P Require Import Prelude RecordSet Def Ip4Addr InetChksum Netif Udp Pbuf Stack Ip4 Icmp Tcp.

Module TcpOut.
Import RecordSet Def Ip4Addr InetChksum Netif Udp Pbuf Stack Ip4 Icmp Tcp.

Section tcp_out.
Context {CF F A X : Type} `{HL : Lens X tcp_vars}.
Abbreviation stack := (stack CF F A X).
Context (custom_free : CF → loc → prog (heap CF) unit).
Context (mem_avail : heap CF → Z → bool) (garbage : heap CF → nat → Z).
Context (output ip_frag : netif_loc → loc → Z → prog stack err_t).
(** Is there memory for one more [struct tcp_seg]? *)
Context (seg_avail : stack → bool).

Abbreviation pfree := (pfree custom_free (F := F) (A := A) (X := X)).
Abbreviation pbuf_alloc := (pbuf_alloc custom_free mem_avail garbage).
Abbreviation ip_output := (ip_output output ip_frag).

(** ** Segments *)

Definition tcp_seg_free (seg : tcp_seg) : prog stack unit :=
  match s_p seg with Some p => pfree p | None => mret () end.
Fixpoint tcp_segs_free (segs : list tcp_seg) : prog stack unit :=
  match segs with [] => mret () | seg :: rest => tcp_seg_free seg;; tcp_segs_free rest end.

(** The ports in the header. *)
Definition set_ports (tcphdr : ptr) (src dest : Z) : prog (heap CF) unit :=
  store 2 tcphdr TCPH_SRC (lwip_htons src);; store 2 tcphdr TCPH_DEST (lwip_htons dest).

(** [ipX_chksum_pseudo] over the segment, stored into its header. *)
Definition set_chksum (p : loc) (tcphdr : ptr) (local_ip remote_ip : Z) : prog (heap CF) unit :=
  c ← chain_of p;
  b ← deref p;
  store 2 tcphdr TCPH_CHKSUM (inet_chksum_pseudo c IP_PROTO_TCP (p_tot_len b) local_ip remote_ip).

Definition tcp_output_alloc_header (pcb : tloc) (optlen datalen seqno_be : Z)
    : prog stack (option loc) :=
  p ← lift (pbuf_alloc PBUF_IP (u16 (TCP_HLEN + optlen + datalen)) PBUF_RAM);
  match p with
  | None => mret None
  | Some p =>
      b ← lift (tderef pcb);
      pb ← lift (deref p);
      passert (TCP_HLEN + optlen <=? p_len pb);;
      tcphdr ← lift (payload p);
      lift (set_ports tcphdr (t_local_port b) (t_remote_port b));;
      lift (store 4 tcphdr TCPH_SEQNO seqno_be);;
      lift (store 4 tcphdr TCPH_ACKNO (lwip_htonl (t_rcv_nxt b)));;
      lift (TCPH_HDRLEN_FLAGS_SET tcphdr (5 + optlen / 4) TCP_ACK);;
      lift (store 2 tcphdr TCPH_WND (lwip_htons (t_rcv_ann_wnd b)));;
      lift (store 2 tcphdr TCPH_CHKSUM 0);;
      lift (store 2 tcphdr TCPH_URGP 0);;
      lift (tupdate pcb (λ b, b <|t_rcv_ann_right_edge := u32 (t_rcv_nxt b + t_rcv_ann_wnd b)|>));;
      mret (Some p)
  end.

(** The segment is not on any queue yet. *)
Definition tcp_create_segment (pcb : tloc) (p : loc) (flags seqno optflags : Z)
    : prog stack (option tcp_seg) :=
  let optlen := LWIP_TCP_OPT_LENGTH optflags in
  s ← pget;
  if negb (seg_avail s) then pfree p;; mret None
  else
    pb ← lift (deref p);
    passert (optlen <=? p_tot_len pb);;
    ok ← lift (pbuf_header (Some p) TCP_HLEN);
    if negb ok then pfree p;; mret None
    else
      tcphdr ← lift (payload p);
      b ← lift (tderef pcb);
      lift (set_ports tcphdr (t_local_port b) (t_remote_port b));;
      lift (store 4 tcphdr TCPH_SEQNO (lwip_htonl seqno));;
      lift (TCPH_HDRLEN_FLAGS_SET tcphdr (5 + optlen / 4) flags);;
      lift (store 2 tcphdr TCPH_URGP 0);;
      mret (Some (mk_tcp_seg (Some p) (u16 (p_tot_len pb - optlen)) 0 optflags tcphdr)).

(** The pbuf and [*oversize]. *)
Definition tcp_pbuf_prealloc (layer : pbuf_layer) (length max_length : Z) (pcb : tloc)
    (apiflags : Z) (first_seg : bool) : prog stack (option (loc * Z)) :=
  b ← lift (tderef pcb);
  let alloc :=
    if (length <? max_length)
       && (has apiflags TCP_WRITE_FLAG_MORE
           || (negb (has (t_flags b) TF_NODELAY)
               && (negb first_seg || bool_decide (t_unsent b ≠ [])
                   || bool_decide (t_unacked b ≠ []))))
    then Z.min max_length (LWIP_MEM_ALIGN_SIZE (length + TCP_OVERSIZE)) else length in
  p ← lift (pbuf_alloc layer alloc PBUF_RAM);
  match p with
  | None => mret None
  | Some p =>
      pb ← lift (deref p);
      passert (bool_decide (p_next pb = None));;
      lift (update p (λ pb, with_len length (with_tot length pb)));;
      mret (Some (p, u16 (p_len pb - length)))
  end.

(** ** Enqueueing data *)

Definition tcp_write_checks (pcb : tloc) (len : Z) : prog stack err_t :=
  b ← lift (tderef pcb);
  if negb (is_state (t_state b) ESTABLISHED || is_state (t_state b) CLOSE_WAIT
           || is_state (t_state b) SYN_SENT || is_state (t_state b) SYN_RCVD)
  then mret ERR_CONN
  else if len =? 0 then mret ERR_OK
  else if t_snd_buf b <? len then
    lift (tupdate pcb (λ b, b <|t_flags ::= Z.lor TF_NAGLEMEMERR|>));; mret ERR_MEM
  else if (TCP_SND_QUEUELEN <=? t_snd_queuelen b)
          || (TCP_SNDQUEUELEN_OVERFLOW <? t_snd_queuelen b) then
    lift (tupdate pcb (λ b, b <|t_flags ::= Z.lor TF_NAGLEMEMERR|>));; mret ERR_MEM
  else
    (if negb (t_snd_queuelen b =? 0)
     then passert (bool_decide (t_unacked b ≠ []) || bool_decide (t_unsent b ≠ []))
     else passert (bool_decide (t_unacked b = []) && bool_decide (t_unsent b = [])));;
    mret ERR_OK.

(** What the phases of [tcp_write] have prepared: the position in the data,
    [oversize], [oversize_used], [concat_p], [queuelen] and [queue]. *)
Record write_plan := mk_write_plan {
  w_pos : Z; w_oversize : Z; w_oversize_used : Z; w_concat_p : option loc; w_queuelen : Z;
  w_queue : list tcp_seg
}.

(** A pbuf that refers to the data of the application. *)
Definition alloc_rom (layer : pbuf_layer) (d : bytes) : prog stack (option loc) :=
  p ← lift (pbuf_alloc layer (zlen d) PBUF_ROM);
  match p with
  | None => mret None
  | Some p => lift (update p (λ b, with_payload 0 (with_mem d b)));; mret (Some p)
  end.

(** Phases 1 and 2; [None] is [goto memerr]. *)
Definition write_tail (pcb : tloc) (arg : bytes) (len mss_local queuelen apiflags : Z)
    : prog stack (option write_plan) :=
  b ← lift (tderef pcb);
  match list.last (t_unsent b) with
  | None =>
      passert (t_unsent_oversize b =? 0);;
      mret (Some (mk_write_plan 0 0 0 None queuelen []))
  | Some last_unsent =>
      let unsent_optlen := LWIP_TCP_OPT_LENGTH (s_flags last_unsent) in
      passert (s_len last_unsent + unsent_optlen <=? mss_local);;
      let space := u16 (mss_local - (s_len last_unsent + unsent_optlen)) in
      passert (t_unsent_oversize b =? s_oversize_left last_unsent);;
      let oversize := t_unsent_oversize b in
      let used := if 0 <? oversize then (if oversize <? len then oversize else len) else 0 in
      let oversize := u16 (oversize - used) in
      let space := u16 (space - used) in
      passert ((oversize =? 0) || (used =? len));;
      if (used <? len) && (0 <? space) && (0 <? s_len last_unsent) then
        let seglen := if space <? len - used then space else len - used in
        let d := take (Z.to_nat seglen) (drop (Z.to_nat used) arg) in
        r ← (if has apiflags TCP_WRITE_FLAG_COPY then
               r ← tcp_pbuf_prealloc PBUF_RAW seglen space pcb apiflags true;
               match r with
               | None => mret None
               | Some (p, oversize) =>
                   lift (tupdate pcb (λ b, b <|t_unsent := removelast (t_unsent b)
                           ++ [last_unsent <|s_oversize_left ::= Z.add oversize|>]|>));;
                   q ← lift (payload p); lift (mwrite q 0 d);; mret (Some (p, oversize))
               end
             else
               p ← alloc_rom PBUF_RAW d;
               mret (match p with Some p => Some (p, oversize) | None => None end));
        match r with
        | None => mret None
        | Some (p, oversize) =>
            clen ← lift (pbuf_clen (Some p));
            mret (Some (mk_write_plan (used + seglen) oversize used (Some p)
                          (u16 (queuelen + clen)) []))
        end
      else mret (Some (mk_write_plan used oversize used None queuelen []))
  end.

(** The pbufs of a new segment with the data [d]. *)
Definition write_pbuf (pcb : tloc) (d : bytes) (mss_local oversize apiflags : Z) (first : bool)
    : prog stack (option (loc * Z)) :=
  if has apiflags TCP_WRITE_FLAG_COPY then
    r ← tcp_pbuf_prealloc PBUF_TRANSPORT (zlen d) mss_local pcb apiflags first;
    match r with
    | None => mret None
    | Some (p, oversize) =>
        pb ← lift (deref p);
        passert (zlen d <=? p_len pb);;
        q ← lift (payload p);
        lift (mwrite q 0 d);;
        mret (Some (p, oversize))
    end
  else
    passert (oversize =? 0);;
    p2 ← alloc_rom PBUF_TRANSPORT d;
    match p2 with
    | None => mret None
    | Some p2 =>
        p ← lift (pbuf_alloc PBUF_TRANSPORT 0 PBUF_RAM);
        match p with
        | None => pfree p2;; mret None
        | Some p => lift (pbuf_cat (Some p) (Some p2));; mret (Some (p, oversize))
        end
    end.

(** Phase 3; the boolean is [false] for [goto memerr]. *)
Fixpoint write_loop (fuel : nat) (pcb : tloc) (arg : bytes) (len mss_local apiflags : Z)
    (w : write_plan) : prog stack (bool * write_plan) :=
  if len <=? w_pos w then mret (true, w)
  else
    match fuel with
    | O => pfault Hang
    | S fuel' =>
        let left := len - w_pos w in
        let seglen := if mss_local <? left then mss_local else left in
        let d := take (Z.to_nat seglen) (drop (Z.to_nat (w_pos w)) arg) in
        r ← write_pbuf pcb d mss_local (w_oversize w) apiflags (bool_decide (w_queue w = []));
        match r with
        | None => mret (false, w)
        | Some (p, oversize) =>
            clen ← lift (pbuf_clen (Some p));
            let queuelen := u16 (w_queuelen w + clen) in
            if (TCP_SND_QUEUELEN <? queuelen) || (TCP_SNDQUEUELEN_OVERFLOW <? queuelen) then
              pfree p;; mret (false, w)
            else
              b ← lift (tderef pcb);
              seg ← tcp_create_segment pcb p 0 (u32 (t_snd_lbb b + w_pos w)) 0;
              match seg with
              | None => mret (false, w)
              | Some seg =>
                  write_loop fuel' pcb arg len mss_local apiflags
                    (mk_write_plan (w_pos w + seglen) oversize (w_oversize_used w) (w_concat_p w)
                       queuelen (w_queue w ++ [seg <|s_oversize_left := oversize|>]))
              end
        end
    end.

Definition write_memerr (pcb : tloc) (w : option write_plan) : prog stack err_t :=
  lift (tupdate pcb (λ b, b <|t_flags ::= Z.lor TF_NAGLEMEMERR|>));;
  match w with
  | Some w =>
      match w_concat_p w with Some p => pfree p | None => mret () end;;
      tcp_segs_free (w_queue w)
  | None => mret ()
  end;;
  b ← lift (tderef pcb);
  (if negb (t_snd_queuelen b =? 0)
   then passert (bool_decide (t_unacked b ≠ []) || bool_decide (t_unsent b ≠ [])) else mret ());;
  mret ERR_MEM.

(** The preallocated tail of the last unsent segment is filled. *)
Fixpoint extend_loop (fuel : nat) (p : option loc) (d : bytes) : prog (heap CF) unit :=
  match p with
  | None => mret ()
  | Some p =>
      match fuel with
      | O => pfault Hang
      | S fuel' =>
          b ← deref p;
          update p (with_tot (u16 (p_tot_len b + zlen d)));;
          (if bool_decide (p_next b = None) then
             mwrite (p, p_payload b) (p_len b) d;;
             update p (λ b, with_len (u16 (p_len b + zlen d)) b)
           else mret ());;
          extend_loop fuel' (p_next b) d
      end
  end.

(** The last unsent segment after phases 1 and 2. *)
Definition write_extend (seg : tcp_seg) (arg : bytes) (w : write_plan) : prog stack tcp_seg :=
  seg ← (if 0 <? w_oversize_used w then
           s ← pget;
           lift (extend_loop (S (size (st_pbufs s))) (s_p seg)
                   (take (Z.to_nat (w_oversize_used w)) arg));;
           passert (w_oversize_used w <=? s_oversize_left seg);;
           mret (seg <|s_len := u16 (s_len seg + w_oversize_used w)|>
                     <|s_oversize_left := s_oversize_left seg - w_oversize_used w|>)
         else mret seg);
  match w_concat_p w with
  | Some p =>
      lift (pbuf_cat (s_p seg) (Some p));;
      pb ← lift (deref p);
      mret (seg <|s_len := u16 (s_len seg + p_tot_len pb)|>)
  | None => mret seg
  end.

(** The plan is carried out. *)
Definition write_commit (pcb : tloc) (arg : bytes) (len apiflags : Z) (w : write_plan)
    : prog stack err_t :=
  b ← lift (tderef pcb);
  (* [seg]: the segment that gets the PSH flag *)
  '(unsent, seg) ←
    (match list.last (t_unsent b) with
     | None => passert (bool_decide (w_concat_p w = None));; mret ([], None)
     | Some last_unsent =>
         last_unsent ← write_extend last_unsent arg w;
         mret (removelast (t_unsent b) ++ [last_unsent],
               if (0 <? w_oversize_used w) || bool_decide (w_concat_p w ≠ None)
               then Some last_unsent else None)
     end);
  lift (tupdate pcb (λ b, b <|t_unsent_oversize := w_oversize w|>
                            <|t_unsent := unsent ++ w_queue w|>
                            <|t_snd_lbb := u32 (t_snd_lbb b + len)|>
                            <|t_snd_buf := u16 (t_snd_buf b - len)|>
                            <|t_snd_queuelen := w_queuelen w|>));;
  b ← lift (tderef pcb);
  (if negb (t_snd_queuelen b =? 0)
   then passert (bool_decide (t_unacked b ≠ []) || bool_decide (t_unsent b ≠ [])) else mret ());;
  (match match list.last (w_queue w) with Some g => Some g | None => seg end with
   | Some g => if has apiflags TCP_WRITE_FLAG_MORE then mret ()
               else lift (TCPH_SET_FLAG (s_tcphdr g) TCP_PSH)
   | None => mret ()
   end);;
  mret ERR_OK.

Definition tcp_write (pcb : tloc) (arg : option bytes) (len apiflags : Z) : prog stack err_t :=
  b ← lift (tderef pcb);
  let mss_local := Z.min (t_mss b) (t_snd_wnd_max b / 2) in
  let mss_local := if mss_local =? 0 then t_mss b else mss_local in
  match arg with
  | None => pfault Abort
  | Some arg =>
      err ← tcp_write_checks pcb len;
      if bool_decide (err ≠ ERR_OK) then mret err
      else
        w ← write_tail pcb arg len mss_local (t_snd_queuelen b) apiflags;
        match w with
        | None => write_memerr pcb None
        | Some w =>
            (* every turn adds a pbuf to the queue, which has a limit *)
            '(ok, w) ← write_loop (Z.to_nat (TCP_SND_QUEUELEN + 2)) pcb arg len mss_local apiflags w;
            if (ok : bool) then write_commit pcb arg len apiflags w else write_memerr pcb (Some w)
        end
  end.

(** ** SYN and FIN *)

Definition tcp_enqueue_flags (pcb : tloc) (flags : Z) : prog stack err_t :=
  b ← lift (tderef pcb);
  passert (has flags (Z.lor TCP_SYN TCP_FIN));;
  if (TCP_SND_QUEUELEN <=? t_snd_queuelen b)
     || (TCP_SNDQUEUELEN_OVERFLOW <? t_snd_queuelen b) then
    lift (tupdate pcb (λ b, b <|t_flags ::= Z.lor TF_NAGLEMEMERR|>));; mret ERR_MEM
  else
    let optflags := if has flags TCP_SYN then TF_SEG_OPTS_MSS else 0 in
    let optlen := LWIP_TCP_OPT_LENGTH optflags in
    if t_snd_buf b =? 0 then mret ERR_MEM
    else
      p ← lift (pbuf_alloc PBUF_TRANSPORT optlen PBUF_RAM);
      match p with
      | None => lift (tupdate pcb (λ b, b <|t_flags ::= Z.lor TF_NAGLEMEMERR|>));; mret ERR_MEM
      | Some p =>
          pb ← lift (deref p);
          passert (optlen <=? p_len pb);;
          seg ← tcp_create_segment pcb p flags (t_snd_lbb b) optflags;
          match seg with
          | None =>
              lift (tupdate pcb (λ b, b <|t_flags ::= Z.lor TF_NAGLEMEMERR|>));; mret ERR_MEM
          | Some seg =>
              passert (snd (s_tcphdr seg) mod 4 =? 0);;
              passert (s_len seg =? 0);;
              lift (tupdate pcb (λ b, b <|t_unsent ::= λ l, l ++ [seg]|> <|t_unsent_oversize := 0|>));;
              (if has flags TCP_SYN || has flags TCP_FIN then
                 lift (tupdate pcb (λ b, b <|t_snd_lbb := u32 (t_snd_lbb b + 1)|>
                                           <|t_snd_buf := u16 (t_snd_buf b - 1)|>))
               else mret ());;
              (if has flags TCP_FIN then lift (tupdate pcb (λ b, b <|t_flags ::= Z.lor TF_FIN|>))
               else mret ());;
              clen ← lift (pbuf_clen (s_p seg));
              lift (tupdate pcb (λ b, b <|t_snd_queuelen := u16 (t_snd_queuelen b + clen)|>));;
              b ← lift (tderef pcb);
              (if negb (t_snd_queuelen b =? 0)
               then passert (bool_decide (t_unacked b ≠ []) || bool_decide (t_unsent b ≠ []))
               else mret ());;
              mret ERR_OK
          end
      end.

Definition tcp_send_fin (pcb : tloc) : prog stack err_t :=
  b ← lift (tderef pcb);
  match list.last (t_unsent b) with
  | Some last_unsent =>
      f ← lift (TCPH_FLAGS (s_tcphdr last_unsent));
      if negb (has f (Z.lor TCP_SYN (Z.lor TCP_FIN TCP_RST))) then
        lift (TCPH_SET_FLAG (s_tcphdr last_unsent) TCP_FIN);;
        lift (tupdate pcb (λ b, b <|t_flags ::= Z.lor TF_FIN|>));;
        mret ERR_OK
      else tcp_enqueue_flags pcb TCP_FIN
  | None => tcp_enqueue_flags pcb TCP_FIN
  end.

(** ** Sending *)

Definition tcp_send_empty_ack (pcb : tloc) : prog stack err_t :=
  b ← lift (tderef pcb);
  p ← tcp_output_alloc_header pcb 0 0 (lwip_htonl (t_snd_nxt b));
  match p with
  | None => mret ERR_BUF
  | Some p =>
      tcphdr ← lift (payload p);
      lift (tupdate pcb (λ b, b <|t_flags ::= clear (Z.lor TF_ACK_DELAY TF_ACK_NOW)|>));;
      lift (set_chksum p tcphdr (t_local_ip b) (t_remote_ip b));;
      ip_output p (Some (t_local_ip b)) (t_remote_ip b) (t_ttl b) (t_tos b) IP_PROTO_TCP;;
      pfree p;;
      mret ERR_OK
  end.

(** The local address, found by routing when there is none yet. *)
Definition output_local_ip (pcb : tloc) : prog stack bool :=
  b ← lift (tderef pcb);
  if ip_addr_isany (t_local_ip b) then
    netif ← lift (ip_route (t_remote_ip b));
    match netif with
    | None => mret false
    | Some netif =>
        n ← lift (nderef netif);
        lift (tupdate pcb (λ b, b <|t_local_ip := nif_ip_addr n|>));; mret true
    end
  else mret true.

Definition tcp_output_segment (seg : tcp_seg) (pcb : tloc) : prog stack unit :=
  b ← lift (tderef pcb);
  let tcphdr := s_tcphdr seg in
  lift (store 4 tcphdr TCPH_ACKNO (lwip_htonl (t_rcv_nxt b)));;
  lift (store 2 tcphdr TCPH_WND (lwip_htons (t_rcv_ann_wnd b)));;
  lift (tupdate pcb (λ b, b <|t_rcv_ann_right_edge := u32 (t_rcv_nxt b + t_rcv_ann_wnd b)|>));;
  (if has (s_flags seg) TF_SEG_OPTS_MSS then
     mss ← lift (tcp_eff_send_mss TCP_MSS (t_remote_ip b));
     lift (store 4 tcphdr SIZEOF_TCP_HDR (TCP_BUILD_MSS_OPTION mss))
   else mret ());;
  lift (tupdate pcb (λ b, if t_rtime b =? -1 then b <|t_rtime := 0|> else b));;
  ok ← output_local_ip pcb;
  if negb ok then mret ()
  else
    v ← lift (pget (S := tcp_vars));
    seqno ← lift (seg_seqno seg);
    lift (tupdate pcb (λ b, if t_rttest b =? 0
                            then b <|t_rttest := tcp_ticks v|> <|t_rtseq := seqno|> else b));;
    p ← pderef (s_p seg);
    pb ← lift (deref p);
    (* the difference of two pointers into the same pbuf *)
    (if bool_decide (fst tcphdr = p) then mret () else pfault Wild);;
    let len := u16 (snd tcphdr - p_payload pb) in
    lift (update p (λ pb, with_payload (snd tcphdr)
                            (with_tot (u16 (p_tot_len pb - len)) (with_len (u16 (p_len pb - len)) pb))));;
    lift (store 2 tcphdr TCPH_CHKSUM 0);;
    b ← lift (tderef pcb);
    lift (set_chksum p tcphdr (t_local_ip b) (t_remote_ip b));;
    ip_output p (Some (t_local_ip b)) (t_remote_ip b) (t_ttl b) (t_tos b) IP_PROTO_TCP;;
    mret ().

Definition tcp_do_output_nagle (b : tcp_pcb) : bool :=
  bool_decide (t_unacked b = [])
  || has (t_flags b) (Z.lor TF_NODELAY TF_INFR)
  || match t_unsent b with
     | [] => false
     | g :: rest => bool_decide (rest ≠ []) || (t_mss b <=? s_len g)
     end
  || ((t_snd_buf b =? 0) || (TCP_SND_QUEUELEN <=? t_snd_queuelen b)).

(** The segments before the first one with a sequence number that is not
    lower, and the others. *)
Fixpoint split_segs (seqno : Z) (l : list tcp_seg)
    : prog (heap CF) (list tcp_seg * list tcp_seg) :=
  match l with
  | [] => mret ([], [])
  | g :: l' =>
      seqno' ← seg_seqno g;
      if TCP_SEQ_LT seqno' seqno then '(before, after) ← split_segs seqno l'; mret (g :: before, after)
      else mret ([], l)
  end.

(** A segment that was sent joins the unacknowledged ones. *)
Definition add_unacked (g : tcp_seg) (l : list tcp_seg) : prog (heap CF) (list tcp_seg) :=
  match list.last l with
  | None => mret [g]
  | Some useg =>
      seqno ← seg_seqno g;
      useqno ← seg_seqno useg;
      if TCP_SEQ_LT seqno useqno then
        '(before, after) ← split_segs seqno l; mret (before ++ g :: after)
      else mret (l ++ [g])
  end.

(** The [while] loop of [tcp_output]. *)
Fixpoint output_loop (fuel : nat) (pcb : tloc) (wnd : Z) : prog stack unit :=
  b ← lift (tderef pcb);
  match t_unsent b with
  | [] => mret ()
  | seg :: rest =>
      seqno ← lift (seg_seqno seg);
      if negb (u32 (seqno - t_lastack b + s_len seg) <=? wnd) then mret ()
      else
        f ← lift (TCPH_FLAGS (s_tcphdr seg));
        passert (negb (has f TCP_RST));;
        if negb (tcp_do_output_nagle b) && negb (has (t_flags b) (Z.lor TF_NAGLEMEMERR TF_FIN))
        then mret ()
        else
          match fuel with
          | O => pfault Hang
          | S fuel' =>
              lift (tupdate pcb (λ b, b <|t_unsent := rest|>));;
              (if negb (is_state (t_state b) SYN_SENT) then
                 lift (TCPH_SET_FLAG (s_tcphdr seg) TCP_ACK);;
                 lift (tupdate pcb (λ b, b <|t_flags ::= clear (Z.lor TF_ACK_DELAY TF_ACK_NOW)|>))
               else mret ());;
              let seg := seg <|s_oversize_left := 0|> in
              tcp_output_segment seg pcb;;
              seqno ← lift (seg_seqno seg);
              len ← lift (TCP_TCPLEN seg);
              let snd_nxt := u32 (seqno + len) in
              lift (tupdate pcb (λ b, if TCP_SEQ_LT (t_snd_nxt b) snd_nxt
                                      then b <|t_snd_nxt := snd_nxt|> else b));;
              (if 0 <? len then
                 b ← lift (tderef pcb);
                 l ← lift (add_unacked seg (t_unacked b));
                 lift (tupdate pcb (λ b, b <|t_unacked := l|>))
               else tcp_seg_free seg);;
              output_loop fuel' pcb wnd
          end
  end.

Definition tcp_output (pcb : tloc) : prog stack err_t :=
  lift (not_listen pcb);;
  b ← lift (tderef pcb);
  v ← lift (pget (S := tcp_vars));
  if bool_decide (tcp_input_pcb v = Some pcb) then mret ERR_OK
  else
    let wnd := Z.min (t_snd_wnd b) (t_cwnd b) in
    ack_only ← (if has (t_flags b) TF_ACK_NOW then
                  match t_unsent b with
                  | [] => mret true
                  | seg :: _ => seqno ← lift (seg_seqno seg);
                                mret (wnd <? u32 (seqno - t_lastack b + s_len seg))
                  end
                else mret false);
    if (ack_only : bool) then tcp_send_empty_ack pcb
    else
      output_loop (length (t_unsent b)) pcb wnd;;
      lift (tupdate pcb (λ b, if bool_decide (t_unsent b = []) then b <|t_unsent_oversize := 0|> else b));;
      lift (tupdate pcb (λ b, b <|t_flags ::= clear TF_NAGLEMEMERR|>));;
      mret ERR_OK.

Definition tcp_rst (seqno ackno local_ip remote_ip local_port remote_port : Z) : prog stack unit :=
  p ← lift (pbuf_alloc PBUF_IP TCP_HLEN PBUF_RAM);
  match p with
  | None => mret ()
  | Some p =>
      pb ← lift (deref p);
      passert (SIZEOF_TCP_HDR <=? p_len pb);;
      tcphdr ← lift (payload p);
      lift (set_ports tcphdr local_port remote_port);;
      lift (store 4 tcphdr TCPH_SEQNO (lwip_htonl seqno));;
      lift (store 4 tcphdr TCPH_ACKNO (lwip_htonl ackno));;
      lift (TCPH_HDRLEN_FLAGS_SET tcphdr (TCP_HLEN / 4) (Z.lor TCP_RST TCP_ACK));;
      lift (store 2 tcphdr TCPH_WND (lwip_htons TCP_WND));;
      lift (store 2 tcphdr TCPH_CHKSUM 0);;
      lift (store 2 tcphdr TCPH_URGP 0);;
      lift (set_chksum p tcphdr local_ip remote_ip);;
      ip_output p (Some local_ip) remote_ip TCP_TTL 0 IP_PROTO_TCP;;
      pfree p
  end.

(** ** Retransmission *)

Definition tcp_rexmit_rto (pcb : tloc) : prog stack unit :=
  b ← lift (tderef pcb);
  match list.last (t_unacked b) with
  | None => mret ()
  | Some seg =>
      lift (tupdate pcb (λ b, if bool_decide (t_unsent b = [])
                              then b <|t_unsent_oversize := s_oversize_left seg|> else b));;
      lift (tupdate pcb (λ b, b <|t_unsent := t_unacked b ++ t_unsent b|> <|t_unacked := []|>
                                <|t_nrtx := u8 (t_nrtx b + 1)|> <|t_rttest := 0|>));;
      tcp_output pcb;;
      mret ()
  end.

Definition tcp_rexmit (pcb : tloc) : prog stack unit :=
  b ← lift (tderef pcb);
  match t_unacked b with
  | [] => mret ()
  | seg :: rest =>
      seqno ← lift (seg_seqno seg);
      '(before, after) ← lift (split_segs seqno (t_unsent b));
      lift (tupdate pcb (λ b, b <|t_unacked := rest|> <|t_unsent := before ++ seg :: after|>));;
      lift (tupdate pcb (λ b, if bool_decide (after = []) then b <|t_unsent_oversize := 0|> else b));;
      lift (tupdate pcb (λ b, b <|t_nrtx := u8 (t_nrtx b + 1)|> <|t_rttest := 0|>))
  end.

Definition tcp_rexmit_fast (pcb : tloc) : prog stack unit :=
  b ← lift (tderef pcb);
  if bool_decide (t_unacked b ≠ []) && negb (has (t_flags b) TF_INFR) then
    tcp_rexmit pcb;;
    lift (tupdate pcb (λ b,
      let ssthresh := if t_snd_wnd b <? t_cwnd b then t_snd_wnd b / 2 else t_cwnd b / 2 in
      let ssthresh := if ssthresh <? 2 * t_mss b then u16 (2 * t_mss b) else ssthresh in
      b <|t_ssthresh := ssthresh|> <|t_cwnd := u16 (ssthresh + 3 * t_mss b)|>
        <|t_flags ::= Z.lor TF_INFR|>))
  else mret ().

(** ** Probes *)

Definition tcp_keepalive (pcb : tloc) : prog stack unit :=
  b ← lift (tderef pcb);
  p ← tcp_output_alloc_header pcb 0 0 (lwip_htonl (u32 (t_snd_nxt b - 1)));
  match p with
  | None => mret ()
  | Some p =>
      tcphdr ← lift (payload p);
      lift (set_chksum p tcphdr (t_local_ip b) (t_remote_ip b));;
      ip_output p (Some (t_local_ip b)) (t_remote_ip b) (t_ttl b) 0 IP_PROTO_TCP;;
      pfree p
  end.

Definition tcp_zero_window_probe (pcb : tloc) : prog stack unit :=
  b ← lift (tderef pcb);
  match t_unacked b ++ t_unsent b with
  | [] => mret ()
  | seg :: _ =>
      f ← lift (TCPH_FLAGS (s_tcphdr seg));
      let is_fin := has f TCP_FIN && (s_len seg =? 0) in
      let len := if is_fin then 0 else 1 in
      seqno_be ← lift (load 4 (s_tcphdr seg) TCPH_SEQNO);
      p ← tcp_output_alloc_header pcb 0 len seqno_be;
      match p with
      | None => mret ()
      | Some p =>
          tcphdr ← lift (payload p);
          (if is_fin then lift (TCPH_FLAGS_SET tcphdr (Z.lor TCP_ACK TCP_FIN))
           else
             q ← pderef (s_p seg);
             qb ← lift (deref q);
             '(_, d) ← lift (pbuf_copy_partial (s_p seg) 1 (u16 (p_tot_len qb - s_len seg)));
             lift (mwrite tcphdr TCP_HLEN d));;
          lift (set_chksum p tcphdr (t_local_ip b) (t_remote_ip b));;
          ip_output p (Some (t_local_ip b)) (t_remote_ip b) (t_ttl b) 0 IP_PROTO_TCP;;
          pfree p
      end
  end.

End tcp_out.
End TcpOut.
