(* ===== verification/TcpCore.v ===== *)
(** * Control blocks and timers of TCP: [lwip/src/core/tcp.c]

    Opening, closing, and the timers.  The application is the parameter
    [call_app]: a call of one of its functions may change the state in any
    way. *)

From S2P Require Import Prelude RecordSet Def Ip4Addr InetChksum Netif Udp Pbuf Stack Ip4 Icmp Tcp TcpOut.

Module TcpCore.
Import RecordSet Def Ip4Addr InetChksum Netif Udp Pbuf Stack Ip4 Icmp Tcp TcpOut.

(** A call of a function of the application, with its arguments. *)
Inductive app_call :=
  | CallAccept (k : positive) (arg : Z) (pcb : tloc) (err : err_t)
  | CallRecv (k : positive) (arg : Z) (pcb : tloc) (p : option loc) (err : err_t)
  | CallSent (k : positive) (arg : Z) (pcb : tloc) (len : Z)
  | CallConnected (k : positive) (arg : Z) (pcb : tloc) (err : err_t)
  | CallPoll (k : positive) (arg : Z) (pcb : tloc)
  | CallErr (k : positive) (arg : Z) (err : err_t).

Definition tcp_backoff : list Z := [1; 2; 3; 4; 5; 6; 7; 7; 7; 7; 7; 7; 7].
Definition tcp_persist_backoff : list Z := [3; 6; 12; 24; 48; 96; 120].

Section tcp.
Context {CF F A X : Type} `{HL : Lens X tcp_vars}.
Abbreviation stack := (stack CF F A X).
Context (custom_free : CF → loc → prog (heap CF) unit).
Context (mem_avail : heap CF → Z → bool) (garbage : heap CF → nat → Z).
Context (output ip_frag : netif_loc → loc → Z → prog stack err_t).
Context (seg_avail : stack → bool).
(** Is there memory for one more block? *)
Context (pcb_avail listen_avail : stack → bool).
(** [tcp_timer_needed] of [timers.c], or of the application. *)
Context (tcp_timer_needed : prog stack unit).
Context (call_app : app_call → prog stack err_t).

Abbreviation pfree := (pfree custom_free (F := F) (A := A) (X := X)).
Abbreviation tcp_segs_free := (tcp_segs_free custom_free (F := F) (A := A) (X := X)).
Abbreviation tcp_output := (tcp_output custom_free mem_avail garbage output ip_frag).
Abbreviation tcp_send_fin := (tcp_send_fin custom_free mem_avail garbage seg_avail).
Abbreviation tcp_enqueue_flags := (tcp_enqueue_flags custom_free mem_avail garbage seg_avail).
Abbreviation tcp_rst := (tcp_rst custom_free mem_avail garbage output ip_frag).
Abbreviation tcp_rexmit_rto := (tcp_rexmit_rto custom_free mem_avail garbage output ip_frag).
Abbreviation tcp_keepalive := (tcp_keepalive custom_free mem_avail garbage output ip_frag).
Abbreviation tcp_zero_window_probe :=
  (tcp_zero_window_probe custom_free mem_avail garbage output ip_frag).

(** ** The lists *)

Definition TCP_REG (pcbs : pcb_list) (npcb : tloc) : prog stack unit :=
  lift (reg pcbs npcb);; tcp_timer_needed.
Definition set_changed (c : Z) : prog stack unit :=
  lift (pmodify (λ v : tcp_vars, v <|tcp_active_pcbs_changed := c|>)).
Definition TCP_REG_ACTIVE (npcb : tloc) : prog stack unit :=
  TCP_REG ACTIVE_PCBS npcb;; set_changed 1.
Definition TCP_RMV_ACTIVE (npcb : tloc) : prog stack unit :=
  lift (TCP_RMV ACTIVE_PCBS npcb);; set_changed 1.

Definition tcp_ack_now (pcb : tloc) : prog stack unit :=
  lift (tupdate pcb (λ b, b <|t_flags ::= Z.lor TF_ACK_NOW|>)).
Definition tcp_ack (pcb : tloc) : prog stack unit :=
  lift (tupdate pcb (λ b, if has (t_flags b) TF_ACK_DELAY
                          then b <|t_flags := Z.lor TF_ACK_NOW (clear TF_ACK_DELAY (t_flags b))|>
                          else b <|t_flags ::= Z.lor TF_ACK_DELAY|>)).

Definition tcp_pcb_purge (pcb : tloc) : prog stack unit :=
  l ← lift (is_listen pcb);
  if (l : bool) then mret ()
  else
    b ← lift (tderef pcb);
    if is_state (t_state b) CLOSED || is_state (t_state b) TIME_WAIT then mret ()
    else
      (match t_refused_data b with
       | Some p => pfree p;; lift (tupdate pcb (λ b, b <|t_refused_data := None|>))
       | None => mret ()
       end);;
      tcp_segs_free (t_ooseq b);;
      lift (tupdate pcb (λ b, b <|t_ooseq := []|> <|t_rtime := -1|>));;
      tcp_segs_free (t_unsent b);;
      tcp_segs_free (t_unacked b);;
      lift (tupdate pcb (λ b, b <|t_unacked := []|> <|t_unsent := []|> <|t_unsent_oversize := 0|>)).

(** The state of a listening block is not stored: such a block is freed after
    the removal. *)
Definition tcp_pcb_remove (pcblist : pcb_list) (pcb : tloc) : prog stack unit :=
  lift (TCP_RMV pcblist pcb);;
  tcp_pcb_purge pcb;;
  l ← lift (is_listen pcb);
  if (l : bool) then mret ()
  else
    b ← lift (tderef pcb);
    (if negb (is_state (t_state b) TIME_WAIT) && has (t_flags b) TF_ACK_DELAY then
       tcp_ack_now pcb;; tcp_output pcb;; mret ()
     else mret ());;
    b ← lift (tderef pcb);
    passert (bool_decide (t_unsent b = []));;
    passert (bool_decide (t_unacked b = []));;
    passert (bool_decide (t_ooseq b = []));;
    lift (tupdate pcb (λ b, b <|t_state := CLOSED|>)).
Definition TCP_PCB_REMOVE_ACTIVE (pcb : tloc) : prog stack unit :=
  tcp_pcb_remove ACTIVE_PCBS pcb;; set_changed 1.

(** ** Closing *)

Definition set_state (pcb : tloc) (st : tcp_state) : prog stack unit :=
  lift (tupdate pcb (λ b, b <|t_state := st|>)).

(** A FIN is queued, and the state changes if that worked. *)
Definition close_with_fin (pcb : tloc) (st : tcp_state) : prog stack err_t :=
  err ← tcp_send_fin pcb;
  if bool_decide (err = ERR_OK) then set_state pcb st;; tcp_output pcb;; mret err
  else mret err.

(** The application has not taken all data: the peer gets a reset. *)
Definition close_with_rst (pcb : tloc) (b : tcp_pcb) : prog stack err_t :=
  passert (has (t_flags b) TF_RXCLOSED);;
  tcp_rst (t_snd_nxt b) (t_rcv_nxt b) (t_local_ip b) (t_remote_ip b)
    (t_local_port b) (t_remote_port b);;
  tcp_pcb_purge pcb;;
  TCP_RMV_ACTIVE pcb;;
  b ← lift (tderef pcb);
  (if is_state (t_state b) ESTABLISHED then set_state pcb TIME_WAIT;; TCP_REG TW_PCBS pcb
   else lift (tcp_free pcb));;
  mret ERR_OK.

Definition tcp_close_shutdown (pcb : tloc) (rst_on_unacked_data : bool) : prog stack err_t :=
  l ← lift (is_listen pcb);
  if (l : bool) then
    tcp_pcb_remove LISTEN_PCBS pcb;; lift (tcp_listen_free pcb);; mret ERR_OK
  else
    b ← lift (tderef pcb);
    if rst_on_unacked_data && (is_state (t_state b) ESTABLISHED || is_state (t_state b) CLOSE_WAIT)
       && (bool_decide (t_refused_data b ≠ None) || negb (t_rcv_wnd b =? TCP_WND))
    then close_with_rst pcb b
    else
      match t_state b with
      | CLOSED =>
          (if negb (t_local_port b =? 0) then lift (TCP_RMV BOUND_PCBS pcb) else mret ());;
          lift (tcp_free pcb);; mret ERR_OK
      | SYN_SENT => TCP_PCB_REMOVE_ACTIVE pcb;; lift (tcp_free pcb);; mret ERR_OK
      | SYN_RCVD | ESTABLISHED => close_with_fin pcb FIN_WAIT_1
      | CLOSE_WAIT => close_with_fin pcb LAST_ACK
      | _ => mret ERR_OK
      end.

Definition tcp_close (pcb : tloc) : prog stack err_t :=
  l ← lift (is_listen pcb);
  (if (l : bool) then mret () else lift (tupdate pcb (λ b, b <|t_flags ::= Z.lor TF_RXCLOSED|>)));;
  tcp_close_shutdown pcb true.

Definition tcp_shutdown (pcb : tloc) (shut_rx shut_tx : bool) : prog stack err_t :=
  l ← lift (is_listen pcb);
  if (l : bool) then mret ERR_CONN
  else
    (if shut_rx then lift (tupdate pcb (λ b, b <|t_flags ::= Z.lor TF_RXCLOSED|>)) else mret ());;
    if shut_rx && shut_tx then tcp_close_shutdown pcb true
    else
      b ← lift (tderef pcb);
      (match t_refused_data b with
       | Some p => if shut_rx then pfree p;; lift (tupdate pcb (λ b, b <|t_refused_data := None|>))
                   else mret ()
       | None => mret ()
       end);;
      if shut_tx then
        match t_state b with
        | SYN_RCVD | ESTABLISHED | CLOSE_WAIT => tcp_close_shutdown pcb shut_rx
        | _ => mret ERR_CONN
        end
      else mret ERR_OK.

(** ** Events for the application *)

Definition TCP_EVENT_ERR (errf : option fn) (arg : Z) (err : err_t) : prog stack unit :=
  match errf with
  | None => mret ()
  | Some (App k) => call_app (CallErr k arg err);; mret ()
  | Some _ => pfault Wild
  end.

Definition tcp_abandon (pcb : tloc) (reset : bool) : prog stack unit :=
  lift (not_listen pcb);;
  b ← lift (tderef pcb);
  if is_state (t_state b) TIME_WAIT then
    tcp_pcb_remove TW_PCBS pcb;; lift (tcp_free pcb)
  else
    let send_rst := reset && negb (is_state (t_state b) CLOSED) in
    TCP_PCB_REMOVE_ACTIVE pcb;;
    b' ← lift (tderef pcb);
    tcp_segs_free (t_unacked b');;
    tcp_segs_free (t_unsent b');;
    tcp_segs_free (t_ooseq b');;
    (if send_rst then
       tcp_rst (t_snd_nxt b) (t_rcv_nxt b) (t_local_ip b') (t_remote_ip b')
         (t_local_port b') (t_remote_port b')
     else mret ());;
    lift (tcp_free pcb);;
    TCP_EVENT_ERR (t_errf b) (t_callback_arg b) ERR_ABRT.

Definition tcp_abort (pcb : tloc) : prog stack unit := tcp_abandon pcb true.

(** ** Opening *)

Definition isany (ipaddr : option Z) : bool :=
  match ipaddr with None => true | Some a => ip_addr_isany a end.

Definition tcp_bind (pcb : tloc) (ipaddr : option Z) (port : Z) : prog stack err_t :=
  lift (not_listen pcb);;
  b ← lift (tderef pcb);
  passert (is_state (t_state b) CLOSED);;
  port ← (if port =? 0 then lift tcp_new_port else mret port);
  if port =? 0 then mret ERR_BUF
  else
    used ← lift (exists_in (λ ip p, (p =? port)
                   && (ip_addr_isany ip || isany ipaddr || bool_decide (Some ip = ipaddr)))
                   tcp_pcb_lists);
    if (used : bool) then mret ERR_USE
    else
      (match ipaddr with
       | Some a => if ip_addr_isany a then mret () else lift (tupdate pcb (λ b, b <|t_local_ip := a|>))
       | None => mret ()
       end);;
      lift (tupdate pcb (λ b, b <|t_local_port := port|>));;
      TCP_REG BOUND_PCBS pcb;;
      mret ERR_OK.

(** A new block is zeroed by the caller or filled in. *)
Definition new_listen (b : tcp_pcb_listen) : prog tcp_vars tloc :=
  v ← pget;
  let l := tcp_fresh v in
  pmodify (λ v, v <|tcp_listen_structs ::= <[l:=b]>|>);; mret l.

(** [backlog] is not used.  A block that listens already fails the check that
    its state is CLOSED. *)
Definition tcp_listen_with_backlog (pcb : tloc) : prog stack (option tloc) :=
  lift (not_listen pcb);;
  b ← lift (tderef pcb);
  passert (is_state (t_state b) CLOSED);;
  s ← pget;
  if negb (listen_avail s) then mret None
  else
    lpcb ← lift (new_listen (mk_tcp_pcb_listen (t_local_ip b) (Z.lor (t_so_options b) SOF_ACCEPTCONN)
                   (t_tos b) (t_ttl b) None (t_callback_arg b) (Some Tcp_accept_null) (t_prio b)
                   (t_local_port b)));
    (if negb (t_local_port b =? 0) then lift (TCP_RMV BOUND_PCBS pcb) else mret ());;
    lift (tcp_free pcb);;
    TCP_REG LISTEN_PCBS lpcb;;
    mret (Some lpcb).

Definition tcp_connect (pcb : tloc) (ipaddr : option Z) (port : Z) (connected : option fn)
    : prog stack err_t :=
  lift (not_listen pcb);;
  b ← lift (tderef pcb);
  passert (is_state (t_state b) CLOSED);;
  match ipaddr with
  | None => mret ERR_VAL
  | Some a =>
      lift (tupdate pcb (λ b, b <|t_remote_ip := a|> <|t_remote_port := port|>));;
      routed ← output_local_ip pcb;
      if negb routed then mret ERR_RTE
      else
        let old_local_port := t_local_port b in
        (if old_local_port =? 0 then
           new_port ← lift tcp_new_port;
           lift (tupdate pcb (λ b, b <|t_local_port := new_port|>))
         else mret ());;
        b ← lift (tderef pcb);
        if t_local_port b =? 0 then mret ERR_BUF
        else
          iss ← lift tcp_next_iss;
          mss ← lift (tcp_eff_send_mss 536 (t_remote_ip b));
          lift (tupdate pcb (λ b,
            b <|t_rcv_nxt := 0|> <|t_snd_nxt := iss|> <|t_lastack := u32 (iss - 1)|>
              <|t_snd_lbb := u32 (iss - 1)|> <|t_rcv_wnd := TCP_WND|> <|t_rcv_ann_wnd := TCP_WND|>
              <|t_rcv_ann_right_edge := 0|> <|t_snd_wnd := TCP_WND|> <|t_mss := mss|>
              <|t_cwnd := 1|> <|t_ssthresh := u16 (mss * 10)|> <|t_connected := connected|>));;
          ret ← tcp_enqueue_flags pcb TCP_SYN;
          (if bool_decide (ret = ERR_OK) then
             set_state pcb SYN_SENT;;
             (if negb (old_local_port =? 0) then lift (TCP_RMV BOUND_PCBS pcb) else mret ());;
             TCP_REG_ACTIVE pcb;;
             tcp_output pcb;;
             mret ()
           else mret ());;
          mret ret
  end.

(** ** The receive window *)

Definition tcp_recved (pcb : tloc) (len : Z) : prog stack unit :=
  lift (not_listen pcb);;
  b ← lift (tderef pcb);
  let rcv_wnd := u16 (t_rcv_wnd b + len) in
  (if TCP_WND <? rcv_wnd then lift (tupdate pcb (λ b, b <|t_rcv_wnd := TCP_WND|>))
   else if rcv_wnd =? 0 then
     passert (is_state (t_state b) CLOSE_WAIT || is_state (t_state b) LAST_ACK);;
     lift (tupdate pcb (λ b, b <|t_rcv_wnd := TCP_WND|>))
   else lift (tupdate pcb (λ b, b <|t_rcv_wnd := rcv_wnd|>)));;
  wnd_inflation ← lift (tcp_update_rcv_ann_wnd pcb);
  if TCP_WND_UPDATE_THRESHOLD <=? s32 wnd_inflation then
    tcp_ack_now pcb;; tcp_output pcb;; mret ()
  else mret ().

Definition tcp_recv_null (pcb : tloc) (p : option loc) (err : err_t) : prog stack err_t :=
  match p with
  | Some p => pb ← lift (deref p); tcp_recved pcb (p_tot_len pb);; pfree p;; mret ERR_OK
  | None => if bool_decide (err = ERR_OK) then tcp_close pcb else mret ERR_OK
  end.

Definition call_recv (f : fn) (pcb : tloc) (p : option loc) (err : err_t) : prog stack err_t :=
  b ← lift (tderef pcb);
  match f with
  | Tcp_recv_null => tcp_recv_null pcb p err
  | App k => call_app (CallRecv k (t_callback_arg b) pcb p err)
  | Tcp_accept_null => pfault Wild
  end.
Definition TCP_EVENT_RECV (pcb : tloc) (p : option loc) (err : err_t) : prog stack err_t :=
  b ← lift (tderef pcb);
  match t_recv b with
  | Some f => call_recv f pcb p err
  | None => tcp_recv_null pcb p err
  end.
Definition TCP_EVENT_CLOSED (pcb : tloc) : prog stack err_t :=
  b ← lift (tderef pcb);
  match t_recv b with
  | Some f => call_recv f pcb None ERR_OK
  | None => mret ERR_OK
  end.
Definition TCP_EVENT_SENT (pcb : tloc) (space : Z) : prog stack err_t :=
  b ← lift (tderef pcb);
  match t_sent b with
  | Some (App k) => call_app (CallSent k (t_callback_arg b) pcb space)
  | Some _ => pfault Wild
  | None => mret ERR_OK
  end.
Definition TCP_EVENT_CONNECTED (pcb : tloc) (err : err_t) : prog stack err_t :=
  b ← lift (tderef pcb);
  match t_connected b with
  | Some (App k) => call_app (CallConnected k (t_callback_arg b) pcb err)
  | Some _ => pfault Wild
  | None => mret ERR_OK
  end.
Definition TCP_EVENT_POLL (pcb : tloc) : prog stack err_t :=
  b ← lift (tderef pcb);
  match t_poll b with
  | Some (App k) => call_app (CallPoll k (t_callback_arg b) pcb)
  | Some _ => pfault Wild
  | None => mret ERR_OK
  end.
(** With [tcp_accept_null], the default. *)
Definition TCP_EVENT_ACCEPT (pcb : tloc) (err : err_t) : prog stack err_t :=
  b ← lift (tderef pcb);
  match t_accept b with
  | Some (App k) => call_app (CallAccept k (t_callback_arg b) pcb err)
  | Some Tcp_accept_null => mret ERR_ABRT
  | Some Tcp_recv_null => pfault Wild
  | None => mret ERR_ARG
  end.

(** [recv_data] or the data refused before is offered; on success a FIN that
    came with it is reported. *)
Definition got_fin (pcb : tloc) : prog stack err_t :=
  lift (tupdate pcb (λ b, if t_rcv_wnd b =? TCP_WND then b
                          else b <|t_rcv_wnd := u16 (t_rcv_wnd b + 1)|>));;
  TCP_EVENT_CLOSED pcb.

Definition tcp_process_refused_data (pcb : tloc) : prog stack err_t :=
  b ← lift (tderef pcb);
  refused_data ← pderef (t_refused_data b);
  pb ← lift (deref refused_data);
  let refused_flags := p_flags pb in
  lift (tupdate pcb (λ b, b <|t_refused_data := None|>));;
  err ← TCP_EVENT_RECV pcb (Some refused_data) ERR_OK;
  if bool_decide (err = ERR_OK) then
    if has refused_flags PBUF_FLAG_TCP_FIN then
      err ← got_fin pcb;
      if bool_decide (err = ERR_ABRT) then mret ERR_ABRT else mret ERR_OK
    else mret ERR_OK
  else if bool_decide (err = ERR_ABRT) then mret ERR_ABRT
  else
    lift (tupdate pcb (λ b, b <|t_refused_data := Some refused_data|>));;
    mret ERR_INPROGRESS.

(** ** Allocation *)

(** The oldest block of a list that meets a condition, and for which it is at
    least as old as those before. *)
Fixpoint oldest_loop (fuel : nat) (ok : tcp_pcb → Z → bool) (pcb : option tloc)
    (mprio inactivity : Z) (inactive : option tloc) : prog tcp_vars (option tloc) :=
  match pcb with
  | None => mret inactive
  | Some l =>
      match fuel with
      | O => pfault Hang
      | S fuel' =>
          v ← pget;
          b ← tderef l;
          let age := u32 (tcp_ticks v - t_tmr b) in
          if ok b mprio && (inactivity <=? age)
          then oldest_loop fuel' ok (t_next b) (t_prio b) age (Some l)
          else oldest_loop fuel' ok (t_next b) mprio inactivity inactive
      end
  end.

Definition kill_oldest (pcbs : pcb_list) (ok : tcp_pcb → Z → bool) : prog stack unit :=
  v ← lift (pget (S := tcp_vars));
  inactive ← lift (oldest_loop (list_fuel v) ok (head_of pcbs v) TCP_PRIO_MAX 0 None);
  match inactive with Some pcb => tcp_abort pcb | None => mret () end.

Definition tcp_kill_prio (prio : Z) : prog stack unit :=
  kill_oldest ACTIVE_PCBS (λ b mprio, (t_prio b <=? prio) && (t_prio b <=? mprio)).
Definition tcp_kill_timewait : prog stack unit := kill_oldest TW_PCBS (λ _ _, true).

(** What [memset] and the assignments of [tcp_alloc] make of a block. *)
Definition new_pcb (prio iss ticks timer_ctr : Z) : tcp_pcb :=
  mk_tcp_pcb 0 0 0 0 TCP_TTL
    None 0 None CLOSED prio 0 0 0
    0 0 timer_ctr ticks
    0 TCP_WND TCP_WND 0
    (-1) 536 0 0 0 (3000 / TCP_SLOW_INTERVAL) (3000 / TCP_SLOW_INTERVAL) 0
    0 iss 1 0
    iss 0 iss iss 0 0
    0 TCP_SND_BUF 0 0
    [] [] [] None
    None (Some Tcp_recv_null) None None None
    TCP_KEEPIDLE_DEFAULT TCP_KEEPINTVL_DEFAULT TCP_KEEPCNT_DEFAULT
    0 0 0.

(** Up to two connections are killed for a block. *)
Definition tcp_alloc (prio : Z) : prog stack (option tloc) :=
  s ← pget;
  (if pcb_avail s then mret () else
     tcp_kill_timewait;;
     s ← pget;
     if pcb_avail s then mret () else tcp_kill_prio prio);;
  s ← pget;
  if negb (pcb_avail s) then mret None
  else
    v ← lift (pget (S := tcp_vars));
    let l := tcp_fresh v in
    iss ← lift tcp_next_iss;
    lift (pmodify (λ v, v <|tcp_structs ::= <[l:=new_pcb prio iss (tcp_ticks v) (tcp_timer_ctr v)]>|>));;
    mret (Some l).

Definition tcp_new : prog stack (option tloc) := tcp_alloc TCP_PRIO_NORMAL.

(** ** Timers *)

(** The timeouts of a block; the results are [pcb_remove] and [pcb_reset]. *)
Definition TCP_KEEP_DUR (b : tcp_pcb) : Z := u32 (t_keep_cnt b * t_keep_intvl b).

(** Time for a retransmission. *)
Definition slow_rexmit (pcb : tloc) : prog stack unit :=
  b ← lift (tderef pcb);
  (if is_state (t_state b) SYN_SENT then mret ()
   else
     k ← pderef (tcp_backoff !! Z.to_nat (t_nrtx b));
     lift (tupdate pcb (λ b, b <|t_rto := s16 (Z.shiftl (Z.shiftr (t_sa b) 3 + t_sv b) k)|>)));;
  lift (tupdate pcb (λ b,
    let ssthresh := Z.shiftr (Z.min (t_cwnd b) (t_snd_wnd b)) 1 in
    let ssthresh := if ssthresh <? u16 (Z.shiftl (t_mss b) 1) then u16 (Z.shiftl (t_mss b) 1)
                    else ssthresh in
    b <|t_rtime := 0|> <|t_ssthresh := ssthresh|> <|t_cwnd := t_mss b|>));;
  tcp_rexmit_rto pcb.

Definition slow_persist (pcb : tloc) : prog stack unit :=
  lift (tupdate pcb (λ b, b <|t_persist_cnt := u8 (t_persist_cnt b + 1)|>));;
  b ← lift (tderef pcb);
  k ← pderef (tcp_persist_backoff !! Z.to_nat (t_persist_backoff b - 1));
  if k <=? t_persist_cnt b then
    lift (tupdate pcb (λ b, b <|t_persist_cnt := 0|>
      <|t_persist_backoff := if t_persist_backoff b <? zlen tcp_persist_backoff
                             then t_persist_backoff b + 1 else t_persist_backoff b|>));;
    tcp_zero_window_probe pcb
  else mret ().

(** Retransmission and persist timer. *)
Definition slow_send (pcb : tloc) : prog stack bool :=
  b ← lift (tderef pcb);
  if is_state (t_state b) SYN_SENT && (t_nrtx b =? TCP_SYNMAXRTX) then mret true
  else if t_nrtx b =? TCP_MAXRTX then mret true
  else
    (if 0 <? t_persist_backoff b then slow_persist pcb
     else
       lift (tupdate pcb (λ b, if 0 <=? t_rtime b then b <|t_rtime := s16 (t_rtime b + 1)|> else b));;
       b ← lift (tderef pcb);
       if bool_decide (t_unacked b ≠ []) && (t_rto b <=? t_rtime b) then slow_rexmit pcb
       else mret ());;
    mret false.

(** Keepalive; [None]: nothing is due. *)
Definition slow_keepalive (pcb : tloc) : prog stack bool :=
  v ← lift (pget (S := tcp_vars));
  b ← lift (tderef pcb);
  let idle := u32 (tcp_ticks v - t_tmr b) in
  if has (t_so_options b) SOF_KEEPALIVE
     && (is_state (t_state b) ESTABLISHED || is_state (t_state b) CLOSE_WAIT) then
    if u32 (t_keep_idle b + TCP_KEEP_DUR b) / TCP_SLOW_INTERVAL <? idle then mret true
    else if u32 (t_keep_idle b + u32 (t_keep_cnt_sent b * t_keep_intvl b)) / TCP_SLOW_INTERVAL <? idle
    then
      tcp_keepalive pcb;;
      lift (tupdate pcb (λ b, b <|t_keep_cnt_sent := u8 (t_keep_cnt_sent b + 1)|>));;
      mret false
    else mret false
  else mret false.

(** Segments received out of order are dropped after a while. *)
Definition slow_ooseq (pcb : tloc) : prog stack unit :=
  v ← lift (pget (S := tcp_vars));
  b ← lift (tderef pcb);
  if bool_decide (t_ooseq b ≠ [])
     && (u32 (t_rto b * TCP_OOSEQ_TIMEOUT) <=? u32 (tcp_ticks v - t_tmr b)) then
    tcp_segs_free (t_ooseq b);; lift (tupdate pcb (λ b, b <|t_ooseq := []|>))
  else mret ().

(** The block has been in its state for longer than [ms]. *)
Definition stuck (v : tcp_vars) (b : tcp_pcb) (ms : Z) : bool :=
  ms / TCP_SLOW_INTERVAL <? u32 (tcp_ticks v - t_tmr b).

Definition slow_checks (pcb : tloc) : prog stack (bool * bool) :=
  remove ← slow_send pcb;
  v ← lift (pget (S := tcp_vars));
  b ← lift (tderef pcb);
  let remove := remove || is_state (t_state b) FIN_WAIT_2 && has (t_flags b) TF_RXCLOSED
                          && stuck v b TCP_FIN_WAIT_TIMEOUT in
  reset ← slow_keepalive pcb;
  slow_ooseq pcb;;
  let remove := remove || reset
                || is_state (t_state b) SYN_RCVD && stuck v b TCP_SYN_RCVD_TIMEOUT
                || is_state (t_state b) LAST_ACK && stuck v b (2 * TCP_MSL) in
  mret (remove, reset).

(** The block leaves its list, in which [prev] is before it. *)
Definition slow_unlink (pcbs : pcb_list) (prev : option tloc) (pcb : tloc) (next : option tloc)
    : prog tcp_vars unit :=
  v ← pget;
  match prev with
  | Some q => passert (negb (bool_decide (head_of pcbs v = Some pcb)));;
              tupdate q (λ b, b <|t_next := next|>)
  | None => passert (bool_decide (head_of pcbs v = Some pcb));; pmodify (set_head_of pcbs next)
  end.

Definition slow_remove (prev : option tloc) (pcb : tloc) (reset : bool) : prog stack unit :=
  tcp_pcb_purge pcb;;
  b ← lift (tderef pcb);
  lift (slow_unlink ACTIVE_PCBS prev pcb (t_next b));;
  (if reset then tcp_rst (t_snd_nxt b) (t_rcv_nxt b) (t_local_ip b) (t_remote_ip b)
                   (t_local_port b) (t_remote_port b)
   else mret ());;
  lift (tcp_free pcb);;
  set_changed 0;;
  TCP_EVENT_ERR (t_errf b) (t_callback_arg b) ERR_ABRT.

(** Has a callback changed the list of the active blocks? *)
Definition changed : prog stack bool :=
  v ← lift (pget (S := tcp_vars)); mret (negb (tcp_active_pcbs_changed v =? 0)).

(** The poll callback, if it is due; [true] if the list has changed. *)
Definition slow_poll (pcb : tloc) : prog stack bool :=
  lift (tupdate pcb (λ b, b <|t_polltmr := u8 (t_polltmr b + 1)|>));;
  b ← lift (tderef pcb);
  if t_pollinterval b <=? t_polltmr b then
    lift (tupdate pcb (λ b, b <|t_polltmr := 0|>));;
    set_changed 0;;
    err ← TCP_EVENT_POLL pcb;
    c ← changed;
    (if negb c && bool_decide (err = ERR_OK) then tcp_output pcb;; mret () else mret ());;
    mret c
  else mret false.

(** The loop over the active blocks.  It starts again from the head when the
    list has changed, and skips the blocks that have had their turn. *)
Fixpoint slow_loop (fuel : nat) (prev pcb : option tloc) : prog stack unit :=
  match pcb with
  | None => mret ()
  | Some l =>
      match fuel with
      | O => pfault Hang
      | S fuel' =>
          lift (not_listen l);;
          v ← lift (pget (S := tcp_vars));
          b ← lift (tderef l);
          passert (negb (is_state (t_state b) CLOSED));;
          passert (negb (is_state (t_state b) TIME_WAIT));;
          if t_last_timer b =? tcp_timer_ctr v then slow_loop fuel' prev (t_next b)
          else
            lift (tupdate l (λ b, b <|t_last_timer := tcp_timer_ctr v|>));;
            '(remove, reset) ← slow_checks l;
            b ← lift (tderef l);
            c ← (if (remove : bool) then slow_remove prev l reset;; changed else slow_poll l);
            v ← lift (pget (S := tcp_vars));
            if (c : bool) then slow_loop fuel' None (tcp_active_pcbs v)
            else slow_loop fuel' (if (remove : bool) then prev else Some l) (t_next b)
      end
  end.

(** The loop over the blocks in TIME-WAIT. *)
Fixpoint tw_loop (fuel : nat) (prev pcb : option tloc) : prog stack unit :=
  match pcb with
  | None => mret ()
  | Some l =>
      match fuel with
      | O => pfault Hang
      | S fuel' =>
          lift (not_listen l);;
          v ← lift (pget (S := tcp_vars));
          b ← lift (tderef l);
          passert (is_state (t_state b) TIME_WAIT);;
          if stuck v b (2 * TCP_MSL) then
            tcp_pcb_purge l;;
            lift (slow_unlink TW_PCBS prev l (t_next b));;
            lift (tcp_free l);;
            tw_loop fuel' prev (t_next b)
          else tw_loop fuel' (Some l) (t_next b)
      end
  end.

(** [fuel]: a bound on the turns of the first loop; the callbacks decide how
    often it starts again. *)
Definition tcp_slowtmr (fuel : nat) : prog stack unit :=
  lift (pmodify (λ v : tcp_vars, v <|tcp_ticks := u32 (tcp_ticks v + 1)|>
                                   <|tcp_timer_ctr := u8 (tcp_timer_ctr v + 1)|>));;
  v ← lift (pget (S := tcp_vars));
  slow_loop fuel None (tcp_active_pcbs v);;
  v ← lift (pget (S := tcp_vars));
  tw_loop (list_fuel v) None (tcp_tw_pcbs v).

Fixpoint fast_loop (fuel : nat) (pcb : option tloc) : prog stack unit :=
  match pcb with
  | None => mret ()
  | Some l =>
      match fuel with
      | O => pfault Hang
      | S fuel' =>
          v ← lift (pget (S := tcp_vars));
          b ← lift (tderef l);
          if t_last_timer b =? tcp_timer_ctr v then fast_loop fuel' (t_next b)
          else
            lift (tupdate l (λ b, b <|t_last_timer := tcp_timer_ctr v|>));;
            (if has (t_flags b) TF_ACK_DELAY then
               tcp_ack_now l;; tcp_output l;;
               lift (tupdate l (λ b, b <|t_flags ::= clear (Z.lor TF_ACK_DELAY TF_ACK_NOW)|>))
             else mret ());;
            b ← lift (tderef l);
            c ← (match t_refused_data b with
                 | Some _ => set_changed 0;; tcp_process_refused_data l;; changed
                 | None => mret false
                 end);
            v ← lift (pget (S := tcp_vars));
            fast_loop fuel' (if (c : bool) then tcp_active_pcbs v else t_next b)
      end
  end.

Definition tcp_fasttmr (fuel : nat) : prog stack unit :=
  lift (pmodify (λ v : tcp_vars, v <|tcp_timer_ctr := u8 (tcp_timer_ctr v + 1)|>));;
  v ← lift (pget (S := tcp_vars));
  fast_loop fuel (tcp_active_pcbs v).

Definition tcp_tmr (fuel : nat) : prog stack unit :=
  tcp_fasttmr fuel;;
  lift (pmodify (λ v : tcp_vars, v <|tcp_timer := u8 (tcp_timer v + 1)|>));;
  v ← lift (pget (S := tcp_vars));
  if Z.odd (tcp_timer v) then tcp_slowtmr fuel else mret ().

(** A copy of a segment shares its pbuf. *)
Definition tcp_seg_copy (seg : tcp_seg) : prog stack (option tcp_seg) :=
  s ← pget;
  if seg_avail s then lift (pbuf_ref (CF := CF) (s_p seg));; mret (Some seg) else mret None.

End tcp.
End TcpCore.
