(* ===== verification/TcpIn.v ===== *)
(** * Receiving TCP segments: [lwip/src/core/tcp_in.c]

    A segment is checked, given to the control block it belongs to, run through
    the state machine of the block ([tcp_process]) and its data is put in order
    ([tcp_receive]) before the application is told.  The static variables of
    the file, which hold the segment that is being processed, are the record
    [tcp_in] of the state. *)

From S2P Require Import Prelude RecordSet Def Ip4Addr InetChksum Netif Udp Pbuf Stack Ip4 Icmp Tcp TcpOut TcpCore.

Module TcpIn.
Import RecordSet Def Ip4Addr InetChksum Netif Udp Pbuf Stack Ip4 Icmp Tcp TcpOut TcpCore.

Definition LWIP_TCP_OPT_EOL : Z := 0.
Definition LWIP_TCP_OPT_NOP : Z := 1.
Definition LWIP_TCP_OPT_MSS : Z := 2.

Section tcp_in.
Context {CF F A X : Type} `{HL : Lens X tcp_vars}.
Abbreviation stack := (stack CF F A X).
Context (custom_free : CF → loc → prog (heap CF) unit).
Context (mem_avail : heap CF → Z → bool) (garbage : heap CF → nat → Z).
Context (output ip_frag : netif_loc → loc → Z → prog stack err_t).
Context (seg_avail pcb_avail : stack → bool).
Context (tcp_timer_needed : prog stack unit).
Context (call_app : app_call → prog stack err_t).

Abbreviation pfree := (pfree custom_free (F := F) (A := A) (X := X)).
Abbreviation tcp_seg_free := (tcp_seg_free custom_free (F := F) (A := A) (X := X)).
Abbreviation tcp_segs_free := (tcp_segs_free custom_free (F := F) (A := A) (X := X)).
Abbreviation tcp_output := (tcp_output custom_free mem_avail garbage output ip_frag).
Abbreviation tcp_send_empty_ack := (tcp_send_empty_ack custom_free mem_avail garbage output ip_frag).
Abbreviation tcp_enqueue_flags := (tcp_enqueue_flags custom_free mem_avail garbage seg_avail).
Abbreviation tcp_rst := (tcp_rst custom_free mem_avail garbage output ip_frag).
Abbreviation tcp_rexmit := (tcp_rexmit (CF := CF) (F := F) (A := A) (X := X)).
Abbreviation tcp_rexmit_fast := (tcp_rexmit_fast (CF := CF) (F := F) (A := A) (X := X)).
Abbreviation tcp_pcb_purge := (tcp_pcb_purge custom_free (F := F) (A := A) (X := X)).
Abbreviation tcp_pcb_remove := (tcp_pcb_remove custom_free mem_avail garbage output ip_frag).
Abbreviation tcp_abandon := (tcp_abandon custom_free mem_avail garbage output ip_frag call_app).
Abbreviation tcp_abort := (tcp_abort custom_free mem_avail garbage output ip_frag call_app).
Abbreviation tcp_alloc := (tcp_alloc custom_free mem_avail garbage output ip_frag pcb_avail call_app).
Abbreviation TCP_REG := (TCP_REG tcp_timer_needed).
Abbreviation TCP_REG_ACTIVE := (TCP_REG_ACTIVE tcp_timer_needed).
Abbreviation TCP_RMV_ACTIVE := (TCP_RMV_ACTIVE (CF := CF) (F := F) (A := A) (X := X)).
Abbreviation tcp_ack := (tcp_ack (CF := CF) (F := F) (A := A) (X := X)).
Abbreviation tcp_ack_now := (tcp_ack_now (CF := CF) (F := F) (A := A) (X := X)).
Abbreviation set_state := (set_state (CF := CF) (F := F) (A := A) (X := X)).
Abbreviation tcp_seg_copy := (tcp_seg_copy seg_avail).
Abbreviation TCP_EVENT_ERR := (TCP_EVENT_ERR call_app).
Abbreviation TCP_EVENT_SENT := (TCP_EVENT_SENT call_app).
Abbreviation TCP_EVENT_CONNECTED := (TCP_EVENT_CONNECTED call_app).
Abbreviation TCP_EVENT_ACCEPT := (TCP_EVENT_ACCEPT call_app).

(** ** The static variables *)

Definition ivars : prog stack tcp_input_vars :=
  v ← lift (pget (S := tcp_vars)); mret (tcp_in v).
Definition iupdate (f : tcp_input_vars → tcp_input_vars) : prog stack unit :=
  lift (pmodify (λ v : tcp_vars, v <|tcp_in ::= f|>)).

(** [seg->tcphdr->seqno] of a segment that was received: in host order. *)
Definition in_seqno (g : tcp_seg) : prog (heap CF) Z := load 4 (s_tcphdr g) TCPH_SEQNO.
(** [tcplen = TCP_TCPLEN(seg)] *)
Definition set_tcplen (g : tcp_seg) : prog stack unit :=
  len ← lift (TCP_TCPLEN g); iupdate (λ i, i <|i_tcplen := u16 len|>).

(** A reset in answer to the segment. *)
Definition input_rst : prog stack unit :=
  i ← ivars;
  s ← pget;
  src ← lift (load 2 (i_tcphdr i) TCPH_SRC);
  dest ← lift (load 2 (i_tcphdr i) TCPH_DEST);
  tcp_rst (i_ackno i) (u32 (i_seqno i + i_tcplen i))
    (current_iphdr_dest (st_ip_data s)) (current_iphdr_src (st_ip_data s)) dest src.

(** ** Options *)

Definition tcp_getoptbyte : prog stack Z :=
  i ← ivars;
  iupdate (λ i, i <|i_tcp_optidx := u16 (i_tcp_optidx i + 1)|>);;
  match i_tcphdr_opt2 i with
  | Some opt2 =>
      if i_tcp_optidx i <? i_tcphdr_opt1len i
      then lift (load 1 (i_tcphdr i) (TCP_HLEN + i_tcp_optidx i))
      else lift (load 1 opt2 (u8 (i_tcp_optidx i - i_tcphdr_opt1len i)))
  | None => lift (load 1 (i_tcphdr i) (TCP_HLEN + i_tcp_optidx i))
  end.

Fixpoint parseopt_loop (fuel : nat) (max_c : Z) (pcb : tloc) : prog stack unit :=
  i ← ivars;
  if max_c <=? i_tcp_optidx i then mret ()
  else
    match fuel with
    | O => pfault Hang
    | S fuel' =>
        opt ← tcp_getoptbyte;
        if opt =? LWIP_TCP_OPT_EOL then mret ()
        else if opt =? LWIP_TCP_OPT_NOP then parseopt_loop fuel' max_c pcb
        else if opt =? LWIP_TCP_OPT_MSS then
          len ← tcp_getoptbyte;
          i ← ivars;
          if negb (len =? LWIP_TCP_OPT_LEN_MSS)
             || (max_c <? i_tcp_optidx i - 2 + LWIP_TCP_OPT_LEN_MSS) then mret ()
          else
            hi ← tcp_getoptbyte;
            lo ← tcp_getoptbyte;
            let mss := Z.lor (u16 (Z.shiftl hi 8)) lo in
            lift (tupdate pcb (λ b, b <|t_mss := if (TCP_MSS <? mss) || (mss =? 0) then TCP_MSS else mss|>));;
            parseopt_loop fuel' max_c pcb
        else
          data ← tcp_getoptbyte;
          if data <? 2 then mret ()
          else
            iupdate (λ i, i <|i_tcp_optidx := u16 (i_tcp_optidx i + (data - 2))|>);;
            parseopt_loop fuel' max_c pcb
    end.

Definition tcp_parseopt (pcb : tloc) : prog stack unit :=
  i ← ivars;
  hdrlen ← lift (TCPH_HDRLEN (i_tcphdr i));
  if 5 <? hdrlen then
    let max_c := Z.shiftl (hdrlen - 5) 2 in
    iupdate (λ i, i <|i_tcp_optidx := 0|>);;
    parseopt_loop (Z.to_nat max_c) max_c pcb
  else mret ().

(** ** Acknowledgements *)

(** The window update. *)
Definition wnd_update (seqno ackno wnd : Z) (b : tcp_pcb) : tcp_pcb :=
  if TCP_SEQ_LT (t_snd_wl1 b) seqno
     || (t_snd_wl1 b =? seqno) && TCP_SEQ_LT (t_snd_wl2 b) ackno
     || (t_snd_wl2 b =? ackno) && (t_snd_wnd b <? wnd) then
    let b := b <|t_snd_wnd := wnd|>
               <|t_snd_wnd_max := if t_snd_wnd_max b <? wnd then wnd else t_snd_wnd_max b|>
               <|t_snd_wl1 := seqno|> <|t_snd_wl2 := ackno|> in
    if wnd =? 0 then
      if t_persist_backoff b =? 0 then b <|t_persist_cnt := 0|> <|t_persist_backoff := 1|> else b
    else if 0 <? t_persist_backoff b then b <|t_persist_backoff := 0|>
    else b
  else b.

(** [cwnd += mss] unless that overflows. *)
Definition inflate (b : tcp_pcb) : tcp_pcb :=
  if t_cwnd b <? u16 (t_cwnd b + t_mss b) then b <|t_cwnd := u16 (t_cwnd b + t_mss b)|> else b.

(** Clauses 1 to 5: an acknowledgement of nothing new. *)
Definition old_ack (pcb : tloc) (ackno tcplen right_wnd_edge : Z) : prog stack unit :=
  lift (tupdate pcb (λ b, b <|t_acked := 0|>));;
  b ← lift (tderef pcb);
  if (tcplen =? 0) && (u32 (t_snd_wl2 b + t_snd_wnd b) =? right_wnd_edge)
     && (0 <=? t_rtime b) && (t_lastack b =? ackno) then
    lift (tupdate pcb (λ b, b <|t_dupacks := if t_dupacks b <? u8 (t_dupacks b + 1)
                                             then t_dupacks b + 1 else t_dupacks b|>));;
    b ← lift (tderef pcb);
    if 3 <? t_dupacks b then lift (tupdate pcb inflate)
    else if t_dupacks b =? 3 then tcp_rexmit_fast pcb
    else mret ()
  else lift (tupdate pcb (λ b, b <|t_dupacks := 0|>)).

(** A segment that is acknowledged has left its queue. *)
Definition free_acked (pcb : tloc) (next : tcp_seg) : prog stack unit :=
  clen ← lift (pbuf_clen (s_p next));
  b ← lift (tderef pcb);
  passert (clen <=? t_snd_queuelen b);;
  f ← lift (TCPH_FLAGS (s_tcphdr next));
  lift (tupdate pcb (λ b, if negb (t_acked b =? 0) && has f TCP_FIN
                          then b <|t_acked := t_acked b - 1|> else b));;
  lift (tupdate pcb (λ b, b <|t_snd_queuelen := u16 (t_snd_queuelen b - clen)|>));;
  tcp_seg_free next;;
  b ← lift (tderef pcb);
  if negb (t_snd_queuelen b =? 0)
  then passert (bool_decide (t_unacked b ≠ []) || bool_decide (t_unsent b ≠ []))
  else mret ().

Fixpoint unacked_loop (pcb : tloc) (ackno : Z) (unacked : list tcp_seg) : prog stack unit :=
  match unacked with
  | [] => mret ()
  | next :: rest =>
      seqno ← lift (seg_seqno next);
      len ← lift (TCP_TCPLEN next);
      if TCP_SEQ_LEQ (seqno + len) ackno then
        lift (tupdate pcb (λ b, b <|t_unacked := rest|>));;
        free_acked pcb next;;
        unacked_loop pcb ackno rest
      else mret ()
  end.

Fixpoint unsent_loop (pcb : tloc) (ackno snd_nxt : Z) (unsent : list tcp_seg) : prog stack unit :=
  match unsent with
  | [] => mret ()
  | next :: rest =>
      seqno ← lift (seg_seqno next);
      len ← lift (TCP_TCPLEN next);
      if TCP_SEQ_BETWEEN ackno (seqno + len) snd_nxt then
        lift (tupdate pcb (λ b, b <|t_unsent := rest|>));;
        lift (tupdate pcb (λ b, if bool_decide (rest = []) then b <|t_unsent_oversize := 0|> else b));;
        free_acked pcb next;;
        unsent_loop pcb ackno snd_nxt rest
      else mret ()
  end.

(** The congestion window grows; the division is by [cwnd]. *)
Definition grow_cwnd (pcb : tloc) : prog stack unit :=
  b ← lift (tderef pcb);
  if t_cwnd b <? t_ssthresh b then lift (tupdate pcb inflate)
  else if t_cwnd b =? 0 then pfault Wild
  else
    let new_cwnd := u16 (t_cwnd b + t_mss b * t_mss b / t_cwnd b) in
    lift (tupdate pcb (λ b, if t_cwnd b <? new_cwnd then b <|t_cwnd := new_cwnd|> else b)).

(** An acknowledgement of new data. *)
Definition new_ack (pcb : tloc) (ackno : Z) : prog stack unit :=
  lift (tupdate pcb (λ b, if has (t_flags b) TF_INFR
                          then b <|t_flags ::= clear TF_INFR|> <|t_cwnd := t_ssthresh b|> else b));;
  lift (tupdate pcb (λ b,
    let acked := u16 (ackno - t_lastack b) in
    b <|t_nrtx := 0|> <|t_rto := s16 (Z.shiftr (t_sa b) 3 + t_sv b)|>
      <|t_acked := acked|> <|t_snd_buf := u16 (t_snd_buf b + acked)|>
      <|t_dupacks := 0|> <|t_lastack := ackno|>));;
  b ← lift (tderef pcb);
  (if state_num ESTABLISHED <=? state_num (t_state b) then grow_cwnd pcb else mret ());;
  unacked_loop pcb ackno (t_unacked b);;
  lift (tupdate pcb (λ b, b <|t_rtime := if bool_decide (t_unacked b = []) then -1 else 0|>
                            <|t_polltmr := 0|>)).

(** The estimate of the round-trip time. *)
Definition rtt_update (ticks ackno : Z) (b : tcp_pcb) : tcp_pcb :=
  if negb (t_rttest b =? 0) && TCP_SEQ_LT (t_rtseq b) ackno then
    let m := s16 (s16 (ticks - t_rttest b) - Z.shiftr (t_sa b) 3) in
    let sa := s16 (t_sa b + m) in
    let m := if m <? 0 then s16 (- m) else m in
    let m := s16 (m - Z.shiftr (t_sv b) 2) in
    let sv := s16 (t_sv b + m) in
    b <|t_sa := sa|> <|t_sv := sv|> <|t_rto := s16 (Z.shiftr sa 3 + sv)|> <|t_rttest := 0|>
  else b.

(** What [tcp_receive] does when the segment has the ACK flag. *)
Definition receive_ack (pcb : tloc) : prog stack unit :=
  i ← ivars;
  b ← lift (tderef pcb);
  let right_wnd_edge := u32 (t_snd_wnd b + t_snd_wl2 b) in
  wnd ← lift (load 2 (i_tcphdr i) TCPH_WND);
  lift (tupdate pcb (wnd_update (i_seqno i) (i_ackno i) wnd));;
  (if TCP_SEQ_LEQ (i_ackno i) (t_lastack b) then old_ack pcb (i_ackno i) (i_tcplen i) right_wnd_edge
   else if TCP_SEQ_BETWEEN (i_ackno i) (t_lastack b + 1) (t_snd_nxt b) then new_ack pcb (i_ackno i)
   else
     lift (tupdate pcb (λ b, b <|t_acked := 0|>));; tcp_send_empty_ack pcb;; mret ());;
  b ← lift (tderef pcb);
  unsent_loop pcb (i_ackno i) (t_snd_nxt b) (t_unsent b);;
  v ← lift (pget (S := tcp_vars));
  lift (tupdate pcb (rtt_update (tcp_ticks v) (i_ackno i))).

(** ** Data in order *)

(** The loop over the pbufs that are left of the data wanted. *)
Fixpoint trim_loop (fuel : nat) (p : loc) (off new_tot_len : Z) : prog (heap CF) (loc * Z) :=
  b ← deref p;
  if p_len b <? off then
    match fuel with
    | O => pfault Hang
    | S fuel' =>
        update p (λ b, with_len 0 (with_tot new_tot_len b));;
        next ← pderef (p_next b);
        trim_loop fuel' next (off - p_len b) new_tot_len
    end
  else mret (p, off).

Definition trim_pbuf (p : loc) (off : Z) : prog (heap CF) unit :=
  passert (off <? 0x7fff);;
  b ← deref p;
  '(q, off) ←
    (if p_len b <? off then
       passert (off <=? p_tot_len b);;
       h ← pget;
       trim_loop (S (size (h : heap CF))) p off (u16 (p_tot_len b - off))
     else mret (p, off));
  ok ← pbuf_header (Some q) (s16 (- off));
  passert ok.

(** The first edge of the segment is cut off. *)
Definition trim_first (rcv_nxt : Z) : prog stack unit :=
  i ← ivars;
  match s_p (i_inseg i) with
  | None => pfault Abort
  | Some p =>
      lift (trim_pbuf p (s32 (rcv_nxt - i_seqno i)));;
      lift (store 4 (s_tcphdr (i_inseg i)) TCPH_SEQNO rcv_nxt);;
      iupdate (λ i, i <|i_inseg ::= λ g, g <|s_len := u16 (s_len g - u16 (rcv_nxt - i_seqno i))|>|>
                      <|i_seqno := rcv_nxt|>)
  end.

(** [inseg.len = len], one less for a SYN, and the pbuf is cut. *)
Definition trim_last (len : Z) : prog stack unit :=
  i ← ivars;
  f ← lift (TCPH_FLAGS (s_tcphdr (i_inseg i)));
  let len := if has f TCP_SYN then u16 (len - 1) else len in
  iupdate (λ i, i <|i_inseg ::= λ g, g <|s_len := len|>|>);;
  lift (pbuf_realloc custom_free (s_p (i_inseg i)) len);;
  i ← ivars;
  set_tcplen (i_inseg i).

(** The FIN flag is taken out of the header. *)
Definition remove_fin (g : tcp_seg) : prog (heap CF) unit :=
  f ← TCPH_FLAGS (s_tcphdr g);
  if has f TCP_FIN then TCPH_FLAGS_SET (s_tcphdr g) (clear TCP_FIN f) else mret ().

(** The segment is cut to the window. *)
Definition trim_to_window (pcb : tloc) : prog stack unit :=
  i ← ivars;
  b ← lift (tderef pcb);
  if t_rcv_wnd b <? i_tcplen i then
    lift (remove_fin (i_inseg i));;
    trim_last (t_rcv_wnd b);;
    i ← ivars;
    passert (u32 (i_seqno i + i_tcplen i) =? u32 (t_rcv_nxt b + t_rcv_wnd b))
  else mret ().

(** The segments of the queue that the new one covers. *)
Fixpoint covered_loop (ooseq : list tcp_seg) : prog stack (list tcp_seg) :=
  match ooseq with
  | [] => mret []
  | next :: rest =>
      i ← ivars;
      nseq ← lift (in_seqno next);
      if TCP_SEQ_GEQ (i_seqno i + i_tcplen i) (nseq + s_len next) then
        fn ← lift (TCPH_FLAGS (s_tcphdr next));
        fi ← lift (TCPH_FLAGS (s_tcphdr (i_inseg i)));
        (if has fn TCP_FIN && negb (has fi TCP_SYN) then
           lift (TCPH_SET_FLAG (s_tcphdr (i_inseg i)) TCP_FIN);; set_tcplen (i_inseg i)
         else mret ());;
        tcp_seg_free next;;
        covered_loop rest
      else mret ooseq
  end.

(** The queue of the out-of-order segments after data in order. *)
Definition adjust_ooseq (pcb : tloc) : prog stack unit :=
  i ← ivars;
  b ← lift (tderef pcb);
  if bool_decide (t_ooseq b = []) then mret ()
  else
    f ← lift (TCPH_FLAGS (s_tcphdr (i_inseg i)));
    if has f TCP_FIN then
      tcp_segs_free (t_ooseq b);; lift (tupdate pcb (λ b, b <|t_ooseq := []|>))
    else
      next ← covered_loop (t_ooseq b);
      i ← ivars;
      (match next with
       | [] => mret ()
       | g :: _ =>
           nseq ← lift (in_seqno g);
           if TCP_SEQ_GT (i_seqno i + i_tcplen i) nseq then
             trim_last (u16 (nseq - i_seqno i));;
             i ← ivars;
             passert (u32 (i_seqno i + i_tcplen i) =? nseq)
           else mret ()
       end);;
      lift (tupdate pcb (λ b, b <|t_ooseq := next|>)).

(** [len] more bytes have been received in order. *)
Definition advance (pcb : tloc) (seqno len : Z) : prog stack unit :=
  b ← lift (tderef pcb);
  passert (len <=? t_rcv_wnd b);;
  lift (tupdate pcb (λ b, b <|t_rcv_nxt := u32 (seqno + len)|>
                            <|t_rcv_wnd := t_rcv_wnd b - len|>));;
  lift (tcp_update_rcv_ann_wnd pcb);;
  mret ().

Definition add_recv_flags (f : Z) : prog stack unit :=
  iupdate (λ i, i <|i_recv_flags ::= Z.lor f|>).

(** Segments of the queue that are in order now. *)
Fixpoint dequeue_loop (pcb : tloc) (ooseq : list tcp_seg) : prog stack unit :=
  match ooseq with
  | [] => mret ()
  | cseg :: rest =>
      b ← lift (tderef pcb);
      cseq ← lift (in_seqno cseg);
      if cseq =? t_rcv_nxt b then
        iupdate (λ i, i <|i_seqno := cseq|>);;
        len ← lift (TCP_TCPLEN cseg);
        advance pcb cseq len;;
        p ← pderef (s_p cseg);
        pb ← lift (deref p);
        i ← ivars;
        (if 0 <? p_tot_len pb then
           match i_recv_data i with
           | Some r => lift (pbuf_cat (Some r) (Some p))
           | None => iupdate (λ i, i <|i_recv_data := Some p|>)
           end
         else mret ());;
        f ← lift (TCPH_FLAGS (s_tcphdr cseg));
        (if has f TCP_FIN then
           add_recv_flags TF_GOT_FIN;;
           if is_state (t_state b) ESTABLISHED then set_state pcb CLOSE_WAIT else mret ()
         else mret ());;
        lift (tupdate pcb (λ b, b <|t_ooseq := rest|>));;
        (if 0 <? p_tot_len pb then mret () else tcp_seg_free cseg);;
        dequeue_loop pcb rest
      else mret ()
  end.

(** The segment is the next one. *)
Definition receive_in_order (pcb : tloc) : prog stack unit :=
  i ← ivars;
  set_tcplen (i_inseg i);;
  trim_to_window pcb;;
  adjust_ooseq pcb;;
  i ← ivars;
  advance pcb (i_seqno i) (i_tcplen i);;
  p ← pderef (s_p (i_inseg i));
  pb ← lift (deref p);
  (if 0 <? p_tot_len pb then
     iupdate (λ i, i <|i_recv_data := Some p|> <|i_inseg ::= λ g, g <|s_p := None|>|>)
   else mret ());;
  f ← lift (TCPH_FLAGS (s_tcphdr (i_inseg i)));
  (if has f TCP_FIN then add_recv_flags TF_GOT_FIN else mret ());;
  b ← lift (tderef pcb);
  dequeue_loop pcb (t_ooseq b);;
  tcp_ack pcb.

(** ** Data out of order *)

(** A received segment is cut to [len] bytes. *)
Definition trim_seg (g : tcp_seg) (len : Z) : prog (heap CF) tcp_seg :=
  pbuf_realloc custom_free (s_p g) len;;
  mret (g <|s_len := len|>).

(** The segments that [cseg] covers. *)
Fixpoint oos_covered (seqno : Z) (cseg : tcp_seg) (next : list tcp_seg) : prog stack (list tcp_seg) :=
  match next with
  | [] => mret []
  | g :: rest =>
      nseq ← lift (in_seqno g);
      if TCP_SEQ_GEQ (seqno + s_len cseg) (nseq + s_len g) then
        f ← lift (TCPH_FLAGS (s_tcphdr g));
        (if has f TCP_FIN then lift (TCPH_SET_FLAG (s_tcphdr cseg) TCP_FIN) else mret ());;
        tcp_seg_free g;;
        oos_covered seqno cseg rest
      else mret next
  end.

(** The queue from [cseg] on. *)
Definition tcp_oos_insert_segment (cseg : tcp_seg) (next : list tcp_seg) : prog stack (list tcp_seg) :=
  i ← ivars;
  f ← lift (TCPH_FLAGS (s_tcphdr cseg));
  if has f TCP_FIN then tcp_segs_free next;; mret [cseg]
  else
    next ← oos_covered (i_seqno i) cseg next;
    match next with
    | [] => mret [cseg]
    | g :: _ =>
        nseq ← lift (in_seqno g);
        if TCP_SEQ_GT (i_seqno i + s_len cseg) nseq then
          cseg ← lift (trim_seg cseg (u16 (nseq - i_seqno i)));
          mret (cseg :: next)
        else mret (cseg :: next)
    end.

(** [g], cut where the segment that follows it starts. *)
Definition trim_before (g : tcp_seg) (seqno : Z) : prog (heap CF) tcp_seg :=
  gseq ← in_seqno g;
  if TCP_SEQ_GT (gseq + s_len g) seqno then trim_seg g (u16 (seqno - gseq)) else mret g.

(** The segment at the end of the queue, cut to the window. *)
Definition oos_last (rcv_nxt rcv_wnd : Z) (cseg : tcp_seg) : prog stack tcp_seg :=
  i ← ivars;
  if u32 (rcv_nxt + rcv_wnd) <? u32 (i_tcplen i + i_seqno i) then
    lift (remove_fin cseg);;
    cseg ← lift (trim_seg cseg (u16 (rcv_nxt + rcv_wnd - i_seqno i)));
    set_tcplen cseg;;
    i ← ivars;
    passert (u32 (i_seqno i + i_tcplen i) =? u32 (rcv_nxt + rcv_wnd));;
    mret cseg
  else mret cseg.

(** The loop over the queue; [before] are the segments before [prev].  The
    result is the new queue. *)
Fixpoint oos_loop (rcv_nxt rcv_wnd : Z) (before : list tcp_seg) (prev : option tcp_seg)
    (l : list tcp_seg) : prog stack (list tcp_seg) :=
  let passed := before ++ option_list prev in
  match l with
  | [] => mret passed
  | next :: rest =>
      i ← ivars;
      nseq ← lift (in_seqno next);
      if i_seqno i =? nseq then
        if s_len next <? s_len (i_inseg i) then
          cseg ← tcp_seg_copy (i_inseg i);
          match cseg with
          | Some cseg => q ← tcp_oos_insert_segment cseg l; mret (passed ++ q)
          | None => mret (passed ++ l)
          end
        else mret (passed ++ l)
      else
        here ← match prev with
               | None => mret (TCP_SEQ_LT (i_seqno i) nseq)
               | Some pv => pseq ← lift (in_seqno pv);
                            mret (TCP_SEQ_BETWEEN (i_seqno i) (pseq + 1) (nseq - 1))
               end;
        if (here : bool) then
          cseg ← tcp_seg_copy (i_inseg i);
          match cseg with
          | Some cseg =>
              pv ← match prev with
                   | None => mret []
                   | Some pv => pv ← lift (trim_before pv (i_seqno i)); mret [pv]
                   end;
              q ← tcp_oos_insert_segment cseg l;
              mret (before ++ pv ++ q)
          | None => mret (passed ++ l)
          end
        else if bool_decide (rest = []) && TCP_SEQ_GT (i_seqno i) nseq then
          f ← lift (TCPH_FLAGS (s_tcphdr next));
          if has f TCP_FIN then mret (passed ++ l)
          else
            cseg ← tcp_seg_copy (i_inseg i);
            match cseg with
            | Some cseg =>
                next ← lift (trim_before next (i_seqno i));
                cseg ← oos_last rcv_nxt rcv_wnd cseg;
                mret (passed ++ [next; cseg])
            | None => mret (passed ++ l)
            end
        else oos_loop rcv_nxt rcv_wnd passed (Some next) rest
  end.

(** The segment is in the window but not the next one. *)
Definition receive_out_of_order (pcb : tloc) : prog stack unit :=
  tcp_send_empty_ack pcb;;
  b ← lift (tderef pcb);
  i ← ivars;
  q ← (match t_ooseq b with
       | [] => cseg ← tcp_seg_copy (i_inseg i); mret (option_list cseg)
       | l => oos_loop (t_rcv_nxt b) (t_rcv_wnd b) [] None l
       end);
  lift (tupdate pcb (λ b, b <|t_ooseq := q|>)).

(** ** [tcp_receive] *)

Definition receive_data (pcb : tloc) : prog stack unit :=
  i ← ivars;
  b ← lift (tderef pcb);
  (if TCP_SEQ_BETWEEN (t_rcv_nxt b) (i_seqno i + 1) (i_seqno i + i_tcplen i - 1)
   then trim_first (t_rcv_nxt b)
   else if TCP_SEQ_LT (i_seqno i) (t_rcv_nxt b) then tcp_ack_now pcb
   else mret ());;
  i ← ivars;
  if TCP_SEQ_BETWEEN (i_seqno i) (t_rcv_nxt b) (t_rcv_nxt b + t_rcv_wnd b - 1) then
    if t_rcv_nxt b =? i_seqno i then receive_in_order pcb else receive_out_of_order pcb
  else tcp_send_empty_ack pcb;; mret ().

Definition tcp_receive (pcb : tloc) : prog stack unit :=
  i ← ivars;
  b ← lift (tderef pcb);
  passert (state_num ESTABLISHED <=? state_num (t_state b));;
  (if has (i_flags i) TCP_ACK then receive_ack pcb else mret ());;
  b ← lift (tderef pcb);
  if (0 <? i_tcplen i) && (state_num (t_state b) <? state_num CLOSE_WAIT) then receive_data pcb
  else if TCP_SEQ_BETWEEN (i_seqno i) (t_rcv_nxt b) (t_rcv_nxt b + t_rcv_wnd b - 1) then mret ()
  else tcp_ack_now pcb.

(** ** The state machine *)

Definition got_fin_flag : prog stack bool :=
  i ← ivars; mret (has (i_recv_flags i) TF_GOT_FIN).

(** Both ends are closed. *)
Definition enter_timewait (pcb : tloc) : prog stack unit :=
  tcp_pcb_purge pcb;;
  TCP_RMV_ACTIVE pcb;;
  set_state pcb TIME_WAIT;;
  TCP_REG TW_PCBS pcb.

(** The first segment that was sent is acknowledged: our SYN. *)
Definition syn_acked (pcb : tloc) (rseg : tcp_seg) (rest : list tcp_seg) : prog stack unit :=
  i ← ivars;
  wnd ← lift (load 2 (i_tcphdr i) TCPH_WND);
  lift (tupdate pcb (λ b,
    b <|t_snd_buf := u16 (t_snd_buf b + 1)|> <|t_rcv_nxt := u32 (i_seqno i + 1)|>
      <|t_rcv_ann_right_edge := u32 (i_seqno i + 1)|> <|t_lastack := i_ackno i|>
      <|t_snd_wnd := wnd|> <|t_snd_wnd_max := wnd|> <|t_snd_wl1 := u32 (i_seqno i - 1)|>
      <|t_state := ESTABLISHED|>));;
  b ← lift (tderef pcb);
  mss ← lift (tcp_eff_send_mss (t_mss b) (t_remote_ip b));
  lift (tupdate pcb (λ b,
    b <|t_mss := mss|> <|t_ssthresh := u16 (mss * 10)|>
      <|t_cwnd := if t_cwnd b =? 1 then u16 (mss * 2) else mss|>));;
  passert (0 <? t_snd_queuelen b);;
  lift (tupdate pcb (λ b, b <|t_snd_queuelen := t_snd_queuelen b - 1|> <|t_unacked := rest|>));;
  tcp_seg_free rseg;;
  lift (tupdate pcb (λ b, if bool_decide (t_unacked b = []) then b <|t_rtime := -1|>
                          else b <|t_rtime := 0|> <|t_nrtx := 0|>)).

Definition process_syn_sent (pcb : tloc) : prog stack err_t :=
  i ← ivars;
  b ← lift (tderef pcb);
  if has (i_flags i) TCP_ACK && has (i_flags i) TCP_SYN then
    match t_unacked b with
    | [] => pfault Wild
    | rseg :: rest =>
        useq ← lift (seg_seqno rseg);
        if i_ackno i =? u32 (useq + 1) then
          syn_acked pcb rseg rest;;
          err ← TCP_EVENT_CONNECTED pcb ERR_OK;
          if bool_decide (err = ERR_ABRT) then mret ERR_ABRT
          else tcp_ack_now pcb;; mret ERR_OK
        else input_rst;; mret ERR_OK
    end
  else if has (i_flags i) TCP_ACK then input_rst;; mret ERR_OK
  else mret ERR_OK.

(** A connection is accepted; the segment may have data. *)
Definition process_accept (pcb : tloc) : prog stack err_t :=
  set_state pcb ESTABLISHED;;
  b ← lift (tderef pcb);
  passert (bool_decide (t_accept b ≠ None));;
  err ← TCP_EVENT_ACCEPT pcb ERR_OK;
  if bool_decide (err ≠ ERR_OK) then
    (if bool_decide (err ≠ ERR_ABRT) then tcp_abort pcb else mret ());;
    mret ERR_ABRT
  else
    b ← lift (tderef pcb);
    let old_cwnd := t_cwnd b in
    tcp_receive pcb;;
    lift (tupdate pcb (λ b, b <|t_acked := if t_acked b =? 0 then 0 else t_acked b - 1|>
            <|t_cwnd := if old_cwnd =? 1 then u16 (t_mss b * 2) else t_mss b|>));;
    fin ← got_fin_flag;
    (if (fin : bool) then tcp_ack_now pcb;; set_state pcb CLOSE_WAIT else mret ());;
    mret ERR_OK.

Definition process_syn_rcvd (pcb : tloc) : prog stack err_t :=
  i ← ivars;
  b ← lift (tderef pcb);
  if has (i_flags i) TCP_ACK then
    if TCP_SEQ_BETWEEN (i_ackno i) (t_lastack b + 1) (t_snd_nxt b) then process_accept pcb
    else input_rst;; mret ERR_OK
  else if has (i_flags i) TCP_SYN && (i_seqno i =? u32 (t_rcv_nxt b - 1)) then
    tcp_rexmit pcb;; mret ERR_OK
  else mret ERR_OK.

(** [(flags & TCP_ACK) && ackno == pcb->snd_nxt] *)
Definition all_acked (pcb : tloc) : prog stack bool :=
  i ← ivars;
  b ← lift (tderef pcb);
  mret (has (i_flags i) TCP_ACK && (i_ackno i =? t_snd_nxt b)).

Definition process_synchronized (pcb : tloc) (st : tcp_state) : prog stack unit :=
  tcp_receive pcb;;
  fin ← got_fin_flag;
  acked ← all_acked pcb;
  match st with
  | CLOSE_WAIT | ESTABLISHED =>
      if (fin : bool) then tcp_ack_now pcb;; set_state pcb CLOSE_WAIT else mret ()
  | FIN_WAIT_1 =>
      if (fin : bool) then
        tcp_ack_now pcb;;
        if (acked : bool) then enter_timewait pcb else set_state pcb CLOSING
      else if (acked : bool) then set_state pcb FIN_WAIT_2
      else mret ()
  | FIN_WAIT_2 => if (fin : bool) then tcp_ack_now pcb;; enter_timewait pcb else mret ()
  | CLOSING => if (acked : bool) then enter_timewait pcb else mret ()
  | LAST_ACK => if (acked : bool) then add_recv_flags TF_CLOSED else mret ()
  | _ => mret ()
  end.

(** Is a reset for this connection? *)
Definition rst_acceptable (i : tcp_input_vars) (b : tcp_pcb) : bool :=
  if is_state (t_state b) SYN_SENT then i_ackno i =? t_snd_nxt b
  else TCP_SEQ_BETWEEN (i_seqno i) (t_rcv_nxt b) (t_rcv_nxt b + t_rcv_wnd b).

Definition tcp_process (pcb : tloc) : prog stack err_t :=
  i ← ivars;
  b ← lift (tderef pcb);
  if has (i_flags i) TCP_RST then
    if rst_acceptable i b then
      passert (negb (is_state (t_state b) CLOSED));;
      add_recv_flags TF_RESET;;
      lift (tupdate pcb (λ b, b <|t_flags ::= clear TF_ACK_DELAY|>));;
      mret ERR_RST
    else mret ERR_OK
  else if has (i_flags i) TCP_SYN && negb (is_state (t_state b) SYN_SENT)
          && negb (is_state (t_state b) SYN_RCVD) then
    tcp_ack_now pcb;; mret ERR_OK
  else
    v ← lift (pget (S := tcp_vars));
    lift (tupdate pcb (λ b, (if has (t_flags b) TF_RXCLOSED then b else b <|t_tmr := tcp_ticks v|>)
                              <|t_keep_cnt_sent := 0|>));;
    tcp_parseopt pcb;;
    match t_state b with
    | SYN_SENT => process_syn_sent pcb
    | SYN_RCVD => process_syn_rcvd pcb
    | CLOSED | LISTEN | TIME_WAIT => mret ERR_OK
    | st => process_synchronized pcb st;; mret ERR_OK
    end.

(** ** Segments for other blocks *)

Definition tcp_timewait_input (pcb : tloc) : prog stack err_t :=
  i ← ivars;
  b ← lift (tderef pcb);
  if has (i_flags i) TCP_RST then mret ERR_OK
  else if has (i_flags i) TCP_SYN
          && TCP_SEQ_BETWEEN (i_seqno i) (t_rcv_nxt b) (t_rcv_nxt b + t_rcv_wnd b)
  then input_rst;; mret ERR_OK
  else
    v ← lift (pget (S := tcp_vars));
    (if negb (has (i_flags i) TCP_SYN) && has (i_flags i) TCP_FIN
     then lift (tupdate pcb (λ b, b <|t_tmr := tcp_ticks v|>)) else mret ());;
    if 0 <? i_tcplen i then tcp_ack_now pcb;; tcp_output pcb else mret ERR_OK.

(** A SYN for a listening block makes a new block. *)
Definition listen_syn (pcb npcb : tloc) : prog stack err_t :=
  i ← ivars;
  s ← pget;
  lb ← lift (lderef pcb);
  src ← lift (load 2 (i_tcphdr i) TCPH_SRC);
  lift (tupdate npcb (λ b,
    b <|t_local_ip := current_iphdr_dest (st_ip_data s)|>
      <|t_remote_ip := current_iphdr_src (st_ip_data s)|>
      <|t_local_port := l_local_port lb|> <|t_remote_port := src|> <|t_state := SYN_RCVD|>
      <|t_rcv_nxt := u32 (i_seqno i + 1)|> <|t_rcv_ann_right_edge := u32 (i_seqno i + 1)|>
      <|t_snd_wl1 := u32 (i_seqno i - 1)|> <|t_callback_arg := l_callback_arg lb|>
      <|t_accept := l_accept lb|> <|t_so_options := Z.land (l_so_options lb) SOF_INHERITED|>));;
  TCP_REG_ACTIVE npcb;;
  tcp_parseopt npcb;;
  wnd ← lift (load 2 (i_tcphdr i) TCPH_WND);
  b ← lift (tderef npcb);
  mss ← lift (tcp_eff_send_mss (t_mss b) (t_remote_ip b));
  lift (tupdate npcb (λ b, b <|t_snd_wnd := wnd|> <|t_snd_wnd_max := wnd|> <|t_ssthresh := wnd|>
                             <|t_mss := mss|>));;
  rc ← tcp_enqueue_flags npcb (Z.lor TCP_SYN TCP_ACK);
  if bool_decide (rc ≠ ERR_OK) then tcp_abandon npcb false;; mret rc
  else tcp_output npcb.

Definition tcp_listen_input (pcb : tloc) : prog stack err_t :=
  i ← ivars;
  if has (i_flags i) TCP_RST then mret ERR_OK
  else if has (i_flags i) TCP_ACK then input_rst;; mret ERR_OK
  else if has (i_flags i) TCP_SYN then
    lb ← lift (lderef pcb);
    npcb ← tcp_alloc (l_prio lb);
    match npcb with
    | None => mret ERR_MEM
    | Some npcb => listen_syn pcb npcb
    end
  else mret ERR_OK.

(** ** [tcp_input] *)

(** The data of the pbuf after the header and its options; [false] is
    [goto dropped]. *)
Definition input_options (p : loc) (hdrlen : Z) : prog stack bool :=
  let optlen := u16 (hdrlen * 4 - TCP_HLEN) in
  iupdate (λ i, i <|i_tcphdr_opt1len := optlen|> <|i_tcphdr_opt2 := None|>);;
  b ← lift (deref p);
  if p_len b <? hdrlen * 4 then
    if TCP_HLEN <=? p_len b then
      lift (pbuf_header (Some p) (- TCP_HLEN));;
      b ← lift (deref p);
      passert (p_len b <=? optlen);;
      match p_next b with
      | None => pfault Abort
      | Some next =>
          iupdate (λ i, i <|i_tcphdr_opt1len := p_len b|>);;
          (if p_len b <? optlen then
             ok ← lift (pbuf_header (Some p) (- s16 (p_len b)));
             passert ok;;
             opt2 ← lift (payload next);
             iupdate (λ i, i <|i_tcphdr_opt2 := Some opt2|>);;
             let opt2len := s16 (optlen - p_len b) in
             ok ← lift (pbuf_header (Some next) (- opt2len));
             passert ok;;
             lift (update p (λ b, with_tot (u16 (p_tot_len b - opt2len)) b))
           else mret ());;
          b ← lift (deref p);
          passert (p_len b =? 0);;
          mret true
      end
    else mret false
  else lift (pbuf_header (Some p) (- (hdrlen * 4)));; mret true.

(** The header in host byte order, and the variables taken from it. *)
Definition input_convert (p : loc) (tcphdr : ptr) : prog stack unit :=
  src ← lift (load 2 tcphdr TCPH_SRC);
  lift (store 2 tcphdr TCPH_SRC (lwip_ntohs src));;
  dest ← lift (load 2 tcphdr TCPH_DEST);
  lift (store 2 tcphdr TCPH_DEST (lwip_ntohs dest));;
  seqno ← lift (load 4 tcphdr TCPH_SEQNO);
  lift (store 4 tcphdr TCPH_SEQNO (lwip_ntohl seqno));;
  ackno ← lift (load 4 tcphdr TCPH_ACKNO);
  lift (store 4 tcphdr TCPH_ACKNO (lwip_ntohl ackno));;
  wnd ← lift (load 2 tcphdr TCPH_WND);
  lift (store 2 tcphdr TCPH_WND (lwip_ntohs wnd));;
  flags ← lift (TCPH_FLAGS tcphdr);
  b ← lift (deref p);
  iupdate (λ i, i <|i_seqno := lwip_ntohl seqno|> <|i_ackno := lwip_ntohl ackno|>
                  <|i_flags := flags|>
                  <|i_tcplen := u16 (p_tot_len b + (if has flags (Z.lor TCP_FIN TCP_SYN) then 1 else 0))|>).

(** The addresses and ports of the segment: remote address and port, local
    address and port. *)
Definition conn : Type := Z * Z * Z * Z.
Definition conn_of (b : tcp_pcb) : conn :=
  (t_remote_ip b, t_remote_port b, t_local_ip b, t_local_port b).

(** The first block of the connection [c] and the one before it. *)
Fixpoint find_conn (fuel : nat) (tw : bool) (c : conn) (prev pcb : option tloc)
    : prog tcp_vars (option (option tloc * tloc)) :=
  match pcb with
  | None => mret None
  | Some l =>
      match fuel with
      | O => pfault Hang
      | S fuel' =>
          not_listen l;;
          b ← tderef l;
          passert (if tw then is_state (t_state b) TIME_WAIT
                   else negb (is_state (t_state b) CLOSED) && negb (is_state (t_state b) TIME_WAIT));;
          if bool_decide (conn_of b = c) then
            (if tw then mret () else passert (negb (bool_decide (t_next b = Some l))));;
            mret (Some (prev, l))
          else find_conn fuel' tw c (Some l) (t_next b)
      end
  end.

Fixpoint find_listen (fuel : nat) (local_ip local_port : Z) (prev pcb : option tloc)
    : prog tcp_vars (option (option tloc * tloc)) :=
  match pcb with
  | None => mret None
  | Some l =>
      match fuel with
      | O => pfault Hang
      | S fuel' =>
          b ← lderef l;
          if (l_local_port b =? local_port)
             && ((l_local_ip b =? local_ip) || ip_addr_isany (l_local_ip b))
          then mret (Some (prev, l))
          else find_listen fuel' local_ip local_port (Some l) (l_next b)
      end
  end.

(** The block that was found becomes the first of its list. *)
Definition move_to_front (pcbs : pcb_list) (prev : option tloc) (pcb : tloc) : prog tcp_vars unit :=
  match prev with
  | None => mret ()
  | Some q =>
      n ← next_of pcb;
      set_next_of q n;;
      v ← pget;
      set_next_of pcb (head_of pcbs v);;
      pmodify (set_head_of pcbs (Some pcb))
  end.

(** The connection is over; the application is told with [err]. *)
Definition input_dead (pcb : tloc) (err : option err_t) : prog stack unit :=
  b ← lift (tderef pcb);
  (match err with
   | Some err => TCP_EVENT_ERR (t_errf b) (t_callback_arg b) err
   | None => mret ()
   end);;
  tcp_pcb_remove ACTIVE_PCBS pcb;;
  lift (tcp_free pcb).

(** The data that was received is offered to the application; [true] is
    [goto aborted]. *)
Definition input_data (pcb : tloc) : prog stack bool :=
  i ← ivars;
  match i_recv_data i with
  | None => mret false
  | Some recv_data =>
      b ← lift (tderef pcb);
      passert (bool_decide (t_refused_data b = None));;
      if has (t_flags b) TF_RXCLOSED then
        pfree recv_data;; tcp_abort pcb;; mret true
      else
        err ← TCP_EVENT_RECV custom_free mem_avail garbage output ip_frag seg_avail
                tcp_timer_needed call_app pcb (Some recv_data) ERR_OK;
        if bool_decide (err = ERR_ABRT) then mret true
        else
          (if bool_decide (err ≠ ERR_OK)
           then lift (tupdate pcb (λ b, b <|t_refused_data := Some recv_data|>)) else mret ());;
          mret false
  end.

Definition input_fin (pcb : tloc) : prog stack bool :=
  fin ← got_fin_flag;
  if (fin : bool) then
    b ← lift (tderef pcb);
    match t_refused_data b with
    | Some r => lift (update r (λ pb, with_flags (Z.lor (p_flags pb) PBUF_FLAG_TCP_FIN) pb));; mret false
    | None =>
        err ← got_fin custom_free mem_avail garbage output ip_frag seg_avail
                tcp_timer_needed call_app pcb;
        mret (bool_decide (err = ERR_ABRT))
    end
  else mret false.

Definition input_events (pcb : tloc) : prog stack unit :=
  b ← lift (tderef pcb);
  aborted ← (if 0 <? t_acked b then err ← TCP_EVENT_SENT pcb (t_acked b);
                                    mret (bool_decide (err = ERR_ABRT))
             else mret false);
  if (aborted : bool) then mret ()
  else
    aborted ← input_data pcb;
    if (aborted : bool) then mret ()
    else
      aborted ← input_fin pcb;
      if (aborted : bool) then mret ()
      else
        lift (pmodify (λ v : tcp_vars, v <|tcp_input_pcb := None|>));;
        tcp_output pcb;;
        mret ().

(** [tcp_process] and what follows from its result. *)
Definition input_process (pcb : tloc) : prog stack unit :=
  lift (pmodify (λ v : tcp_vars, v <|tcp_input_pcb := Some pcb|>));;
  err ← tcp_process pcb;
  if bool_decide (err = ERR_ABRT) then mret ()
  else
    i ← ivars;
    if has (i_recv_flags i) TF_RESET then input_dead pcb (Some ERR_RST)
    else if has (i_recv_flags i) TF_CLOSED then
      b ← lift (tderef pcb);
      input_dead pcb (if has (t_flags b) TF_RXCLOSED then None else Some ERR_CLSD)
    else input_events pcb.

(** Data refused before is offered again; [true] is [goto aborted]. *)
Definition input_refused (pcb : tloc) : prog stack bool :=
  b ← lift (tderef pcb);
  match t_refused_data b with
  | None => mret false
  | Some _ =>
      err ← tcp_process_refused_data custom_free mem_avail garbage output ip_frag seg_avail
              tcp_timer_needed call_app pcb;
      if bool_decide (err = ERR_ABRT) then mret true
      else
        b ← lift (tderef pcb);
        i ← ivars;
        mret (bool_decide (t_refused_data b ≠ None) && (0 <? i_tcplen i))
  end.

(** The segment belongs to a connection. *)
Definition input_active (p : loc) (pcb : tloc) : prog stack unit :=
  pb ← lift (deref p);
  i ← ivars;
  iupdate (λ i, i <|i_inseg ::= λ g, g <|s_len := p_tot_len pb|> <|s_p := Some p|>
                                       <|s_tcphdr := i_tcphdr i|>|>
                  <|i_recv_data := None|> <|i_recv_flags := 0|>);;
  (if has (i_flags i) TCP_PSH
   then lift (update p (λ pb, with_flags (Z.lor (p_flags pb) PBUF_FLAG_PUSH) pb)) else mret ());;
  aborted ← input_refused pcb;
  (if (aborted : bool) then mret () else input_process pcb);;
  lift (pmodify (λ v : tcp_vars, v <|tcp_input_pcb := None|>));;
  iupdate (λ i, i <|i_recv_data := None|>);;
  i ← ivars;
  match s_p (i_inseg i) with
  | Some q => pfree q;; iupdate (λ i, i <|i_inseg ::= λ g, g <|s_p := None|>|>)
  | None => mret ()
  end.

(** Which block is the segment for? *)
Definition input_demux (p : loc) (c : conn) : prog stack unit :=
  let '(_, _, local_ip, local_port) := c in
  v ← lift (pget (S := tcp_vars));
  r ← lift (find_conn (list_fuel v) false c None (tcp_active_pcbs v));
  match r with
  | Some (prev, pcb) =>
      lift (move_to_front ACTIVE_PCBS prev pcb);;
      b ← lift (tderef pcb);
      passert (negb (bool_decide (t_next b = Some pcb)));;
      input_active p pcb
  | None =>
      r ← lift (find_conn (list_fuel v) true c None (tcp_tw_pcbs v));
      match r with
      | Some (_, pcb) => tcp_timewait_input pcb;; pfree p
      | None =>
          r ← lift (find_listen (list_fuel v) local_ip local_port None (tcp_listen_pcbs v));
          match r with
          | Some (prev, lpcb) =>
              lift (move_to_front LISTEN_PCBS prev lpcb);;
              tcp_listen_input lpcb;;
              pfree p
          | None =>
              i ← ivars;
              f ← lift (TCPH_FLAGS (i_tcphdr i));
              (if has f TCP_RST then mret () else input_rst);;
              pfree p
          end
      end
  end.

(** The checks before anything is done with the segment. *)
Definition input_ok (p : loc) (inp : netif_loc) : prog stack bool :=
  b ← lift (deref p);
  if p_len b <? SIZEOF_TCP_HDR then mret false
  else
    s ← pget;
    n ← lift (nderef inp);
    let dest := current_iphdr_dest (st_ip_data s) in
    if ip4_addr_isbroadcast dest n || ip_addr_ismulticast dest then mret false
    else
      c ← lift (chain_of p);
      mret (inet_chksum_pseudo c IP_PROTO_TCP (p_tot_len b) (current_iphdr_src (st_ip_data s)) dest =? 0).

Definition tcp_input (p : loc) (inp : netif_loc) : prog stack unit :=
  tcphdr ← lift (payload p);
  iupdate (λ i, i <|i_tcphdr := tcphdr|>);;
  ok ← input_ok p inp;
  if negb ok then pfree p
  else
    hdrlen ← lift (TCPH_HDRLEN tcphdr);
    ok ← input_options p hdrlen;
    if negb ok then pfree p
    else
      input_convert p tcphdr;;
      s ← pget;
      src ← lift (load 2 tcphdr TCPH_SRC);
      dest ← lift (load 2 tcphdr TCPH_DEST);
      input_demux p (current_iphdr_src (st_ip_data s), src, current_iphdr_dest (st_ip_data s), dest).

End tcp_in.
End TcpIn.
