(* ===== verification/TcpKeeps.v ===== *)
(** * What TCP changes

    As [StackKeeps] for the functions of TCP: a relation that is closed under
    changes of the state of the IP layers and of TCP, and that the output
    function and the callbacks keep, is kept by all of them.  The functions
    that an application calls run no callback, except that [tcp_new] may abort
    a connection and then calls its error callback. *)

From S2P Require Import Prelude RecordSet Def Ip4Addr InetChksum Netif Udp Pbuf Stack Ip4 Icmp.
From S2P Require Import StackKeeps Tcp TcpOut TcpCore TcpIn.

Module TcpKeeps.
Import RecordSet Def Ip4Addr InetChksum Netif Udp Pbuf Stack Ip4 Icmp StackKeeps.
Import Tcp TcpOut TcpCore TcpIn.

Section tcp.
Context {CF F A X : Type} `{HL : Lens X tcp_vars}.
Abbreviation stack := (stack CF F A X).
Context (R : relation stack) `{!Closed R} (R_tcp : closed_in tcp_vars R).
Context (custom_free : CF → loc → prog (heap CF) unit).
Context (mem_avail : heap CF → Z → bool) (garbage : heap CF → nat → Z).
Context (output ip_frag : netif_loc → loc → Z → prog stack err_t).
Context (R_output : ∀ n p d, keeps R (output n p d)) (R_frag : ∀ n p d, keeps R (ip_frag n p d)).
Context (seg_avail pcb_avail : stack → bool).
Context (tcp_timer_needed : prog stack unit) (R_timer : keeps R tcp_timer_needed).
#[local] Hint Resolve R_output R_frag R_tcp R_timer closed_ip_output closed_pfree : keeps.

(** ** Functions that run no callback *)

Lemma closed_tcp_seg_free seg : keeps R (tcp_seg_free custom_free seg).
Proof. unfold tcp_seg_free. keeps. Qed.
#[local] Hint Resolve closed_tcp_seg_free : keeps.
Lemma closed_tcp_segs_free segs : keeps R (tcp_segs_free custom_free segs).
Proof. induction segs; intros; cbn [tcp_segs_free]; keeps. Qed.
Lemma closed_tcp_output_alloc_header pcb optlen datalen seqno_be :
  keeps R (tcp_output_alloc_header custom_free mem_avail garbage pcb optlen datalen seqno_be).
Proof. unfold tcp_output_alloc_header. keeps. Qed.
Lemma closed_tcp_create_segment pcb p flags seqno optflags :
  keeps R (tcp_create_segment custom_free seg_avail pcb p flags seqno optflags).
Proof. unfold tcp_create_segment. keeps. Qed.
Lemma closed_tcp_pbuf_prealloc layer length max_length pcb apiflags first_seg :
  keeps R (tcp_pbuf_prealloc custom_free mem_avail garbage layer length max_length pcb apiflags
    first_seg).
Proof. unfold tcp_pbuf_prealloc. keeps. Qed.
Lemma closed_tcp_write_checks pcb len : keeps R (tcp_write_checks pcb len).
Proof. unfold tcp_write_checks. keeps. Qed.
Lemma closed_alloc_rom layer d : keeps R (alloc_rom custom_free mem_avail garbage layer d).
Proof. unfold alloc_rom. keeps. Qed.
#[local] Hint Resolve closed_tcp_segs_free closed_tcp_output_alloc_header
  closed_tcp_create_segment closed_tcp_pbuf_prealloc closed_tcp_write_checks closed_alloc_rom : keeps.
Lemma closed_write_tail pcb arg len mss_local queuelen apiflags :
  keeps R (write_tail custom_free mem_avail garbage pcb arg len mss_local queuelen apiflags).
Proof. unfold write_tail. keeps. Qed.
Lemma closed_write_pbuf pcb d mss_local oversize apiflags first :
  keeps R (write_pbuf custom_free mem_avail garbage pcb d mss_local oversize apiflags first).
Proof. unfold write_pbuf. keeps. Qed.
#[local] Hint Resolve closed_write_tail closed_write_pbuf : keeps.
Lemma closed_write_loop fuel pcb arg len mss_local apiflags w :
  keeps R (write_loop custom_free mem_avail garbage seg_avail fuel pcb arg len mss_local apiflags
    w).
Proof.
  revert pcb arg len mss_local apiflags w. induction fuel; intros; cbn [write_loop]; keeps.
Qed.
Lemma closed_write_memerr pcb w : keeps R (write_memerr custom_free pcb w).
Proof. unfold write_memerr. keeps. Qed.
Lemma closed_write_extend seg arg w : keeps R (write_extend seg arg w).
Proof. unfold write_extend. keeps. Qed.
#[local] Hint Resolve closed_write_loop closed_write_memerr closed_write_extend : keeps.
Lemma closed_write_commit pcb arg len apiflags w : keeps R (write_commit pcb arg len apiflags w).
Proof. unfold write_commit. keeps. Qed.
#[local] Hint Resolve closed_write_commit : keeps.
Lemma closed_tcp_write pcb arg len apiflags :
  keeps R (tcp_write custom_free mem_avail garbage seg_avail pcb arg len apiflags).
Proof. unfold tcp_write. keeps. Qed.
Lemma closed_tcp_enqueue_flags pcb flags :
  keeps R (tcp_enqueue_flags custom_free mem_avail garbage seg_avail pcb flags).
Proof. unfold tcp_enqueue_flags. keeps. Qed.
#[local] Hint Resolve closed_tcp_write closed_tcp_enqueue_flags : keeps.
Lemma closed_tcp_send_fin pcb : keeps R (tcp_send_fin custom_free mem_avail garbage seg_avail pcb).
Proof. unfold tcp_send_fin. keeps. Qed.
Lemma closed_tcp_send_empty_ack pcb :
  keeps R (tcp_send_empty_ack custom_free mem_avail garbage output ip_frag pcb).
Proof. unfold tcp_send_empty_ack. keeps. Qed.
Lemma closed_output_local_ip pcb : keeps R (output_local_ip pcb).
Proof. unfold output_local_ip. keeps. Qed.
#[local] Hint Resolve closed_tcp_send_fin closed_tcp_send_empty_ack closed_output_local_ip : keeps.
Lemma closed_tcp_output_segment seg pcb : keeps R (tcp_output_segment output ip_frag seg pcb).
Proof. unfold tcp_output_segment. keeps. Qed.
#[local] Hint Resolve closed_tcp_output_segment : keeps.
Lemma closed_output_loop fuel pcb wnd :
  keeps R (output_loop custom_free output ip_frag fuel pcb wnd).
Proof. revert pcb wnd. induction fuel; intros; cbn [output_loop]; keeps. Qed.
#[local] Hint Resolve closed_output_loop : keeps.
Lemma closed_tcp_output pcb : keeps R (tcp_output custom_free mem_avail garbage output ip_frag pcb).
Proof. unfold tcp_output. keeps. Qed.
Lemma closed_tcp_rst seqno ackno local_ip remote_ip local_port remote_port :
  keeps R (tcp_rst custom_free mem_avail garbage output ip_frag seqno ackno local_ip remote_ip
    local_port remote_port).
Proof. unfold tcp_rst. keeps. Qed.
#[local] Hint Resolve closed_tcp_output closed_tcp_rst : keeps.
Lemma closed_tcp_rexmit_rto pcb :
  keeps R (tcp_rexmit_rto custom_free mem_avail garbage output ip_frag pcb).
Proof. unfold tcp_rexmit_rto. keeps. Qed.
Lemma closed_tcp_rexmit pcb : keeps R (tcp_rexmit pcb).
Proof. unfold tcp_rexmit. keeps. Qed.
#[local] Hint Resolve closed_tcp_rexmit_rto closed_tcp_rexmit : keeps.
Lemma closed_tcp_rexmit_fast pcb : keeps R (tcp_rexmit_fast pcb).
Proof. unfold tcp_rexmit_fast. keeps. Qed.
Lemma closed_tcp_keepalive pcb :
  keeps R (tcp_keepalive custom_free mem_avail garbage output ip_frag pcb).
Proof. unfold tcp_keepalive. keeps. Qed.
Lemma closed_tcp_zero_window_probe pcb :
  keeps R (tcp_zero_window_probe custom_free mem_avail garbage output ip_frag pcb).
Proof. unfold tcp_zero_window_probe. keeps. Qed.
Lemma closed_TCP_REG pcbs npcb : keeps R (TCP_REG tcp_timer_needed pcbs npcb).
Proof. unfold TCP_REG. keeps. Qed.
Lemma closed_set_changed c : keeps R (set_changed c).
Proof. unfold set_changed. keeps. Qed.
#[local] Hint Resolve closed_tcp_rexmit_fast closed_tcp_keepalive closed_tcp_zero_window_probe
  closed_TCP_REG closed_set_changed : keeps.
Lemma closed_TCP_REG_ACTIVE npcb : keeps R (TCP_REG_ACTIVE tcp_timer_needed npcb).
Proof. unfold TCP_REG_ACTIVE. keeps. Qed.
Lemma closed_TCP_RMV_ACTIVE npcb : keeps R (TCP_RMV_ACTIVE npcb).
Proof. unfold TCP_RMV_ACTIVE. keeps. Qed.
Lemma closed_tcp_ack_now pcb : keeps R (tcp_ack_now pcb).
Proof. unfold tcp_ack_now. keeps. Qed.
Lemma closed_tcp_ack pcb : keeps R (tcp_ack pcb).
Proof. unfold tcp_ack. keeps. Qed.
Lemma closed_tcp_pcb_purge pcb : keeps R (tcp_pcb_purge custom_free pcb).
Proof. unfold tcp_pcb_purge. keeps. Qed.
#[local] Hint Resolve closed_TCP_REG_ACTIVE closed_TCP_RMV_ACTIVE closed_tcp_ack_now
  closed_tcp_ack closed_tcp_pcb_purge : keeps.
Lemma closed_tcp_pcb_remove pcblist pcb :
  keeps R (tcp_pcb_remove custom_free mem_avail garbage output ip_frag pcblist pcb).
Proof. unfold tcp_pcb_remove. keeps. Qed.
#[local] Hint Resolve closed_tcp_pcb_remove : keeps.
Lemma closed_TCP_PCB_REMOVE_ACTIVE pcb :
  keeps R (TCP_PCB_REMOVE_ACTIVE custom_free mem_avail garbage output ip_frag pcb).
Proof. unfold TCP_PCB_REMOVE_ACTIVE. keeps. Qed.
Lemma closed_set_state pcb st : keeps R (set_state pcb st).
Proof. unfold set_state. keeps. Qed.
#[local] Hint Resolve closed_TCP_PCB_REMOVE_ACTIVE closed_set_state : keeps.
Lemma closed_close_with_fin pcb st :
  keeps R (close_with_fin custom_free mem_avail garbage output ip_frag seg_avail pcb st).
Proof. unfold close_with_fin. keeps. Qed.
Lemma closed_close_with_rst pcb b :
  keeps R (close_with_rst custom_free mem_avail garbage output ip_frag tcp_timer_needed pcb b).
Proof. unfold close_with_rst. keeps. Qed.
#[local] Hint Resolve closed_close_with_fin closed_close_with_rst : keeps.
Lemma closed_tcp_close_shutdown pcb rst_on_unacked_data :
  keeps R (tcp_close_shutdown custom_free mem_avail garbage output ip_frag seg_avail
    tcp_timer_needed pcb rst_on_unacked_data).
Proof. unfold tcp_close_shutdown. keeps. Qed.
#[local] Hint Resolve closed_tcp_close_shutdown : keeps.
Lemma closed_tcp_close pcb :
  keeps R (tcp_close custom_free mem_avail garbage output ip_frag seg_avail tcp_timer_needed pcb).
Proof. unfold tcp_close. keeps. Qed.
Lemma closed_tcp_shutdown pcb shut_rx shut_tx :
  keeps R (tcp_shutdown custom_free mem_avail garbage output ip_frag seg_avail tcp_timer_needed
    pcb shut_rx shut_tx).
Proof. unfold tcp_shutdown. keeps. Qed.
Lemma closed_tcp_bind pcb ipaddr port : keeps R (tcp_bind tcp_timer_needed pcb ipaddr port).
Proof. unfold tcp_bind. keeps. Qed.
Lemma closed_tcp_listen_with_backlog listen_avail pcb :
  keeps R (tcp_listen_with_backlog listen_avail tcp_timer_needed pcb).
Proof. unfold tcp_listen_with_backlog. keeps. Qed.
Lemma closed_tcp_connect pcb ipaddr port connected :
  keeps R (tcp_connect custom_free mem_avail garbage output ip_frag seg_avail tcp_timer_needed
    pcb ipaddr port connected).
Proof. unfold tcp_connect. keeps. Qed.
Lemma closed_tcp_recved pcb len :
  keeps R (tcp_recved custom_free mem_avail garbage output ip_frag pcb len).
Proof. unfold tcp_recved. keeps. Qed.
#[local] Hint Resolve closed_tcp_close closed_tcp_shutdown closed_tcp_bind
  closed_tcp_listen_with_backlog closed_tcp_connect closed_tcp_recved : keeps.
Lemma closed_tcp_recv_null pcb p err :
  keeps R (tcp_recv_null custom_free mem_avail garbage output ip_frag seg_avail tcp_timer_needed
    pcb p err).
Proof. unfold tcp_recv_null. keeps. Qed.
Lemma closed_slow_rexmit pcb :
  keeps R (slow_rexmit custom_free mem_avail garbage output ip_frag pcb).
Proof. unfold slow_rexmit. keeps. Qed.
Lemma closed_slow_persist pcb :
  keeps R (slow_persist custom_free mem_avail garbage output ip_frag pcb).
Proof. unfold slow_persist. keeps. Qed.
#[local] Hint Resolve closed_tcp_recv_null closed_slow_rexmit closed_slow_persist : keeps.
Lemma closed_slow_send pcb : keeps R (slow_send custom_free mem_avail garbage output ip_frag pcb).
Proof. unfold slow_send. keeps. Qed.
Lemma closed_slow_keepalive pcb :
  keeps R (slow_keepalive custom_free mem_avail garbage output ip_frag pcb).
Proof. unfold slow_keepalive. keeps. Qed.
Lemma closed_slow_ooseq pcb : keeps R (slow_ooseq custom_free pcb).
Proof. unfold slow_ooseq. keeps. Qed.
#[local] Hint Resolve closed_slow_send closed_slow_keepalive closed_slow_ooseq : keeps.
Lemma closed_slow_checks pcb :
  keeps R (slow_checks custom_free mem_avail garbage output ip_frag pcb).
Proof. unfold slow_checks. keeps. Qed.
Lemma closed_changed : keeps R changed.
Proof. unfold changed. keeps. Qed.
Lemma closed_tw_loop fuel prev pcb : keeps R (tw_loop custom_free fuel prev pcb).
Proof. revert prev pcb. induction fuel; intros; cbn [tw_loop]; keeps. Qed.
Lemma closed_tcp_seg_copy seg : keeps R (tcp_seg_copy seg_avail seg).
Proof. unfold tcp_seg_copy. keeps. Qed.
Lemma closed_ivars : keeps R ivars.
Proof. unfold ivars. keeps. Qed.
Lemma closed_iupdate f : keeps R (iupdate f).
Proof. unfold iupdate. keeps. Qed.
#[local] Hint Resolve closed_slow_checks closed_changed closed_tw_loop closed_tcp_seg_copy
  closed_ivars closed_iupdate : keeps.
Lemma closed_set_tcplen g : keeps R (set_tcplen g).
Proof. unfold set_tcplen. keeps. Qed.
Lemma closed_input_rst : keeps R (input_rst custom_free mem_avail garbage output ip_frag).
Proof. unfold input_rst. keeps. Qed.
Lemma closed_tcp_getoptbyte : keeps R tcp_getoptbyte.
Proof. unfold tcp_getoptbyte. keeps. Qed.
#[local] Hint Resolve closed_set_tcplen closed_input_rst closed_tcp_getoptbyte : keeps.
Lemma closed_parseopt_loop fuel max_c pcb : keeps R (parseopt_loop fuel max_c pcb).
Proof. revert max_c pcb. induction fuel; intros; cbn [parseopt_loop]; keeps. Qed.
#[local] Hint Resolve closed_parseopt_loop : keeps.
Lemma closed_tcp_parseopt pcb : keeps R (tcp_parseopt pcb).
Proof. unfold tcp_parseopt. keeps. Qed.
Lemma closed_old_ack pcb ackno tcplen right_wnd_edge :
  keeps R (old_ack pcb ackno tcplen right_wnd_edge).
Proof. unfold old_ack. keeps. Qed.
Lemma closed_free_acked pcb next : keeps R (free_acked custom_free pcb next).
Proof. unfold free_acked. keeps. Qed.
#[local] Hint Resolve closed_tcp_parseopt closed_old_ack closed_free_acked : keeps.
Lemma closed_unacked_loop pcb ackno unacked : keeps R (unacked_loop custom_free pcb ackno unacked).
Proof. revert pcb ackno. induction unacked; intros; cbn [unacked_loop]; keeps. Qed.
Lemma closed_unsent_loop pcb ackno snd_nxt unsent :
  keeps R (unsent_loop custom_free pcb ackno snd_nxt unsent).
Proof. revert pcb ackno snd_nxt. induction unsent; intros; cbn [unsent_loop]; keeps. Qed.
Lemma closed_grow_cwnd pcb : keeps R (grow_cwnd pcb).
Proof. unfold grow_cwnd. keeps. Qed.
#[local] Hint Resolve closed_unacked_loop closed_unsent_loop closed_grow_cwnd : keeps.
Lemma closed_new_ack pcb ackno : keeps R (new_ack custom_free pcb ackno).
Proof. unfold new_ack. keeps. Qed.
#[local] Hint Resolve closed_new_ack : keeps.
Lemma closed_receive_ack pcb :
  keeps R (receive_ack custom_free mem_avail garbage output ip_frag pcb).
Proof. unfold receive_ack. keeps. Qed.
Lemma closed_trim_first rcv_nxt : keeps R (trim_first rcv_nxt).
Proof. unfold trim_first. keeps. Qed.
Lemma closed_trim_last len : keeps R (trim_last custom_free len).
Proof. unfold trim_last. keeps. Qed.
#[local] Hint Resolve closed_receive_ack closed_trim_first closed_trim_last : keeps.
Lemma closed_trim_to_window pcb : keeps R (trim_to_window custom_free pcb).
Proof. unfold trim_to_window. keeps. Qed.
Lemma closed_covered_loop ooseq : keeps R (covered_loop custom_free ooseq).
Proof. induction ooseq; intros; cbn [covered_loop]; keeps. Qed.
#[local] Hint Resolve closed_trim_to_window closed_covered_loop : keeps.
Lemma closed_adjust_ooseq pcb : keeps R (adjust_ooseq custom_free pcb).
Proof. unfold adjust_ooseq. keeps. Qed.
Lemma closed_advance pcb seqno len : keeps R (advance pcb seqno len).
Proof. unfold advance. keeps. Qed.
Lemma closed_add_recv_flags f : keeps R (add_recv_flags f).
Proof. unfold add_recv_flags. keeps. Qed.
#[local] Hint Resolve closed_adjust_ooseq closed_advance closed_add_recv_flags : keeps.
Lemma closed_dequeue_loop pcb ooseq : keeps R (dequeue_loop custom_free pcb ooseq).
Proof. revert pcb. induction ooseq; intros; cbn [dequeue_loop]; keeps. Qed.
#[local] Hint Resolve closed_dequeue_loop : keeps.
Lemma closed_receive_in_order pcb : keeps R (receive_in_order custom_free pcb).
Proof. unfold receive_in_order. keeps. Qed.
Lemma closed_oos_covered seqno cseg next : keeps R (oos_covered custom_free seqno cseg next).
Proof. revert seqno cseg. induction next; intros; cbn [oos_covered]; keeps. Qed.
#[local] Hint Resolve closed_receive_in_order closed_oos_covered : keeps.
Lemma closed_tcp_oos_insert_segment cseg next :
  keeps R (tcp_oos_insert_segment custom_free cseg next).
Proof. unfold tcp_oos_insert_segment. keeps. Qed.
Lemma closed_oos_last rcv_nxt rcv_wnd cseg : keeps R (oos_last custom_free rcv_nxt rcv_wnd cseg).
Proof. unfold oos_last. keeps. Qed.
#[local] Hint Resolve closed_tcp_oos_insert_segment closed_oos_last : keeps.
Lemma closed_oos_loop rcv_nxt rcv_wnd before prev l :
  keeps R (oos_loop custom_free seg_avail rcv_nxt rcv_wnd before prev l).
Proof. revert rcv_nxt rcv_wnd before prev. induction l; intros; cbn [oos_loop]; keeps. Qed.
#[local] Hint Resolve closed_oos_loop : keeps.
Lemma closed_receive_out_of_order pcb :
  keeps R (receive_out_of_order custom_free mem_avail garbage output ip_frag seg_avail pcb).
Proof. unfold receive_out_of_order. keeps. Qed.
#[local] Hint Resolve closed_receive_out_of_order : keeps.
Lemma closed_receive_data pcb :
  keeps R (receive_data custom_free mem_avail garbage output ip_frag seg_avail pcb).
Proof. unfold receive_data. keeps. Qed.
#[local] Hint Resolve closed_receive_data : keeps.
Lemma closed_tcp_receive pcb :
  keeps R (tcp_receive custom_free mem_avail garbage output ip_frag seg_avail pcb).
Proof. unfold tcp_receive. keeps. Qed.
Lemma closed_got_fin_flag : keeps R got_fin_flag.
Proof. unfold got_fin_flag. keeps. Qed.
Lemma closed_enter_timewait pcb : keeps R (enter_timewait custom_free tcp_timer_needed pcb).
Proof. unfold enter_timewait. keeps. Qed.
Lemma closed_syn_acked pcb rseg rest : keeps R (syn_acked custom_free pcb rseg rest).
Proof. unfold syn_acked. keeps. Qed.
Lemma closed_all_acked pcb : keeps R (all_acked pcb).
Proof. unfold all_acked. keeps. Qed.
#[local] Hint Resolve closed_tcp_receive closed_got_fin_flag closed_enter_timewait
  closed_syn_acked closed_all_acked : keeps.
Lemma closed_process_synchronized pcb st :
  keeps R (process_synchronized custom_free mem_avail garbage output ip_frag seg_avail
    tcp_timer_needed pcb st).
Proof. unfold process_synchronized. keeps. Qed.
Lemma closed_tcp_timewait_input pcb :
  keeps R (tcp_timewait_input custom_free mem_avail garbage output ip_frag pcb).
Proof. unfold tcp_timewait_input. keeps. Qed.
Lemma closed_input_options p hdrlen : keeps R (input_options p hdrlen).
Proof. unfold input_options. keeps. Qed.
Lemma closed_input_convert p tcphdr : keeps R (input_convert p tcphdr).
Proof. unfold input_convert. keeps. Qed.
Lemma closed_input_ok p inp : keeps R (input_ok p inp).
Proof. unfold input_ok. keeps. Qed.
#[local] Hint Resolve closed_process_synchronized closed_tcp_timewait_input closed_input_options
  closed_input_convert closed_input_ok : keeps.

(** ** Functions that may abort a connection *)

Context (call_app : app_call → prog stack err_t).
Section err.
Context (R_err : ∀ k arg err, keeps R (call_app (CallErr k arg err))).
#[local] Hint Resolve R_err : keeps.

Lemma closed_TCP_EVENT_ERR errf arg err : keeps R (TCP_EVENT_ERR call_app errf arg err).
Proof. unfold TCP_EVENT_ERR. keeps. Qed.
#[local] Hint Resolve closed_TCP_EVENT_ERR : keeps.
Lemma closed_tcp_abandon pcb reset :
  keeps R (tcp_abandon custom_free mem_avail garbage output ip_frag call_app pcb reset).
Proof. unfold tcp_abandon. keeps. Qed.
#[local] Hint Resolve closed_tcp_abandon : keeps.
Lemma closed_tcp_abort pcb :
  keeps R (tcp_abort custom_free mem_avail garbage output ip_frag call_app pcb).
Proof. unfold tcp_abort. keeps. Qed.
#[local] Hint Resolve closed_tcp_abort : keeps.
Lemma closed_kill_oldest pcbs ok :
  keeps R (kill_oldest custom_free mem_avail garbage output ip_frag call_app pcbs ok).
Proof. unfold kill_oldest. keeps. Qed.
#[local] Hint Resolve closed_kill_oldest : keeps.
Lemma closed_tcp_kill_prio prio :
  keeps R (tcp_kill_prio custom_free mem_avail garbage output ip_frag call_app prio).
Proof. unfold tcp_kill_prio. keeps. Qed.
Lemma closed_tcp_kill_timewait :
  keeps R (tcp_kill_timewait custom_free mem_avail garbage output ip_frag call_app).
Proof. unfold tcp_kill_timewait. keeps. Qed.
#[local] Hint Resolve closed_tcp_kill_prio closed_tcp_kill_timewait : keeps.
Lemma closed_tcp_alloc prio :
  keeps R (tcp_alloc custom_free mem_avail garbage output ip_frag pcb_avail call_app prio).
Proof. unfold tcp_alloc. keeps. Qed.
#[local] Hint Resolve closed_tcp_alloc : keeps.
Lemma closed_tcp_new :
  keeps R (tcp_new custom_free mem_avail garbage output ip_frag pcb_avail call_app).
Proof. unfold tcp_new. keeps. Qed.
#[local] Hint Resolve closed_tcp_new : keeps.
End err.

(** ** Functions that run any callback *)

Context (R_app : ∀ c, keeps R (call_app c)).
#[local] Hint Resolve R_app : keeps.
#[local] Hint Resolve closed_TCP_EVENT_ERR closed_tcp_abandon closed_tcp_abort closed_kill_oldest closed_tcp_kill_prio closed_tcp_kill_timewait closed_tcp_alloc closed_tcp_new : keeps.

Lemma closed_call_recv f pcb p err :
  keeps R (call_recv custom_free mem_avail garbage output ip_frag seg_avail tcp_timer_needed
    call_app f pcb p err).
Proof. unfold call_recv. keeps. Qed.
#[local] Hint Resolve closed_call_recv : keeps.
Lemma closed_TCP_EVENT_RECV pcb p err :
  keeps R (TCP_EVENT_RECV custom_free mem_avail garbage output ip_frag seg_avail tcp_timer_needed
    call_app pcb p err).
Proof. unfold TCP_EVENT_RECV. keeps. Qed.
Lemma closed_TCP_EVENT_CLOSED pcb :
  keeps R (TCP_EVENT_CLOSED custom_free mem_avail garbage output ip_frag seg_avail
    tcp_timer_needed call_app pcb).
Proof. unfold TCP_EVENT_CLOSED. keeps. Qed.
Lemma closed_TCP_EVENT_SENT pcb space : keeps R (TCP_EVENT_SENT call_app pcb space).
Proof. unfold TCP_EVENT_SENT. keeps. Qed.
Lemma closed_TCP_EVENT_CONNECTED pcb err : keeps R (TCP_EVENT_CONNECTED call_app pcb err).
Proof. unfold TCP_EVENT_CONNECTED. keeps. Qed.
Lemma closed_TCP_EVENT_POLL pcb : keeps R (TCP_EVENT_POLL call_app pcb).
Proof. unfold TCP_EVENT_POLL. keeps. Qed.
Lemma closed_TCP_EVENT_ACCEPT pcb err : keeps R (TCP_EVENT_ACCEPT call_app pcb err).
Proof. unfold TCP_EVENT_ACCEPT. keeps. Qed.
#[local] Hint Resolve closed_TCP_EVENT_RECV closed_TCP_EVENT_CLOSED closed_TCP_EVENT_SENT
  closed_TCP_EVENT_CONNECTED closed_TCP_EVENT_POLL closed_TCP_EVENT_ACCEPT : keeps.
Lemma closed_got_fin pcb :
  keeps R (got_fin custom_free mem_avail garbage output ip_frag seg_avail tcp_timer_needed
    call_app pcb).
Proof. unfold got_fin. keeps. Qed.
#[local] Hint Resolve closed_got_fin : keeps.
Lemma closed_tcp_process_refused_data pcb :
  keeps R (tcp_process_refused_data custom_free mem_avail garbage output ip_frag seg_avail
    tcp_timer_needed call_app pcb).
Proof. unfold tcp_process_refused_data. keeps. Qed.
Lemma closed_slow_remove prev pcb reset :
  keeps R (slow_remove custom_free mem_avail garbage output ip_frag call_app prev pcb reset).
Proof. unfold slow_remove. keeps. Qed.
Lemma closed_slow_poll pcb :
  keeps R (slow_poll custom_free mem_avail garbage output ip_frag call_app pcb).
Proof. unfold slow_poll. keeps. Qed.
#[local] Hint Resolve closed_tcp_process_refused_data closed_slow_remove closed_slow_poll : keeps.
Lemma closed_slow_loop fuel prev pcb :
  keeps R (slow_loop custom_free mem_avail garbage output ip_frag call_app fuel prev pcb).
Proof. revert prev pcb. induction fuel; intros; cbn [slow_loop]; keeps. Qed.
#[local] Hint Resolve closed_slow_loop : keeps.
Lemma closed_tcp_slowtmr fuel :
  keeps R (tcp_slowtmr custom_free mem_avail garbage output ip_frag call_app fuel).
Proof. unfold tcp_slowtmr. keeps. Qed.
Lemma closed_fast_loop fuel pcb :
  keeps R (fast_loop custom_free mem_avail garbage output ip_frag seg_avail tcp_timer_needed
    call_app fuel pcb).
Proof. revert pcb. induction fuel; intros; cbn [fast_loop]; keeps. Qed.
#[local] Hint Resolve closed_tcp_slowtmr closed_fast_loop : keeps.
Lemma closed_tcp_fasttmr fuel :
  keeps R (tcp_fasttmr custom_free mem_avail garbage output ip_frag seg_avail tcp_timer_needed
    call_app fuel).
Proof. unfold tcp_fasttmr. keeps. Qed.
#[local] Hint Resolve closed_tcp_fasttmr : keeps.
Lemma closed_tcp_tmr fuel :
  keeps R (tcp_tmr custom_free mem_avail garbage output ip_frag seg_avail tcp_timer_needed
    call_app fuel).
Proof. unfold tcp_tmr. keeps. Qed.
Lemma closed_process_syn_sent pcb :
  keeps R (process_syn_sent custom_free mem_avail garbage output ip_frag call_app pcb).
Proof. unfold process_syn_sent. keeps. Qed.
Lemma closed_process_accept pcb :
  keeps R (process_accept custom_free mem_avail garbage output ip_frag seg_avail call_app pcb).
Proof. unfold process_accept. keeps. Qed.
#[local] Hint Resolve closed_tcp_tmr closed_process_syn_sent closed_process_accept : keeps.
Lemma closed_process_syn_rcvd pcb :
  keeps R (process_syn_rcvd custom_free mem_avail garbage output ip_frag seg_avail call_app pcb).
Proof. unfold process_syn_rcvd. keeps. Qed.
#[local] Hint Resolve closed_process_syn_rcvd : keeps.
Lemma closed_tcp_process pcb :
  keeps R (tcp_process custom_free mem_avail garbage output ip_frag seg_avail tcp_timer_needed
    call_app pcb).
Proof. unfold tcp_process. keeps. Qed.
Lemma closed_listen_syn pcb npcb :
  keeps R (listen_syn custom_free mem_avail garbage output ip_frag seg_avail tcp_timer_needed
    call_app pcb npcb).
Proof. unfold listen_syn. keeps. Qed.
#[local] Hint Resolve closed_tcp_process closed_listen_syn : keeps.
Lemma closed_tcp_listen_input pcb :
  keeps R (tcp_listen_input custom_free mem_avail garbage output ip_frag seg_avail pcb_avail
    tcp_timer_needed call_app pcb).
Proof. unfold tcp_listen_input. keeps. Qed.
Lemma closed_input_dead pcb err :
  keeps R (input_dead custom_free mem_avail garbage output ip_frag call_app pcb err).
Proof. unfold input_dead. keeps. Qed.
Lemma closed_input_data pcb :
  keeps R (input_data custom_free mem_avail garbage output ip_frag seg_avail tcp_timer_needed
    call_app pcb).
Proof. unfold input_data. keeps. Qed.
Lemma closed_input_fin pcb :
  keeps R (input_fin custom_free mem_avail garbage output ip_frag seg_avail tcp_timer_needed
    call_app pcb).
Proof. unfold input_fin. keeps. Qed.
#[local] Hint Resolve closed_tcp_listen_input closed_input_dead closed_input_data
  closed_input_fin : keeps.
Lemma closed_input_events pcb :
  keeps R (input_events custom_free mem_avail garbage output ip_frag seg_avail tcp_timer_needed
    call_app pcb).
Proof. unfold input_events. keeps. Qed.
#[local] Hint Resolve closed_input_events : keeps.
Lemma closed_input_process pcb :
  keeps R (input_process custom_free mem_avail garbage output ip_frag seg_avail tcp_timer_needed
    call_app pcb).
Proof. unfold input_process. keeps. Qed.
Lemma closed_input_refused pcb :
  keeps R (input_refused custom_free mem_avail garbage output ip_frag seg_avail tcp_timer_needed
    call_app pcb).
Proof. unfold input_refused. keeps. Qed.
#[local] Hint Resolve closed_input_process closed_input_refused : keeps.
Lemma closed_input_active p pcb :
  keeps R (input_active custom_free mem_avail garbage output ip_frag seg_avail tcp_timer_needed
    call_app p pcb).
Proof. unfold input_active. keeps. Qed.
#[local] Hint Resolve closed_input_active : keeps.
Lemma closed_input_demux p c :
  keeps R (input_demux custom_free mem_avail garbage output ip_frag seg_avail pcb_avail
    tcp_timer_needed call_app p c).
Proof. unfold input_demux. keeps. Qed.
#[local] Hint Resolve closed_input_demux : keeps.
Lemma closed_tcp_input p inp :
  keeps R (tcp_input custom_free mem_avail garbage output ip_frag seg_avail pcb_avail
    tcp_timer_needed call_app p inp).
Proof. unfold tcp_input. keeps. Qed.
#[local] Hint Resolve closed_tcp_input : keeps.

End tcp.
End TcpKeeps.
