(* ===== verification/NetifTcp.v ===== *)
(** * Interfaces and connections

    The part of [netif_set_ipaddr] ([lwip/src/core/netif.c]) that walks the
    control blocks of TCP when the address of an interface changes:
    connections from the old address are aborted, listeners follow it.
    [Netif] takes it as a parameter. *)

From S2P Require Import Prelude RecordSet Def Ip4Addr InetChksum Netif Udp Pbuf Stack Ip4 Icmp.
From S2P Require Import StackKeeps Tcp TcpOut TcpCore TcpKeeps.

Module NetifTcp.
Import RecordSet Def Ip4Addr InetChksum Netif Udp Pbuf Stack Ip4 Icmp StackKeeps.
Import Tcp TcpOut TcpCore TcpKeeps.

Section netif.
Context {CF F A X : Type} `{HL : Lens X tcp_vars}.
Abbreviation stack := (stack CF F A X).
Context (custom_free : CF → loc → prog (heap CF) unit).
Context (mem_avail : heap CF → Z → bool) (garbage : heap CF → nat → Z).
Context (output ip_frag : netif_loc → loc → Z → prog stack err_t).
Context (call_app : app_call → prog stack err_t).

(** The [while] loop: the next block is read before this one is aborted. *)
Fixpoint addr_abort_loop (fuel : nat) (old : Z) (pcb : option tloc) : prog stack unit :=
  match pcb with
  | None => mret ()
  | Some pcb =>
      match fuel with
      | O => pfault Hang
      | S fuel' =>
          b ← lift (tderef pcb);
          (if t_local_ip b =? old
           then tcp_abort custom_free mem_avail garbage output ip_frag call_app pcb
           else mret ());;
          addr_abort_loop fuel' old (t_next b)
      end
  end.

Fixpoint addr_listen_loop (fuel : nat) (old new : Z) (lpcb : option tloc) : prog tcp_vars unit :=
  match lpcb with
  | None => mret ()
  | Some lpcb =>
      match fuel with
      | O => pfault Hang
      | S fuel' =>
          b ← lderef lpcb;
          (if negb (ip_addr_isany (l_local_ip b)) && (l_local_ip b =? old)
           then lupdate lpcb (λ b, b <|l_local_ip := new|>) else mret ());;
          addr_listen_loop fuel' old new (l_next b)
      end
  end.

Definition tcp_addr_changed (old new : Z) : prog stack unit :=
  v ← lift (pget (S := tcp_vars));
  addr_abort_loop (list_fuel v) old (tcp_active_pcbs v);;
  v ← lift (pget (S := tcp_vars));
  lift (addr_listen_loop (list_fuel v) old new (tcp_listen_pcbs v)).

(** As the functions of [TcpKeeps]. *)
Context (R : relation stack) `{!Closed R} (R_tcp : closed_in tcp_vars R).
Context (R_output : ∀ n p d, keeps R (output n p d)) (R_frag : ∀ n p d, keeps R (ip_frag n p d)).
Context (R_err : ∀ k arg err, keeps R (call_app (CallErr k arg err))).
#[local] Hint Resolve R_tcp R_output R_frag R_err closed_tcp_abort : keeps.

Lemma closed_addr_abort_loop fuel old pcb : keeps R (addr_abort_loop fuel old pcb).
Proof. revert pcb. induction fuel; intros; cbn [addr_abort_loop]; keeps. Qed.
#[local] Hint Resolve closed_addr_abort_loop : keeps.
Lemma closed_tcp_addr_changed old new : keeps R (tcp_addr_changed old new).
Proof. unfold tcp_addr_changed. keeps. Qed.
#[local] Hint Resolve closed_tcp_addr_changed : keeps.

Lemma closed_netif_add n ipaddr netmask gw init :
  keeps R (init n) → keeps R (netif_add tcp_addr_changed n ipaddr netmask gw init).
Proof. intros. unfold netif_add, netif_set_addr, netif_set_ipaddr. keeps. Qed.

End netif.
End NetifTcp.
