(* ===== verification/TcpRuns.v ===== *)
(** * Runs of TCP

    Hosts with one interface each, that receive packets the way
    [lwip_data_cb] does and keep what they send: [ip_input] of [Ip4Input] with
    the TCP of [TcpIn] behind it, and an application that writes down the events
    it sees. *)

From S2P Require Import Prelude RecordSet Def Ip4Addr InetChksum Netif Udp Pbuf Stack Ip4 Icmp Ip4Input.
From S2P Require Import Tcp TcpOut TcpCore TcpIn.

Module TcpRuns.
Import RecordSet Def Ip4Addr InetChksum Netif Udp Pbuf Stack Ip4 Icmp Ip4Input Tcp TcpOut TcpCore TcpIn.

Inductive event :=
  | Accepted (pcb : tloc) | Connected (pcb : tloc) | Received (d : bytes) | EndOfFile
  | Sent (n : Z) | Polled | Failed (err : err_t).

Abbreviation host := (stack unit unit unit (tcp_vars * (list bytes * list event))).

Definition run_free : unit → loc → prog (heap unit) unit := λ _ _, pfault Wild.
Definition run_avail : heap unit → Z → bool := λ _ _, true.
Definition run_garbage : heap unit → nat → Z := λ _ _, 170.
Definition chain_bytes (p : loc) : prog (heap unit) bytes :=
  c ← chain_of p; mret (concat (snd <$> c)).
Definition run_output : netif_loc → loc → Z → prog host err_t := λ _ p _,
  d ← lift (chain_bytes p);
  pmodify (λ s, set_rest (fst (st_rest s), ((snd (st_rest s)).1 ++ [d], (snd (st_rest s)).2)) s);;
  mret ERR_OK.
Definition run_frag : netif_loc → loc → Z → prog host err_t := λ _ _ _, pfault Wild.
Definition note (e : event) : prog host unit :=
  pmodify (λ s, set_rest (fst (st_rest s), ((snd (st_rest s)).1, (snd (st_rest s)).2 ++ [e])) s).

Abbreviation run_close :=
  (tcp_close run_free run_avail run_garbage run_output run_frag (λ _, true) (mret ())).
Abbreviation run_recved := (tcp_recved run_free run_avail run_garbage run_output run_frag).

(** The functions of the application: 1 takes what comes and closes at the end
    of the data, 2 refuses data, 3 gives up without freeing the data, 4
    keeps the data without telling TCP. *)
Definition run_app (c : app_call) : prog host err_t :=
  match c with
  | CallAccept k _ pcb _ => note (Accepted pcb);; lift (tcp_recv pcb (Some (App k)));; mret ERR_OK
  | CallConnected k _ pcb _ => note (Connected pcb);; lift (tcp_recv pcb (Some (App k)));; mret ERR_OK
  | CallRecv k _ pcb (Some p) _ =>
      d ← lift (chain_bytes p);
      match k with
      | 1%positive => note (Received d);; run_recved pcb (zlen d);;
                      pfree run_free p;; mret ERR_OK
      | 2%positive => mret ERR_WOULDBLOCK
      | 3%positive => mret ERR_ABRT
      | _ => note (Received d);; pfree run_free p;; mret ERR_OK
      end
  | CallRecv _ _ pcb None _ => note EndOfFile;; run_close pcb
  | CallSent _ _ _ n => note (Sent n);; mret ERR_OK
  | CallPoll _ _ _ => note Polled;; mret ERR_OK
  | CallErr _ _ err => note (Failed err);; mret ERR_OK
  end.

Abbreviation run_tcp_input :=
  (tcp_input run_free run_avail run_garbage run_output run_frag (λ _, true) (λ _, true) (mret ()) run_app).
Definition run_input : loc → netif_loc → prog host unit :=
  ip_input run_free run_avail run_garbage run_output run_frag (λ _ _ _ _ _ _, mret ())
    (λ _, mret None) run_tcp_input.

Abbreviation run_new :=
  (tcp_new run_free run_avail run_garbage run_output run_frag (λ _, true) run_app).
Abbreviation run_bind := (tcp_bind (CF := unit) (F := unit) (A := unit)
  (X := tcp_vars * (list bytes * list event)) (mret ())).
Abbreviation run_listen := (tcp_listen_with_backlog (CF := unit) (F := unit) (A := unit)
  (X := tcp_vars * (list bytes * list event)) (λ _, true) (mret ())).
Abbreviation run_connect :=
  (tcp_connect run_free run_avail run_garbage run_output run_frag (λ _, true) (mret ())).
Abbreviation run_write := (tcp_write run_free run_avail run_garbage (λ _ : host, true)).
Abbreviation run_tcp_output := (tcp_output run_free run_avail run_garbage run_output run_frag).
Abbreviation run_slowtmr :=
  (tcp_slowtmr run_free run_avail run_garbage run_output run_frag run_app).

(** [lwip_data_cb] for one packet. *)
Definition run_packet (d : bytes) : prog host unit :=
  p ← lift (pbuf_alloc run_free run_avail run_garbage PBUF_RAW (zlen d) PBUF_POOL);
  match p with
  | None => mret ()
  | Some p => lift (pbuf_take (Some p) d (zlen d));; run_input p 1%positive
  end.
Fixpoint run_packets (l : list bytes) : prog host unit :=
  match l with [] => mret () | d :: l' => run_packet d;; run_packets l' end.
(** The packets sent so far leave the host. *)
Definition take_sent : prog host (list bytes) :=
  s ← pget;
  pmodify (λ s, set_rest (fst (st_rest s), ([], (snd (st_rest s)).2)) s);;
  mret (snd (st_rest s)).1.

Definition run_start (ip : Z) : host :=
  mk_stack ∅
    (mk_netif_state {[1%positive := mk_netif ip 0x00ffffff 0 1500 NETIF_FLAG_UP
                                      [117; 110] 0]} [1%positive] (Some 1%positive) 1)
    udp_init 9 (mk_ip_globals None None 0 0 0) (tcp_vars_init, ([], [])).

(** Two hosts, 10.0.0.1 and 10.0.0.2, that exchange packets until none is left,
    for at most [n] rounds. *)
Fixpoint exchange (n : nat) (a b : host) : fault + (host * host) :=
  match n with
  | O => inr (a, b)
  | S n' =>
      match take_sent a with
      | inl f => inl f
      | inr (from_a, a) =>
          match (run_packets from_a;; take_sent) b with
          | inl f => inl f
          | inr (from_b, b) =>
              match run_packets from_b a with
              | inl f => inl f
              | inr (_, a) => exchange n' a b
              end
          end
      end
  end.

Definition server : prog host unit :=
  pcb ← run_new; pcb ← pderef pcb;
  run_bind pcb None 80;;
  pcb ← run_listen pcb; pcb ← pderef pcb;
  lift (tcp_accept pcb (Some (App 1)));;
  lift (tcp_arg pcb 7).
Definition client : prog host tloc :=
  pcb ← run_new; pcb ← pderef pcb;
  lift (tcp_err pcb (Some (App 1)));;
  lift (tcp_sent pcb (Some (App 1)));;
  run_connect pcb (Some 0x0200000a) 80 (Some (App 1));;
  mret pcb.

Definition fst_ok {A S} (r : fault + (A * S)) : fault + S :=
  match r with inl f => inl f | inr (_, s) => inr s end.
Definition then_ok {A B} (r : fault + A) (f : A → fault + B) : fault + B :=
  match r with inl e => inl e | inr a => f a end.

Definition events (s : host) : list event := (snd (st_rest s)).2.

(** The client connects, sends twice and closes; the server gets the data and
    closes its side; the client ends in TIME-WAIT, the block of the server is
    freed, and no packet buffer is left. *)
Definition session : fault + (host * host) :=
  then_ok (fst_ok (server (run_start 0x0200000a))) (λ b,
  match client (run_start 0x0100000a) with
  | inl f => inl f
  | inr (pcb, a) =>
      then_ok (exchange 3 a b) (λ '(a, b),
      then_ok (fst_ok ((run_write pcb (Some [1; 2; 3; 4; 5]) 5 TCP_WRITE_FLAG_COPY;;
                        run_write pcb (Some [6; 7]) 2 TCP_WRITE_FLAG_COPY;;
                        run_tcp_output pcb;;
                        run_close pcb) a)) (λ a,
      exchange 5 a b))
  end).

Lemma session_ok :
  match session with
  | inl _ => False
  | inr (a, b) =>
      events a = [Connected 1; Sent 7; EndOfFile] ∧
      events b = [Accepted 3; Received [1; 2; 3; 4; 5; 6; 7]; EndOfFile] ∧
      st_pbufs a = ∅ ∧ st_pbufs b = ∅ ∧
      map_to_list (t_state <$> tcp_structs (fst (st_rest a))) = [(1%positive, TIME_WAIT)] ∧
      map_to_list (t_state <$> tcp_structs (fst (st_rest b))) = []
  end.
Proof. vm_compute. repeat split. Qed.

(** ** Segments made by hand *)

Definition be (n : nat) (x : Z) : bytes := rev (le_bytes n x).

(** An IP packet from 10.0.0.2 to 10.0.0.1 with the segment: ports, sequence
    and acknowledgement numbers, header length in words, flags, window, and what
    follows the 20 bytes; the checksums are right. *)
Definition packet (sport dport seq ack hdrlen flags wnd : Z) (body : bytes) : bytes :=
  let t c := be 2 sport ++ be 2 dport ++ be 4 seq ++ be 4 ack ++ [hdrlen * 16; flags] ++ be 2 wnd
             ++ le_bytes 2 c ++ [0; 0] ++ body in
  let seg := t (inet_chksum_pseudo [(false, t 0)] IP_PROTO_TCP (zlen (t 0)) 0x0200000a 0x0100000a) in
  let h c := [69; 0] ++ be 2 (20 + zlen seg) ++ [0; 1; 0; 0; 64; IP_PROTO_TCP] ++ le_bytes 2 c
             ++ [10; 0; 0; 2; 10; 0; 0; 1] in
  h (inet_chksum false (h 0)) ++ seg.

Definition ACK : Z := TCP_ACK.
Definition data (seq : Z) (d : bytes) : bytes := packet 5000 80 seq 6511 5 ACK 8000 d.

(** The server 10.0.0.1 has accepted the connection of 10.0.0.2, whose first
    byte of data has the number [seq]; function [k] of the application is told of the data. *)
Definition accepted (k : positive) (seq : Z) : prog host unit :=
  server;;
  v ← lift (pget (S := tcp_vars));
  l ← pderef (tcp_listen_pcbs v);
  lift (tcp_accept l (Some (App k)));;
  run_packets [packet 5000 80 (u32 (seq - 1)) 0 5 TCP_SYN 8000 [];
               packet 5000 80 seq 6511 5 ACK 8000 []].

Definition result (m : prog host unit) : fault + list event :=
  match m (run_start 0x0100000a) with inl f => inl f | inr (_, s) => inr (events s) end.

(** Segments that come out of order, and overlap, are put in order. *)
Lemma reordered_ok :
  result (accepted 1 1000;; run_packets [data 1000 [1; 2; 3]; data 1006 [7; 8]; data 1003 [4; 5; 6; 7]])
  = inr [Accepted 3; Received [1; 2; 3]; Received [4; 5; 6; 7; 8]].
Proof. vm_compute. reflexivity. Qed.

End TcpRuns.
