(* ===== verification/TcpBugs.v ===== *)
(** * Where TCP goes wrong

    Runs of [TcpRuns] in which a segment, or a use of the interface that its
    description allows, makes the code fail; each one beside the run without
    what makes the difference. *)

From S2P Require Import Prelude RecordSet Def Ip4Addr InetChksum Netif Udp Pbuf Stack Ip4 Icmp Ip4Input.
From S2P Require Import Tcp TcpOut TcpCore TcpIn TcpRuns.

Module TcpBugs.
Import RecordSet Def Ip4Addr InetChksum Netif Udp Pbuf Stack Ip4 Icmp Ip4Input Tcp TcpOut TcpCore TcpIn TcpRuns.

Fixpoint ticks (n : nat) : prog host unit :=
  match n with O => mret () | S n' => run_slowtmr 10;; ticks n' end.
Definition the_pcb : prog host tloc := v ← lift (pget (S := tcp_vars)); pderef (tcp_active_pcbs v).
Definition value {B} (m : prog host B) : fault + B :=
  match m (run_start 0x0100000a) with inl f => inl f | inr (b, _) => inr b end.

(** ** Segments *)

(** A header length below five words is accepted: the header itself is given
    to the application as data. *)
Lemma short_header_is_data :
  result (accepted 1 1000;; run_packets [packet 5000 80 1000 6511 0 ACK 8000 [1; 2; 3]]) =
  inr [Accepted 3;
       Received [136; 19; 80; 0; 232; 3; 0; 0; 111; 25; 0; 0; 0; 16; 64; 31; 151; 94; 0; 0; 1; 2; 3]].
Proof. vm_compute. reflexivity. Qed.

(** The first segment out of order is not cut to the window: once the gap is
    filled, more data is in order than fits the window, and an assertion fails.
    Here the application has left 20 bytes of the window. *)
Definition window_of_20 (l : list bytes) : fault + list event :=
  result (accepted 1 1000;; pcb ← the_pcb;
          lift (tupdate pcb (λ b, b <|t_rcv_wnd := 20|> <|t_rcv_ann_wnd := 20|>
                                    <|t_rcv_ann_right_edge := 1020|>));;
          run_packets l).
Lemma ooseq_beyond_window_aborts :
  window_of_20 [data 1015 [6; 7; 8; 9; 10]; data 1000 (replicate 15 5)]
    = inr [Accepted 3; Received (replicate 15 5 ++ [6; 7; 8; 9; 10])] ∧
  window_of_20 [data 1015 [6; 7; 8; 9; 10; 11; 12; 13]; data 1000 (replicate 15 5)] = inl Abort.
Proof. split; vm_compute; reflexivity. Qed.

(** Segments behind the end of the queue are compared with the end of the
    window without wrap-around: where the numbers wrap, data is lost. *)
Definition around (q : Z) : fault + list event :=
  result (accepted 1 q;; run_packets [data (u32 (q + 1)) [2]; data (u32 (q + 2)) [3]; data q [1];
                                      data (u32 (q + 3)) [4]]).
Lemma ooseq_trim_wraps :
  around 1000 = inr [Accepted 3; Received [1; 2; 3]; Received [4]] ∧
  around (2 ^ 32 - 100) = inr [Accepted 3; Received [1; 2; 3]].
Proof. split; vm_compute; reflexivity. Qed.

(** The MSS option is obeyed in every segment: a peer that makes it smaller
    while data waits makes the next [tcp_write] abort. *)
Definition shrink (hdrlen : Z) (opts : bytes) : fault + list event :=
  result (
    accepted 1 1000;; pcb ← the_pcb;
    run_packets [packet 5000 80 1000 6511 5 ACK 300 []; packet 5000 80 1001 6511 5 ACK 300 []];;
    run_write pcb (Some (replicate 300 1)) 300 1;; run_tcp_output pcb;;
    run_write pcb (Some (replicate 300 2)) 300 1;; run_tcp_output pcb;;
    run_packets [packet 5000 80 1001 6511 hdrlen ACK 300 opts];;
    run_write pcb (Some [1]) 1 1;; mret ()).
Lemma mss_option_aborts_write :
  shrink 5 [] = inr [Accepted 3] ∧ shrink 6 [2; 4; 0; 100] = inl Abort.
Proof. split; vm_compute; reflexivity. Qed.

(** The count of retransmissions is compared for equality: a fast retransmit
    after the twelfth takes it past the limit, and the next time-out reads
    behind [tcp_backoff]. *)
Definition unanswered (m : prog host unit) : fault + Z :=
  value (accepted 1 1000;; pcb ← the_pcb; run_write pcb (Some [1]) 1 1;; run_tcp_output pcb;;
         ticks 4602;; m;; b ← lift (tderef pcb); mret (t_nrtx b)).
Definition dupack : bytes := packet 5000 80 1000 6511 5 ACK 8000 [].
Lemma backoff_out_of_bounds :
  unanswered (mret ()) = inr TCP_MAXRTX ∧
  unanswered (run_packets [dupack; dupack; dupack]) = inr (TCP_MAXRTX + 1) ∧
  unanswered (run_packets [dupack; dupack; dupack];; ticks 900) = inl Wild.
Proof. split; [|split]; vm_compute; reflexivity. Qed.

(** ** Uses of the interface *)

(** A block that is bound and then aborted is freed but stays in its list. *)
Definition abort_bound : prog host tloc :=
  pcb ← run_new; pcb ← pderef pcb; run_bind pcb None 80;;
  tcp_abort run_free run_avail run_garbage run_output run_frag run_app pcb;; mret pcb.
Definition bind_new (port : Z) : prog host unit :=
  pcb ← run_new; pcb ← pderef pcb; run_bind pcb None port;; mret ().
Lemma abort_bound_dangles :
  value (pcb ← abort_bound; v ← lift (pget (S := tcp_vars));
         mret (tcp_bound_pcbs v, tcp_structs v !! pcb)) = inr (Some 1%positive, None) ∧
  result (abort_bound;; bind_new 81;; bind_new 82) = inl Hang.
Proof. split; vm_compute; reflexivity. Qed.

(** An application that closes at the end of the data although it has not
    taken all of it: [tcp_close] resets the connection and frees the block,
    with ERR_OK, and [tcp_input] goes on to use it. *)
Lemma close_with_unread_data_use_after_free :
  result (accepted 4 1000;; run_packets [data 1000 [1; 2; 3]; packet 5000 80 1003 6511 5 (ACK + 1) 8000 []])
  = inl Wild.
Proof. vm_compute. reflexivity. Qed.

(** An application that gives up a connection without freeing the data, as
    ocproxy does: the pbuf is never freed. *)
Lemma abort_leaks_data :
  value (accepted 3 1000;; run_packets [data 1000 [1; 2; 3]];;
         s ← pget; mret (size (st_pbufs s))) = inr 1%nat.
Proof. vm_compute. reflexivity. Qed.

(** ** The slow timer *)

(** A poll function that opens a connection. *)
Definition poll_app (c : app_call) : prog host err_t :=
  match c with
  | CallPoll _ _ _ =>
      pcb ← run_new; pcb ← pderef pcb; run_connect pcb (Some 0x0200000a) 90 None;; mret ERR_OK
  | _ => mret ERR_OK
  end.
Fixpoint poll_ticks (n : nat) : prog host unit :=
  match n with
  | O => mret ()
  | S n' => tcp_slowtmr run_free run_avail run_garbage run_output run_frag poll_app 10;; poll_ticks n'
  end.
(** A connection that is not complete, and behind it one that is polled, by
    [poll], 41 half seconds later - when the first one times out. *)
Definition half_open (poll : option fn) : prog host unit :=
  server;;
  run_packets [packet 6000 80 999 0 5 TCP_SYN 8000 []; packet 5000 80 999 0 5 TCP_SYN 8000 [];
               packet 5000 80 1000 6511 5 ACK 8000 []];;
  pcb ← the_pcb;
  lift (tcp_poll pcb poll 41);;
  poll_ticks 42.

(** After the poll function has changed the list, the timer starts again and
    passes the blocks it has done without noting which one came before: the next
    block to be removed is taken for the first one. *)
Lemma slowtmr_restart_aborts :
  result (half_open None) = inr [Accepted 4] ∧ result (half_open (Some (App 5))) = inl Abort.
Proof. split; vm_compute; reflexivity. Qed.

(** When the function connects a block that was made before the tick instead,
    the new connection is taken for the one before the block to be removed, and
    the connection between them is lost: it is in no list. *)
Definition connect_app (c : app_call) : prog host err_t :=
  match c with
  | CallPoll _ _ _ => run_connect 1%positive (Some 0x0200000a) 90 None;; mret ERR_OK
  | _ => mret ERR_OK
  end.
Fixpoint connect_ticks (n : nat) : prog host unit :=
  match n with
  | O => mret ()
  | S n' => tcp_slowtmr run_free run_avail run_garbage run_output run_frag connect_app 10;; connect_ticks n'
  end.
Definition lost : prog host (option tloc * list (tloc * (tcp_state * option tloc))) :=
  run_new;; server;;
  run_packets [packet 6000 80 999 0 5 TCP_SYN 8000 []; packet 5000 80 999 0 5 TCP_SYN 8000 [];
               packet 5000 80 1000 6511 5 ACK 8000 []];;
  pcb ← the_pcb;
  lift (tcp_poll pcb (Some (App 5)) 41);;
  connect_ticks 42;;
  v ← lift (pget (S := tcp_vars));
  mret (tcp_active_pcbs v, map_to_list ((λ b, (t_state b, t_next b)) <$> tcp_structs v)).
Lemma slowtmr_loses_block :
  value lost = inr (Some 1%positive, [(5%positive, (ESTABLISHED, Some 4%positive));
                                      (1%positive, (SYN_SENT, None))]).
Proof. vm_compute. reflexivity. Qed.

(** ** The default function for new connections *)

(** [tcp_accept_null] returns ERR_ABRT, which says that it has aborted the
    connection, but does not abort it: the connection stays. *)
Definition no_accept : prog host unit :=
  pcb ← run_new; pcb ← pderef pcb;
  run_bind pcb None 80;;
  run_listen pcb;;
  run_packets [packet 5000 80 999 0 5 TCP_SYN 8000 []; packet 5000 80 1000 6511 5 ACK 8000 []].
Lemma accept_null_keeps_connection :
  value (no_accept;; ticks 20;; v ← lift (pget (S := tcp_vars));
         mret (map_to_list (t_state <$> tcp_structs v))) = inr [(3%positive, ESTABLISHED)].
Proof. vm_compute. reflexivity. Qed.

End TcpBugs.
