(* ===== verification/TcpFrame.v ===== *)
(** * What TCP leaves alone

    The functions of [tcp_out.c] work on the members of one control block, on
    packet buffers and on the queues; they do not touch the lists of control
    blocks.  [skeleton] is the part of the state the lists are made of. *)

From S2P Require Import Prelude RecordSet Def Ip4Addr InetChksum Netif Udp Pbuf Stack Ip4 Icmp.
From S2P Require Import Tcp TcpOut TcpCore TcpIn.

Module TcpFrame.
Import RecordSet Def Ip4Addr InetChksum Netif Udp Pbuf Stack Ip4 Icmp Tcp TcpOut TcpCore TcpIn.

(** ** The skeleton *)

(** [tcp_recv_null] is set: the application has not set a function yet. *)
Definition recv_null (b : tcp_pcb) : bool :=
  match t_recv b with Some Tcp_recv_null => true | _ => false end.

Record node := mk_node {
  n_state : tcp_state; n_has_port : bool; n_recv_null : bool; n_next : option tloc
}.
Definition node_of (b : tcp_pcb) : node :=
  mk_node (t_state b) (negb (t_local_port b =? 0)) (recv_null b) (t_next b).
Definition lnode_of (b : tcp_pcb_listen) : node :=
  mk_node LISTEN (negb (l_local_port b =? 0)) false (l_next b).

Definition heads (v : tcp_vars) : option tloc * option tloc * option tloc * option tloc :=
  (tcp_listen_pcbs v, tcp_bound_pcbs v, tcp_active_pcbs v, tcp_tw_pcbs v).
Definition skeleton (v : tcp_vars)
    : gmap tloc node * gmap tloc node * (option tloc * option tloc * option tloc * option tloc) :=
  (node_of <$> tcp_structs v, lnode_of <$> tcp_listen_structs v, heads v).

(** What depends on the skeleton and the segment that is being processed only. *)
Class FrameProj {T} (π : tcp_vars → T) : Prop :=
  frame_proj v v' : skeleton v = skeleton v' → tcp_in v = tcp_in v' → π v = π v'.
#[export] Instance frame_skeleton : FrameProj skeleton.
Proof. by intros v v' E _. Qed.
#[export] Instance frame_in : FrameProj tcp_in.
Proof. by intros v v' _ E. Qed.

Section frame.
Context {CF F A X : Type} `{HL : Lens X tcp_vars}.
Abbreviation stack := (stack CF F A X).

Definition tcp_of (s : stack) : tcp_vars := lget (st_rest s).

(** The projection [π] of TCP's state stays the same. *)
Definition same {T} (π : tcp_vars → T) : relation stack := λ s s', π (tcp_of s) = π (tcp_of s').
#[export] Instance same_preorder {T} (π : tcp_vars → T) : PreOrder (same π).
Proof. split; [done|]. intros ? ? ?. apply eq_trans. Qed.

Definition vsame {T} (π : tcp_vars → T) : relation tcp_vars := λ v v', π v = π v'.
#[export] Instance vsame_preorder {T} (π : tcp_vars → T) : PreOrder (vsame π).
Proof. split; [done|]. intros ? ? ?. apply eq_trans. Qed.

Lemma keeps_weaken {T B} (π : tcp_vars → T) (m : prog stack B) :
  keeps (same (λ v, v)) m → keeps (same π) m.
Proof. intros H s a s' E. unfold same. by rewrite (H _ _ _ E). Qed.

Lemma keeps_heap {T B} (π : tcp_vars → T) (m : prog (heap CF) B) : keeps (same π) (lift m).
Proof. intros s a s' E. unfold lift in E. by destruct (m _) as [|[? ?]]; simplify_eq. Qed.
Lemma keeps_netifs {T B} (π : tcp_vars → T) (m : prog netif_state B) : keeps (same π) (lift m).
Proof. intros s a s' E. unfold lift in E. by destruct (m _) as [|[? ?]]; simplify_eq. Qed.
Lemma keeps_vars {T B} (π : tcp_vars → T) (m : prog tcp_vars B) :
  keeps (vsame π) m → keeps (same π) (lift m).
Proof.
  intros H s a s' E. unfold lift in E. destruct (m _) as [|[x v]] eqn:Em; simplify_eq.
  apply H in Em. unfold vsame in Em. unfold same, tcp_of. cbn in Em |- *. by rewrite lget_lput.
Qed.
Lemma keeps_modify_stack {T} (π : tcp_vars → T) (f : stack → stack) :
  (∀ s, st_rest (f s) = st_rest s) → keeps (same π) (pmodify f).
Proof. intros H. apply keeps_modify. intros s. unfold same, tcp_of. by rewrite H. Qed.

(** ** Reading TCP's variables *)

Lemma bind_ivars {B} (k : tcp_input_vars → prog stack B) s : (ivars ≫= k) s = k (tcp_in (tcp_of s)) s.
Proof. apply bind_ret. unfold ivars. by erewrite bind_lift_same. Qed.
Lemma bind_tderef {B} x b (k : tcp_pcb → prog stack B) s :
  tcp_structs (tcp_of s) !! x = Some b → (lift (tderef x) ≫= k) s = k b s.
Proof.
  intros Eb. erewrite bind_lift_same; [done|]. unfold tderef. rewrite bind_get.
  unfold tcp_of in Eb. cbn. by rewrite Eb.
Qed.

(** A command on TCP's variables that returns. *)
Lemma returns_vars {B C} (m : prog tcp_vars B) (k : B → prog stack C) s a v' Q :
  m (tcp_of s) = inr (a, v') → (∀ s', tcp_of s' = v' → returns (k a s') Q) →
  returns ((lift m ≫= k) s) Q.
Proof.
  intros E Hk. rewrite (bind_ret _ _ _ a (lput v' s)); [|by apply lift_ret].
  apply Hk. unfold tcp_of. cbn. by rewrite lget_lput.
Qed.

Lemma returns_vars_last {B} (m : prog tcp_vars B) s a v' (Q : B → stack → Prop) :
  m (tcp_of s) = inr (a, v') → (∀ s', tcp_of s' = v' → Q a s') → returns (lift m s) Q.
Proof.
  intros E Hk. assert (lift m s = inr (a, lput v' s)) as -> by by apply lift_ret.
  apply Hk. unfold tcp_of. cbn. by rewrite lget_lput.
Qed.

Lemma keeps_tderef {T} (π : tcp_vars → T) l : keeps (vsame π) (tderef l).
Proof. unfold tderef. keeps. Qed.
Lemma keeps_next_of {T} (π : tcp_vars → T) l : keeps (vsame π) (next_of l).
Proof. unfold next_of, is_listen, lderef, tderef. keeps. Qed.
Lemma keeps_local_of {T} (π : tcp_vars → T) l : keeps (vsame π) (local_of l).
Proof. unfold local_of, is_listen, lderef, tderef. keeps. Qed.
Lemma keeps_exists_loop {T} (π : tcp_vars → T) f n : ∀ p, keeps (vsame π) (exists_loop n f p).
Proof.
  induction n as [|n IH]; intros [l|]; simpl; keeps; [apply keeps_local_of|apply keeps_next_of].
Qed.
Lemma keeps_exists_in {T} (π : tcp_vars → T) f ls : keeps (vsame π) (exists_in f ls).
Proof. induction ls as [|k ls IH]; cbn [exists_in]; keeps. apply keeps_exists_loop. Qed.
Lemma keeps_tupdate {T} (π : tcp_vars → T) l f :
  (∀ v b, tcp_structs v !! l = Some b → π v = π (v <|tcp_structs ::= <[l:=f b]>|>)) →
  keeps (vsame π) (tupdate l f).
Proof.
  intros H v a v' E. 
  cbv [tupdate tderef mbind prog_bind pget pderef] in E.
  destruct (tcp_structs v !! l) as [b|] eqn:Eb; [|done]. injection E as _ <-. by apply H.
Qed.

(** ** Functions that do not touch TCP's state *)

Context (custom_free : CF → loc → prog (heap CF) unit).
Context (mem_avail : heap CF → Z → bool) (garbage : heap CF → nat → Z).
Context (output ip_frag : netif_loc → loc → Z → prog stack err_t).
Context (seg_avail : stack → bool).
Hypothesis keeps_out : ∀ n p d, keeps (same (λ v, v)) (output n p d).
Hypothesis keeps_frag : ∀ n p d, keeps (same (λ v, v)) (ip_frag n p d).

Section all.
Context {T : Type} (π : tcp_vars → T).

Lemma keeps_get_vars : keeps (same π) (lift (pget (S := tcp_vars))).
Proof. apply keeps_vars. keeps. Qed.
Lemma keeps_lift_tderef l : keeps (same π) (lift (tderef l)).
Proof. apply keeps_vars, keeps_tderef. Qed.
Lemma keeps_is_listen l : keeps (same π) (lift (is_listen l)).
Proof. apply keeps_vars. unfold is_listen. keeps. Qed.
Lemma keeps_not_listen l : keeps (same π) (lift (not_listen l)).
Proof. apply keeps_vars. unfold not_listen, is_listen. keeps. Qed.
Lemma keeps_lderef l : keeps (same π) (lift (lderef l)).
Proof. apply keeps_vars. unfold lderef. keeps. Qed.
Lemma keeps_pfree p : keeps (same π) (pfree custom_free p).
Proof. unfold pfree. keeps. apply keeps_heap. Qed.
End all.

#[local] Hint Resolve keeps_heap keeps_netifs keeps_get_vars keeps_lift_tderef keeps_is_listen
  keeps_not_listen keeps_lderef keeps_pfree : keeps.

Section all.
Context {T : Type} (π : tcp_vars → T).

Lemma keeps_ip_output p src dest ttl tos proto :
  keeps (same π) (ip_output output ip_frag p src dest ttl tos proto).
Proof.
  apply keeps_weaken. unfold ip_output, ip_output_if, ip_output_if_src, write_header, ip_send.
  keeps. by apply keeps_modify_stack.
Qed.
Lemma keeps_seg_free g : keeps (same π) (tcp_seg_free custom_free g).
Proof. unfold tcp_seg_free. keeps. Qed.
Lemma keeps_segs_free l : keeps (same π) (tcp_segs_free custom_free l).
Proof. induction l; simpl; keeps. apply keeps_seg_free. Qed.
Lemma keeps_rst a b c d e f :
  keeps (same π) (tcp_rst custom_free mem_avail garbage output ip_frag a b c d e f).
Proof. unfold tcp_rst. keeps. apply keeps_ip_output. Qed.
End all.

#[local] Hint Resolve keeps_ip_output keeps_seg_free keeps_segs_free keeps_rst : keeps.

(** ** Functions that do not touch the lists *)

Section lists.
Context {T : Type} (π : tcp_vars → T) `{!FrameProj π}.

Lemma keeps_node l f :
  (∀ b, node_of (f b) = node_of b) → keeps (same π) (lift (tupdate l f)).
Proof.
  intros H. apply keeps_vars, keeps_tupdate. intros v b Hb. apply frame_proj; [|done].
  unfold skeleton, heads.
  cbn [tcp_structs tcp_listen_structs tcp_listen_pcbs tcp_bound_pcbs tcp_active_pcbs tcp_tw_pcbs
       set_field eta_tcp_vars].
  rewrite fmap_insert, H, insert_id; [done|]. by rewrite lookup_fmap, Hb.
Qed.
Lemma keeps_skel_modify f :
  (∀ v, skeleton (f v) = skeleton v ∧ tcp_in (f v) = tcp_in v) → keeps (same π) (lift (pmodify f)).
Proof.
  intros H. apply keeps_vars, keeps_modify. intros v. by apply frame_proj; destruct (H v).
Qed.

(** Walk through a function that leaves the lists alone. *)
Ltac frame :=
  repeat (keeps; try first
    [ apply keeps_node; intros ?; by repeat case_match
    | apply keeps_skel_modify; done ]).

Lemma skel_alloc_header pcb optlen datalen seqno_be :
  keeps (same π)
    (tcp_output_alloc_header custom_free mem_avail garbage pcb optlen datalen seqno_be).
Proof. unfold tcp_output_alloc_header. frame. Qed.
Lemma skel_create_segment pcb p flags seqno optflags :
  keeps (same π) (tcp_create_segment custom_free seg_avail pcb p flags seqno optflags).
Proof. unfold tcp_create_segment. frame. Qed.
#[local] Hint Resolve skel_alloc_header skel_create_segment : keeps.

Lemma skel_enqueue_flags pcb flags :
  keeps (same π) (tcp_enqueue_flags custom_free mem_avail garbage seg_avail pcb flags).
Proof. unfold tcp_enqueue_flags. frame. Qed.
#[local] Hint Resolve skel_enqueue_flags : keeps.
Lemma skel_send_fin pcb :
  keeps (same π) (tcp_send_fin custom_free mem_avail garbage seg_avail pcb).
Proof. unfold tcp_send_fin. frame. Qed.
Lemma skel_send_empty_ack pcb :
  keeps (same π) (tcp_send_empty_ack custom_free mem_avail garbage output ip_frag pcb).
Proof. unfold tcp_send_empty_ack. frame. Qed.
Lemma skel_output_local_ip pcb :
  keeps (same π) (output_local_ip (CF := CF) (F := F) (A := A) (X := X) pcb).
Proof. unfold output_local_ip. frame. Qed.
#[local] Hint Resolve skel_send_fin skel_send_empty_ack skel_output_local_ip : keeps.
Lemma skel_output_segment g pcb :
  keeps (same π) (tcp_output_segment output ip_frag g pcb).
Proof. unfold tcp_output_segment. frame. Qed.
#[local] Hint Resolve skel_output_segment : keeps.
Lemma skel_output_loop n pcb wnd :
  keeps (same π) (output_loop custom_free output ip_frag n pcb wnd).
Proof. induction n; simpl; frame. Qed.
#[local] Hint Resolve skel_output_loop : keeps.
Lemma skel_output pcb :
  keeps (same π) (tcp_output custom_free mem_avail garbage output ip_frag pcb).
Proof. unfold tcp_output. frame. Qed.
#[local] Hint Resolve skel_output : keeps.
Lemma skel_rexmit_rto pcb :
  keeps (same π) (tcp_rexmit_rto custom_free mem_avail garbage output ip_frag pcb).
Proof. unfold tcp_rexmit_rto. frame. Qed.
Lemma skel_rexmit pcb :
  keeps (same π) (tcp_rexmit (CF := CF) (F := F) (A := A) (X := X) pcb).
Proof. unfold tcp_rexmit. frame. Qed.
#[local] Hint Resolve skel_rexmit_rto skel_rexmit : keeps.
Lemma skel_rexmit_fast pcb :
  keeps (same π) (tcp_rexmit_fast (CF := CF) (F := F) (A := A) (X := X) pcb).
Proof. unfold tcp_rexmit_fast. frame. Qed.
Lemma skel_keepalive pcb :
  keeps (same π) (tcp_keepalive custom_free mem_avail garbage output ip_frag pcb).
Proof. unfold tcp_keepalive. frame. Qed.
Lemma skel_zero_window_probe pcb :
  keeps (same π) (tcp_zero_window_probe custom_free mem_avail garbage output ip_frag pcb).
Proof. unfold tcp_zero_window_probe. frame. Qed.
#[local] Hint Resolve skel_rexmit_fast skel_keepalive skel_zero_window_probe : keeps.

Lemma skel_pbuf_prealloc layer length max pcb apiflags first :
  keeps (same π)
    (tcp_pbuf_prealloc custom_free mem_avail garbage layer length max pcb apiflags first).
Proof. unfold tcp_pbuf_prealloc. frame. Qed.
Lemma skel_alloc_rom layer d :
  keeps (same π) (alloc_rom (F := F) (A := A) (X := X) custom_free mem_avail garbage layer d).
Proof. unfold alloc_rom. frame. Qed.
#[local] Hint Resolve skel_pbuf_prealloc skel_alloc_rom : keeps.
Lemma skel_write_checks pcb len :
  keeps (same π) (tcp_write_checks (CF := CF) (F := F) (A := A) (X := X) pcb len).
Proof. unfold tcp_write_checks. frame. Qed.
Lemma skel_write_tail pcb arg len mss queuelen apiflags :
  keeps (same π)
    (write_tail custom_free mem_avail garbage pcb arg len mss queuelen apiflags).
Proof. unfold write_tail. frame. Qed.
Lemma skel_write_pbuf pcb d mss oversize apiflags first :
  keeps (same π) (write_pbuf custom_free mem_avail garbage pcb d mss oversize apiflags first).
Proof. unfold write_pbuf. frame. Qed.
#[local] Hint Resolve skel_write_checks skel_write_tail skel_write_pbuf : keeps.
Lemma skel_write_loop n pcb arg len mss apiflags w :
  keeps (same π)
    (write_loop custom_free mem_avail garbage seg_avail n pcb arg len mss apiflags w).
Proof. revert w. induction n; intros w; simpl; frame. Qed.
Lemma skel_write_memerr pcb w : keeps (same π) (write_memerr custom_free pcb w).
Proof. unfold write_memerr. frame. Qed.
Lemma skel_write_commit pcb arg len apiflags w :
  keeps (same π) (write_commit (CF := CF) (F := F) (A := A) (X := X) pcb arg len apiflags w).
Proof. unfold write_commit, write_extend. frame. Qed.
#[local] Hint Resolve skel_write_loop skel_write_memerr skel_write_commit : keeps.
Lemma skel_write pcb arg len apiflags :
  keeps (same π) (tcp_write custom_free mem_avail garbage seg_avail pcb arg len apiflags).
Proof. unfold tcp_write. frame. Qed.

(** ** [tcp.c] *)

Lemma skel_ack_now pcb : keeps (same π) (tcp_ack_now (CF := CF) (F := F) (A := A) (X := X) pcb).
Proof. unfold tcp_ack_now. frame. Qed.
Lemma skel_ack pcb : keeps (same π) (tcp_ack (CF := CF) (F := F) (A := A) (X := X) pcb).
Proof. unfold tcp_ack. frame. Qed.
Lemma skel_set_changed c : keeps (same π) (set_changed (CF := CF) (F := F) (A := A) (X := X) c).
Proof. unfold set_changed. frame. Qed.
#[local] Hint Resolve skel_ack_now skel_ack skel_set_changed : keeps.
Lemma skel_pcb_purge pcb : keeps (same π) (tcp_pcb_purge custom_free pcb).
Proof. unfold tcp_pcb_purge. frame. Qed.
Lemma skel_update_rcv_ann_wnd pcb :
  keeps (same π) (lift (tcp_update_rcv_ann_wnd pcb)).
Proof.
  apply keeps_vars. unfold tcp_update_rcv_ann_wnd.
  repeat (keeps; try first [ apply keeps_tderef
    | apply keeps_tupdate; intros v b Hb; apply frame_proj; [|done]; unfold skeleton, heads; cbn;
      rewrite fmap_insert, insert_id; [done|]; by rewrite lookup_fmap, Hb ]).
Qed.
#[local] Hint Resolve skel_pcb_purge skel_update_rcv_ann_wnd : keeps.
Lemma skel_recved pcb len :
  keeps (same π) (tcp_recved custom_free mem_avail garbage output ip_frag pcb len).
Proof. unfold tcp_recved. frame. Qed.
#[local] Hint Resolve skel_recved : keeps.

Lemma skel_new_port : keeps (same π) (lift tcp_new_port).
Proof.
  apply keeps_vars. unfold tcp_new_port. generalize (Z.to_nat (TCP_LOCAL_PORT_RANGE_END
    - TCP_LOCAL_PORT_RANGE_START + 2)) as n. generalize 0 as k. intros k n. revert k.
  induction n as [|n IH]; intros k; cbn [tcp_new_port_again]; keeps.
  - apply keeps_modify. intros v. by apply frame_proj.
  - apply keeps_exists_in.
Qed.
End lists.

End frame.

(** A command that does nothing. *)
Lemma quiet_ret {CF F A X T} `{HL : Lens X tcp_vars} (a : T) :
  keeps (same (CF := CF) (F := F) (A := A) (X := X) (λ v, v)) (mret a).
Proof. by intros s b s' [= _ <-]. Qed.

#[export] Hint Resolve frame_skeleton frame_in : keeps.
#[export] Hint Resolve keeps_heap keeps_netifs keeps_get_vars keeps_lift_tderef keeps_is_listen
  keeps_not_listen keeps_lderef keeps_pfree keeps_ip_output keeps_seg_free keeps_segs_free keeps_rst
  skel_enqueue_flags skel_send_fin skel_send_empty_ack skel_output_local_ip skel_output
  skel_rexmit_rto skel_rexmit skel_rexmit_fast skel_keepalive skel_zero_window_probe skel_write
  skel_ack_now skel_ack skel_set_changed skel_pcb_purge skel_update_rcv_ann_wnd skel_recved
  skel_new_port : keeps.

(** Walk through a function that leaves the lists alone. *)
Ltac frame :=
  repeat (keeps; try first
    [ apply keeps_node; first [apply _|intros ?; by repeat case_match]
    | apply keeps_skel_modify; first [apply _|done] ]).

End TcpFrame.
