(* ===== verification/TcpProps.v ===== *)
(** * Properties of the input of segments

    What [tcp_input] does with the header length and the options of a segment. *)

From S2P Require Import Prelude RecordSet Def Ip4Addr InetChksum Netif Udp Pbuf Stack Ip4 Icmp.
From S2P Require Import Tcp TcpOut TcpCore TcpIn TcpFrame TcpRuns.

Module TcpProps.
Import RecordSet Def Ip4Addr InetChksum Netif Udp Pbuf Stack Ip4 Icmp Tcp TcpOut TcpCore TcpIn TcpFrame TcpRuns.

Section input.
Context {CF F A X : Type} `{HL : Lens X tcp_vars}.
Abbreviation stack := (stack CF F A X).

(** ** Steps *)

Definition iput (f : tcp_input_vars → tcp_input_vars) (s : stack) : stack :=
  lput ((tcp_of s) <|tcp_in ::= f|>) s.

Lemma bind_iupdate {B} f (k : unit → prog stack B) s : (iupdate f ≫= k) s = k () (iput f s).
Proof. apply bind_ret. unfold iupdate. by apply lift_ret. Qed.
Lemma tcp_of_iput f s : tcp_of (iput f s) = (tcp_of s) <|tcp_in ::= f|>.
Proof. unfold tcp_of, iput. cbn. by rewrite lget_lput. Qed.
Lemma bind_heap {B C} (m : prog (heap CF) C) (k : C → prog stack B) s a :
  m (st_pbufs s) = inr (a, st_pbufs s) → (lift m ≫= k) s = k a s.
Proof. intros E. by erewrite bind_lift_same. Qed.
Lemma tcp_deref_eq p (b : pbuf CF) h : h !! p = Some b → deref p h = inr (b, h).
Proof. intros E. unfold deref. cbv [mbind prog_bind pget pderef]. by rewrite E. Qed.

(** ** A header longer than the segment *)

Context (custom_free : CF → loc → prog (heap CF) unit).
Context (mem_avail : heap CF → Z → bool) (garbage : heap CF → nat → Z).
Context (output ip_frag : netif_loc → loc → Z → prog stack err_t).
Context (seg_avail pcb_avail : stack → bool).
Context (tcp_timer_needed : prog stack unit).
Context (call_app : app_call → prog stack err_t).

Abbreviation tcp_input := (tcp_input custom_free mem_avail garbage output ip_frag seg_avail pcb_avail
  tcp_timer_needed call_app).

Lemma input_ok_eq p inp (s : stack) b n c :
  let dest := current_iphdr_dest (st_ip_data s) in
  st_pbufs s !! p = Some b → SIZEOF_TCP_HDR ≤ p_len b →
  nderef inp (st_netifs s) = inr (n, st_netifs s) →
  ip4_addr_isbroadcast dest n || ip_addr_ismulticast dest = false →
  chain_of p (st_pbufs s) = inr (c, st_pbufs s) →
  input_ok p inp s =
    inr (inet_chksum_pseudo c IP_PROTO_TCP (p_tot_len b) (current_iphdr_src (st_ip_data s)) dest =? 0, s).
Proof.
  intros dest Hb Hlen Hn Hd Hc. unfold input_ok. rewrite (bind_heap _ _ _ _ (tcp_deref_eq _ _ _ Hb)).
  rewrite (proj2 (Z.ltb_ge _ _) Hlen), bind_get.
  erewrite bind_lift_same by exact Hn. fold dest. rewrite Hd. by rewrite (bind_heap _ _ _ _ Hc).
Qed.

(** Taking [k] bytes off the front of a pbuf. *)
Lemma pbuf_header_front p (b : pbuf CF) k h :
  h !! p = Some b → 0 < k ≤ p_len b → 0 ≤ p_payload b →
  pbuf_header (Some p) (- k) h =
    inr (true, <[p:=with_tot (u16 (p_tot_len b - k)) (with_len (u16 (p_len b - k))
                      (with_payload (p_payload b + k) b))]> h).
Proof.
  intros Hb Hk Hpay. unfold pbuf_header. rewrite (proj2 (Z.eqb_neq (- k) 0)) by lia.
  rewrite (bind_ret _ _ _ _ _ (tcp_deref_eq _ _ _ Hb)).
  rewrite bind_assert by (apply orb_true_iff; right; apply Z.leb_le; lia).
  rewrite (proj2 (Z.ltb_lt (- k) 0)), (proj2 (Z.ltb_ge (p_payload b - - k) 0)) by lia.
  replace (p_payload b - - k) with (p_payload b + k) by lia.
  set (f := λ x : pbuf CF, with_tot (u16 (p_tot_len x + - k)) (with_len (u16 (p_len x + - k))
              (with_payload (p_payload b + k) x))).
  assert (update p f h = inr ((), <[p:=f b]> h)) as Hup.
  { unfold update. by rewrite (bind_ret _ _ _ _ _ (tcp_deref_eq _ _ _ Hb)). }
  destruct (p_type b); by rewrite (bind_ret _ _ _ _ _ Hup).
Qed.

Lemma input_options_abort p (s : stack) b hdrlen :
  st_pbufs s !! p = Some b → p_next b = None → TCP_HLEN ≤ p_len b < hdrlen * 4 →
  hdrlen * 4 ≤ 60 → 0 ≤ p_payload b → input_options p hdrlen s = inl Abort.
Proof.
  intros Hb Hn Hlen Hmax Hpay. unfold input_options. rewrite bind_iupdate.
  rewrite (bind_heap _ _ (iput _ s) _ (tcp_deref_eq _ _ _ Hb)).
  rewrite (proj2 (Z.ltb_lt _ _)), (proj2 (Z.leb_le _ _)) by lia.
  assert (0 < TCP_HLEN ≤ p_len b) as Hk by (unfold TCP_HLEN in *; lia).
  erewrite bind_ret; [|apply lift_ret, (pbuf_header_front p b TCP_HLEN); done].
  erewrite bind_ret; [|apply lift_ret, tcp_deref_eq, lookup_insert_eq].
  unfold TCP_HLEN in *. rewrite bind_assert.
  - cbn. by rewrite Hn.
  - cbn. rewrite !u16_id by (unfold is_u16; lia). apply Z.leb_le. lia.
Qed.

(** C30: A segment that passes the checks of the checksum and the addresses, in one
    pbuf, and whose header length is more than there is of it, makes
    [tcp_input] abort the program; no connection is needed. *)
Theorem tcp_input_long_header_aborts p inp (s : stack) b n c hdrlen :
  let dest := current_iphdr_dest (st_ip_data s) in
  st_pbufs s !! p = Some b → p_next b = None → 0 ≤ p_payload b →
  nderef inp (st_netifs s) = inr (n, st_netifs s) →
  ip4_addr_isbroadcast dest n || ip_addr_ismulticast dest = false →
  chain_of p (st_pbufs s) = inr (c, st_pbufs s) →
  inet_chksum_pseudo c IP_PROTO_TCP (p_tot_len b) (current_iphdr_src (st_ip_data s)) dest = 0 →
  TCPH_HDRLEN (p, p_payload b) (st_pbufs s) = inr (hdrlen, st_pbufs s) →
  TCP_HLEN ≤ p_len b < hdrlen * 4 → hdrlen * 4 ≤ 60 →
  tcp_input p inp s = inl Abort.
Proof.
  intros dest Hb Hn Hpay Hnif Hd Hc Hsum Hh Hlen Hmax. unfold TcpIn.tcp_input.
  rewrite (bind_heap _ _ _ (p, p_payload b)); [|unfold payload; by rewrite (bind_ret _ _ _ _ _ (tcp_deref_eq _ _ _ Hb))].
  rewrite bind_iupdate. set (s1 := iput _ s).
  rewrite (bind_ret _ _ _ _ _ (input_ok_eq p inp s1 b n c Hb ltac:(unfold SIZEOF_TCP_HDR, TCP_HLEN in *; lia) Hnif Hd Hc)).
  change (st_ip_data s1) with (st_ip_data s). fold dest. rewrite Hsum. cbn [negb Z.eqb].
  rewrite (bind_heap _ _ s1 hdrlen Hh).
  by rewrite (bind_fault _ _ _ _ (input_options_abort p s1 b hdrlen Hb Hn Hlen Hmax Hpay)).
Qed.

End input.
(** Twenty bytes that claim a header of 24. *)
Definition long_header : pbuf unit :=
  mk_pbuf None (drop 20 (packet 5000 80 1 0 6 ACK 8000 [])) 0 20 20 PBUF_POOL 0 1 None.
Definition long_host : host :=
  mk_stack {[1%positive := long_header]} (st_netifs (run_start 0x0100000a)) udp_init 9
    (mk_ip_globals None None 0 0x0200000a 0x0100000a) (tcp_vars_init, ([], [])).

Lemma tcp_input_long_header_aborts_witness : run_tcp_input 1%positive 1%positive long_host = inl Abort.
Proof.
  eapply (tcp_input_long_header_aborts _ _ _ _ _ _ _ _ _ 1%positive 1%positive long_host long_header).
  - reflexivity.
  - reflexivity.
  - vm_compute. discriminate.
  - vm_compute. reflexivity.
  - vm_compute. reflexivity.
  - vm_compute. reflexivity.
  - vm_compute. reflexivity.
  - vm_compute. reflexivity.
  - vm_compute. split; [discriminate|reflexivity].
  - vm_compute. discriminate.
Defined.

End TcpProps.
