(* ===== verification/TcpLists.v ===== *)
(** * The lists of control blocks

    [tcp_impl.h] has four axioms about the lists: every block that is not
    CLOSED is in one of them, a block is in only one of them, the blocks of
    [tcp_listen_pcbs] are in LISTEN state and those of [tcp_tw_pcbs] in
    TIME-WAIT.  [lists_ok] states them; this file has the effect of the
    operations on lists. *)

From S2P Require Import Prelude Linked RecordSet Def Ip4Addr InetChksum Netif Udp Pbuf Stack Ip4 Icmp.
From S2P Require Import Tcp TcpOut TcpCore TcpIn TcpFrame.

Module TcpLists.
Import Linked RecordSet Def Ip4Addr InetChksum Netif Udp Pbuf Stack Ip4 Icmp Tcp TcpOut TcpCore TcpIn TcpFrame.

#[export] Instance pcb_list_eq_dec : EqDecision pcb_list.
Proof. solve_decision. Defined.

(** The list a block in this state can be in. *)
Definition home (st : tcp_state) : pcb_list :=
  match st with CLOSED => BOUND_PCBS | LISTEN => LISTEN_PCBS | TIME_WAIT => TW_PCBS
           | _ => ACTIVE_PCBS end.

(** All blocks; [next_of] looks at the listening ones first. *)
Definition nodes (v : tcp_vars) : gmap tloc node :=
  (lnode_of <$> tcp_listen_structs v) ∪ (node_of <$> tcp_structs v).

(** The addresses from a pointer on. *)
Fixpoint path (m : gmap tloc node) (p : option tloc) (l : list tloc) : Prop :=
  match l with
  | [] => p = None
  | x :: l' => p = Some x ∧ ∃ n, m !! x = Some n ∧ path m (n_next n) l'
  end.

(** The listening blocks are those of the shorter structure. *)
Definition sep (v : tcp_vars) : Prop :=
  ∀ l b, tcp_structs v !! l = Some b → tcp_listen_structs v !! l = None ∧ t_state b ≠ LISTEN.

(** The axioms, with the lists as sequences of addresses; the blocks of [skip]
    are between two lists. *)
Record lists_ok_with (ls : pcb_list → list tloc) (skip : list tloc) (v : tcp_vars) : Prop := {
  lo_path k : path (nodes v) (head_of k v) (ls k);
  lo_home k l : l ∈ ls k → ∃ n, nodes v !! l = Some n ∧ home (n_state n) = k
                                ∧ (k = BOUND_PCBS → n_has_port n = true);
  lo_all l n : nodes v !! l = Some n → n_state n ≠ CLOSED → l ∉ skip →
               l ∈ ls (home (n_state n));
  lo_skip l k : l ∈ skip → l ∉ ls k;
  lo_sep : sep v
}.
Definition lists_ok (v : tcp_vars) : Prop := ∃ ls, lists_ok_with ls [] v.

(** ** Paths *)

Lemma path_linked m p l : path m p l ↔ ∃ ls, linked n_next m p ls ∧ ls.*1 = l.
Proof.
  revert p. induction l as [|x l IH]; intros p; simpl.
  - split; [intros ->; exists []; by split; [constructor|]|].
    intros (ls & Hl & E). destruct ls; [|done]. by inversion Hl.
  - split.
    + intros (-> & n & En & (ls & Hls & <-)%IH). exists ((x, n) :: ls). by split; [constructor|].
    + intros (ls & Hl & E). destruct ls as [|[y n] ls]; [done|]. simplify_eq/=.
      inversion Hl; subst. split; [done|]. exists n. split; [done|]. apply IH. eauto.
Qed.

Lemma path_nodup m p l : path m p l → NoDup l.
Proof. intros (ls & Hl & <-)%path_linked. by eapply linked_nodup. Qed.
Lemma path_length m p l : path m p l → (length l ≤ size m)%nat.
Proof. intros (ls & Hl & <-)%path_linked. rewrite length_fmap. by eapply linked_length. Qed.
Lemma path_lookup m p l x : path m p l → x ∈ l → is_Some (m !! x).
Proof.
  revert p. induction l as [|y l IH]; intros p; [by intros _ ?%elem_of_nil|].
  intros (-> & n & En & Hp) [->|?]%elem_of_cons; [by exists n|eauto].
Qed.
Lemma path_agree m m' p l :
  path m p l → (∀ x, x ∈ l → n_next <$> m' !! x = n_next <$> m !! x) → path m' p l.
Proof.
  revert p. induction l as [|y l IH]; intros p; [done|].
  intros (-> & n & En & Hp) Hag. split; [done|].
  pose proof (Hag y (list_elem_of_here _ _)) as Hy. rewrite En in Hy.
  destruct (m' !! y) as [n'|]; [|done]. simpl in Hy. injection Hy as Hy. exists n'. split; [done|].
  rewrite Hy. apply IH; [done|]. intros x Hx. apply Hag. by right.
Qed.
Lemma path_insert_ne m p l x n : path m p l → x ∉ l → path (<[x:=n]> m) p l.
Proof.
  intros Hp Hx. eapply path_agree; [done|]. intros y Hy.
  rewrite lookup_insert_ne; [done|]. by intros ->.
Qed.

(** ** Blocks of both kinds *)

Definition with_n_next (x : option tloc) (n : node) : node := 
  mk_node (n_state n) (n_has_port n) (n_recv_null n) x.

Lemma nodes_lookup v l :
  nodes v !! l = match tcp_listen_structs v !! l with
                 | Some b => Some (lnode_of b)
                 | None => node_of <$> tcp_structs v !! l
                 end.
Proof.
  unfold nodes. rewrite lookup_union, !lookup_fmap.
  by destruct (tcp_listen_structs v !! l), (tcp_structs v !! l).
Qed.

Lemma next_of_eq v l :
  next_of l v = match nodes v !! l with Some n => inr (n_next n, v) | None => inl Wild end.
Proof.
  rewrite nodes_lookup. unfold next_of. rewrite (bind_ret _ _ _ _ _ eq_refl).
  destruct (tcp_listen_structs v !! l) as [b|] eqn:El.
  - rewrite bool_decide_true by eauto. unfold lderef. cbv [mbind prog_bind pget]. by rewrite El.
  - rewrite bool_decide_false by (by intros [? ?]). unfold tderef. cbv [mbind prog_bind pget].
    by destruct (tcp_structs v !! l).
Qed.

Definition same_heads (v v' : tcp_vars) : Prop := ∀ k, head_of k v' = head_of k v.
(** The blocks are where they were, with the same states and ports. *)
Definition same_info (m m' : gmap tloc node) : Prop :=
  ∀ l, with_n_next None <$> m' !! l = with_n_next None <$> m !! l.
(** What [sep] depends on. *)
Definition states (v : tcp_vars) : gmap tloc tcp_state * gset tloc :=
  (t_state <$> tcp_structs v, dom (tcp_listen_structs v)).

Lemma sep_states v v' : states v' = states v → sep v → sep v'.
Proof.
  intros [= Hs Hd] H l b' Hb'.
  pose proof (f_equal (.!! l) Hs) as Hl. rewrite !lookup_fmap, Hb' in Hl.
  destruct (tcp_structs v !! l) as [b|] eqn:Eb; [|done]. injection Hl as Hst.
  destruct (H _ _ Eb) as [Hn Hne]. rewrite Hst. split; [|done].
  apply not_elem_of_dom. rewrite Hd. by apply not_elem_of_dom.
Qed.

Lemma set_next_of_eq v l x n :
  nodes v !! l = Some n →
  ∃ v', set_next_of l x v = inr ((), v') ∧ nodes v' = <[l:=with_n_next x n]> (nodes v) ∧
        same_heads v v' ∧ states v' = states v.
Proof.
  rewrite nodes_lookup. intros E. unfold set_next_of. rewrite (bind_ret _ _ _ _ _ eq_refl).
  destruct (tcp_listen_structs v !! l) as [b|] eqn:El.
  - rewrite bool_decide_true by eauto. unfold lupdate, lderef. cbv [mbind prog_bind pget].
    rewrite El. injection E as <-. eexists. split; [done|]. split; [|split].
    + unfold nodes. cbn. rewrite fmap_insert, <-insert_union_l. done.
    + by intros [].
    + unfold states. cbn. rewrite dom_insert_L. f_equal.
      apply elem_of_dom_2 in El. set_solver.
  - rewrite bool_decide_false by (by intros [? ?]). unfold tupdate, tderef. cbv [mbind prog_bind pget].
    destruct (tcp_structs v !! l) as [b|] eqn:Eb; [|done]. injection E as <-.
    eexists. split; [done|]. split; [|split].
    + unfold nodes. cbn. rewrite fmap_insert, insert_union_r; [done|]. by rewrite lookup_fmap, El.
    + by intros [].
    + unfold states. cbn. rewrite fmap_insert. f_equal. apply insert_id. by rewrite lookup_fmap, Eb.
Qed.

Lemma nodes_size v : (size (nodes v) ≤ list_fuel v)%nat.
Proof.
  unfold nodes, list_fuel.
  rewrite <-(size_dom ((lnode_of <$> tcp_listen_structs v) ∪ _)), dom_union_L, !dom_fmap_L, size_union_alt.
  rewrite <-(size_dom (tcp_structs v)), <-(size_dom (tcp_listen_structs v)).
  assert (size (dom (tcp_structs v) ∖ dom (tcp_listen_structs v)) ≤ size (dom (tcp_structs v)))%nat
    by (apply subseteq_size; set_solver). lia.
Qed.

Abbreviation without x l := (filter (.≠ x) l).

Lemma without_id (x : tloc) (l : list tloc) : x ∉ l → without x l = l.
Proof.
  induction l as [|y l IH]; [done|]. rewrite not_elem_of_cons. intros [? ?].
  rewrite filter_cons_True by congruence. by rewrite IH.
Qed.

(** ** [TCP_RMV] *)

(** What removing [x] from the list [l] does to the blocks. *)
Record unlinked (x : tloc) (l : list tloc) (v v' : tcp_vars) : Prop := {
  ul_info : same_info (nodes v) (nodes v');
  ul_rest y : y ∉ l → y ≠ x → nodes v' !! y = nodes v !! y;
  ul_states : states v' = states v
}.

Lemma rmv_loop_spec x n l : ∀ fuel t v,
  path (nodes v) t l → (length l ≤ fuel)%nat → nodes v !! x = Some n → t ≠ Some x →
  ∃ v', rmv_loop fuel t x v = inr ((), v') ∧ path (nodes v') t (without x l) ∧
        unlinked x l v v' ∧ nodes v' !! x = Some n ∧ same_heads v v'.
Proof.
  induction l as [|y l IH]; intros fuel t v Hp Hf Hx Ht; simpl in Hp.
  { subst t. exists v. split; [by destruct fuel|]. done. }
  pose proof Hp as Hnd%(path_nodup _ _ (y :: l)). destruct Hp as (-> & ny & Ey & Hp).
  destruct fuel as [|fuel]; [simpl in Hf; lia|]. simpl.
  apply list.NoDup_cons in Hnd as [Hyl Hnd].
  assert (y ≠ x) as Hyx by congruence.
  rewrite filter_cons_True by congruence.
  rewrite (bind_ret (next_of y) _ v (n_next ny) v) by (by rewrite next_of_eq, Ey).
  case_bool_decide as Hn.
  - rewrite Hn in Hp. destruct l as [|x' l]; [done|]. destruct Hp as ([= <-] & n' & En' & Hp).
    rewrite Hx in En'. injection En' as <-.
    rewrite (bind_ret (next_of x) _ v (n_next n) v) by (by rewrite next_of_eq, Hx).
    destruct (set_next_of_eq v y (n_next n) ny Ey) as (v' & -> & Hn' & Hh & Hs).
    exists v'. apply list.NoDup_cons in Hnd as [Hxl _]. apply not_elem_of_cons in Hyl as [_ Hyl].
    rewrite filter_cons_False by (by intros H; apply H). rewrite without_id by done.
    split; [done|]. split; [|split; [|split; [|done]]].
    + split; [done|]. rewrite Hn'. exists (with_n_next (n_next n) ny).
      rewrite lookup_insert_eq. split; [done|]. by apply path_insert_ne.
    + split; [|..|done].
      * intros z. rewrite Hn'. destruct (decide (y = z)) as [->|]; [|by rewrite lookup_insert_ne].
        by rewrite lookup_insert_eq, Ey.
      * intros z Hz _. rewrite Hn', lookup_insert_ne; [done|]. intros ->. apply Hz. by left.
    + by rewrite Hn', lookup_insert_ne.
  - destruct (IH fuel (n_next ny) v Hp ltac:(simpl in Hf; lia) Hx Hn)
      as (v' & -> & Hp' & [Hi Hr Hs] & Hx' & Hh).
    exists v'. split; [done|]. split; [|split; [split|]]; try done.
    + split; [done|]. exists ny. by rewrite Hr.
    + intros z [? ?]%not_elem_of_cons Hz. by apply Hr.
Qed.

Lemma head_set k p v : head_of k (set_head_of k p v) = p.
Proof. by destruct k. Qed.
Lemma head_set_ne k k' p v : k' ≠ k → head_of k' (set_head_of k p v) = head_of k' v.
Proof. by destruct k, k'. Qed.
Lemma nodes_set_head k p v : nodes (set_head_of k p v) = nodes v.
Proof. by destruct k. Qed.
Lemma states_set_head k p v : states (set_head_of k p v) = states v.
Proof. by destruct k. Qed.

(** The list is right before [x] is marked. *)
Lemma TCP_RMV_found k x n l v :
  path (nodes v) (head_of k v) l → nodes v !! x = Some n →
  ∃ v', (if bool_decide (head_of k v = Some x)
         then (n ← next_of x; pmodify (set_head_of k n)) v
         else rmv_loop (list_fuel v) (head_of k v) x v) = inr ((), v') ∧
        path (nodes v') (head_of k v') (without x l) ∧ unlinked x l v v' ∧ nodes v' !! x = Some n ∧
        (∀ k', k' ≠ k → head_of k' v' = head_of k' v).
Proof.
  intros Hp Hx. case_bool_decide as Hh.
  - rewrite (bind_ret (next_of x) _ v (n_next n) v) by (by rewrite next_of_eq, Hx).
    exists (set_head_of k (n_next n) v).
    pose proof (path_nodup _ _ _ Hp) as Hnd. rewrite Hh in Hp.
    destruct l as [|x' l]; [done|]. destruct Hp as ([= <-] & n' & En' & Hp).
    rewrite Hx in En'. injection En' as <-.
    apply list.NoDup_cons in Hnd as [Hxl _].
    rewrite filter_cons_False by (by intros H; apply H).
    rewrite without_id, nodes_set_head, head_set by done.
    split; [done|]. split; [done|]. split; [|split; [done|]].
    + split; [intros ?|intros ? _ _|by rewrite states_set_head]; by rewrite nodes_set_head.
    + intros k'. apply head_set_ne.
  - destruct (rmv_loop_spec x n l (list_fuel v) (head_of k v) v Hp) as (v' & -> & Hp' & Hu & Hx' & Hsh).
    + pose proof (path_length _ _ _ Hp). pose proof (nodes_size v). lia.
    + done.
    + done.
    + exists v'. split; [done|]. rewrite Hsh. split; [done|]. split; [done|]. split; [done|].
      intros k' _. apply Hsh.
Qed.

Lemma TCP_RMV_spec k x n l v :
  path (nodes v) (head_of k v) l → nodes v !! x = Some n →
  ∃ v', TCP_RMV k x v = inr ((), v') ∧ path (nodes v') (head_of k v') (without x l) ∧
        unlinked x l v v' ∧ nodes v' !! x = Some (with_n_next None n) ∧
        (∀ k', k' ≠ k → head_of k' v' = head_of k' v).
Proof.
  intros Hp Hx. destruct (TCP_RMV_found k x n l v Hp Hx) as (v1 & E & Hp1 & [Hi Hr Hs] & Hx1 & Hh).
  destruct (set_next_of_eq v1 x None n Hx1) as (v' & E' & Hn' & Hh' & Hs').
  exists v'. split; [|split; [|split; [|split]]].
  - unfold TCP_RMV. rewrite bind_get. etrans; [apply bind_ret|exact E'].
    by case_bool_decide.
  - rewrite Hh', Hn'. apply path_insert_ne; [done|]. rewrite list_elem_of_filter. by intros [[] _].
  - split.
    + intros z. rewrite Hn'. destruct (decide (x = z)) as [<-|]; [|by rewrite lookup_insert_ne].
      by rewrite lookup_insert_eq, Hx.
    + intros z Hz Hne. rewrite Hn', lookup_insert_ne by done. by apply Hr.
    + congruence.
  - by rewrite Hn', lookup_insert_eq.
  - intros k' Hk'. rewrite Hh'. by apply Hh.
Qed.

(** [reg]: the block becomes the first of the list. *)
Lemma reg_spec k x n v :
  nodes v !! x = Some n →
  ∃ v', reg k x v = inr ((), v') ∧ nodes v' = <[x:=with_n_next (head_of k v) n]> (nodes v) ∧
        head_of k v' = Some x ∧ (∀ k', k' ≠ k → head_of k' v' = head_of k' v) ∧ states v' = states v.
Proof.
  intros Hx. destruct (set_next_of_eq v x (head_of k v) n Hx) as (v1 & E & Hn & Hh & Hs).
  exists (set_head_of k (Some x) v1). rewrite nodes_set_head, head_set, states_set_head.
  split; [|split; [done|split; [done|split; [|done]]]].
  - unfold reg. rewrite bind_get, (bind_ret _ _ _ _ _ E). done.
  - intros k' Hk'. rewrite head_set_ne by done. apply Hh.
Qed.

(** ** The axioms and the operations *)

Lemma same_info_lookup m m' l n' :
  same_info m m' → m' !! l = Some n' →
  ∃ n, m !! l = Some n ∧ n_state n = n_state n' ∧ n_has_port n = n_has_port n'.
Proof.
  intros H E. specialize (H l). rewrite E in H. destruct (m !! l) as [n|]; [|done].
  injection H as ? ? _. by exists n.
Qed.
Lemma same_info_sym m m' : same_info m m' → same_info m' m.
Proof. intros H l. by rewrite H. Qed.

(** A list without one of its blocks. *)
Definition drop_from (k : pcb_list) (x : tloc) (ls : pcb_list → list tloc) (k' : pcb_list) : list tloc :=
  if decide (k' = k) then without x (ls k') else ls k'.
Definition add_to (k : pcb_list) (x : tloc) (ls : pcb_list → list tloc) (k' : pcb_list) : list tloc :=
  if decide (k' = k) then x :: ls k' else ls k'.

Lemma elem_drop_from k x ls k' y : y ∈ drop_from k x ls k' → y ∈ ls k'.
Proof. unfold drop_from. case_decide; [|done]. rewrite list_elem_of_filter. by intros []. Qed.

(** A block is in the list of its state only. *)
Lemma lo_in ls D v k x n :
  lists_ok_with ls D v → x ∈ ls k → nodes v !! x = Some n → k = home (n_state n).
Proof. intros H (n' & E & <- & _)%(lo_home _ _ _ H) E'. congruence. Qed.

(** The axioms hold but for the state of [x]. *)
Record lists_ok_but (x : tloc) (ls : pcb_list → list tloc) (skip : list tloc) (v : tcp_vars) : Prop := {
  lb_path k : path (nodes v) (head_of k v) (ls k);
  lb_home k l : l ∈ ls k → l ≠ x → ∃ n, nodes v !! l = Some n ∧ home (n_state n) = k
                                        ∧ (k = BOUND_PCBS → n_has_port n = true);
  lb_all l n : nodes v !! l = Some n → n_state n ≠ CLOSED → l ∉ skip → l ≠ x →
               l ∈ ls (home (n_state n));
  lb_skip l k : l ∈ skip → l ∉ ls k;
  lb_sep : sep v
}.

Lemma lo_but x ls D v : lists_ok_with ls D v → lists_ok_but x ls D v.
Proof. intros []. split; eauto. Qed.

(** The block [x] has another state, but is where it was. *)
Lemma lb_insert x n n' ls D v v' :
  lists_ok_but x ls D v → nodes v !! x = Some n → n_next n' = n_next n →
  nodes v' = <[x:=n']> (nodes v) → same_heads v v' → sep v' → lists_ok_but x ls D v'.
Proof.
  intros [Hp Hh Ha Hs _] Hx Hn Hn' Hsh Hsep.
  assert (∀ l, l ≠ x → nodes v' !! l = nodes v !! l) as Hne
    by (intros; by rewrite Hn', lookup_insert_ne).
  split.
  - intros k. rewrite Hsh. eapply path_agree; [done|]. intros l _.
    destruct (decide (l = x)) as [->|]; [|by rewrite Hne].
    by rewrite Hn', lookup_insert_eq, Hx; simpl; rewrite Hn.
  - intros k l Hl Hlx. rewrite Hne by done. by apply Hh.
  - intros l m Hl Hc Hd Hlx. rewrite Hne in Hl by done. by apply Ha.
  - done.
  - done.
Qed.

Lemma lb_unlinked x k ls D v v' :
  lists_ok_but x ls D v → (∀ k', x ∈ ls k' → k' = k) →
  path (nodes v') (head_of k v') (without x (ls k)) → unlinked x (ls k) v v' →
  (∀ k', k' ≠ k → head_of k' v' = head_of k' v) →
  lists_ok_with (drop_from k x ls) (x :: D) v'.
Proof.
  intros H Hk Hp [Hi Hr Hs] Hh.
  assert (∀ k', x ∉ drop_from k x ls k') as Hout.
  { intros k' Hin. rewrite (Hk k' (elem_drop_from _ _ _ _ _ Hin)) in Hin. unfold drop_from in Hin.
    rewrite decide_True in Hin by done. by apply list_elem_of_filter in Hin as [[] _]. }
  split.
  - intros k'. unfold drop_from. case_decide as Hkk; [by subst|].
    rewrite Hh by done. eapply path_agree; [apply (lb_path _ _ _ _ H)|]. intros y Hy.
    assert (y ≠ x) as Hyx by (intros ->; by apply Hkk, Hk).
    f_equal. apply Hr; [|done]. intros Hy'. apply Hkk.
    destruct (lb_home _ _ _ _ H _ _ Hy Hyx) as (n1 & E1 & <- & _).
    destruct (lb_home _ _ _ _ H _ _ Hy' Hyx) as (n2 & E2 & <- & _). congruence.
  - intros k' y Hy. assert (y ≠ x) as Hyx by (intros ->; by eapply Hout).
    apply elem_drop_from in Hy. destruct (lb_home _ _ _ _ H _ _ Hy Hyx) as (ny & Ey & Hky & Hport).
    destruct (same_info_lookup _ _ y ny (same_info_sym _ _ Hi) Ey) as (n' & E' & Hst & Hpt).
    exists n'. by rewrite Hst, Hpt.
  - intros y n' Ey Hc [Hyx Hy]%not_elem_of_cons.
    destruct (same_info_lookup _ _ _ _ Hi Ey) as (n1 & E1 & Hst & _). rewrite <-Hst in *.
    pose proof (lb_all _ _ _ _ H _ _ E1 Hc Hy Hyx) as Hin. unfold drop_from. case_decide; [|done].
    by apply list_elem_of_filter.
  - intros y k' [->|Hy]%elem_of_cons; [apply Hout|].
    intros Hin%elem_drop_from. by eapply (lb_skip _ _ _ _ H).
  - eapply sep_states; [done|]. apply (lb_sep _ _ _ _ H).
Qed.

Lemma lb_rmv x n k ls D v :
  lists_ok_but x ls D v → nodes v !! x = Some n → (∀ k', x ∈ ls k' → k' = k) →
  ∃ v', TCP_RMV k x v = inr ((), v') ∧ lists_ok_with (drop_from k x ls) (x :: D) v' ∧
        nodes v' !! x = Some (with_n_next None n) ∧ states v' = states v.
Proof.
  intros H Hx Hk. destruct (TCP_RMV_spec k x n (ls k) v (lb_path _ _ _ _ H k) Hx)
    as (v' & E & Hp & Hu & Hx' & Hh).
  exists v'. split; [done|]. split; [by eapply lb_unlinked|]. by destruct Hu.
Qed.

(** A block is taken out through the one before it. *)
Lemma rmv_loop_at x q l2 l1 : ∀ fuel t v,
  path (nodes v) t (l1 ++ q :: x :: l2) → (length (l1 ++ q :: x :: l2) ≤ fuel)%nat →
  rmv_loop fuel t x v = (n ← next_of x; set_next_of q n) v.
Proof.
  induction l1 as [|y l1 IH]; intros fuel t v Hp Hf; simpl in Hp.
  - destruct Hp as (-> & n & En & Hn & _). destruct fuel as [|fuel]; [simpl in Hf; lia|]. cbn [rmv_loop].
    rewrite (bind_ret (next_of q) _ v (Some x) v) by (by rewrite next_of_eq, En, Hn).
    by rewrite bool_decide_true.
  - pose proof Hp as Hnd%(path_nodup _ _ (y :: l1 ++ q :: x :: l2)).
    destruct Hp as (-> & n & En & Hp). destruct fuel as [|fuel]; [simpl in Hf; lia|]. cbn [rmv_loop].
    rewrite (bind_ret (next_of y) _ v (n_next n) v) by (by rewrite next_of_eq, En).
    rewrite bool_decide_false; [apply IH; [done|simpl in Hf; lia]|].
    intros Hn. rewrite Hn in Hp. destruct l1 as [|z l1]; simpl in Hp, Hnd; destruct Hp as ([= ->] & _).
    + apply list.NoDup_cons in Hnd as [_ Hnd]. apply list.NoDup_cons in Hnd as [Hq _]. apply Hq. by left.
    + apply list.NoDup_cons in Hnd as [_ Hnd]. apply list.NoDup_cons in Hnd as [Hz _]. apply Hz.
      rewrite elem_of_app, !elem_of_cons. auto.
Qed.
Lemma lo_unlink ls D v k x q l1 l2 :
  lists_ok_with ls D v → ls k = l1 ++ q :: x :: l2 →
  ∃ v', (n ← next_of x; set_next_of q n) v = inr ((), v') ∧
        lists_ok_with (drop_from k x ls) (x :: D) v' ∧ nodes v' !! x = nodes v !! x ∧ states v' = states v.
Proof.
  intros H Hl. pose proof (lo_path _ _ _ H k) as Hp.
  destruct (lo_home _ _ _ H k x) as (n & Hx & _ & _); [rewrite Hl; set_solver|].
  destruct (TCP_RMV_found k x n (ls k) v Hp Hx) as (v' & E & Hp' & Hu & Hx' & Hh).
  pose proof (path_nodup _ _ _ Hp) as Hnd. rewrite Hl in Hp, Hnd.
  assert (head_of k v ≠ Some x) as Hhd.
  { intros Hhd. rewrite Hhd in Hp. destruct l1 as [|y l1]; simpl in Hp, Hnd; destruct Hp as ([= ->] & _);
      apply list.NoDup_cons in Hnd as [Hy _]; apply Hy; [by left|].
    rewrite elem_of_app, !elem_of_cons. auto. }
  rewrite bool_decide_false in E by done. rewrite (rmv_loop_at x q l2 l1) in E; [|done|].
  2: { pose proof (path_length _ _ _ Hp). pose proof (nodes_size v). lia. }
  exists v'. split; [done|]. split; [|split; [congruence|by destruct Hu]].
  eapply lb_unlinked; [by apply lo_but| |done..].
  intros k' Hk'. rewrite (lo_in _ _ _ _ _ _ H Hk' Hx). symmetry.
  eapply lo_in; [done| |done]. rewrite Hl. set_solver.
Qed.

Lemma lo_reg ls D v x n :
  lists_ok_with ls (x :: D) v → nodes v !! x = Some n → x ∉ D →
  (home (n_state n) = BOUND_PCBS → n_has_port n = true) →
  ∃ v', reg (home (n_state n)) x v = inr ((), v') ∧
        lists_ok_with (add_to (home (n_state n)) x ls) D v' ∧ states v' = states v.
Proof.
  intros H Hx HxD Hport. set (k := home (n_state n)) in *.
  destruct (reg_spec k x n v Hx) as (v' & E & Hn & Hh & Hh' & Hs).
  exists v'. split; [done|]. split; [|done].
  assert (∀ k', x ∉ ls k') as Hout by (intros k'; apply (lo_skip _ _ _ H); by left).
  split.
  - intros k'. unfold add_to. case_decide as Hk.
    + subst k'. rewrite Hh. split; [done|]. rewrite Hn, lookup_insert_eq.
      exists (with_n_next (head_of k v) n). split; [done|].
      apply path_insert_ne; [apply (lo_path _ _ _ H)|done].
    + rewrite Hh', Hn by done. apply path_insert_ne; [apply (lo_path _ _ _ H)|done].
  - intros k' y Hy. rewrite Hn. destruct (decide (x = y)) as [<-|Hne].
    + rewrite lookup_insert_eq. eexists. split; [done|]. simpl.
      unfold add_to in Hy. case_decide; [by subst|]. by apply Hout in Hy.
    + rewrite lookup_insert_ne by done. apply (lo_home _ _ _ H).
      unfold add_to in Hy. case_decide; [|done]. by apply elem_of_cons in Hy as [->|].
  - intros y ny. rewrite Hn. destruct (decide (x = y)) as [<-|Hne].
    + rewrite lookup_insert_eq. intros [= <-] _ _. simpl. unfold add_to.
      rewrite decide_True by done. by left.
    + rewrite lookup_insert_ne by done. intros Ey Hc Hy. unfold add_to.
      assert (y ∈ ls (home (n_state ny))) as Hin.
      { apply (lo_all _ _ _ H); [done|done|]. rewrite not_elem_of_cons. by split. }
      case_decide; [by right|done].
  - intros y k' Hy Hin. assert (y ∉ ls k') as Hy' by (apply (lo_skip _ _ _ H); by right).
    unfold add_to in Hin. case_decide; [|done]. by apply elem_of_cons in Hin as [->|].
  - eapply sep_states; [done|]. apply (lo_sep _ _ _ H).
Qed.

(** ** Blocks that come and go *)

Lemma lo_skeleton ls D v v' : skeleton v = skeleton v' → lists_ok_with ls D v → lists_ok_with ls D v'.
Proof.
  intros [= Hn Hl H1 H2 H3 H4] [Hp Hh Ha Hs Hsep].
  assert (nodes v' = nodes v) as En by (unfold nodes; by rewrite Hn, Hl).
  split.
  - intros k. rewrite En. replace (head_of k v') with (head_of k v) by (by destruct k). apply Hp.
  - by rewrite En.
  - by rewrite En.
  - done.
  - intros l b Hb. pose proof (f_equal (.!! l) Hn) as Hnl. rewrite !lookup_fmap, Hb in Hnl.
    destruct (tcp_structs v !! l) as [b0|] eqn:Eb; [|done]. injection Hnl as Hst _ _ _.
    destruct (Hsep _ _ Eb) as [Hn0 Hne]. rewrite <-Hst. split; [|done].
    pose proof (f_equal (.!! l) Hl) as Hll. rewrite !lookup_fmap, Hn0 in Hll.
    by destruct (tcp_listen_structs v' !! l).
Qed.

(** Only the states, ports and pointers matter. *)
Definition n_info (n : node) : tcp_state * bool * option tloc := (n_state n, n_has_port n, n_next n).
Lemma lo_info ls D v v' :
  (∀ l, n_info <$> nodes v' !! l = n_info <$> nodes v !! l) → same_heads v v' → sep v' →
  lists_ok_with ls D v → lists_ok_with ls D v'.
Proof.
  intros Hi Hh Hsep [Hp Hho Ha Hs _].
  assert (∀ l n, nodes v !! l = Some n → ∃ n', nodes v' !! l = Some n' ∧ n_info n' = n_info n) as Hto.
  { intros l n E. specialize (Hi l). rewrite E in Hi. destruct (nodes v' !! l) as [n'|]; [|done].
    injection Hi as Hi. exists n'. split; [done|]. unfold n_info. congruence. }
  split; [..|done].
  - intros k. rewrite Hh. eapply path_agree; [done|]. intros x _. specialize (Hi x).
    destruct (nodes v' !! x), (nodes v !! x); try done. injection Hi as _ _ Hn. simpl. by rewrite Hn.
  - intros k l (n & En & Hk & Hport)%Hho. destruct (Hto _ _ En) as (n' & En' & [= H1 H2 _]).
    exists n'. by rewrite H1, H2.
  - intros l n' En' Hc Hd. specialize (Hi l). rewrite En' in Hi.
    destruct (nodes v !! l) as [n|] eqn:En; [|done]. injection Hi as H1 _ _. rewrite H1 in *. by apply Ha.
  - done.
Qed.

(** A CLOSED block that is in no list may be taken as out of the lists, and
    the other way round. *)
Lemma lo_detach ls D v x n :
  lists_ok_with ls D v → nodes v !! x = Some n → x ∉ ls (home (n_state n)) →
  lists_ok_with ls (x :: D) v.
Proof.
  intros H Hx Hl. destruct H as [Hp Hh Ha Hs Hsep] eqn:EH. split; [done|done| |..|done].
  - intros l m Em Hc [_ ?]%not_elem_of_cons. by apply Ha.
  - intros l k [->|?]%elem_of_cons Hin; [|by eapply Hs].
    destruct (Hh _ _ Hin) as (m & Em & <- & _). congruence.
Qed.
Lemma lo_attach ls D v x :
  lists_ok_with ls (x :: D) v → (∀ n, nodes v !! x = Some n → n_state n = CLOSED) →
  lists_ok_with ls D v.
Proof.
  intros [Hp Hh Ha Hs Hsep] Hx. split; [done|done| |..|done].
  - intros l m Em Hc Hl. destruct (decide (l = x)) as [->|]; [by apply Hx in Em|].
    apply Ha; [done|done|]. rewrite not_elem_of_cons. by split.
  - intros l k Hl. apply Hs. by right.
Qed.

(** A change of the blocks at [x], which is in no list. *)
Lemma lo_at ls D v v' x :
  lists_ok_with ls (x :: D) v → (∀ l, l ≠ x → nodes v' !! l = nodes v !! l) → same_heads v v' →
  sep v' → lists_ok_with ls (x :: D) v'.
Proof.
  intros [Hp Hh Ha Hs _] Hne Hsh Hsep.
  assert (∀ k l, l ∈ ls k → l ≠ x) as Hx by (intros k l Hl ->; by eapply Hs; [left|]).
  split.
  - intros k. rewrite Hsh. eapply path_agree; [done|]. intros l Hl. by rewrite Hne by eauto.
  - intros k l Hl. rewrite Hne by eauto. by apply Hh.
  - intros l n Hl Hc Hd. pose proof Hd as [Hlx _]%not_elem_of_cons.
    rewrite Hne in Hl by done. by apply Ha.
  - done.
  - done.
Qed.
Lemma lo_forget ls D v x :
  lists_ok_with ls (x :: D) v → nodes v !! x = None → lists_ok_with ls D v.
Proof. intros H Hx. eapply lo_attach; [done|]. by rewrite Hx. Qed.
(** An address without a block is in no list. *)
Lemma lo_unused ls D v x :
  lists_ok_with ls D v → nodes v !! x = None → lists_ok_with ls (x :: D) v.
Proof.
  intros [Hp Hh Ha Hs Hsep] Hx. split; [done|done| |..|done].
  - intros l n Hl Hc [_ ?]%not_elem_of_cons. by apply Ha.
  - intros l k [->|?]%elem_of_cons; [|by apply Hs].
    intros (n & En & _)%Hh. congruence.
Qed.

End TcpLists.
