(* ===== verification/TcpInv.v ===== *)
(** * The functions that keep the lists

    The functions of [tcp.c] keep [lists_ok], whatever packets, memory and the
    interface do: closing, opening, aborting.  Two functions need what their
    comments ask for: [tcp_bind] a block that is not bound yet, and
    [tcp_abort] one that is not bound and unconnected. *)

From S2P Require Import Prelude RecordSet Def Ip4Addr InetChksum Netif Udp Pbuf Stack Ip4 Icmp.
From S2P Require Import Tcp TcpOut TcpCore TcpIn TcpFrame TcpLists.

Module TcpInv.
Import RecordSet Def Ip4Addr InetChksum Netif Udp Pbuf Stack Ip4 Icmp Tcp TcpOut TcpCore TcpIn TcpFrame TcpLists.

(** ** Assertions *)

Definition LO (D : list tloc) (v : tcp_vars) : Prop := ∃ ls, lists_ok_with ls D v.
Definition AT (x : tloc) (st : tcp_state) (v : tcp_vars) : Prop :=
  t_state <$> tcp_structs v !! x = Some st.

(** An assertion about the skeleton. *)
Definition skel_prop (P : tcp_vars → Prop) : Prop := ∀ v v', skeleton v = skeleton v' → P v → P v'.

Lemma skel_LO D : skel_prop (LO D).
Proof. intros v v' E [ls H]. exists ls. by eapply lo_skeleton. Qed.
Lemma skel_AT x st : skel_prop (AT x st).
Proof.
  intros v v' [= Hn _ _ _ _ _] H. unfold AT in *. pose proof (f_equal (.!! x) Hn) as Hx.
  rewrite !lookup_fmap in Hx. destruct (tcp_structs v !! x), (tcp_structs v' !! x); try done.
  injection Hx as Hst _ _ _. simpl in H. by rewrite Hst in H.
Qed.
Lemma skel_and P Q : skel_prop P → skel_prop Q → skel_prop (λ v, P v ∧ Q v).
Proof. intros HP HQ v v' E [? ?]. split; eauto. Qed.
Create HintDb skel discriminated.
#[export] Hint Resolve skel_LO skel_AT skel_and : skel.

Lemma AT_node x st v D :
  LO D v → AT x st v → ∃ b, tcp_structs v !! x = Some b ∧ t_state b = st ∧ st ≠ LISTEN ∧
                            nodes v !! x = Some (node_of b).
Proof.
  intros [ls H] HA. unfold AT in HA. destruct (tcp_structs v !! x) as [b|] eqn:E; [|done].
  injection HA as <-. exists b. destruct (lo_sep _ _ _ H _ _ E) as [El Hne].
  by rewrite nodes_lookup, El, E.
Qed.

(** ** The operations on lists *)

Lemma hoare_rmv D x st k :
  home st = k →
  hoare (λ v, LO D v ∧ AT x st v) (TCP_RMV k x) (λ _ v, LO (x :: D) v ∧ AT x st v).
Proof.
  intros <- v [] v' [HL HA] E. destruct (AT_node _ _ _ _ HL HA) as (b & Eb & <- & _ & Hx).
  destruct HL as [ls HL]. destruct (lb_rmv x (node_of b) (home (t_state b)) ls D v) as (v1 & E1 & H1 & _ & Hs).
  - by apply lo_but.
  - done.
  - intros k' Hk'. by rewrite (lo_in _ _ _ _ _ _ HL Hk' Hx).
  - rewrite E1 in E. injection E as <-. split; [by eexists|].
    injection Hs as Hs _. unfold AT. rewrite <-lookup_fmap, Hs, lookup_fmap. by rewrite Eb.
Qed.

(** A block that is in no list. *)
Lemma hoare_rmv_none D x st k :
  hoare (λ v, LO (x :: D) v ∧ AT x st v) (TCP_RMV k x) (λ _ v, LO (x :: D) v ∧ AT x st v).
Proof.
  intros v [] v' [HL HA] E. destruct (AT_node _ _ _ _ HL HA) as (b & Eb & <- & _ & Hx).
  destruct HL as [ls HL]. destruct (lb_rmv x (node_of b) k ls (x :: D) v) as (v1 & E1 & H1 & _ & Hs).
  - by apply lo_but.
  - done.
  - intros k' Hk'. exfalso. eapply (lo_skip _ _ _ HL); [by left|done].
  - rewrite E1 in E. injection E as <-. split.
    + exists (drop_from k x ls). destruct H1 as [Hp Hh Ha Hsk Hsep]. split; try done.
      * intros l n Hn Hc Hl. apply Ha; [done..|]. set_solver.
      * intros l k' Hl. apply Hsk. by right.
    + injection Hs as Hs _. unfold AT. rewrite <-lookup_fmap, Hs, lookup_fmap. by rewrite Eb.
Qed.

Lemma hoare_reg D x st k :
  home st = k → k ≠ BOUND_PCBS → x ∉ D →
  hoare (λ v, LO (x :: D) v ∧ AT x st v) (reg k x) (λ _ v, LO D v ∧ AT x st v).
Proof.
  intros <- Hk HD v [] v' [HL HA] E. destruct (AT_node _ _ _ _ HL HA) as (b & Eb & <- & _ & Hx).
  destruct HL as [ls HL]. destruct (lo_reg ls D v x (node_of b) HL Hx HD) as (v1 & E1 & H1 & Hs); [done|].
  simpl in E1. rewrite E1 in E. injection E as <-. split; [by eexists|].
  injection Hs as Hs _. unfold AT. rewrite <-lookup_fmap, Hs, lookup_fmap. by rewrite Eb.
Qed.

(** [tupdate] of a block, and what that does to the blocks. *)
Lemma tupdate_inv x f v v' D st :
  LO D v → AT x st v → tupdate x f v = inr ((), v') →
  ∃ b, tcp_structs v !! x = Some b ∧ t_state b = st ∧ nodes v !! x = Some (node_of b) ∧
       nodes v' = <[x:=node_of (f b)]> (nodes v) ∧ same_heads v v' ∧
       tcp_structs v' = <[x:=f b]> (tcp_structs v) ∧ (t_state (f b) ≠ LISTEN → sep v').
Proof.
  intros HL HA E. destruct (AT_node _ _ _ _ HL HA) as (b & Eb & <- & _ & Hx).
  destruct HL as [ls HL]. pose proof (lo_sep _ _ _ HL) as Hsep. destruct (Hsep _ _ Eb) as [El _].
  unfold tupdate, tderef in E. cbv [mbind prog_bind pget] in E. rewrite Eb in E. injection E as <-.
  exists b. split; [done|]. split; [done|]. split; [done|]. split; [|split; [by intros []|split; [done|]]].
  - unfold nodes. cbn. rewrite fmap_insert, insert_union_r; [done|]. by rewrite lookup_fmap, El.
  - intros Hne l b'. cbn. destruct (decide (x = l)) as [<-|?].
    + rewrite lookup_insert_eq. by intros [= <-].
    + rewrite lookup_insert_ne by done. apply Hsep.
Qed.

(** The state of a block that is in no list. *)
Lemma hoare_state D x st st' f :
  (∀ b, t_state (f b) = st') → st' ≠ LISTEN →
  hoare (λ v, LO (x :: D) v ∧ AT x st v) (tupdate x f) (λ _ v, LO (x :: D) v ∧ AT x st' v).
Proof.
  intros Hf Hne v [] v' [HL HA] E.
  destruct (tupdate_inv _ _ _ _ _ _ HL HA E) as (b & Eb & _ & _ & Hn & Hh & Hs & Hsep).
  destruct HL as [ls HL]. split.
  - exists ls. eapply lo_at; [done| |done|].
    + intros l Hl. by rewrite Hn, lookup_insert_ne.
    + apply Hsep. by rewrite Hf.
  - unfold AT. by rewrite Hs, lookup_insert_eq; simpl; rewrite Hf.
Qed.

(** A change of state within a list. *)
Lemma hoare_within D x st st' f :
  (∀ b, node_of (f b) = node_of (b <|t_state := st'|>)) →
  home st = home st' → home st ≠ BOUND_PCBS → st' ≠ LISTEN →
  hoare (λ v, LO D v ∧ AT x st v) (tupdate x f) (λ _ v, LO D v ∧ AT x st' v).
Proof.
  intros Hf Hh Hb Hne v [] v' [HL HA] E.
  destruct (tupdate_inv _ _ _ _ _ _ HL HA E) as (b & Eb & Hst & Hx & Hn & Hsh & Hs & Hsep).
  assert (t_state (f b) = st') as Hst' by exact (f_equal n_state (Hf b)).
  destruct HL as [ls HL]. split; [|unfold AT; rewrite Hs, lookup_insert_eq; simpl; by rewrite Hst'].
  rewrite Hf in Hn. set (b' := b <|t_state := st'|>) in *.
  exists ls. pose proof (lb_insert x _ (node_of b') _ _ v v' (lo_but x _ _ _ HL) Hx
    eq_refl Hn Hsh ltac:(apply Hsep; congruence)) as [Hp Hho Ha Hsk Hse].
  assert (nodes v' !! x = Some (node_of b')) as Hx' by by rewrite Hn, lookup_insert_eq.
  split; [done| | |done|done].
  - intros k l Hl. destruct (decide (l = x)) as [->|]; [|by apply Hho].
    eexists. split; [done|]. rewrite (lo_in _ _ _ _ _ _ HL Hl Hx). simpl. rewrite Hst.
    split; [done|]. by intros ?.
  - intros l n Hl Hc Hd. destruct (decide (l = x)) as [->|]; [|by apply Ha].
    rewrite Hx' in Hl. injection Hl as <-. simpl. rewrite <-Hh.
    pose proof (lo_all _ _ _ HL x (node_of b) Hx) as Hin. simpl in Hin. rewrite Hst in Hin.
    apply Hin; [|done]. intros ->. by apply Hb.
Qed.
Lemma hoare_state_home D x st st' :
  home st = home st' → home st ≠ BOUND_PCBS → st' ≠ LISTEN →
  hoare (λ v, LO D v ∧ AT x st v) (tupdate x (λ b, b <|t_state := st'|>)) (λ _ v, LO D v ∧ AT x st' v).
Proof. by apply hoare_within. Qed.

(** A change of something else. *)
Lemma hoare_info D x f :
  (∀ b, n_info (node_of (f b)) = n_info (node_of b)) → hoare (LO D) (tupdate x f) (λ _, LO D).
Proof.
  intros Hf v [] v' HL E. destruct (tcp_structs v !! x) as [b|] eqn:Eb.
  2: { unfold tupdate, tderef in E. cbv [mbind prog_bind pget] in E. by rewrite Eb in E. }
  assert (AT x (t_state b) v) as HA by (unfold AT; by rewrite Eb).
  destruct (tupdate_inv _ _ _ _ _ _ HL HA E) as (b' & Eb' & _ & Hx & Hn & Hsh & _ & Hsep).
  rewrite Eb in Eb'. injection Eb' as <-. destruct (AT_node _ _ _ _ HL HA) as (_ & _ & _ & Hne & _).
  destruct HL as [ls HL]. exists ls. eapply lo_info; [|done| |done].
  - intros l. rewrite Hn. destruct (decide (x = l)) as [<-|]; [|by rewrite lookup_insert_ne].
    rewrite lookup_insert_eq, Hx. simpl. by rewrite Hf.
  - apply Hsep. specialize (Hf b). injection Hf as -> _ _. done.
Qed.
Lemma hoare_free D x : hoare (LO (x :: D)) (tcp_free x) (λ _, LO D).
Proof.
  intros v [] v' [ls HL] E. unfold tcp_free, tderef in E. cbv [mbind prog_bind pget] in E.
  destruct (tcp_structs v !! x) as [b|] eqn:Eb; [|done]. injection E as <-.
  pose proof (lo_sep _ _ _ HL) as Hsep. destruct (Hsep _ _ Eb) as [El _].
  exists ls. eapply lo_forget; [eapply lo_at; [done| |by intros []|]|].
  - intros l Hl. by rewrite !nodes_lookup; cbn; rewrite lookup_delete_ne.
  - intros l b'. cbn. rewrite lookup_delete_Some. intros [_ ?]. by apply Hsep.
  - rewrite nodes_lookup. cbn. by rewrite El, lookup_delete_eq.
Qed.

Definition ND (x : tloc) (n : node) (v : tcp_vars) : Prop := node_of <$> tcp_structs v !! x = Some n.
Lemma skel_ND x n : skel_prop (ND x n).
Proof.
  intros v v' [= Hn _ _ _ _ _] H. unfold ND in *. pose proof (f_equal (.!! x) Hn) as Hx.
  rewrite !lookup_fmap in Hx. by rewrite <-Hx.
Qed.
Lemma ND_AT x n v : ND x n v → AT x (n_state n) v.
Proof. unfold ND, AT. destruct (tcp_structs v !! x); [|done]. by intros [= <-]. Qed.
#[export] Hint Resolve skel_ND : skel.

(** Any change of a block that is in no list. *)
Lemma hoare_node D x n n' f :
  (∀ b, node_of b = n → node_of (f b) = n') → n_state n' ≠ LISTEN →
  hoare (λ v, LO (x :: D) v ∧ ND x n v) (tupdate x f) (λ _ v, LO (x :: D) v ∧ ND x n' v).
Proof.
  intros Hf Hne v [] v' [HL HN] E.
  destruct (tupdate_inv _ _ _ _ _ _ HL (ND_AT _ _ _ HN) E) as (b & Eb & _ & _ & Hn & Hh & Hs & Hsep).
  unfold ND in HN. rewrite Eb in HN. injection HN as Hb. specialize (Hf b Hb).
  destruct HL as [ls HL]. split.
  - exists ls. eapply lo_at; [done| |done|].
    + intros l Hl. by rewrite Hn, lookup_insert_ne.
    + apply Hsep. intros Hl. apply Hne. by rewrite <-Hf.
  - unfold ND. by rewrite Hs, lookup_insert_eq; simpl; rewrite Hf.
Qed.

Lemma hoare_reg_bound D x n :
  n_state n = CLOSED → n_has_port n = true → x ∉ D →
  hoare (λ v, LO (x :: D) v ∧ ND x n v) (reg BOUND_PCBS x) (λ _, LO D).
Proof.
  intros Hst Hp HD v [] v' [HL HN] E. destruct (AT_node _ _ _ _ HL (ND_AT _ _ _ HN)) as (b & Eb & _ & _ & Hx).
  unfold ND in HN. rewrite Eb in HN. injection HN as <-.
  destruct HL as [ls HL]. destruct (lo_reg ls D v x (node_of b) HL Hx HD) as (v1 & E1 & H1 & Hs); [done|].
  simpl in Hst, E1. rewrite Hst in E1. simpl in E1. rewrite E1 in E. injection E as <-. by eexists.
Qed.

(** ** Listening blocks *)

Definition LS (x : tloc) (v : tcp_vars) : Prop := x ∈ dom (tcp_listen_structs v).
Lemma skel_LS x : skel_prop (LS x).
Proof.
  intros v v' [= _ Hl _ _ _ _] H. unfold LS in *.
  rewrite <-(dom_fmap_L lnode_of), <-Hl. by rewrite dom_fmap_L.
Qed.
#[export] Hint Resolve skel_LS : skel.

Lemma LS_node x v : LS x v → ∃ b, tcp_listen_structs v !! x = Some b ∧ nodes v !! x = Some (lnode_of b).
Proof. intros [b Hb]%elem_of_dom. exists b. by rewrite nodes_lookup, Hb. Qed.

Lemma hoare_rmv_listen D x :
  hoare (λ v, LO D v ∧ LS x v) (TCP_RMV LISTEN_PCBS x) (λ _ v, LO (x :: D) v ∧ LS x v).
Proof.
  intros v [] v' [HL HS] E. destruct (LS_node _ _ HS) as (b & Eb & Hx). destruct HL as [ls HL].
  destruct (lb_rmv x (lnode_of b) LISTEN_PCBS ls D v) as (v1 & E1 & H1 & _ & Hs).
  - by apply lo_but.
  - done.
  - intros k' Hk'. by rewrite (lo_in _ _ _ _ _ _ HL Hk' Hx).
  - rewrite E1 in E. injection E as <-. split; [by eexists|].
    injection Hs as _ Hs. unfold LS. by rewrite Hs.
Qed.
Lemma hoare_listen_free D x : hoare (LO (x :: D)) (tcp_listen_free x) (λ _, LO D).
Proof.
  intros v [] v' [ls HL] E. unfold tcp_listen_free, lderef in E. cbv [mbind prog_bind pget] in E.
  destruct (tcp_listen_structs v !! x) as [b|] eqn:Eb; [|done]. injection E as <-.
  pose proof (lo_sep _ _ _ HL) as Hsep.
  exists ls. eapply lo_forget; [eapply lo_at; [done| |by intros []|]|].
  - intros l Hl. by rewrite !nodes_lookup; cbn; rewrite lookup_delete_ne.
  - intros l b' Hb'. cbn in *. destruct (Hsep _ _ Hb') as [Hn ?]. split; [|done].
    by rewrite lookup_delete_None; right.
  - rewrite nodes_lookup. cbn. rewrite lookup_delete_eq.
    destruct (tcp_structs v !! x) as [b'|] eqn:E'; [|done].
    by destruct (Hsep _ _ E'); simplify_eq.
Qed.

(** An assertion about a part that does not change. *)
Lemma hoare_and_keeps {B T} (π : tcp_vars → T) (m : prog tcp_vars B) (P R : tcp_vars → Prop) Q :
  hoare P m Q → keeps (vsame π) m → (∀ v v', π v = π v' → R v → R v') →
  hoare (λ v, P v ∧ R v) m (λ a v, Q a v ∧ R v).
Proof. intros Hm Hk HR v a v' [HP Hr] E. split; [by eapply Hm|]. eapply HR; [|done]. by eapply Hk. Qed.

Lemma LS_states x v v' : states v = states v' → LS x v → LS x v'.
Proof. intros [= _ Hd]. unfold LS. by rewrite Hd. Qed.

Lemma hoare_reg_listen D x :
  x ∉ D → hoare (λ v, LO (x :: D) v ∧ LS x v) (reg LISTEN_PCBS x) (λ _, LO D).
Proof.
  intros HD v [] v' [HL HS] E. destruct (LS_node _ _ HS) as (b & Eb & Hx). destruct HL as [ls HL].
  destruct (lo_reg ls D v x (lnode_of b) HL Hx HD) as (v1 & E1 & H1 & _); [done|].
  simpl in E1. rewrite E1 in E. injection E as <-. by eexists.
Qed.

Lemma fresh_unused v : nodes v !! tcp_fresh v = None.
Proof.
  unfold tcp_fresh. set (X := dom (tcp_structs v) ∪ dom (tcp_listen_structs v)).
  pose proof (is_fresh X) as [H1 H2]%not_elem_of_union.
  rewrite nodes_lookup. by rewrite (not_elem_of_dom_1 _ _ H2), (not_elem_of_dom_1 _ _ H1).
Qed.

Lemma hoare_new_listen D b :
  hoare (LO D) (new_listen b) (λ l v, LO (l :: D) v ∧ LS l v).
Proof.
  intros v l v' [ls HL] E. unfold new_listen in E. cbv [mbind prog_bind pget pmodify mret prog_ret] in E.
  injection E as <- <-. pose proof (fresh_unused v) as Hf. set (l := tcp_fresh v) in *.
  pose proof (lo_sep _ _ _ HL) as Hsep. split; [|unfold LS; cbn; set_solver].
  exists ls. eapply lo_at; [by apply lo_unused| |by intros []|].
  - intros x Hx. rewrite !nodes_lookup. cbn. by rewrite lookup_insert_ne.
  - intros x bx Hb. cbn in *. destruct (Hsep _ _ Hb) as [Hn Hne]. split; [|done].
    rewrite lookup_insert_ne; [done|]. intros <-. rewrite nodes_lookup, Hn, Hb in Hf. done.
Qed.

(** [TCP_RMV] leaves the states and the listening blocks. *)
Lemma keeps_set_next_of x p : keeps (vsame states) (set_next_of x p).
Proof.
  intros v [] v' E. destruct (nodes v !! x) as [n|] eqn:Hx.
  - destruct (set_next_of_eq v x p n Hx) as (v1 & E1 & _ & _ & Hs). rewrite E1 in E.
    injection E as <-. done.
  - exfalso. rewrite nodes_lookup in Hx. unfold set_next_of in E. rewrite (bind_ret _ _ _ _ _ eq_refl) in E.
    destruct (tcp_listen_structs v !! x) as [b|] eqn:El; [done|].
    rewrite bool_decide_false in E by (by intros [? ?]). unfold tupdate, tderef in E.
    cbv [mbind prog_bind pget] in E. by destruct (tcp_structs v !! x).
Qed.
Lemma keeps_TCP_RMV k x : keeps (vsame states) (TCP_RMV k x).
Proof.
  assert (∀ n p, keeps (vsame states) (rmv_loop n p x)) as Hl.
  { induction n as [|n IH]; intros [t|]; cbn [rmv_loop]; keeps;
      try first [apply keeps_next_of|apply keeps_set_next_of]. }
  unfold TCP_RMV. keeps; try first [apply keeps_next_of|apply keeps_set_next_of|apply Hl].
  apply keeps_modify. intros v. unfold vsame. by rewrite states_set_head.
Qed.

Section api.
Context {CF F A X : Type} `{HL : Lens X tcp_vars}.
Abbreviation stack := (stack CF F A X).
Context (custom_free : CF → loc → prog (heap CF) unit).
Context (mem_avail : heap CF → Z → bool) (garbage : heap CF → nat → Z).
Context (output ip_frag : netif_loc → loc → Z → prog stack err_t).
Context (seg_avail pcb_avail listen_avail : stack → bool).
Context (tcp_timer_needed : prog stack unit).
Hypothesis keeps_out : ∀ n p d, keeps (same (λ v, v)) (output n p d).
Hypothesis keeps_frag : ∀ n p d, keeps (same (λ v, v)) (ip_frag n p d).
Hypothesis keeps_timer : keeps (same (λ v, v)) tcp_timer_needed.

(** An assertion about TCP's variables. *)
Definition on (P : tcp_vars → Prop) : stack → Prop := λ s, P (tcp_of s).

Lemma hoare_vars {B} (P : tcp_vars → Prop) (m : prog tcp_vars B) Q :
  hoare P m Q → hoare (on P) (lift m) (λ a, on (Q a)).
Proof.
  intros H s a s' HP E. unfold lift in E. destruct (m _) as [|[x v]] eqn:Em; [done|].
  injection E as <- <-. unfold on, tcp_of. cbn. rewrite lget_lput. by eapply H.
Qed.
Lemma hoare_skel {B} P (m : prog stack B) :
  skel_prop P → keeps (same skeleton) m → hoare (on P) m (λ _, on P).
Proof. intros HP Hm s a s' H E. eapply HP; [|done]. by eapply Hm. Qed.

(** The variables do not change at all. *)
Lemma hoare_quiet {B} P (m : prog stack B) :
  keeps (same (λ v, v)) m → hoare (on P) m (λ _, on P).
Proof. intros Hm s a s' H E. unfold on in *. by rewrite <-(Hm _ _ _ E : _ = tcp_of s'). Qed.

Lemma hoare_timer P : skel_prop P → hoare (on P) tcp_timer_needed (λ _, on P).
Proof. intros HP. apply hoare_skel; [done|]. by apply keeps_weaken. Qed.

Lemma hoare_TCP_REG D x st k :
  home st = k → k ≠ BOUND_PCBS → x ∉ D →
  hoare (on (λ v, LO (x :: D) v ∧ AT x st v)) (TCP_REG tcp_timer_needed k x) (λ _, on (λ v, LO D v ∧ AT x st v)).
Proof.
  intros Hk Hb HD. unfold TCP_REG. eapply hoare_bind; [apply hoare_vars, hoare_reg; eauto|].
  intros []. apply (hoare_timer (λ v, LO D v ∧ AT x st v)). auto with skel.
Qed.

(** The first command leaves the lists alone. *)
Ltac skel_step :=
  eapply hoare_seq; [apply hoare_skel; [by auto with skel|by frame]|intros ?].

Lemma hoare_is_listen {B} D x st (P : tcp_vars → Prop) (k : bool → prog stack B) Q :
  (∀ v, P v → LO D v ∧ AT x st v) → hoare (on P) (k false) Q →
  hoare (on P) (l ← lift (is_listen x); k l) Q.
Proof.
  intros HP Hk s a s' Hs E. eapply Hk; [exact Hs|].
  rewrite (bind_ret _ _ _ false s) in E; [done|].
  destruct (HP _ Hs) as [[ls HLs] HA]. unfold AT in HA.
  destruct (tcp_structs (tcp_of s) !! x) as [b|] eqn:Eb; [|done].
  destruct (lo_sep _ _ _ HLs _ _ Eb) as [El _].
  rewrite (lift_ret _ _ false (lget s)), lput_lget; [done|].
  cbv [is_listen mbind prog_bind pget mret prog_ret]. rewrite bool_decide_false; [done|].
  unfold tcp_of in El. cbn. rewrite El. by intros [? ?].
Qed.

Lemma hoare_is_listen_cases {B} x (P : tcp_vars → Prop) (k : bool → prog stack B) Q :
  hoare (on (λ v, P v ∧ LS x v)) (k true) Q → hoare (on P) (k false) Q →
  hoare (on P) (l ← lift (is_listen x); k l) Q.
Proof.
  intros Ht Hf s a s' Hs E.
  assert (lift (is_listen x) s = inr (bool_decide (is_Some (tcp_listen_structs (tcp_of s) !! x)), s)) as El.
  { rewrite (lift_ret _ _ (bool_decide (is_Some (tcp_listen_structs (tcp_of s) !! x))) (lget s)), lput_lget;
      done. }
  rewrite (bind_ret _ _ _ _ _ El) in E. case_bool_decide as Hl; [|by eapply Hf].
  eapply Ht; [|done]. split; [done|]. by apply elem_of_dom.
Qed.

Lemma hoare_is_listen_true {B} x (P : tcp_vars → Prop) (k : bool → prog stack B) Q :
  (∀ v, P v → LS x v) → hoare (on P) (k true) Q → hoare (on P) (l ← lift (is_listen x); k l) Q.
Proof.
  intros HS Ht s a s' Hs E. eapply Ht; [exact Hs|].
  rewrite (bind_ret _ _ _ true s) in E; [done|].
  rewrite (lift_ret _ _ true (lget s)), lput_lget; [done|].
  cbv [is_listen mbind prog_bind pget mret prog_ret]. rewrite bool_decide_true; [done|].
  apply elem_of_dom, (HS _ Hs).
Qed.


Lemma hoare_tderef {B} x (P : tcp_vars → Prop) (k : tcp_pcb → prog stack B) Q :
  (∀ b, hoare (on (λ v, P v ∧ ND x (node_of b) v)) (k b) Q) →
  hoare (on P) (b ← lift (tderef x); k b) Q.
Proof.
  intros Hk s a s' Hs E. destruct (tcp_structs (tcp_of s) !! x) as [b|] eqn:Eb.
  - rewrite (bind_ret _ _ _ b s) in E.
    + eapply Hk; [|done]. split; [done|]. unfold ND. by rewrite Eb.
    + rewrite (lift_ret _ _ b (lget s)), lput_lget; [done|].
      cbv [tderef mbind prog_bind pget]. unfold tcp_of in Eb. cbn. by rewrite Eb.
  - rewrite (bind_fault _ _ _ Wild) in E; [done|]. apply lift_fault.
    cbv [tderef mbind prog_bind pget]. unfold tcp_of in Eb. cbn. by rewrite Eb.
Qed.

(** [tcp_pcb_remove], given what [TCP_RMV] does. *)
Lemma hoare_pcb_remove_with D x st k P :
  hoare P (TCP_RMV k x) (λ _ v, LO (x :: D) v ∧ AT x st v) →
  hoare (on P) (tcp_pcb_remove custom_free mem_avail garbage output ip_frag k x)
    (λ _, on (λ v, LO (x :: D) v ∧ AT x CLOSED v)).
Proof.
  intros Hk. unfold tcp_pcb_remove.
  eapply hoare_bind; [apply hoare_vars, Hk|]. intros []. skel_step.
  apply (hoare_is_listen (x :: D) x st); [done|]. skel_step. skel_step. skel_step.
  do 3 skel_step. eapply hoare_vars, hoare_state; [done|done].
Qed.
Lemma hoare_pcb_remove D x st k :
  home st = k →
  hoare (on (λ v, LO D v ∧ AT x st v))
    (tcp_pcb_remove custom_free mem_avail garbage output ip_frag k x)
    (λ _, on (λ v, LO (x :: D) v ∧ AT x CLOSED v)).
Proof. intros Hk. apply (hoare_pcb_remove_with D x st). by apply hoare_rmv. Qed.

(** ** Closing *)

Abbreviation tcp_close_shutdown :=
  (tcp_close_shutdown custom_free mem_avail garbage output ip_frag seg_avail tcp_timer_needed).
Abbreviation tcp_close :=
  (tcp_close custom_free mem_avail garbage output ip_frag seg_avail tcp_timer_needed).
Abbreviation tcp_shutdown :=
  (tcp_shutdown custom_free mem_avail garbage output ip_frag seg_avail tcp_timer_needed).

Lemma hoare_done {B} P Q (a : B) : (∀ v, P v → Q v) → hoare (on P) (mret a) (λ _, on Q).
Proof. intros H. apply hoare_ret. intros s. apply H. Qed.
Lemma hoare_pre {B} P P' (m : prog stack B) Q :
  hoare (on P') m Q → (∀ v, P v → P' v) → hoare (on P) m Q.
Proof. intros H HP. eapply hoare_conseq; [done| |done]. intros s. apply HP. Qed.
Lemma hoare_lo {B} D (m : prog stack B) :
  keeps (same skeleton) m → hoare (on (LO D)) m (λ _, on (LO D)).
Proof. apply hoare_skel. auto with skel. Qed.

Lemma hoare_close_with_fin x st st' :
  home st = ACTIVE_PCBS → home st' = ACTIVE_PCBS →
  hoare (on (λ v, LO [] v ∧ AT x st v))
    (close_with_fin custom_free mem_avail garbage output ip_frag seg_avail x st') (λ _, on (LO [])).
Proof.
  intros Hst Hst'. unfold close_with_fin. skel_step. case_bool_decide; [|by apply hoare_done; intros ? []].
  eapply hoare_bind; [apply hoare_vars, hoare_state_home; [congruence|congruence|by intros ->]|].
  intros ?. skel_step. by apply hoare_done; intros ? [].
Qed.

Lemma hoare_close_with_rst x b st :
  st = ESTABLISHED ∨ st = CLOSE_WAIT →
  hoare (on (λ v, LO [] v ∧ AT x st v))
    (close_with_rst custom_free mem_avail garbage output ip_frag tcp_timer_needed x b)
    (λ _, on (LO [])).
Proof.
  intros Hst. unfold close_with_rst. do 3 skel_step.
  eapply hoare_bind; [eapply hoare_bind; [apply hoare_vars, (hoare_rmv _ _ st); by destruct Hst as [-> | ->]|]|].
  { intros ?. apply (hoare_skel (λ v, LO [x] v ∧ AT x st v)); [by auto with skel|by frame]. }
  intros ?. skel_step.
  eapply (hoare_bind _ _ _ (λ _, on (LO []))); [|intros ?; by apply hoare_done].
  case_match.
  - eapply hoare_bind; [apply hoare_vars, (hoare_state [] x st TIME_WAIT); done|]. intros ?.
    eapply hoare_conseq; [apply (hoare_TCP_REG [] x TIME_WAIT TW_PCBS); [done|done|]|done|by intros ? ? []].
    by intros ?%elem_of_nil.
  - eapply hoare_pre; [apply hoare_vars, hoare_free|by intros ? []].
Qed.

(** A CLOSED block without a port is in no list. *)
Lemma LO_unbound D x n v :
  LO D v → ND x n v → n_state n = CLOSED → n_has_port n = false → LO (x :: D) v.
Proof.
  intros [ls HLs] HN Hst Hp. destruct (AT_node x _ _ D ltac:(by eexists) (ND_AT _ _ _ HN))
    as (b & Eb & _ & _ & Hx). unfold ND in HN. rewrite Eb in HN. injection HN as <-.
  exists ls. eapply lo_detach; [done|done|]. rewrite Hst. simpl. intros Hin.
  destruct (lo_home _ _ _ HLs _ _ Hin) as (n' & En' & _ & Hport).
  rewrite Hx in En'. injection En' as <-. rewrite Hport in Hp by done. done.
Qed.

Lemma hoare_close_closed x b :
  t_state b = CLOSED →
  hoare (on (λ v, LO [] v ∧ ND x (node_of b) v))
    (A := err_t)
    ((if negb (t_local_port b =? 0) then lift (TCP_RMV BOUND_PCBS x) else mret ());;
     lift (tcp_free x);; mret ERR_OK) (λ _, on (LO [])).
Proof.
  intros Hst. eapply (hoare_bind _ _ _ (λ _, on (LO [x]))).
  - destruct (negb (t_local_port b =? 0)) eqn:Ep.
    + eapply hoare_conseq; [apply hoare_vars, (hoare_rmv [] x CLOSED); done| |by intros ? ? []].
      intros s [? ?%ND_AT]. split; [done|]. simpl in *. by rewrite Hst in *.
    + apply hoare_done. intros v [HLO HN]. by eapply LO_unbound.
  - intros ?. eapply hoare_bind; [apply hoare_vars, hoare_free|]. intros ?. by apply hoare_done.
Qed.

Lemma hoare_close_listen x :
  hoare (on (λ v, LO [] v ∧ LS x v)) (A := err_t)
    (tcp_pcb_remove custom_free mem_avail garbage output ip_frag LISTEN_PCBS x;;
     lift (tcp_listen_free x);; mret ERR_OK) (λ _, on (LO [])).
Proof.
  eapply (hoare_bind _ _ _ (λ _, on (LO [x]))).
  - unfold tcp_pcb_remove. eapply hoare_bind; [apply hoare_vars, hoare_rmv_listen|]. intros ?.
    skel_step. apply hoare_is_listen_true; [by intros ? []|]. by apply hoare_done; intros ? [].
  - intros ?. eapply hoare_bind; [apply hoare_vars, hoare_listen_free|]. intros ?. by apply hoare_done.
Qed.

Lemma hoare_close_shutdown x rst :
  hoare (on (LO [])) (tcp_close_shutdown x rst) (λ _, on (LO [])).
Proof.
  unfold TcpCore.tcp_close_shutdown. apply hoare_is_listen_cases; [apply hoare_close_listen|].
  apply hoare_tderef. intros b. case_match eqn:Ec.
  - eapply hoare_pre; [apply (hoare_close_with_rst x b (t_state b))|].
    + apply andb_prop in Ec as [[_ Ec]%andb_prop _]. unfold is_state in Ec.
      apply orb_prop in Ec as [Ec|Ec]; apply bool_decide_eq_true in Ec; auto.
    + intros v [? ?%ND_AT]. done.
  - destruct (t_state b) eqn:Hst; try (by apply hoare_done; intros ? []).
    + by apply hoare_close_closed.
    + eapply (hoare_bind _ _ _ (λ _, on (LO [x]))).
      * unfold TCP_PCB_REMOVE_ACTIVE. eapply hoare_bind; [eapply hoare_pre;
          [apply (hoare_pcb_remove [] x SYN_SENT ACTIVE_PCBS eq_refl)|]|].
        -- intros v [? ?%ND_AT]. simpl in *. by rewrite Hst in *.
        -- intros ?. eapply hoare_pre; [apply hoare_lo; by frame|by intros ? []].
      * intros ?. eapply hoare_bind; [apply hoare_vars, hoare_free|]. intros ?. by apply hoare_done.
    + eapply hoare_pre; [by apply (hoare_close_with_fin x SYN_RCVD)|].
      intros v [? ?%ND_AT]. simpl in *. by rewrite Hst in *.
    + eapply hoare_pre; [by apply (hoare_close_with_fin x ESTABLISHED)|].
      intros v [? ?%ND_AT]. simpl in *. by rewrite Hst in *.
    + eapply hoare_pre; [by apply (hoare_close_with_fin x CLOSE_WAIT)|].
      intros v [? ?%ND_AT]. simpl in *. by rewrite Hst in *.
Qed.

Lemma hoare_close x : hoare (on (LO [])) (tcp_close x) (λ _, on (LO [])).
Proof. unfold TcpCore.tcp_close. do 2 skel_step. apply hoare_close_shutdown. Qed.

Lemma hoare_shutdown x rx tx : hoare (on (LO [])) (tcp_shutdown x rx tx) (λ _, on (LO [])).
Proof.
  unfold TcpCore.tcp_shutdown. skel_step. case_match; [by apply hoare_done|]. skel_step.
  case_match; [apply hoare_close_shutdown|]. do 2 skel_step.
  case_match; [|by apply hoare_done]. case_match; first [apply hoare_close_shutdown|by apply hoare_done].
Qed.

(** ** Aborting *)

Context (call_app : app_call → prog stack err_t).
Hypothesis app_lists : ∀ c, hoare (on (LO [])) (call_app c) (λ _, on (LO [])).

Abbreviation tcp_abandon := (tcp_abandon custom_free mem_avail garbage output ip_frag call_app).

Lemma hoare_event_err errf arg err :
  hoare (on (LO [])) (TCP_EVENT_ERR call_app errf arg err) (λ _, on (LO [])).
Proof.
  unfold TCP_EVENT_ERR. repeat case_match; try apply hoare_fault; [|by apply hoare_done].
  eapply hoare_bind; [apply app_lists|]. intros ?. by apply hoare_done.
Qed.

(** Not a block that is bound but not connected. *)
Definition abortable (x : tloc) (v : tcp_vars) : Prop :=
  ∀ n, ND x n v → n_state n = CLOSED → n_has_port n = false.

Lemma hoare_abandon x reset :
  hoare (on (λ v, LO [] v ∧ abortable x v)) (tcp_abandon x reset) (λ _, on (LO [])).
Proof.
  unfold TcpCore.tcp_abandon.
  eapply (hoare_bind _ _ _ (λ _, on (λ v, LO [] v ∧ abortable x v))).
  { apply hoare_skel; [|by frame]. apply skel_and; [by auto with skel|].
    intros v v' E H n Hn. apply H. eapply skel_ND; [|done]. done. }
  intros _. apply hoare_tderef. intros b. case_match eqn:Ht.
  - apply bool_decide_eq_true in Ht.
    eapply hoare_bind; [eapply hoare_pre; [by apply (hoare_pcb_remove [] x TIME_WAIT)|]|].
    + intros v [[? _] ?%ND_AT]. simpl in *. by rewrite Ht in *.
    + intros ?. eapply hoare_pre; [apply hoare_vars, hoare_free|by intros ? []].
  - eapply (hoare_bind _ _ _ (λ _, on (LO [x]))).
    + unfold TCP_PCB_REMOVE_ACTIVE. eapply (hoare_bind _ _ _ (λ _, on (LO [x])));
        [|intros ?; apply hoare_lo; by frame].
      apply bool_decide_eq_false in Ht.
      destruct (decide (t_state b = CLOSED)) as [Hc|Hc].
      * eapply hoare_conseq; [apply (hoare_pcb_remove_with [] x CLOSED), (hoare_rmv_none [] x CLOSED)| |by intros ? ? []].
        intros s [[? Ha] HN]. split; [|apply ND_AT in HN; simpl in HN; by rewrite Hc in HN].
        eapply LO_unbound; [done|done|done|by apply Ha].
      * intros s [] s' [[HLO _] HN%ND_AT] E.
        destruct (AT_node _ _ _ _ HLO HN) as (_ & _ & _ & Hl & _). simpl in *.
        eapply (hoare_pcb_remove [] x (t_state b) ACTIVE_PCBS); [by destruct (t_state b)|by split|done].
    + intros ?. do 5 skel_step. eapply hoare_bind; [apply hoare_vars, hoare_free|]. intros ?.
      apply hoare_event_err.
Qed.

(** ** Opening *)

(** Not bound yet. *)
Definition unbound (x : tloc) (v : tcp_vars) : Prop := ∀ n, ND x n v → n_has_port n = false.
Lemma skel_unbound x : skel_prop (unbound x).
Proof. intros v v' E H n Hn. apply H. eapply skel_ND; [|done]. done. Qed.
#[local] Hint Resolve skel_unbound : skel.

Lemma keeps_lift_exists_in f ls : keeps (same (CF := CF) (F := F) (A := A) (X := X) skeleton) (lift (exists_in f ls)).
Proof. apply keeps_vars, keeps_exists_in. Qed.
#[local] Hint Resolve keeps_lift_exists_in : keeps.

Lemma hoare_pure_assert {B} (c : bool) (P : stack → Prop) (k : unit → prog stack B) Q :
  (c = true → hoare P (k ()) Q) → hoare P (passert c ≫= k) Q.
Proof. destruct c; [|by intros _ s a s']. intros H s a s' HP E. by eapply H. Qed.

Lemma hoare_bind_port x b port :
  t_state b = CLOSED → (port =? 0) = false →
  hoare (on (λ v, LO [] v ∧ ND x (node_of b) v ∧ unbound x v))
    (lift (tupdate x (λ b, b <|t_local_port := port|>));; TCP_REG tcp_timer_needed BOUND_PCBS x;;
     mret ERR_OK) (λ _, on (LO [])).
Proof.
  intros Hst Hp. set (n' := mk_node CLOSED true (recv_null b) (t_next b)).
  eapply (hoare_bind _ _ _ (λ _, on (λ v, LO [x] v ∧ ND x n' v))).
  - eapply hoare_pre; [apply hoare_vars, (hoare_node [] x (node_of b) n')|].
    + intros b' Hb'. injection Hb' as Hst' _ Hr Hn. unfold node_of, n'. cbn. by rewrite Hst', Hst, Hp, <-Hr, Hn.
    + done.
    + intros v (HLO & HN & Hu). split; [|done]. by eapply LO_unbound; [|done..|by apply Hu].
  - intros ?. eapply hoare_bind; [eapply hoare_bind|intros ?; by apply hoare_done].
    + apply hoare_vars, (hoare_reg_bound [] x n'); [done|done|]. by intros ?%elem_of_nil.
    + intros ?. apply (hoare_timer (LO [])). auto with skel.
Qed.

Lemma hoare_tcp_bind x ipaddr port :
  hoare (on (λ v, LO [] v ∧ unbound x v)) (tcp_bind tcp_timer_needed x ipaddr port) (λ _, on (LO [])).
Proof.
  unfold tcp_bind. skel_step. apply hoare_tderef. intros b. apply hoare_pure_assert. intros Hst.
  apply bool_decide_eq_true in Hst. skel_step. case_match eqn:Ep; [by apply hoare_done; intros ? [[]]|].
  skel_step. case_match; [by apply hoare_done; intros ? [[]]|]. skel_step.
  eapply hoare_pre; [by apply (hoare_bind_port x b)|]. by intros v [[] ].
Qed.

(** The block that starts to listen leaves its list. *)
Lemma hoare_leave_bound x l b :
  t_state b = CLOSED →
  hoare (λ v, LO [l] v ∧ LS l v ∧ ND x (node_of b) v)
    (if negb (t_local_port b =? 0) then TCP_RMV BOUND_PCBS x else mret ())
    (λ _ v, LO [x; l] v ∧ LS l v).
Proof.
  intros Hst. destruct (negb (t_local_port b =? 0)) eqn:Ep.
  - eapply hoare_conseq; [apply (hoare_and_keeps states _ (λ v, LO [l] v ∧ AT x CLOSED v) (LS l)
                            (λ _ v, LO [x; l] v ∧ AT x CLOSED v))| |by intros ? ? [[] ]].
    + by apply hoare_rmv.
    + apply keeps_TCP_RMV.
    + apply LS_states.
    + intros v (HLO & HS & HN%ND_AT). simpl in HN. by rewrite Hst in HN.
  - apply hoare_ret. intros v (HLO & HS & HN). split; [|done]. by eapply LO_unbound.
Qed.

Lemma hoare_tcp_listen x :
  hoare (on (LO [])) (tcp_listen_with_backlog listen_avail tcp_timer_needed x) (λ _, on (LO [])).
Proof.
  unfold tcp_listen_with_backlog. skel_step. apply hoare_tderef. intros b.
  apply hoare_pure_assert. intros Hst. apply bool_decide_eq_true in Hst. skel_step.
  case_match; [by apply hoare_done; intros ? []|].
  eapply (hoare_bind _ _ _ (λ l, on (λ v, LO [l] v ∧ LS l v ∧ ND x (node_of b) v))).
  { apply hoare_vars. eapply hoare_conseq; [apply (hoare_and_keeps tcp_structs _ (LO [])
      (ND x (node_of b)) (λ l v, LO [l] v ∧ LS l v))|done|by intros ? ? [[] ?]].
    - apply hoare_new_listen.
    - unfold new_listen. keeps. by apply keeps_modify.
    - intros v v' Hs. unfold ND. by rewrite Hs. }
  intros l. eapply (hoare_bind _ _ _ (λ _, on (λ v, LO [x; l] v ∧ LS l v))).
  { pose proof (hoare_leave_bound x l b Hst) as Hl. destruct (negb (t_local_port b =? 0)).
    - by apply hoare_vars.
    - apply hoare_done. intros v Hv. by apply (Hl v () v Hv). }
  intros ?. eapply (hoare_bind _ _ _ (λ _, on (λ v, LO [l] v ∧ LS l v))).
  { apply hoare_vars, (hoare_and_keeps tcp_listen_structs _ (LO [x; l]) (LS l) (λ _, LO [l])).
    - apply hoare_free.
    - unfold tcp_free. keeps; [apply keeps_tderef|by apply keeps_modify].
    - intros v v' Hs. unfold LS. by rewrite Hs. }
  intros ?. eapply hoare_bind; [eapply hoare_bind|intros ?; by apply hoare_done].
  - apply hoare_vars, (hoare_reg_listen [] l). by intros ?%elem_of_nil.
  - intros ?. apply (hoare_timer (LO [])). auto with skel.
Qed.

(** ** Connecting *)

(** The block is SYN_SENT, but may still be in the list of the bound ones. *)
Definition LB (x : tloc) (v : tcp_vars) : Prop :=
  ∃ ls, lists_ok_but x ls [] v ∧ ∀ k, x ∈ ls k → k = BOUND_PCBS.

Lemma hoare_connect_state x :
  hoare (λ v, LO [] v ∧ AT x CLOSED v) (tupdate x (λ b, b <|t_state := SYN_SENT|>))
    (λ _ v, LB x v ∧ AT x SYN_SENT v).
Proof.
  intros v [] v' [HLO HA] E.
  destruct (tupdate_inv _ _ _ _ _ _ HLO HA E) as (b & Eb & Hst & Hx & Hn & Hsh & Hs & Hsep).
  destruct HLO as [ls HLO]. split; [|unfold AT; by rewrite Hs, lookup_insert_eq].
  exists ls. split.
  - eapply (lb_insert x (node_of b)); [by apply lo_but|done| |done|done|by apply Hsep]. done.
  - intros k Hk. rewrite (lo_in _ _ _ _ _ _ HLO Hk Hx). simpl. by rewrite Hst.
Qed.
Lemma hoare_connect_rmv x :
  hoare (λ v, LB x v ∧ AT x SYN_SENT v) (TCP_RMV BOUND_PCBS x) (λ _ v, LO [x] v ∧ AT x SYN_SENT v).
Proof.
  intros v [] v' [(ls & HB & Hk) HA] E. unfold AT in HA.
  destruct (tcp_structs v !! x) as [b|] eqn:Eb; [|done]. injection HA as HA.
  assert (nodes v !! x = Some (node_of b)) as Hx.
  { rewrite nodes_lookup. destruct (lb_sep _ _ _ _ HB _ _ Eb) as [-> _]. by rewrite Eb. }
  destruct (lb_rmv x _ _ _ _ _ HB Hx Hk) as (v1 & E1 & H1 & _ & Hs).
  rewrite E1 in E. injection E as <-. split; [by eexists|].
  injection Hs as Hs _. unfold AT. rewrite <-lookup_fmap, Hs, lookup_fmap, Eb. by simpl; rewrite HA.
Qed.

(** The SYN is queued: the block becomes an active one. *)
Lemma hoare_connect_move x (bound : bool) :
  hoare (on (λ v, LO [] v ∧ AT x CLOSED v ∧ (bound = false → LO [x] v)))
    (set_state x SYN_SENT;;
     (if bound then lift (TCP_RMV BOUND_PCBS x) else mret ());;
     TCP_REG_ACTIVE tcp_timer_needed x;;
     tcp_output custom_free mem_avail garbage output ip_frag x;;
     mret ()) (λ _, on (LO [])).
Proof.
  eapply (hoare_bind _ _ _ (λ _, on (λ v, if bound then LB x v ∧ AT x SYN_SENT v
                                          else LO [x] v ∧ AT x SYN_SENT v))).
  { apply hoare_vars. destruct bound.
    - eapply hoare_conseq; [apply hoare_connect_state| |done]. by intros v (? & ? & _).
    - eapply hoare_conseq; [apply (hoare_state [] x CLOSED SYN_SENT); done| |done].
      intros v (_ & ? & HLO). split; [by apply HLO|done]. }
  intros ?. eapply (hoare_bind _ _ _ (λ _, on (λ v, LO [x] v ∧ AT x SYN_SENT v))).
  { destruct bound; [|by apply hoare_done]. apply hoare_vars, hoare_connect_rmv. }
  intros ?. eapply hoare_bind.
  { unfold TCP_REG_ACTIVE. eapply hoare_bind; [by apply (hoare_TCP_REG [] x SYN_SENT ACTIVE_PCBS); [..|intros ?%elem_of_nil]|].
    intros ?. apply (hoare_skel (λ v, LO [] v ∧ AT x SYN_SENT v)); [by auto with skel|by frame]. }
  intros ?. skel_step. by apply hoare_done; intros ? [].
Qed.

Lemma skel_imp (φ : Prop) P : skel_prop P → skel_prop (λ v, φ → P v).
Proof. intros HP v v' E H Hφ. eauto. Qed.
#[local] Hint Resolve skel_imp : skel.
Lemma skel_next_iss : keeps (same (CF := CF) (F := F) (A := A) (X := X) skeleton) (lift tcp_next_iss).
Proof. apply keeps_vars. unfold tcp_next_iss. keeps. by apply keeps_modify. Qed.
#[local] Hint Resolve skel_next_iss : keeps.

Lemma LO_closed D x v : LO (x :: D) v → AT x CLOSED v → LO D v.
Proof.
  intros HLO HA. destruct (AT_node _ _ _ _ HLO HA) as (b & Eb & Hst & _ & Hx). destruct HLO as [ls HLO].
  exists ls. eapply lo_attach; [done|]. rewrite Hx. by intros n [= <-].
Qed.

Lemma hoare_connect_port x b :
  t_state b = CLOSED →
  hoare (on (λ v, LO [] v ∧ ND x (node_of b) v))
    (if t_local_port b =? 0 then
       new_port ← lift tcp_new_port; lift (tupdate x (λ b, b <|t_local_port := new_port|>))
     else mret ())
    (λ _, on (λ v, LO [] v ∧ AT x CLOSED v ∧ (negb (t_local_port b =? 0) = false → LO [x] v))).
Proof.
  intros Hst. destruct (t_local_port b =? 0) eqn:Ep.
  - skel_step. set (n' := mk_node CLOSED (negb (a =? 0)) (recv_null b) (t_next b)).
    eapply hoare_conseq; [apply hoare_vars, (hoare_node [] x (node_of b) n')| |].
    + intros b' [= Hst' _ Hr Hn]. unfold node_of, n'. cbn. by rewrite Hst', Hst, <-Hr, Hn.
    + done.
    + intros s [? HN]. split; [|done]. eapply LO_unbound; [done|done|done|]. simpl. by rewrite Ep.
    + intros ? s [HLO HN%ND_AT]. split; [by eapply LO_closed|]. by split.
  - apply hoare_done. intros v [? HN%ND_AT]. simpl in HN. by rewrite Hst in HN.
Qed.

Lemma hoare_tcp_connect x ipaddr port connected :
  hoare (on (LO []))
    (tcp_connect custom_free mem_avail garbage output ip_frag seg_avail tcp_timer_needed x ipaddr port connected)
    (λ _, on (LO [])).
Proof.
  unfold tcp_connect. skel_step. apply hoare_tderef. intros b.
  apply hoare_pure_assert. intros Hst. apply bool_decide_eq_true in Hst.
  destruct ipaddr as [addr|]; [|by apply hoare_done; intros ? []]. skel_step. skel_step.
  case_match; [by apply hoare_done; intros ? []|].
  eapply hoare_bind; [by apply hoare_connect_port|]. intros ?. skel_step.
  case_match; [by apply hoare_done; intros ? []|]. do 4 skel_step.
  eapply hoare_bind; [|intros ?; by apply hoare_done].
  case_bool_decide; [|by apply hoare_done; intros ? []]. apply hoare_connect_move.
Qed.

(** ** Allocation *)

Lemma oldest_loop_spec ok v fuel : ∀ p l mprio age inactive r v',
  sep v → path (nodes v) p l → oldest_loop fuel ok p mprio age inactive v = inr (r, v') →
  v' = v ∧ ∀ x, r = Some x → x ∈ l ∨ inactive = Some x.
Proof.
  induction fuel as [|fuel IH]; intros p l mprio age inactive r v' Hsep Hp E;
    destruct l as [|x l]; simpl in Hp.
  1, 3: subst p; cbn [oldest_loop] in E; injection E as <- <-; auto.
  { destruct Hp as [-> _]. done. }
  destruct Hp as (-> & n & Hx & Hp). cbn [oldest_loop] in E. rewrite bind_get in E.
  unfold tderef in E. rewrite bind_assoc_get in E.
  destruct (tcp_structs v !! x) as [b|] eqn:Eb; [|done]. rewrite (bind_deref _ b) in E by done.
  assert (n_next n = t_next b) as Hn.
  { rewrite nodes_lookup in Hx. destruct (Hsep _ _ Eb) as [El _]. rewrite El, Eb in Hx. by injection Hx as <-. }
  rewrite Hn in Hp. case_match; destruct (IH _ _ _ _ _ _ _ Hsep Hp E) as [-> Hr]; (split; [done|]);
    intros y Hy; destruct (Hr y Hy) as [?|?]; simplify_eq; auto; left;
    first [by left|by right].
Qed.

Lemma hoare_kill_oldest k ok :
  k ≠ BOUND_PCBS →
  hoare (on (LO [])) (kill_oldest custom_free mem_avail garbage output ip_frag call_app k ok)
    (λ _, on (LO [])).
Proof.
  intros Hk s a s' HLO E. unfold kill_oldest in E.
  rewrite (bind_lift_same pget _ s _ eq_refl) in E. destruct HLO as [ls HLO].
  set (v := tcp_of s) in *. change (lget (D := tcp_vars) s) with v in E.
  destruct (oldest_loop (list_fuel v) ok (head_of k v) TCP_PRIO_MAX 0 None v) as [f|[r v1]] eqn:Eo.
  { rewrite (bind_fault _ _ _ f) in E; [done|]. by apply lift_fault. }
  destruct (oldest_loop_spec _ _ _ _ _ _ _ _ _ _ (lo_sep _ _ _ HLO) (lo_path _ _ _ HLO k) Eo) as [-> Hr].
  erewrite bind_lift_same in E by exact Eo.
  destruct r as [x|]; [|injection E as _ <-; by exists ls].
  destruct (Hr x eq_refl) as [Hin|]; [|done].
  eapply (hoare_abandon x true); [|exact E]. split; [by exists ls|].
  intros n HN Hc. exfalso. destruct (lo_home _ _ _ HLO _ _ Hin) as (n' & Hn' & Hh & _).
  destruct (AT_node _ _ _ [] ltac:(by exists ls) (ND_AT _ _ _ HN)) as (b & _ & Hst & _ & Hx).
  fold v in Hx. rewrite Hx in Hn'. injection Hn' as <-. apply Hk. rewrite <-Hh. simpl. by rewrite Hst, Hc.
Qed.

Lemma skel_unused l : skel_prop (λ v, nodes v !! l = None).
Proof. intros v v' [= Hn Hl _ _ _ _]. unfold nodes. by rewrite Hn, Hl. Qed.
#[local] Hint Resolve skel_unused : skel.

(** A new block. *)
Definition fresh_node : node := mk_node CLOSED false true None.
Lemma hoare_insert_new l (f : tcp_vars → tcp_pcb) :
  (∀ v, node_of (f v) = fresh_node) →
  hoare (λ v, LO [] v ∧ nodes v !! l = None)
    (pmodify (λ v, v <|tcp_structs ::= <[l:=f v]>|>)) (λ _ v, LO [] v ∧ ND l fresh_node v).
Proof.
  intros Hnode v r v' [[ls HLO] Hf] E.
  assert (t_state (f v) = CLOSED) as Hst by exact (f_equal n_state (Hnode v)). injection E as _ <-. pose proof (lo_sep _ _ _ HLO) as Hsep.
  pose proof Hf as Hf'. rewrite nodes_lookup in Hf'. destruct (tcp_listen_structs v !! l) eqn:El; [done|].
  split; [|unfold ND; cbn; rewrite lookup_insert_eq; simpl; by rewrite Hnode].
  exists ls. eapply lo_attach; [eapply lo_at; [by eapply lo_unused| |by intros []|]|].
  - intros x Hx. rewrite !nodes_lookup. cbn. by rewrite lookup_insert_ne.
  - intros x b. cbn. destruct (decide (l = x)) as [<-|].
    + rewrite lookup_insert_eq. intros [= <-]. by rewrite Hst.
    + rewrite lookup_insert_ne by done. apply Hsep.
  - rewrite nodes_lookup. cbn. rewrite El, lookup_insert_eq. intros n [= <-]. apply Hst.
Qed.

Lemma hoare_tcp_alloc prio :
  hoare (on (LO [])) (tcp_alloc custom_free mem_avail garbage output ip_frag pcb_avail call_app prio)
    (λ r, on (λ v, LO [] v ∧ ∀ l, r = Some l → ND l fresh_node v)).
Proof.
  unfold tcp_alloc. skel_step. eapply (hoare_bind _ _ _ (λ _, on (LO []))).
  { case_match; [by apply hoare_done|].
    eapply hoare_bind; [by apply hoare_kill_oldest|]. intros ?. skel_step.
    case_match; [by apply hoare_done|]. by apply hoare_kill_oldest. }
  intros ?. skel_step. case_match; [by apply hoare_ret; intros s ?; split|].
  intros s r s' HLO. rewrite (bind_lift_same pget _ s _ eq_refl).
  change (lget (D := tcp_vars) s) with (tcp_of s). set (l := tcp_fresh (tcp_of s)).
  assert (on (λ v, LO [] v ∧ nodes v !! l = None) s) as HP by (split; [done|apply fresh_unused]).
  revert HP. generalize l. clear HLO l. revert s r s'. intros s r s' l. revert s r s'.
  skel_step. eapply hoare_bind; [by apply hoare_vars, (hoare_insert_new l (λ v, new_pcb _ _ _ _))|].
  intros ?. apply hoare_ret. intros s [? ?]. split; [done|]. by intros ? [= <-].
Qed.

End api.
End TcpInv.
