(* ===== verification/TcpRecv.v ===== *)
(** * What receiving a segment leaves alone

    [tcp_receive] changes the state of its block in one case only (a FIN that
    was queued), never the lists or [snd_nxt], and of the variables of
    [tcp_in.c] neither the flags nor the acknowledgement number of the segment. *)

From S2P Require Import Prelude RecordSet Def Ip4Addr InetChksum Netif Udp Pbuf Stack Ip4 Icmp.
From S2P Require Import Tcp TcpOut TcpCore TcpIn TcpFrame.

Module TcpRecv.
Import RecordSet Def Ip4Addr InetChksum Netif Udp Pbuf Stack Ip4 Icmp Tcp TcpOut TcpCore TcpIn TcpFrame.

(** What the segment says, and what has been found out about it. *)
Definition input_part (i : tcp_input_vars) : Z * Z * Z := (i_flags i, i_ackno i, i_recv_flags i).
Definition seq_part (v : tcp_vars) : gmap tloc Z * (Z * Z * Z) :=
  (t_snd_nxt <$> tcp_structs v, input_part (tcp_in v)).
Definition parts (v : tcp_vars) := (skeleton v, seq_part v).

(** With the receive window, and the number of the segment. *)
Definition window (b : tcp_pcb) : Z * Z := (t_rcv_nxt b, t_rcv_wnd b).
Definition wide (v : tcp_vars) := (parts v, (window <$> tcp_structs v, i_seqno (tcp_in v))).

Section recv.
Context {CF F A X : Type} `{HL : Lens X tcp_vars}.
Abbreviation stack := (stack CF F A X).
Abbreviation same := (same (CF := CF) (F := F) (A := A) (X := X)).
Context (custom_free : CF → loc → prog (heap CF) unit).
Context (mem_avail : heap CF → Z → bool) (garbage : heap CF → nat → Z).
Context (output ip_frag : netif_loc → loc → Z → prog stack err_t).
Context (seg_avail : stack → bool).
Hypothesis keeps_out : ∀ n p d, keeps (same (λ v, v)) (output n p d).
Hypothesis keeps_frag : ∀ n p d, keeps (same (λ v, v)) (ip_frag n p d).

Lemma parts_tupdate l f :
  (∀ b, node_of (f b) = node_of b ∧ t_snd_nxt (f b) = t_snd_nxt b) →
  keeps (same parts) (lift (tupdate l f)).
Proof.
  intros H. apply keeps_vars, keeps_tupdate. intros v b Hb. unfold parts, skeleton, heads, seq_part.
  cbn [tcp_structs tcp_listen_structs tcp_listen_pcbs tcp_bound_pcbs tcp_active_pcbs tcp_tw_pcbs
       tcp_in set_field eta_tcp_vars].
  destruct (H b) as [H1 H2].
  rewrite !fmap_insert, H1, H2, !insert_id; [done|..]; by rewrite lookup_fmap, Hb.
Qed.
Lemma parts_iupdate f :
  (∀ i, input_part (f i) = input_part i) →
  keeps (same parts) (iupdate (CF := CF) (F := F) (A := A) (X := X) f).
Proof.
  intros H. unfold iupdate. apply keeps_vars, keeps_modify. intros v. unfold vsame, parts, seq_part.
  cbn. by rewrite H.
Qed.

Lemma wide_parts {B} (m : prog stack B) : keeps (same wide) m → keeps (same parts) m.
Proof. intros H s a s' E. exact (f_equal fst (H s a s' E)). Qed.
Lemma wide_tupdate l f :
  (∀ b, node_of (f b) = node_of b ∧ t_snd_nxt (f b) = t_snd_nxt b ∧ window (f b) = window b) →
  keeps (same wide) (lift (tupdate l f)).
Proof.
  intros H. apply keeps_vars, keeps_tupdate. intros v b Hb.
  unfold wide, parts, skeleton, heads, seq_part.
  cbn [tcp_structs tcp_listen_structs tcp_listen_pcbs tcp_bound_pcbs tcp_active_pcbs tcp_tw_pcbs
       tcp_in set_field eta_tcp_vars].
  destruct (H b) as (H1 & H2 & H3).
  rewrite !fmap_insert, H1, H2, H3, !insert_id; [done|..]; by rewrite lookup_fmap, Hb.
Qed.
Lemma wide_iupdate f :
  (∀ i, input_part (f i) = input_part i ∧ i_seqno (f i) = i_seqno i) →
  keeps (same wide) (iupdate (CF := CF) (F := F) (A := A) (X := X) f).
Proof.
  intros H. unfold iupdate. apply keeps_vars, keeps_modify. intros v.
  unfold vsame, wide, parts, seq_part. cbn. by destruct (H (tcp_in v)) as [-> ->].
Qed.

(** Walk through a function that keeps [wide]. *)
Ltac recv :=
  repeat (keeps; try first
    [ apply wide_tupdate; intros ?; by repeat case_match
    | apply wide_iupdate; intros ?; done ]).

Lemma wide_ivars : keeps (same wide) (ivars (CF := CF) (F := F) (A := A) (X := X)).
Proof. unfold ivars. recv. Qed.
Lemma wide_ack_now pcb : keeps (same wide) (tcp_ack_now (CF := CF) (F := F) (A := A) (X := X) pcb).
Proof. unfold tcp_ack_now. recv. Qed.
Lemma wide_ack pcb : keeps (same wide) (tcp_ack (CF := CF) (F := F) (A := A) (X := X) pcb).
Proof. unfold tcp_ack. recv. Qed.
#[local] Hint Resolve wide_ivars wide_ack_now wide_ack : keeps.
Lemma wide_alloc_header pcb optlen datalen seqno_be :
  keeps (same wide)
    (tcp_output_alloc_header custom_free mem_avail garbage pcb optlen datalen seqno_be).
Proof. unfold tcp_output_alloc_header. recv. Qed.
#[local] Hint Resolve wide_alloc_header : keeps.
Lemma wide_send_empty_ack pcb :
  keeps (same wide) (tcp_send_empty_ack custom_free mem_avail garbage output ip_frag pcb).
Proof. unfold tcp_send_empty_ack. recv. Qed.
Lemma wide_rexmit pcb : keeps (same wide) (tcp_rexmit (CF := CF) (F := F) (A := A) (X := X) pcb).
Proof. unfold tcp_rexmit. recv. Qed.
#[local] Hint Resolve wide_send_empty_ack wide_rexmit : keeps.
Lemma wide_rexmit_fast pcb :
  keeps (same wide) (tcp_rexmit_fast (CF := CF) (F := F) (A := A) (X := X) pcb).
Proof. unfold tcp_rexmit_fast. recv. Qed.
Lemma wide_pcb_purge pcb : keeps (same wide) (tcp_pcb_purge custom_free pcb).
Proof. unfold tcp_pcb_purge. recv. Qed.
Lemma wide_update_rcv_ann_wnd pcb : keeps (same wide) (lift (tcp_update_rcv_ann_wnd pcb)).
Proof.
  apply keeps_vars. unfold tcp_update_rcv_ann_wnd.
  repeat (keeps; try first [ apply keeps_tderef
    | apply keeps_tupdate; intros v b Hb; unfold wide, parts, skeleton, heads, seq_part; cbn;
      rewrite !fmap_insert, !insert_id; [done|..]; by rewrite lookup_fmap, Hb ]).
Qed.
Lemma wide_input_rst : keeps (same wide) (input_rst custom_free mem_avail garbage output ip_frag).
Proof. unfold input_rst. recv. Qed.
#[local] Hint Resolve wide_rexmit_fast wide_pcb_purge wide_update_rcv_ann_wnd wide_input_rst : keeps.

(** ** Options *)

Lemma wide_getoptbyte : keeps (same wide) (tcp_getoptbyte (CF := CF) (F := F) (A := A) (X := X)).
Proof. unfold tcp_getoptbyte. recv. Qed.
#[local] Hint Resolve wide_getoptbyte : keeps.
Lemma wide_parseopt_loop n m pcb :
  keeps (same wide) (parseopt_loop (CF := CF) (F := F) (A := A) (X := X) n m pcb).
Proof. induction n; cbn [parseopt_loop]; recv. Qed.
#[local] Hint Resolve wide_parseopt_loop : keeps.
Lemma wide_parseopt pcb : keeps (same wide) (tcp_parseopt (CF := CF) (F := F) (A := A) (X := X) pcb).
Proof. unfold tcp_parseopt. recv. Qed.

(** ** Acknowledgements *)

Lemma wide_old_ack pcb ackno tcplen edge :
  keeps (same wide) (old_ack (CF := CF) (F := F) (A := A) (X := X) pcb ackno tcplen edge).
Proof. unfold old_ack, inflate. recv. Qed.
Lemma wide_free_acked pcb g : keeps (same wide) (free_acked custom_free pcb g).
Proof. unfold free_acked. recv. Qed.
#[local] Hint Resolve wide_old_ack wide_free_acked : keeps.
Lemma wide_unacked_loop pcb ackno l : keeps (same wide) (unacked_loop custom_free pcb ackno l).
Proof. induction l; cbn [unacked_loop]; recv. Qed.
Lemma wide_unsent_loop pcb ackno snd_nxt l :
  keeps (same wide) (unsent_loop custom_free pcb ackno snd_nxt l).
Proof. induction l; cbn [unsent_loop]; recv. Qed.
Lemma wide_grow_cwnd pcb : keeps (same wide) (grow_cwnd (CF := CF) (F := F) (A := A) (X := X) pcb).
Proof. unfold grow_cwnd, inflate. recv. Qed.
#[local] Hint Resolve wide_unacked_loop wide_unsent_loop wide_grow_cwnd : keeps.
Lemma wide_new_ack pcb ackno : keeps (same wide) (new_ack custom_free pcb ackno).
Proof. unfold new_ack. recv. Qed.
#[local] Hint Resolve wide_new_ack : keeps.
Lemma wide_receive_ack pcb :
  keeps (same wide) (receive_ack custom_free mem_avail garbage output ip_frag pcb).
Proof. unfold receive_ack, wnd_update, rtt_update. recv. Qed.
#[local] Hint Resolve wide_receive_ack : keeps.

(** ** Data *)

Lemma wide_seg_copy g : keeps (same wide) (tcp_seg_copy seg_avail g).
Proof. unfold tcp_seg_copy. recv. Qed.
Lemma wide_set_tcplen g : keeps (same wide) (set_tcplen g).
Proof. unfold set_tcplen. recv. Qed.
#[local] Hint Resolve wide_seg_copy wide_set_tcplen : keeps.
Lemma wide_trim_last n : keeps (same wide) (trim_last custom_free n).
Proof. unfold trim_last. recv. Qed.
#[local] Hint Resolve wide_trim_last : keeps.
Lemma wide_trim_to_window pcb : keeps (same wide) (trim_to_window custom_free pcb).
Proof. unfold trim_to_window. recv. Qed.
Lemma wide_covered_loop l : keeps (same wide) (covered_loop custom_free l).
Proof. induction l; cbn [covered_loop]; recv. Qed.
#[local] Hint Resolve wide_trim_to_window wide_covered_loop : keeps.
Lemma wide_adjust_ooseq pcb : keeps (same wide) (adjust_ooseq custom_free pcb).
Proof. unfold adjust_ooseq. recv. Qed.
#[local] Hint Resolve wide_adjust_ooseq : keeps.

Lemma wide_oos_covered n g l : keeps (same wide) (oos_covered custom_free n g l).
Proof. induction l; cbn [oos_covered]; recv. Qed.
#[local] Hint Resolve wide_oos_covered : keeps.
Lemma wide_oos_insert g l : keeps (same wide) (tcp_oos_insert_segment custom_free g l).
Proof. unfold tcp_oos_insert_segment. recv. Qed.
Lemma wide_oos_last n w g : keeps (same wide) (oos_last custom_free n w g).
Proof. unfold oos_last. recv. Qed.
#[local] Hint Resolve wide_oos_insert wide_oos_last : keeps.
Lemma wide_oos_loop n w l : ∀ before prev,
  keeps (same wide) (oos_loop custom_free seg_avail n w before prev l).
Proof. induction l; intros before prev; cbn [oos_loop]; recv. Qed.
#[local] Hint Resolve wide_oos_loop : keeps.
Lemma wide_out_of_order pcb :
  keeps (same wide)
    (receive_out_of_order custom_free mem_avail garbage output ip_frag seg_avail pcb).
Proof. unfold receive_out_of_order. recv. Qed.

(** ** The window moves *)

#[local] Hint Extern 10 (keeps (TcpFrame.same parts) _) => apply wide_parts; solve [eauto with keeps] : keeps.

Lemma parts_trim_first n : keeps (same parts) (trim_first n).
Proof. unfold trim_first. repeat (keeps; try (apply parts_iupdate; done)). Qed.
Lemma parts_advance pcb seqno len : keeps (same parts) (advance pcb seqno len).
Proof. unfold advance. repeat (keeps; try (apply parts_tupdate; done)). Qed.

End recv.

#[export] Hint Resolve wide_ivars wide_ack_now wide_ack wide_send_empty_ack wide_rexmit
  wide_rexmit_fast wide_pcb_purge wide_update_rcv_ann_wnd wide_input_rst wide_parseopt
  wide_receive_ack wide_seg_copy wide_set_tcplen wide_trim_to_window wide_adjust_ooseq
  wide_out_of_order parts_trim_first parts_advance : keeps.
#[export] Hint Extern 10 (keeps (same parts) _) => apply wide_parts; solve [eauto with keeps] : keeps.

(** Walk through a function that keeps [parts], or [wide]. *)
Ltac recv :=
  repeat (keeps; try first
    [ apply parts_tupdate; intros ?; by repeat case_match
    | apply parts_iupdate; intros ?; done
    | apply wide_tupdate; intros ?; by repeat case_match
    | apply wide_iupdate; intros ?; done ]).

End TcpRecv.
