(* ===== verification/TcpFsm.v ===== *)
(** * The state machine of a connection

    [tcp_process] moves a connection through the states of RFC 793, and keeps
    the lists of control blocks as they have to be. *)

From S2P Require Import Prelude RecordSet Def Ip4Addr InetChksum Netif Udp Pbuf Stack Ip4 Icmp.
From S2P Require Import Tcp TcpOut TcpCore TcpIn TcpFrame TcpLists TcpInv TcpRecv.

Module TcpFsm.
Import RecordSet Def Ip4Addr InetChksum Netif Udp Pbuf Stack Ip4 Icmp Tcp TcpOut TcpCore TcpIn TcpFrame TcpLists TcpInv TcpRecv.

(** ** The states of RFC 793 *)

(** Both ends have synchronized. *)
Definition synchronized (st : tcp_state) : bool :=
  match st with
  | ESTABLISHED | FIN_WAIT_1 | FIN_WAIT_2 | CLOSE_WAIT | CLOSING | LAST_ACK => true
  | _ => false
  end.

(** The state after a segment, given whether the peer's FIN has arrived in
    order and whether everything we sent, our FIN last, is acknowledged. *)
Definition rfc793 (st : tcp_state) (fin acked : bool) : tcp_state :=
  match st, fin, acked with
  | ESTABLISHED, true, _ => CLOSE_WAIT
  | FIN_WAIT_1, true, true => TIME_WAIT
  | FIN_WAIT_1, true, false => CLOSING
  | FIN_WAIT_1, false, true => FIN_WAIT_2
  | FIN_WAIT_2, true, _ => TIME_WAIT
  | CLOSING, _, true => TIME_WAIT
  | _, _, _ => st
  end.

(** ** What holds while a segment is received *)

Definition fin_seen (v : tcp_vars) : Prop := has (i_recv_flags (tcp_in v)) TF_GOT_FIN = true.

(** The block [x] was in state [st] when the segment came, with [snd_nxt] [sn];
    [i] is what [tcp_input] noted of the segment. *)
Record receiving (x : tloc) (st : tcp_state) (sn : Z) (i : Z * Z * Z) (v : tcp_vars) : Prop := {
  rc_lists : LO [] v;
  rc_state : AT x st v ∨ st = ESTABLISHED ∧ AT x CLOSE_WAIT v ∧ fin_seen v;
  rc_snd_nxt : t_snd_nxt <$> tcp_structs v !! x = Some sn;
  rc_flags : i_flags (tcp_in v) = i.1.1;
  rc_ackno : i_ackno (tcp_in v) = i.1.2;
  rc_recv_flags : i_recv_flags (tcp_in v) = i.2 ∨ i_recv_flags (tcp_in v) = Z.lor TF_GOT_FIN i.2;
}.

Definition parts_prop (P : tcp_vars → Prop) : Prop := ∀ v v', parts v = parts v' → P v → P v'.
Lemma skel_parts P : skel_prop P → parts_prop P.
Proof. intros H v v' E. apply H. exact (f_equal fst E). Qed.
Lemma parts_receiving x st sn i : parts_prop (receiving x st sn i).
Proof.
  intros v v' E H. unfold parts, seq_part, input_part in E.
  injection E as Hn Hl H1 H2 H3 H4 Hsn Hf Ha Hr.
  assert (skeleton v = skeleton v') as Es by (unfold skeleton, heads; congruence).
  destruct H as [HL HS Hsn' Hf' Ha' Hr']. split.
  - by eapply skel_LO.
  - destruct HS as [HS|(-> & HS & HF)]; [left; by eapply skel_AT|right].
    split; [done|]. split; [by eapply skel_AT|]. unfold fin_seen. by rewrite <-Hr.
  - by rewrite <-lookup_fmap, <-Hsn, lookup_fmap.
  - congruence.
  - congruence.
  - by rewrite <-Hr.
Qed.

Section fsm.
Context {CF F A X : Type} `{HL : Lens X tcp_vars}.
Abbreviation stack := (stack CF F A X).
Context (custom_free : CF → loc → prog (heap CF) unit).
Context (mem_avail : heap CF → Z → bool) (garbage : heap CF → nat → Z).
Context (output ip_frag : netif_loc → loc → Z → prog stack err_t).
Context (seg_avail pcb_avail listen_avail : stack → bool).
Context (tcp_timer_needed : prog stack unit).
Hypothesis keeps_out : ∀ n p d, keeps (same (λ v, v)) (output n p d).
Hypothesis keeps_frag : ∀ n p d, keeps (same (λ v, v)) (ip_frag n p d).
Hypothesis keeps_timer : keeps (same (λ v, v)) tcp_timer_needed.
Abbreviation same := (same (CF := CF) (F := F) (A := A) (X := X)).
Abbreviation on := (on (CF := CF) (F := F) (A := A) (X := X)).

Lemma hoare_parts {B} P (m : prog stack B) :
  parts_prop P → keeps (same parts) m → hoare (on P) m (λ _, on P).
Proof. intros HP Hm s a s' H E. eapply HP; [|done]. by eapply Hm. Qed.

Lemma add_fin_receiving x st sn i :
  hoare (on (receiving x st sn i)) (add_recv_flags TF_GOT_FIN)
    (λ _, on (λ v, receiving x st sn i v ∧ fin_seen v)).
Proof.
  unfold add_recv_flags, iupdate. apply hoare_vars. intros v [] v' [HL' HS Hsn Hf Ha Hr] E.
  injection E as <-. set (v' := v <|tcp_in ::= _|>).
  assert (fin_seen v') as Hfin.
  { unfold fin_seen, v'. cbn. unfold has. destruct Hr as [-> | ->]; apply negb_true_iff, Z.eqb_neq;
      rewrite Z.land_lor_distr_l; intros [? _]%Z.lor_eq_0_iff; done. }
  split; [|done]. split; [|..|]; try done.
  - eapply skel_LO; [|exact HL']; done.
  - by destruct HS as [HS|(-> & HS & _)]; [left|right].
  - right. unfold v'. cbn. destruct Hr as [-> | ->]; [done|]. by rewrite Z.lor_assoc, Z.lor_diag.
Qed.

(** The first command keeps [parts]. *)
Ltac recv_step :=
  eapply hoare_seq; [apply hoare_parts; [by apply parts_receiving|by recv]|intros ?].
Ltac recv_last := apply hoare_parts; [by apply parts_receiving|by recv].

(** A FIN in the queue: the connection is half closed. *)
Lemma set_close_wait_receiving x sn i :
  hoare (on (λ v, receiving x ESTABLISHED sn i v ∧ fin_seen v))
    (set_state x CLOSE_WAIT) (λ _, on (receiving x ESTABLISHED sn i)).
Proof.
  apply hoare_vars. intros v [] v' [[HL' HS Hsn Hf Ha Hr] Hfin] E.
  assert (LO [] v' ∧ AT x CLOSE_WAIT v') as [HL1 HA1].
  { destruct HS as [HS|(_ & HS & _)];
      (eapply hoare_state_home; [..|split; [exact HL'|exact HS]|exact E]; done). }
  unfold tupdate, tderef in E. cbv [mbind prog_bind pget pderef] in E.
  destruct (tcp_structs v !! x) as [b|] eqn:Eb; [|done]. injection E as <-.
  split; [done|by right|..]; try done. cbn. by rewrite lookup_insert_eq.
Qed.

Lemma dequeue_receiving x st sn i l :
  hoare (on (receiving x st sn i)) (dequeue_loop custom_free x l) (λ _, on (receiving x st sn i)).
Proof.
  induction l as [|cseg l IH]; cbn [dequeue_loop]; [recv_last|].
  apply hoare_tderef. intros b.
  apply (hoare_pre _ (λ v, receiving x st sn i v ∧ (t_state b = ESTABLISHED → st = ESTABLISHED))).
  2: { intros v [HR HN%ND_AT]. split; [done|]. intros Hb. simpl in HN. rewrite Hb in HN.
       destruct (rc_state _ _ _ _ _ HR) as [Ha|(_ & Ha & _)]; unfold AT in *; congruence. }
  apply hoare_pure. intros Hb. recv_step. case_match; [|recv_last]. do 8 recv_step.
  eapply (hoare_bind _ _ _ (λ _, on (receiving x st sn i))).
  - case_match; [|recv_last]. eapply hoare_bind; [apply add_fin_receiving|]. intros ?.
    unfold is_state. case_bool_decide; [|by apply hoare_done; intros ? []].
    rewrite Hb by done. apply set_close_wait_receiving.
  - intros ?. do 2 recv_step. apply IH.
Qed.

Lemma in_order_receiving x st sn i :
  hoare (on (receiving x st sn i)) (receive_in_order custom_free x) (λ _, on (receiving x st sn i)).
Proof.
  unfold receive_in_order. do 10 recv_step. eapply (hoare_bind _ _ _ (λ _, on (receiving x st sn i))).
  - case_match; [|recv_last]. eapply hoare_conseq; [apply add_fin_receiving|done|by intros ? ? []].
  - intros ?. recv_step. eapply hoare_seq; [apply dequeue_receiving|]. intros ?. recv_last.
Qed.

Abbreviation tcp_receive := (tcp_receive custom_free mem_avail garbage output ip_frag seg_avail).

Lemma receive_receiving x st sn i :
  hoare (on (receiving x st sn i)) (tcp_receive x) (λ _, on (receiving x st sn i)).
Proof.
  unfold TcpIn.tcp_receive. do 5 recv_step. case_match; [|recv_last].
  unfold receive_data. do 4 recv_step. case_match; [|recv_last].
  case_match; [apply in_order_receiving|recv_last].
Qed.

(** ** The variables of the segment *)

(** Walk through a function on TCP's variables that leaves [tcp_in]. *)
Ltac in_vars :=
  repeat (keeps; try first
    [ apply keeps_tupdate; done | apply keeps_modify; intros ?; unfold vsame, set_head_of; by repeat case_match
    | apply keeps_next_of ]).

Lemma in_set_next_of l n : keeps (vsame tcp_in) (set_next_of l n).
Proof. unfold set_next_of, is_listen, lupdate, lderef. in_vars. Qed.
#[local] Hint Resolve in_set_next_of keeps_next_of : keeps.
Lemma in_TCP_RMV k x : keeps (vsame tcp_in) (TCP_RMV k x).
Proof.
  assert (∀ n p, keeps (vsame tcp_in) (rmv_loop n p x)).
  { induction n as [|n IH]; intros [t|]; cbn [rmv_loop]; in_vars. }
  unfold TCP_RMV. in_vars.
Qed.
Lemma in_reg k x : keeps (vsame tcp_in) (reg k x).
Proof. unfold reg. in_vars. Qed.
#[local] Hint Resolve in_TCP_RMV in_reg : keeps.
Lemma in_pcb_purge x : keeps (same tcp_in) (tcp_pcb_purge custom_free x).
Proof. unfold tcp_pcb_purge. repeat (keeps; try (apply keeps_vars; by in_vars)). Qed.

(** ** The transitions *)

Abbreviation enter_timewait := (enter_timewait custom_free tcp_timer_needed).
Abbreviation process_synchronized :=
  (process_synchronized custom_free mem_avail garbage output ip_frag seg_avail tcp_timer_needed).
Abbreviation tcp_process := (tcp_process custom_free mem_avail garbage output ip_frag seg_avail
  tcp_timer_needed).

Lemma hoare_enter_timewait x st :
  home st = ACTIVE_PCBS →
  hoare (on (λ v, LO [] v ∧ AT x st v)) (enter_timewait x) (λ _, on (λ v, LO [] v ∧ AT x TIME_WAIT v)).
Proof.
  intros Hst. unfold TcpIn.enter_timewait.
  eapply hoare_seq; [apply hoare_skel; [by auto with skel|by frame]|intros ?].
  eapply hoare_bind; [eapply hoare_bind; [apply hoare_vars, (hoare_rmv _ _ st); done|]|].
  { intros ?. apply (hoare_skel (λ v, LO [x] v ∧ AT x st v)); [by auto with skel|by frame]. }
  intros ?. eapply hoare_bind; [apply hoare_vars, (hoare_state [] x st TIME_WAIT); done|]. intros ?.
  apply hoare_TCP_REG; [done|done|done|]. by intros ?%elem_of_nil.
Qed.

Lemma in_enter_timewait x : keeps (same tcp_in) (enter_timewait x).
Proof.
  unfold TcpIn.enter_timewait, TcpCore.TCP_RMV_ACTIVE, TcpCore.TCP_REG, set_changed.
  pose proof (keeps_weaken tcp_in _ keeps_timer).
  repeat (keeps; try first [apply in_pcb_purge|apply keeps_vars; in_vars]).
Qed.

(** ** Synchronized states *)

Lemma hoare_and_same {B T} (π : tcp_vars → T) P (m : prog stack B) (Q R : tcp_vars → Prop) :
  hoare (on P) m (λ _, on Q) → keeps (same π) m → (∀ v v', π v = π v' → R v → R v') →
  hoare (on (λ v, P v ∧ R v)) m (λ _, on (λ v, Q v ∧ R v)).
Proof. intros Hm Hk HR s a s' [HP Hr] E. split; [by eapply Hm|]. eapply HR; [|exact Hr]. by eapply Hk. Qed.

(** The flag TF_GOT_FIN after the segment. *)
Definition fin_is (fin : bool) (v : tcp_vars) : Prop := has (i_recv_flags (tcp_in v)) TF_GOT_FIN = fin.
Definition closed_is (closed : bool) (v : tcp_vars) : Prop :=
  has (i_recv_flags (tcp_in v)) TF_CLOSED = closed.
Definition no_reset (v : tcp_vars) : Prop := has (i_recv_flags (tcp_in v)) TF_RESET = false.

Lemma hoare_got_fin {B} P (k : bool → prog stack B) Q :
  (∀ fin, hoare (on (λ v, P v ∧ fin_is fin v)) (k fin) Q) → hoare (on P) (fin ← got_fin_flag; k fin) Q.
Proof.
  intros Hk s a s' HP E. unfold got_fin_flag, ivars in E.
  eapply (Hk (has (i_recv_flags (tcp_in (tcp_of s))) TF_GOT_FIN)); [by split|].
  erewrite bind_ret in E; [exact E|]. erewrite bind_ret; [done|]. erewrite bind_lift_same; done.
Qed.
Lemma hoare_all_acked {B} x P sn fl ak (k : bool → prog stack B) Q :
  (∀ v, P v → t_snd_nxt <$> tcp_structs v !! x = Some sn ∧ i_flags (tcp_in v) = fl ∧ i_ackno (tcp_in v) = ak) →
  hoare (on P) (k (has fl TCP_ACK && (ak =? sn))) Q →
  hoare (on P) (acked ← all_acked x; k acked) Q.
Proof.
  intros HP Hk s a s' Hs E. destruct (HP _ Hs) as (Hsn & Hf & Ha).
  destruct (tcp_structs (tcp_of s) !! x) as [b|] eqn:Eb; [|done]. injection Hsn as Hsn.
  eapply Hk; [exact Hs|]. erewrite bind_ret in E; [exact E|]. unfold all_acked, ivars.
  erewrite bind_ret; [|erewrite bind_lift_same; done].
  erewrite bind_lift_same; [|unfold tderef; rewrite bind_get; unfold tcp_of in Eb; cbn; by rewrite Eb].
  change (lget (D := tcp_vars) s) with (tcp_of s). by rewrite Hf, Ha, Hsn.
Qed.

(** The lists, the state and the flags of the segment after a transition. *)
Definition after (x : tloc) (st : tcp_state) (fin closed : bool) (v : tcp_vars) : Prop :=
  (LO [] v ∧ AT x st v) ∧ (fin_is fin v ∧ closed_is closed v ∧ no_reset v).

Lemma flags_in fin closed v v' :
  tcp_in v = tcp_in v' → fin_is fin v ∧ closed_is closed v ∧ no_reset v →
  fin_is fin v' ∧ closed_is closed v' ∧ no_reset v'.
Proof. unfold fin_is, closed_is, no_reset. by intros ->. Qed.
Lemma parts_after x st fin closed : parts_prop (after x st fin closed).
Proof.
  intros v v' E [H1 H2]. split; [eapply (skel_parts (λ v, LO [] v ∧ AT x st v)); [by auto with skel|done..]|].
  unfold fin_is, closed_is, no_reset in *. unfold parts, seq_part, input_part in E.
  injection E as _ _ _ _ _ _ _ _ _ Hr. by rewrite <-Hr.
Qed.

Lemma hoare_move x st st' fin closed :
  home st = ACTIVE_PCBS → home st' = ACTIVE_PCBS →
  hoare (on (after x st fin closed)) (set_state x st') (λ _, on (after x st' fin closed)).
Proof.
  intros Hst Hst'. apply (hoare_and_same tcp_in); [|apply keeps_vars; by in_vars|apply flags_in].
  apply hoare_vars, hoare_state_home; [congruence|congruence|by intros ->].
Qed.
Lemma hoare_move_timewait x st fin closed :
  home st = ACTIVE_PCBS →
  hoare (on (after x st fin closed)) (enter_timewait x) (λ _, on (after x TIME_WAIT fin closed)).
Proof.
  intros Hst. apply (hoare_and_same tcp_in); [by apply hoare_enter_timewait|apply in_enter_timewait|apply flags_in].
Qed.
Lemma hoare_move_closed x st fin closed :
  hoare (on (after x st fin closed)) (add_recv_flags TF_CLOSED) (λ _, on (after x st fin true)).
Proof.
  unfold add_recv_flags, iupdate. apply hoare_vars. intros v [] v' [[HL' HA] (Hf & Hc & Hr)] E. injection E as <-.
  split; [split; [eapply skel_LO; [|exact HL']; done|done]|].
  unfold fin_is, closed_is, no_reset, has in *. cbn. rewrite !Z.land_lor_distr_l.
  split; [exact Hf|]. split; [|exact Hr]. apply negb_true_iff, Z.eqb_neq. by intros [? _]%Z.lor_eq_0_iff.
Qed.

(** What is known once the segment is received. *)
Lemma receiving_after x st sn fl ak rf fin v :
  has rf TF_RESET = false → receiving x st sn (fl, ak, rf) v → fin_is fin v →
  after x st fin (has rf TF_CLOSED) v ∨
  (st = ESTABLISHED ∧ fin = true) ∧ after x CLOSE_WAIT fin (has rf TF_CLOSED) v.
Proof.
  intros Hrf [HL' HS _ _ _ Hr] Hfin.
  assert (closed_is (has rf TF_CLOSED) v ∧ no_reset v) as Hc.
  { unfold closed_is, no_reset, has in *. destruct Hr as [-> | ->]; [done|]. by rewrite !Z.land_lor_distr_l. }
  destruct HS as [HS|(-> & HS & HF)]; [by left|right].
  split; [|done]. split; [done|]. unfold fin_is, fin_seen in *. congruence.
Qed.
Lemma hoare_received {B} x st sn fl ak rf fin (m : prog stack B) Q :
  has rf TF_RESET = false →
  hoare (on (after x st fin (has rf TF_CLOSED))) m Q →
  (st = ESTABLISHED → fin = true → hoare (on (after x CLOSE_WAIT fin (has rf TF_CLOSED))) m Q) →
  hoare (on (λ v, receiving x st sn (fl, ak, rf) v ∧ fin_is fin v)) m Q.
Proof.
  intros Hrf H1 H2 s a s' [HR HF] E. destruct (receiving_after _ _ _ _ _ _ _ _ Hrf HR HF) as [H|[[-> ->] H]].
  - by eapply H1.
  - by eapply H2.
Qed.

Lemma process_synchronized_spec x st sn fl ak rf :
  synchronized st = true → has rf TF_RESET = false →
  hoare (on (receiving x st sn (fl, ak, rf))) (process_synchronized x st)
    (λ _, on (λ v, ∃ fin, let acked := has fl TCP_ACK && (ak =? sn) in
       after x (rfc793 st fin acked) fin
         (has rf TF_CLOSED || bool_decide (st = LAST_ACK) && acked) v)).
Proof.
  intros Hst Hrf. unfold TcpIn.process_synchronized.
  eapply hoare_seq; [apply receive_receiving|]. intros ?. apply hoare_got_fin. intros fin.
  apply (hoare_all_acked x _ sn fl ak); [by intros v [[] _]|]. set (acked := _ && _).
  eapply (hoare_conseq _ _ _ _ (λ _, on (after x (rfc793 st fin acked) fin
    (has rf TF_CLOSED || bool_decide (st = LAST_ACK) && acked)))); [|done|by intros ? ? ?; exists fin].
  apply hoare_received; [done| |intros -> ->].
  - destruct st; try done; simpl; destruct fin, acked; simpl; rewrite ?orb_false_r, ?orb_true_r;
      repeat first
        [ by apply hoare_done | by apply hoare_move | by apply hoare_move_timewait
        | apply hoare_move_closed
        | eapply hoare_seq; [apply hoare_parts; [apply parts_after|by recv]|]; intros ? ].
  - simpl. rewrite orb_false_r. eapply hoare_seq; [apply hoare_parts; [apply parts_after|by recv]|].
    intros ?. by apply hoare_move.
Qed.

(** ** [tcp_process] *)

Context (call_app : app_call → prog stack err_t).

(** The block is in its list, in state [st], and the segment has set [rf]. *)
Definition noted (x : tloc) (st : tcp_state) (rf : Z) (v : tcp_vars) : Prop :=
  (LO [] v ∧ AT x st v) ∧ i_recv_flags (tcp_in v) = rf.
Lemma parts_noted x st rf : parts_prop (noted x st rf).
Proof.
  intros v v' E [H1 H2]. split; [eapply (skel_parts (λ v, LO [] v ∧ AT x st v)); [by auto with skel|done..]|].
  unfold parts, seq_part, input_part in E. injection E as _ _ _ _ _ _ _ _ _ Hr. by rewrite <-Hr.
Qed.
Lemma noted_block x st rf v :
  noted x st rf v → LO [] v ∧ i_recv_flags (tcp_in v) = rf ∧
    ∃ b, tcp_structs v !! x = Some b ∧ t_state b = st.
Proof.
  intros [[HL' HA] Hr]. split; [done|]. split; [done|]. unfold AT in HA.
  destruct (tcp_structs v !! x) as [b|]; [|done]. injection HA as <-. by exists b.
Qed.

Lemma hoare_process_rst x st :
  hoare (on (noted x st 0))
    (add_recv_flags TF_RESET;;
     lift (tupdate x (λ b, b <|t_flags ::= clear TF_ACK_DELAY|>));;
     mret ERR_RST) (λ err s, err = ERR_RST ∧ on (noted x st TF_RESET) s).
Proof.
  eapply (hoare_bind _ _ _ (λ _, on (noted x st TF_RESET))).
  - unfold add_recv_flags, iupdate. apply hoare_vars. intros v [] v' [[HL' HA] Hr] E. injection E as <-.
    split; [split; [eapply skel_LO; [|exact HL']; done|done]|]. cbn. by rewrite Hr.
  - intros ?. eapply hoare_seq; [apply hoare_parts; [apply parts_noted|by recv]|]. intros ?.
    by apply hoare_ret.
Qed.
Lemma hoare_process_syn x st :
  hoare (on (noted x st 0)) (tcp_ack_now x;; mret ERR_OK) (λ err s, err = ERR_OK ∧ on (noted x st 0) s).
Proof.
  eapply hoare_seq; [apply hoare_parts; [apply parts_noted|by recv]|]. intros ?. by apply hoare_ret.
Qed.
Lemma hoare_process_other x st sn fl ak ticks :
  synchronized st = true →
  hoare (on (receiving x st sn (fl, ak, 0)))
    (lift (tupdate x (λ b, (if has (t_flags b) TF_RXCLOSED then b else b <|t_tmr := ticks|>)
                             <|t_keep_cnt_sent := 0|>));;
     tcp_parseopt x;;
     process_synchronized x st;; mret ERR_OK)
    (λ err s, err = ERR_OK ∧ on (λ v, ∃ fin, let acked := has fl TCP_ACK && (ak =? sn) in
       after x (rfc793 st fin acked) fin (bool_decide (st = LAST_ACK) && acked) v) s).
Proof.
  intros Hst. do 2 recv_step. eapply hoare_bind; [by apply process_synchronized_spec|]. intros ?.
  by apply hoare_ret.
Qed.


End fsm.
(** ** One connection *)

Lemma lists_ok_single b (i : tcp_input_vars) :
  home (t_state b) = ACTIVE_PCBS → t_next b = None → t_state b ≠ LISTEN →
  lists_ok (tcp_vars_init <|tcp_structs := {[1%positive := b]}|>
              <|tcp_active_pcbs := Some 1%positive|> <|tcp_in := i|>).
Proof.
  intros Hh Hn Hl. set (v := tcp_vars_init <|tcp_structs := _|> <|tcp_active_pcbs := _|> <|tcp_in := _|>).
  assert (∀ l n, nodes v !! l = Some n ↔ l = 1%positive ∧ n = node_of b) as Hv.
  { intros l n. rewrite nodes_lookup. cbn. rewrite lookup_empty.
    destruct (decide (l = 1%positive)) as [->|Hne].
    - rewrite lookup_singleton_eq. split; [by intros [= <-]|by intros [_ ->]].
    - rewrite lookup_singleton_ne by done. by split; [|intros [? _]]. }
  exists (λ k, match k with ACTIVE_PCBS => [1%positive] | _ => [] end). split.
  - intros []; try done. split; [done|]. exists (node_of b). split; [by apply Hv|]. done.
  - intros [] l; try (by intros ?%elem_of_nil). intros ->%list_elem_of_singleton.
    exists (node_of b). split; [by apply Hv|]. split; [done|]. done.
  - intros l n [-> ->]%Hv _ _. simpl. rewrite Hh. by left.
  - intros l k Hl'. by apply elem_of_nil in Hl'.
  - intros l b'. cbn. rewrite lookup_empty. destruct (decide (l = 1%positive)) as [->|Hne].
    + rewrite lookup_singleton_eq. by intros [= <-].
    + by rewrite lookup_singleton_ne by done.
Qed.

(** Our FIN is on its way; the segment acknowledges it and has the peer's FIN. *)
Definition fin_block : tcp_pcb :=
  (new_pcb TCP_PRIO_NORMAL 6510 0 0) <|t_state := FIN_WAIT_1|> <|t_local_port := 80|>
    <|t_rcv_nxt := 1000|> <|t_snd_nxt := 6512|> <|t_lastack := 6511|>.
Definition fin_segment : tcp_input_vars :=
  (tcp_in tcp_vars_init)
    <|i_inseg := mk_tcp_seg (Some 1%positive) 0 0 0 (1%positive, 0)|>
    <|i_flags := Z.lor TCP_ACK TCP_FIN|> <|i_seqno := 1000|> <|i_ackno := 6512|> <|i_tcplen := 1|>.
Definition fin_stack : stack unit unit unit tcp_vars :=
  mk_stack {[1%positive := mk_pbuf None (repeat 0 12 ++ [0x50; 0x11; 64; 31; 0; 0; 0; 0]) 20 0 0
                             PBUF_POOL 0 1 None]}
    (mk_netif_state ∅ [] None 0) udp_init 0 (mk_ip_globals None None 0 0 0)
    (tcp_vars_init <|tcp_structs := {[1%positive := fin_block]}|>
       <|tcp_active_pcbs := Some 1%positive|> <|tcp_in := fin_segment|>).
Definition fin_run : fault + (err_t * stack unit unit unit tcp_vars) :=
  tcp_process (λ _ _, mret ()) (λ _ _, true) (λ _ _, 0) (λ _ _ _, mret ERR_OK) (λ _ _ _, mret ERR_OK)
    (λ _, true) (mret ()) (λ _, mret ERR_OK) 1%positive fin_stack.
Definition fin_end : stack unit unit unit tcp_vars :=
  match fin_run with inr (_, s) => s | inl _ => fin_stack end.


End TcpFsm.
