(* ===== verification/TcpEvents.v ===== *)
(** * Segments that arrive

    [tcp_input] keeps the lists of control blocks as they have to be, whatever
    arrives, as long as the functions of the application that it calls do what
    [tcp.h] asks for: one that gets rid of its connection returns ERR_ABRT. *)

From S2P Require Import Prelude RecordSet Def Ip4Addr InetChksum Netif Udp Pbuf Stack Ip4 Icmp.
From S2P Require Import Tcp TcpOut TcpCore TcpIn TcpFrame TcpLists TcpInv TcpRecv TcpFsm.

Module TcpEvents.
Import RecordSet Def Ip4Addr InetChksum Netif Udp Pbuf Stack Ip4 Icmp.
Import Tcp TcpOut TcpCore TcpIn TcpFrame TcpLists TcpInv TcpRecv TcpFsm.

(** ** Assertions *)

(** By its state, [x] is in the list [k]. *)
Definition HM (x : tloc) (k : pcb_list) (v : tcp_vars) : Prop := ∃ st, AT x st v ∧ home st = k.
Lemma skel_HM x k : skel_prop (HM x k).
Proof. intros v v' E (st & HA & Hk). exists st. split; [|done]. by eapply skel_AT. Qed.
#[export] Hint Resolve skel_HM : skel.

Lemma HM_abortable x k v : k ≠ BOUND_PCBS → HM x k v → abortable x v.
Proof.
  intros Hk (st & HA & Hst) n HN%ND_AT Hc. unfold AT in *. rewrite HN in HA. injection HA as HA.
  exfalso. apply Hk. rewrite <-Hst, <-HA, Hc. done.
Qed.
Lemma HM_in ls v x k : lists_ok_with ls [] v → x ∈ ls k → k ≠ LISTEN_PCBS → HM x k v.
Proof.
  intros H Hx Hk. destruct (lo_home _ _ _ H _ _ Hx) as (n & En & Hh & _).
  rewrite nodes_lookup in En. destruct (tcp_listen_structs v !! x); [by injection En as <-|].
  destruct (tcp_structs v !! x) as [b|] eqn:Eb; [|done]. injection En as <-.
  exists (t_state b). unfold AT. by rewrite Eb.
Qed.

(** The application has set a function that receives data, or NULL. *)
Definition RN (x : tloc) (v : tcp_vars) : Prop := ∀ n, ND x n v → n_recv_null n = false.
Lemma skel_RN x : skel_prop (RN x).
Proof. intros v v' E H n HN. eapply H, skel_ND; [|exact HN]. done. Qed.
#[export] Hint Resolve skel_RN : skel.

(** The segment ends the connection. *)
Definition dead (v : tcp_vars) : Prop :=
  has (i_recv_flags (tcp_in v)) TF_RESET = true ∨ has (i_recv_flags (tcp_in v)) TF_CLOSED = true.

(** The block that a function of the application is called for. *)
Definition pcb_of (c : app_call) : option tloc :=
  match c with
  | CallAccept _ _ x _ | CallRecv _ _ x _ _ | CallSent _ _ x _ | CallConnected _ _ x _
  | CallPoll _ _ x => Some x
  | CallErr _ _ _ => None
  end.

(** ** The search for a block *)

(** [q] is before [x] in [l], or [prev] if [x] is the first. *)
Definition found (l : list tloc) (prev q : option tloc) (x : tloc) : Prop :=
  ∃ l1 l2, l = l1 ++ x :: l2 ∧ q = from_option Some prev (list.last l1).

Lemma found_here l prev x : found (x :: l) prev prev x.
Proof. by exists [], l. Qed.
Lemma found_next l prev q x y : found l (Some y) q x → found (y :: l) prev q x.
Proof.
  intros (l1 & l2 & -> & ->). exists (y :: l1), l2. split; [done|].
  rewrite list.last_cons. by destruct (list.last l1).
Qed.
Lemma found_last k ls D v q x :
  lists_ok_with ls D v → found (ls k) None q x →
  q = None ∨ ∃ y l1 l2, q = Some y ∧ ls k = l1 ++ y :: x :: l2.
Proof.
  intros _ (l1 & l2 & -> & ->). destruct (list.last l1) as [y|] eqn:El; [right|by left].
  apply list.last_Some in El as [l1' ->]. exists y, l1', l2. by rewrite <-app_assoc.
Qed.

Lemma keeps_vsame_not_listen x : keeps (vsame (λ v, v)) (not_listen x).
Proof. unfold not_listen, is_listen. keeps. Qed.
Lemma find_conn_spec tw c v fuel : ∀ prev p l r v',
  sep v → path (nodes v) p l → find_conn fuel tw c prev p v = inr (r, v') →
  v' = v ∧ ∀ q x, r = Some (q, x) → found l prev q x.
Proof.
  induction fuel as [|fuel IH]; intros prev p l r v' Hsep Hp E; destruct l as [|x l]; simpl in Hp.
  1, 3: subst p; cbn [find_conn] in E; by injection E as <- <-.
  { destruct Hp as [-> _]. done. }
  destruct Hp as (-> & n & Hx & Hp). cbn [find_conn] in E.
  destruct (not_listen x v) as [|[[] v1]] eqn:Enl; [by rewrite (bind_fault _ _ _ f) in E|].
  assert (v1 = v) as -> by (symmetry; by apply (keeps_vsame_not_listen x v () v1)).
  rewrite (bind_ret _ _ _ _ _ Enl) in E. unfold tderef in E. rewrite bind_assoc_get in E.
  destruct (tcp_structs v !! x) as [b|] eqn:Eb; [|done]. rewrite (bind_deref _ b) in E by done.
  assert (n_next n = t_next b) as Hn.
  { rewrite nodes_lookup in Hx. destruct (Hsep _ _ Eb) as [El _]. rewrite El, Eb in Hx. by injection Hx as <-. }
  rewrite Hn in Hp. match type of E with (passert ?c ≫= _) _ = _ => destruct c end; [|done].
  rewrite bind_assert in E by done. case_bool_decide.
  - assert (r = Some (prev, x) ∧ v' = v) as [-> ->].
    { destruct tw; [rewrite bind_mret in E; by injection E as <- <-|].
      case_bool_decide; [done|]. rewrite bind_assert in E by done. by injection E as <- <-. }
    split; [done|]. intros ? ? [= <- <-]. apply found_here.
  - destruct (IH _ _ _ _ _ Hsep Hp E) as [-> Hr]. split; [done|]. intros q y Hy. by apply found_next, Hr.
Qed.

Lemma find_listen_spec ip port v fuel : ∀ prev p l r v',
  path (nodes v) p l → find_listen fuel ip port prev p v = inr (r, v') →
  v' = v ∧ ∀ q x, r = Some (q, x) → found l prev q x.
Proof.
  induction fuel as [|fuel IH]; intros prev p l r v' Hp E; destruct l as [|x l]; simpl in Hp.
  1, 3: subst p; cbn [find_listen] in E; by injection E as <- <-.
  { destruct Hp as [-> _]. done. }
  destruct Hp as (-> & n & Hx & Hp). cbn [find_listen] in E. unfold lderef in E.
  rewrite bind_assoc_get in E. destruct (tcp_listen_structs v !! x) as [b|] eqn:Eb; [|done].
  rewrite (bind_deref _ b) in E by done.
  assert (n_next n = l_next b) as Hn by (rewrite nodes_lookup, Eb in Hx; by injection Hx as <-).
  rewrite Hn in Hp. case_match.
  - injection E as <- <-. split; [done|]. intros ? ? [= <- <-]. apply found_here.
  - destruct (IH _ _ _ _ _ Hp E) as [-> Hr]. split; [done|]. intros q y Hy. by apply found_next, Hr.
Qed.

(** The block that was found becomes the first of its list. *)
Lemma hoare_move_to_front ls k q x v v' :
  lists_ok_with ls [] v → found (ls k) None q x → move_to_front k q x v = inr ((), v') →
  LO [] v' ∧ states v' = states v.
Proof.
  intros H Hf E. destruct (found_last _ _ _ _ _ _ H Hf) as [->|(y & l1 & l2 & -> & Hl)].
  { injection E as <-. split; [by exists ls|done]. }
  destruct (lo_home _ _ _ H k x) as (n & Hx & Hk & Hport); [rewrite Hl; set_solver|]. cbn [move_to_front] in E.
  destruct (lo_unlink _ _ _ _ _ _ _ _ H Hl) as (v1 & E1 & H1 & Hx1 & Hs1). rewrite Hx in Hx1.
  destruct (lo_reg _ _ _ _ _ H1 Hx1) as (v2 & E2 & H2 & Hs2); [by intros ?%elem_of_nil|by rewrite Hk|].
  rewrite Hk in E2, H2. rewrite <-bind_assoc, (bind_ret _ _ _ _ _ E1) in E.
  unfold reg in E2. rewrite E2 in E. injection E as <-. split; [by eexists|congruence].
Qed.

Section events.
Context {CF F A X : Type} `{HL : Lens X tcp_vars}.
Abbreviation stack := (stack CF F A X).
Context (custom_free : CF → loc → prog (heap CF) unit).
Context (mem_avail : heap CF → Z → bool) (garbage : heap CF → nat → Z).
Context (output ip_frag : netif_loc → loc → Z → prog stack err_t).
Context (seg_avail pcb_avail : stack → bool).
Context (tcp_timer_needed : prog stack unit).
Context (call_app : app_call → prog stack err_t).
Abbreviation same := (same (CF := CF) (F := F) (A := A) (X := X)).
Abbreviation on := (on (CF := CF) (F := F) (A := A) (X := X)).

(** What the application must do: it keeps the lists; a function that is
    called for a block and does not return ERR_ABRT leaves the block in its
    list, and does not set [tcp_recv_null], which is static; the error function
    leaves the blocks that are still there; and the segment that is being
    processed stays the same. *)
Record app_ok : Prop := {
  app_lists c : hoare (on (LO [])) (call_app c) (λ _, on (LO []));
  app_block c x k : pcb_of c = Some x → k ≠ BOUND_PCBS →
    hoare (on (λ v, LO [] v ∧ HM x k v)) (call_app c) (λ r, on (λ v, r ≠ ERR_ABRT → HM x k v));
  app_err n arg e x :
    hoare (on (λ v, LO [] v ∧ HM x ACTIVE_PCBS v)) (call_app (CallErr n arg e))
      (λ _, on (HM x ACTIVE_PCBS));
  app_recv c x : pcb_of c = Some x →
    hoare (on (RN x)) (call_app c) (λ r, on (λ v, r ≠ ERR_ABRT → RN x v));
  app_in c : keeps (same tcp_in) (call_app c)
}.

Hypothesis keeps_out : ∀ n p d, keeps (same (λ v, v)) (output n p d).
Hypothesis keeps_frag : ∀ n p d, keeps (same (λ v, v)) (ip_frag n p d).
Hypothesis keeps_timer : keeps (same (λ v, v)) tcp_timer_needed.
Hypothesis app : app_ok.

Lemma hoare_call c x k :
  pcb_of c = Some x → k ≠ BOUND_PCBS →
  hoare (on (λ v, LO [] v ∧ HM x k v)) (call_app c)
    (λ r, on (λ v, LO [] v ∧ (r ≠ ERR_ABRT → HM x k v))).
Proof.
  intros Hc Hk s r s' [HLO HH] E. split; [by eapply (app_lists app)|].
  by eapply (app_block app c x k Hc Hk).
Qed.

Lemma hoare_result {B} P (Q : B → tcp_vars → Prop) a :
  (∀ v, P v → Q a v) → hoare (on P) (mret a) (λ a, on (Q a)).
Proof. intros H. apply hoare_ret. intros s. apply H. Qed.

(** A function that a segment does not concern. *)
Lemma hoare_and_in {B} P (m : prog stack B) Q (R : tcp_vars → Prop) :
  hoare (on P) m (λ a, on (Q a)) → keeps (same tcp_in) m → (∀ v v', tcp_in v = tcp_in v' → R v → R v') →
  hoare (on (λ v, P v ∧ R v)) m (λ a, on (λ v, Q a v ∧ R v)).
Proof. intros Hm Hk HR s a s' [HP Hr] E. split; [by eapply Hm|]. eapply HR; [|exact Hr]. by eapply Hk. Qed.

(** The first command leaves the lists alone. *)
Ltac skel_step :=
  eapply hoare_seq; [apply hoare_skel; [by auto with skel|by frame]|intros ?].

(** ** Events *)

Abbreviation TCP_EVENT_SENT := (TCP_EVENT_SENT call_app).
Abbreviation TCP_EVENT_CONNECTED := (TCP_EVENT_CONNECTED call_app).
Abbreviation TCP_EVENT_ACCEPT := (TCP_EVENT_ACCEPT call_app).

(** What a call of the application for the block [x] may do. *)
Definition event_ok (x : tloc) (m : prog stack err_t) : Prop :=
  (∀ k, k ≠ BOUND_PCBS → hoare (on (λ v, LO [] v ∧ HM x k v)) m
          (λ r, on (λ v, LO [] v ∧ (r ≠ ERR_ABRT → HM x k v)))) ∧
  hoare (on (RN x)) m (λ r, on (λ v, r ≠ ERR_ABRT → RN x v)) ∧
  keeps (same tcp_in) m.

Lemma event_call x c : pcb_of c = Some x → event_ok x (call_app c).
Proof. 
  intros Hc. split; [intros k Hk; by apply hoare_call|]. split; [by apply (app_recv app)|apply (app_in app)].
Qed.
Lemma event_frame x m : keeps (same skeleton) m → keeps (same tcp_in) m → event_ok x m.
Proof.
  intros Hm Hin. split; [|split; [|done]].
  - intros k Hk s r s' [HLO HH] E. specialize (Hm _ _ _ E). split; [by eapply skel_LO|].
    intros _. by eapply skel_HM.
  - intros s r s' H E _. eapply skel_RN; [by eapply Hm|done].
Qed.
Lemma event_quiet x m : keeps (same (λ v, v)) m → event_ok x m.
Proof.
  intros Hm. apply event_frame; by apply keeps_weaken.
Qed.
Lemma event_deref x (k : tcp_pcb → prog stack err_t) :
  (∀ b, event_ok x (k b)) → event_ok x (b ← lift (tderef x); k b).
Proof.
  intros Hk. split; [intros l Hl; skel_step; by apply Hk|].
  split; [skel_step; by apply Hk|]. keeps. apply Hk.
Qed.

Lemma event_sent x n : event_ok x (TCP_EVENT_SENT x n).
Proof.
  unfold TcpCore.TCP_EVENT_SENT. apply event_deref. intros b.
  repeat case_match; try (apply event_quiet; by keeps). by apply event_call.
Qed.
Lemma event_connected x e : event_ok x (TCP_EVENT_CONNECTED x e).
Proof.
  unfold TcpCore.TCP_EVENT_CONNECTED. apply event_deref. intros b.
  repeat case_match; try (apply event_quiet; by keeps). by apply event_call.
Qed.
Lemma event_accept x e : event_ok x (TCP_EVENT_ACCEPT x e).
Proof.
  unfold TcpCore.TCP_EVENT_ACCEPT. apply event_deref. intros b.
  repeat case_match; try (apply event_quiet; by keeps). by apply event_call.
Qed.

(** ** [tcp_process] *)

Abbreviation tcp_abandon := (tcp_abandon custom_free mem_avail garbage output ip_frag call_app).
Abbreviation tcp_receive := (tcp_receive custom_free mem_avail garbage output ip_frag seg_avail).
Abbreviation tcp_process := (tcp_process custom_free mem_avail garbage output ip_frag seg_avail
  tcp_timer_needed call_app).

(** The block is in its list, an active one if the segment ends the
    connection. *)
Definition going (x : tloc) (v : tcp_vars) : Prop :=
  ∃ k, k ≠ BOUND_PCBS ∧ HM x k v ∧ (dead v → k = ACTIVE_PCBS).
Definition processed (x : tloc) (err : err_t) (v : tcp_vars) : Prop :=
  LO [] v ∧ (err ≠ ERR_ABRT → going x v).

(** The block is active, and the segment has set [rf]. *)
Definition active (x : tloc) (rf : Z) (v : tcp_vars) : Prop :=
  (LO [] v ∧ HM x ACTIVE_PCBS v) ∧ i_recv_flags (tcp_in v) = rf.
Lemma parts_active x rf : parts_prop (active x rf).
Proof.
  intros v v' E [H1 H2]. split; [eapply (skel_parts (λ v, LO [] v ∧ HM x ACTIVE_PCBS v)); [by auto with skel|done..]|].
  unfold parts, seq_part, input_part in E. injection E as _ _ _ _ _ _ _ _ _ Hr. by rewrite <-Hr.
Qed.
Lemma active_processed x rf err v : active x rf v → processed x err v.
Proof. intros [[HLO HH] _]. split; [done|]. intros _. exists ACTIVE_PCBS. done. Qed.

Ltac act_step := eapply hoare_seq; [apply hoare_parts; [apply parts_active|by recv]|intros ?].
Ltac note_step := eapply hoare_seq; [apply hoare_parts; [apply parts_noted|by recv]|intros ?].
Ltac act_done := apply hoare_result; intros ? ?; by eapply active_processed.

Lemma hoare_syn_acked x rseg rest :
  hoare (on (noted x SYN_SENT 0)) (syn_acked custom_free x rseg rest) (λ _, on (noted x ESTABLISHED 0)).
Proof.
  unfold syn_acked. do 2 note_step. eapply (hoare_bind _ _ _ (λ _, on (noted x ESTABLISHED 0))).
  - apply (hoare_and_same tcp_in); [by apply hoare_vars, hoare_within|apply keeps_vars, keeps_tupdate; done|].
    by intros v v' ->.
  - intros ?. do 6 note_step. apply hoare_parts; [apply parts_noted|by recv].
Qed.

Lemma event_active x rf m :
  event_ok x m → hoare (on (active x rf)) m (λ r, on (λ v, LO [] v ∧ (r ≠ ERR_ABRT → active x rf v))).
Proof.
  intros (Hm & _ & Hin) s r s' [[HLO HH] Hr] E. destruct (Hm ACTIVE_PCBS ltac:(done) s r s' (conj HLO HH) E) as [HLO' HH'].
  split; [done|]. intros Hne. split; [by auto|]. specialize (Hin _ _ _ E). unfold TcpFrame.same in Hin.
  by rewrite <-Hin.
Qed.

Lemma process_syn_sent_lists x :
  hoare (on (noted x SYN_SENT 0))
    (process_syn_sent custom_free mem_avail garbage output ip_frag call_app x) (λ err, on (processed x err)).
Proof.
  assert (∀ v, noted x SYN_SENT 0 v → active x 0 v) as Hact.
  { intros v [[? ?] ?]. split; [|done]. split; [done|]. by exists SYN_SENT. }
  unfold process_syn_sent. do 2 note_step. case_match; [case_match; [apply hoare_fault|note_step; case_match]|].
  - eapply hoare_bind; [apply hoare_syn_acked|]. intros ?.
    eapply hoare_bind; [eapply hoare_pre; [apply (event_active x 0), event_connected|]|].
    { intros v [[? ?] ?]. split; [|done]. split; [done|]. by exists ESTABLISHED. }
    intros r. cbv beta. case_bool_decide as Hr; [by apply hoare_result; intros v []; split|].
    apply (hoare_pre _ (active x 0)); [|intros v [_ Ha]; by apply Ha]. act_step. act_done.
  - eapply hoare_pre; [|exact Hact]. act_step. act_done.
  - eapply hoare_pre; [|exact Hact]. case_match; [act_step|]; act_done.
Qed.

(** A FIN moves the block to CLOSE_WAIT, also from a state that the
    application has chosen. *)
Lemma hoare_active_receive x :
  hoare (on (active x 0)) (tcp_receive x)
    (λ _, on (λ v, (LO [] v ∧ HM x ACTIVE_PCBS v) ∧ ¬ dead v)).
Proof.
  intros s [] s' [[HLO (st & HA & Hst)] Hr] E. pose proof HA as HA'. unfold AT in HA'.
  destruct (tcp_structs (tcp_of s) !! x) as [b|] eqn:Eb; [|done].
  set (i := (i_flags (tcp_in (tcp_of s)), i_ackno (tcp_in (tcp_of s)), 0)).
  assert (receiving x st (t_snd_nxt b) i (tcp_of s)) as HR.
  { split; [done|by left|by rewrite Eb|done|done|by left]. }
  destruct (receive_receiving custom_free mem_avail garbage output ip_frag seg_avail keeps_out keeps_frag
    x st _ i s () s' HR E) as [HLO' HS _ _ _ Hr'].
  split; [split; [done|]|].
  - destruct HS as [HS|(-> & HS & _)]; [by exists st|by exists CLOSE_WAIT].
  - unfold dead, has. destruct Hr' as [-> | ->]; by intros [].
Qed.

Lemma hoare_set_active x st :
  home st = ACTIVE_PCBS →
  hoare (on (λ v, (LO [] v ∧ HM x ACTIVE_PCBS v) ∧ ¬ dead v)) (set_state x st)
    (λ _, on (λ v, (LO [] v ∧ HM x ACTIVE_PCBS v) ∧ ¬ dead v)).
Proof.
  intros Hst. apply (hoare_and_same tcp_in); [|apply keeps_vars, keeps_tupdate; done|].
  - apply hoare_vars. intros v [] v' [HLO (st0 & HA & Hst0)] E.
    destruct (hoare_state_home [] x st0 st ltac:(congruence) ltac:(congruence) ltac:(by intros ->)
      v () v' (conj HLO HA) E) as [? ?]. split; [done|]. by exists st.
  - intros v v'. unfold dead. by intros ->.
Qed.

Lemma process_accept_lists x :
  hoare (on (noted x SYN_RCVD 0))
    (process_accept custom_free mem_avail garbage output ip_frag seg_avail call_app x)
    (λ err, on (processed x err)).
Proof.
  unfold process_accept. eapply (hoare_bind _ _ _ (λ _, on (active x 0))).
  { eapply hoare_conseq; [apply (hoare_and_same tcp_in (λ v, LO [] v ∧ AT x SYN_RCVD v) _
      (λ v, LO [] v ∧ AT x ESTABLISHED v) (λ v, i_recv_flags (tcp_in v) = 0))|done|].
    - by apply hoare_vars, hoare_state_home.
    - apply keeps_vars, keeps_tupdate. done.
    - by intros v v' ->.
    - intros ? s [[? ?] ?]. split; [|done]. split; [done|]. by exists ESTABLISHED. }
  intros ?. do 2 act_step. eapply hoare_bind; [apply (event_active x 0), event_accept|]. intros r. cbv beta.
  case_bool_decide as Hr.
  - eapply (hoare_bind _ _ _ (λ _, on (LO []))); [|intros ?; by apply hoare_result; intros v ?; split].
    case_bool_decide; [|by apply hoare_done; intros v []].
    eapply hoare_pre; [apply (hoare_abandon custom_free mem_avail garbage output ip_frag keeps_out keeps_frag
      call_app (app_lists app) x true)|].
    intros v [? Ha]. split; [done|]. destruct Ha as [[_ ?] _]; [done|]. by apply (HM_abortable x ACTIVE_PCBS).
  - apply (hoare_pre _ (active x 0)); [|intros v [_ Ha]; apply Ha; by rewrite Hr].
    act_step. eapply hoare_bind; [apply hoare_active_receive|]. intros ?.
    set (P := λ v, (LO [] v ∧ HM x ACTIVE_PCBS v) ∧ ¬ dead v).
    assert (parts_prop P) as HP.
    { intros v v' E [H1 H2]. split; [eapply (skel_parts (λ v, LO [] v ∧ HM x ACTIVE_PCBS v)); [by auto with skel|done..]|].
      unfold parts, seq_part, input_part in E. injection E as _ _ _ _ _ _ _ _ _ Hrf. unfold dead in *. by rewrite <-Hrf. }
    do 2 (eapply hoare_seq; [apply hoare_parts; [exact HP|try unfold got_fin_flag; by recv]|intros ?]).
    eapply (hoare_bind _ _ _ (λ _, on P)).
    + case_match; [|by apply hoare_done].
      eapply hoare_seq; [apply hoare_parts; [exact HP|by recv]|intros ?]. by apply hoare_set_active.
    + intros ?. apply hoare_result. intros v [[? ?] Hd]. split; [done|]. intros _. by exists ACTIVE_PCBS.
Qed.

Lemma process_syn_rcvd_lists x :
  hoare (on (noted x SYN_RCVD 0))
    (process_syn_rcvd custom_free mem_avail garbage output ip_frag seg_avail call_app x)
    (λ err, on (processed x err)).
Proof.
  assert (∀ v, noted x SYN_RCVD 0 v → active x 0 v) as Hact.
  { intros v [[? ?] ?]. split; [|done]. split; [done|]. by exists SYN_RCVD. }
  unfold process_syn_rcvd. do 2 note_step. case_match; [case_match; [apply process_accept_lists|]|];
    (eapply hoare_pre; [|exact Hact]); [|case_match]; try act_step; act_done.
Qed.

Lemma process_synchronized_lists x st :
  synchronized st = true →
  hoare (on (noted x st 0)) (process_synchronized custom_free mem_avail garbage output ip_frag seg_avail
    tcp_timer_needed x st) (λ _, on (processed x ERR_OK)).
Proof.
  intros Hst s [] s' [[HLO HA] Hr] E. pose proof HA as HA'. unfold AT in HA'.
  destruct (tcp_structs (tcp_of s) !! x) as [b|] eqn:Eb; [|done].
  destruct (process_synchronized_spec custom_free mem_avail garbage output ip_frag seg_avail tcp_timer_needed
    keeps_out keeps_frag keeps_timer x st (t_snd_nxt b) (i_flags (tcp_in (tcp_of s)))
    (i_ackno (tcp_in (tcp_of s))) 0 Hst eq_refl s () s') as (fin & [HLO' HA1] & _ & Hc & Hnr).
  { split; [done|by left|by rewrite Eb|done|done|by left]. }
  { exact E. }
  split; [done|]. intros _. eexists. split; [|split; [by eexists|]].
  - by destruct st, fin, (has _ _ && _).
  - unfold dead. unfold no_reset, closed_is in *. rewrite Hnr, Hc. intros [?|Hd]; [done|].
    simpl in Hd. apply andb_prop in Hd as [Hd _]. apply bool_decide_eq_true in Hd. by subst st.
Qed.

Lemma tcp_process_lists x :
  hoare (on (active x 0)) (tcp_process x) (λ err, on (processed x err)).
Proof.
  unfold TcpIn.tcp_process. act_step. apply hoare_tderef. intros b.
  apply (hoare_pre _ (λ v, noted x (t_state b) 0 v ∧ home (t_state b) = ACTIVE_PCBS)).
  2: { intros v [[[HLO (st & HA & Hst)] Hr] HN%ND_AT]. unfold AT in HA, HN. simpl in HN.
       pose proof HN as HN'. rewrite HN' in HA. injection HA as HA. rewrite HA.
       split; [split; [split; [done|]|done]|done]. unfold AT. by rewrite HN', HA. }
  apply hoare_pure. intros Hst.
  assert (∀ v, noted x (t_state b) 0 v → active x 0 v) as Hact.
  { intros v [[? ?] ?]. split; [|done]. split; [done|]. by exists (t_state b). }
  case_match; [case_match|case_match].
  - note_step. intros s err s' Hs E.
    destruct (hoare_process_rst x (t_state b) s err s' Hs E) as [-> [[? ?] ?]].
    split; [done|]. intros _. exists ACTIVE_PCBS. split; [done|]. split; [by exists (t_state b)|done].
  - eapply hoare_pre; [|exact Hact]. act_done.
  - eapply hoare_pre; [|exact Hact]. act_step. act_done.
  - do 3 note_step. destruct (t_state b) eqn:Eb; try done.
    1: apply process_syn_sent_lists.
    1: apply process_syn_rcvd_lists.
    all: eapply hoare_bind; [by apply process_synchronized_lists|]; intros ?; by apply hoare_result.
Qed.

(** ** Delivery of data *)

(** What depends on the lists and the segment only. *)
Definition frame_prop (P : tcp_vars → Prop) : Prop :=
  ∀ v v', skeleton v = skeleton v' → tcp_in v = tcp_in v' → P v → P v'.
Lemma frame_skel P : skel_prop P → frame_prop P.
Proof. intros H v v' E _. by apply H. Qed.
Lemma frame_active x rf : frame_prop (active x rf).
Proof.
  intros v v' E Ei [H1 H2]. split; [|by rewrite <-Ei].
  eapply (skel_and _ _ (skel_LO []) (skel_HM x ACTIVE_PCBS)); done.
Qed.
Lemma frame_and P Q : frame_prop P → frame_prop Q → frame_prop (λ v, P v ∧ Q v).
Proof. intros HP HQ v v' E Ei [? ?]. split; eauto. Qed.
#[local] Hint Resolve frame_skel frame_active frame_and : skel.
Lemma hoare_frame {B} P (m : prog stack B) :
  frame_prop P → keeps (same skeleton) m → keeps (same tcp_in) m → hoare (on P) m (λ _, on P).
Proof. intros HP Hs Hi s a s' H E. eapply HP; [by eapply Hs|by eapply Hi|done]. Qed.
Ltac frame_step :=
  eapply hoare_seq; [apply hoare_frame; [by auto with skel|by frame|by frame]|intros ?].

Abbreviation tcp_close :=
  (tcp_close custom_free mem_avail garbage output ip_frag seg_avail tcp_timer_needed).
Abbreviation TCP_EVENT_RECV := (TCP_EVENT_RECV custom_free mem_avail garbage output ip_frag seg_avail
  tcp_timer_needed call_app).
Abbreviation TCP_EVENT_CLOSED := (TCP_EVENT_CLOSED custom_free mem_avail garbage output ip_frag seg_avail
  tcp_timer_needed call_app).
Abbreviation got_fin := (got_fin custom_free mem_avail garbage output ip_frag seg_avail
  tcp_timer_needed call_app).

Lemma event_recv x p e : event_ok x (TCP_EVENT_RECV x (Some p) e).
Proof.
  assert (event_ok x (tcp_recv_null custom_free mem_avail garbage output ip_frag seg_avail tcp_timer_needed
    x (Some p) e)) as Hnull by (apply event_frame; unfold tcp_recv_null; by frame).
  unfold TcpCore.TCP_EVENT_RECV. apply event_deref. intros b. case_match; [|done].
  unfold call_recv. apply event_deref. intros b'. case_match; [done|apply event_quiet; by keeps|].
  by apply event_call.
Qed.

(** [tcp_recv_null] closes the connection at its end. *)
Lemma hoare_event_closed x : hoare (on (LO [])) (TCP_EVENT_CLOSED x) (λ _, on (LO [])).
Proof.
  unfold TcpCore.TCP_EVENT_CLOSED. skel_step. case_match; [|by apply hoare_done].
  unfold call_recv. skel_step. case_match; [|apply hoare_fault|apply (app_lists app)].
  unfold tcp_recv_null. case_match; [by apply hoare_close|by apply hoare_done].
Qed.
Lemma hoare_event_closed_app x :
  hoare (on (λ v, active x 0 v ∧ RN x v)) (TCP_EVENT_CLOSED x)
    (λ r, on (λ v, LO [] v ∧ (r ≠ ERR_ABRT → active x 0 v))).
Proof.
  unfold TcpCore.TCP_EVENT_CLOSED. apply hoare_tderef. intros b.
  apply (hoare_pre _ (λ v, active x 0 v ∧ recv_null b = false)).
  { apply hoare_pure. intros Hb. unfold recv_null in Hb.
    destruct (t_recv b) as [[]|]; [done|..].
    - unfold call_recv. frame_step. apply hoare_fault.
    - unfold call_recv. frame_step. by apply event_active, event_call.
    - apply hoare_result. intros v Ha. split; [by destruct Ha as [[] _]|done]. }
  intros v [[Ha Hn] HN]. split; [done|]. by apply (Hn _ HN).
Qed.

(** The data that the block keeps was refused by a function of the application. *)
Definition RO (x : tloc) (v : tcp_vars) : Prop :=
  ∀ b, tcp_structs v !! x = Some b → t_refused_data b ≠ None → recv_null b = false.

Lemma hoare_tderef_at {B} x (P : tcp_vars → Prop) (k : tcp_pcb → prog stack B) Q :
  (∀ b, hoare (on (λ v, P v ∧ tcp_structs v !! x = Some b)) (k b) Q) →
  hoare (on P) (b ← lift (tderef x); k b) Q.
Proof.
  intros Hk s a s' Hs E. destruct (tcp_structs (tcp_of s) !! x) as [b|] eqn:Eb.
  - rewrite (bind_tderef x b) in E by done. eapply Hk; [|done]. done.
  - rewrite (bind_fault _ _ _ Wild) in E; [done|]. apply lift_fault.
    cbv [tderef mbind prog_bind pget]. unfold tcp_of in Eb. cbn. by rewrite Eb.
Qed.

Lemma event_active_recv x m :
  event_ok x m → hoare (on (λ v, active x 0 v ∧ RN x v)) m
    (λ r, on (λ v, LO [] v ∧ (r ≠ ERR_ABRT → active x 0 v ∧ RN x v))).
Proof.
  intros He s r s' [Ha Hn] E. destruct (event_active x 0 m He s r s' Ha E) as [HLO Ha'].
  destruct He as (_ & Hr & _). split; [done|]. intros Hne. split; [by apply Ha'|]. by eapply Hr.
Qed.

Lemma hoare_refused_data x :
  hoare (on (λ v, active x 0 v ∧ RO x v))
    (tcp_process_refused_data custom_free mem_avail garbage output ip_frag seg_avail tcp_timer_needed call_app x)
    (λ r, on (λ v, LO [] v ∧ (r ≠ ERR_ABRT → active x 0 v))).
Proof.
  unfold tcp_process_refused_data. apply hoare_tderef_at. intros b.
  destruct (t_refused_data b) as [r|] eqn:Er; [|apply hoare_fault].
  apply (hoare_pre _ (λ v, active x 0 v ∧ RN x v)).
  2: { intros v [[Ha Hro] Hb]. split; [done|]. intros n HN. unfold ND in HN. rewrite Hb in HN.
       injection HN as <-. by apply (Hro b Hb); rewrite Er. }
  do 3 frame_step. eapply hoare_bind; [apply event_active_recv, event_recv|]. intros err. cbv beta.
  assert (∀ v, LO [] v ∧ (err ≠ ERR_ABRT → active x 0 v ∧ RN x v) → err ≠ ERR_ABRT →
    active x 0 v ∧ RN x v) as Hne by (intros v [_ H]; exact H).
  repeat case_bool_decide.
  - apply (hoare_pre _ (λ v, active x 0 v ∧ RN x v)); [|intros v Hv; apply (Hne v Hv); congruence].
    case_match.
    + eapply (hoare_bind _ _ _ (λ r, on (λ v, LO [] v ∧ (r ≠ ERR_ABRT → active x 0 v)))).
      { unfold TcpCore.got_fin. frame_step. apply hoare_event_closed_app. }
      intros r'. cbv beta.
      case_bool_decide; apply hoare_result; intros v [? Ha]; (split; [done|]); [done|]. by intros _; apply Ha.
    + apply hoare_result. intros v [[[? ?] ?] ?]. by split.
  - apply hoare_result. by intros v [? _].
  - apply (hoare_pre _ (λ v, active x 0 v ∧ RN x v)); [|intros v Hv; by apply (Hne v Hv)].
    frame_step. apply hoare_result. intros v [[[? ?] ?] ?]. by split.
Qed.

(** ** After [tcp_process] *)

Lemma hoare_ivars {B} P (k : tcp_input_vars → prog stack B) Q :
  (∀ i, hoare (on (λ v, P v ∧ tcp_in v = i)) (k i) Q) → hoare (on P) (i ← ivars; k i) Q.
Proof. intros Hk s a s' Hs E. rewrite bind_ivars in E. by eapply Hk. Qed.
Lemma skel_ivars : keeps (same skeleton) (ivars (CF := CF) (F := F) (A := A) (X := X)).
Proof. unfold ivars. frame. Qed.
Lemma skel_iupdate f : keeps (same skeleton) (iupdate (CF := CF) (F := F) (A := A) (X := X) f).
Proof. apply keeps_vars, keeps_modify. done. Qed.
#[local] Hint Resolve skel_ivars skel_iupdate : keeps.

Lemma hoare_input_dead x err :
  hoare (on (λ v, LO [] v ∧ HM x ACTIVE_PCBS v))
    (input_dead custom_free mem_avail garbage output ip_frag call_app x err) (λ _, on (LO [])).
Proof.
  unfold input_dead. skel_step. eapply (hoare_bind _ _ _ (λ _, on (λ v, LO [] v ∧ HM x ACTIVE_PCBS v))).
  { case_match; [|by apply hoare_done]. unfold TCP_EVENT_ERR.
    repeat case_match; try apply hoare_fault; [|by apply hoare_done].
    eapply (hoare_bind _ _ _ (λ _, on (λ v, LO [] v ∧ HM x ACTIVE_PCBS v))); [|intros ?; by apply hoare_done].
    intros s r s' [HLO HH] E. split; [by eapply (app_lists app)|by eapply (app_err app)]. }
  intros ?. intros s r s' [HLO (st & HA & Hst)]. revert s r s' HLO HA.
  assert (hoare (on (λ v, LO [] v ∧ AT x st v))
    (tcp_pcb_remove custom_free mem_avail garbage output ip_frag ACTIVE_PCBS x;; lift (tcp_free x))
    (λ _, on (LO []))) as H; [|intros s r s' HLO HA; by apply H].
  eapply hoare_bind; [by apply hoare_pcb_remove|]. intros ?.
  eapply hoare_pre; [apply hoare_vars, hoare_free|by intros v []].
Qed.

Lemma hoare_input_data x k :
  k ≠ BOUND_PCBS →
  hoare (on (λ v, LO [] v ∧ HM x k v))
    (input_data custom_free mem_avail garbage output ip_frag seg_avail tcp_timer_needed call_app x)
    (λ _, on (LO [])).
Proof.
  intros Hk. unfold input_data. skel_step. case_match; [|by apply hoare_done; intros v []].
  do 2 skel_step. case_match.
  - skel_step. eapply (hoare_bind _ _ _ (λ _, on (LO []))); [|intros ?; by apply hoare_done].
    eapply hoare_pre; [apply (hoare_abandon custom_free mem_avail garbage output ip_frag keeps_out keeps_frag
      call_app (app_lists app) x true)|]. intros v [? ?]. split; [done|]. by eapply HM_abortable.
  - eapply (hoare_bind _ _ _ (λ _, on (LO []))).
    { eapply hoare_conseq; [apply (proj1 (event_recv x _ _) k Hk)|done|]. by intros r s' [? _]. }
    intros r. case_bool_decide; [by apply hoare_done|]. skel_step. by apply hoare_done.
Qed.

Lemma hoare_input_fin x :
  hoare (on (LO []))
    (input_fin custom_free mem_avail garbage output ip_frag seg_avail tcp_timer_needed call_app x)
    (λ _, on (LO [])).
Proof.
  unfold input_fin, got_fin_flag.
  eapply hoare_seq; [apply hoare_skel; [by auto with skel|by frame]|intros fin].
  case_match; [|by apply hoare_done]. skel_step. case_match; [skel_step; by apply hoare_done|].
  eapply hoare_seq; [|intros ?; by apply hoare_done].
  unfold TcpCore.got_fin. skel_step. apply hoare_event_closed.
Qed.

Lemma hoare_input_events x k :
  k ≠ BOUND_PCBS →
  hoare (on (λ v, LO [] v ∧ HM x k v))
    (input_events custom_free mem_avail garbage output ip_frag seg_avail tcp_timer_needed call_app x)
    (λ _, on (LO [])).
Proof.
  intros Hk. unfold input_events. skel_step.
  eapply (hoare_bind _ _ _ (λ ab, on (λ v, LO [] v ∧ (ab = false → HM x k v)))).
  { case_match; [|by apply hoare_result; intros v []; split].
    eapply hoare_bind; [apply (proj1 (event_sent x _) k Hk)|]. intros r. apply hoare_result. intros v [? Hh]. split; [done|].
    intros Hr%bool_decide_eq_false. by apply Hh. }
  intros ab. destruct ab; [by apply hoare_done; intros v []|].
  eapply hoare_bind; [eapply hoare_pre; [by apply (hoare_input_data x k)|]|].
  { intros v [? Hh]. split; [done|]. by apply Hh. }
  intros ab. case_match; [by apply hoare_done|]. eapply hoare_seq; [apply hoare_input_fin|]. intros ab'.
  case_match; [by apply hoare_done|]. do 2 skel_step. by apply hoare_done.
Qed.

Lemma hoare_input_process x :
  hoare (on (active x 0))
    (input_process custom_free mem_avail garbage output ip_frag seg_avail tcp_timer_needed call_app x)
    (λ _, on (LO [])).
Proof.
  unfold input_process. frame_step. eapply hoare_bind; [apply tcp_process_lists|]. intros err. cbv beta.
  case_bool_decide as Herr; [by apply hoare_done; intros v []|]. apply hoare_ivars. intros i.
  assert (∀ v, (processed x err v ∧ tcp_in v = i) →
    has (i_recv_flags i) TF_RESET = true ∨ has (i_recv_flags i) TF_CLOSED = true →
    LO [] v ∧ HM x ACTIVE_PCBS v) as Hdead.
  { intros v [[HLO Hg] <-] Hd. split; [done|]. destruct (Hg Herr) as (k & _ & HH & Hk).
    by rewrite (Hk Hd) in HH. }
  case_match; [eapply hoare_pre; [apply hoare_input_dead|intros v Hv; apply (Hdead v Hv); auto]|]. case_match.
  - eapply hoare_pre; [|intros v Hv; apply (Hdead v Hv); auto]. skel_step. apply hoare_input_dead.
  - intros s r s' [[HLO Hg] _] E. destruct (Hg Herr) as (k & Hk & HH & _).
    eapply hoare_input_events; [exact Hk|by split|exact E].
Qed.

Lemma hoare_input_refused x :
  hoare (on (λ v, active x 0 v ∧ RO x v))
    (input_refused custom_free mem_avail garbage output ip_frag seg_avail tcp_timer_needed call_app x)
    (λ ab, on (λ v, LO [] v ∧ (ab = false → active x 0 v))).
Proof.
  unfold input_refused. eapply hoare_seq; [apply hoare_quiet; by keeps|intros b].
  case_match; [|by apply hoare_result; intros v [[[? ?] ?] _]; split].
  eapply hoare_bind; [apply hoare_refused_data|]. intros r. cbv beta.
  case_bool_decide as Hr; [by apply hoare_result; intros v []; split|].
  apply (hoare_pre _ (active x 0)); [|intros v [_ Ha]; by apply Ha].
  frame_step. unfold ivars. frame_step. apply hoare_result. intros v [[? ?] ?]. by split.
Qed.

Lemma hoare_input_active p x :
  hoare (on (λ v, (LO [] v ∧ HM x ACTIVE_PCBS v) ∧ RO x v))
    (input_active custom_free mem_avail garbage output ip_frag seg_avail tcp_timer_needed call_app p x)
    (λ _, on (LO [])).
Proof.
  unfold input_active. eapply hoare_seq; [apply hoare_quiet; by keeps|intros pb].
  eapply hoare_seq; [apply hoare_quiet; unfold ivars; by keeps|intros i].
  eapply (hoare_bind _ _ _ (λ _, on (λ v, active x 0 v ∧ RO x v))).
  { unfold iupdate. apply hoare_vars. intros v [] v' [[HLO HH] HR] E. injection E as <-.
    split; [|done]. split; [|done]. split; [eapply skel_LO; [|exact HLO]; done|done]. }
  intros ?. eapply hoare_seq; [apply hoare_quiet; by keeps|intros ?].
  eapply hoare_bind; [apply hoare_input_refused|]. intros ab.
  eapply (hoare_bind _ _ _ (λ _, on (LO []))).
  { destruct ab; [by apply hoare_done; intros v []|]. eapply hoare_pre; [apply hoare_input_process|].
    intros v [_ Ha]. by apply Ha. }
  intros ?. do 3 skel_step. case_match; [|by apply hoare_done]. apply hoare_lo. by frame.
Qed.

(** ** Listening blocks *)

Lemma skel_input_rst : keeps (same skeleton) (input_rst custom_free mem_avail garbage output ip_frag).
Proof. unfold input_rst. frame. Qed.
#[local] Hint Resolve skel_input_rst : keeps.
Lemma skel_parseopt x : keeps (same skeleton) (tcp_parseopt (CF := CF) (F := F) (A := A) (X := X) x).
Proof. intros s a s' E. exact (f_equal (λ w, w.1.1) (wide_parseopt x s a s' E)). Qed.
#[local] Hint Resolve skel_parseopt : keeps.

Abbreviation listen_syn := (listen_syn custom_free mem_avail garbage output ip_frag seg_avail
  tcp_timer_needed call_app).
Abbreviation tcp_listen_input := (tcp_listen_input custom_free mem_avail garbage output ip_frag seg_avail
  pcb_avail tcp_timer_needed call_app).

(** The new block becomes an active one. *)
Lemma hoare_listen_syn l x :
  hoare (on (λ v, LO [] v ∧ ND x fresh_node v)) (listen_syn l x) (λ _, on (LO [])).
Proof.
  unfold TcpIn.listen_syn. do 4 skel_step.
  set (n' := mk_node SYN_RCVD (negb (l_local_port a1 =? 0)) true None).
  eapply (hoare_bind _ _ _ (λ _, on (λ v, LO [x] v ∧ ND x n' v))).
  { eapply hoare_pre; [apply hoare_vars, (hoare_node [] x fresh_node n')|].
    - intros b [= _ _ Hr Hn]. unfold node_of, n'. cbn. unfold recv_null in *. cbn. by rewrite Hr, Hn.
    - done.
    - intros v [? HN]. split; [|done]. by eapply LO_unbound. }
  intros ?. eapply (hoare_bind _ _ _ (λ _, on (λ v, LO [] v ∧ AT x SYN_RCVD v))).
  { unfold TcpCore.TCP_REG_ACTIVE. eapply hoare_pre; [eapply hoare_bind;
      [by apply (hoare_TCP_REG tcp_timer_needed keeps_timer [] x SYN_RCVD ACTIVE_PCBS); [..|intros ?%elem_of_nil]|]|].
    - intros ?. apply (hoare_skel (λ v, LO [] v ∧ AT x SYN_RCVD v)); [by auto with skel|by frame].
    - intros v [? HN%ND_AT]. by split. }
  intros ?. do 6 skel_step. case_bool_decide.
  - eapply hoare_bind; [eapply hoare_pre; [apply (hoare_abandon custom_free mem_avail garbage output ip_frag
      keeps_out keeps_frag call_app (app_lists app) x false)|]|intros ?; by apply hoare_done].
    intros v [? HA]. split; [done|]. apply (HM_abortable x ACTIVE_PCBS); [done|]. by exists SYN_RCVD.
  - eapply hoare_pre; [apply hoare_lo; by frame|by intros v []].
Qed.

Lemma hoare_listen_input l : hoare (on (LO [])) (tcp_listen_input l) (λ _, on (LO [])).
Proof.
  unfold TcpIn.tcp_listen_input. skel_step. case_match; [by apply hoare_done|].
  case_match; [skel_step; by apply hoare_done|]. case_match; [|by apply hoare_done]. skel_step.
  eapply hoare_bind; [by apply hoare_tcp_alloc, (app_lists app)|]. intros r. cbv beta.
  case_match; [|by apply hoare_done; intros v []].
  eapply hoare_pre; [apply hoare_listen_syn|]. intros v [? HN]. by split; [|apply HN].
Qed.

(** ** [tcp_input] *)

Lemma HM_states x k v v' : states v' = states v → HM x k v → HM x k v'.
Proof.
  intros [= Hs _] (st & HA & Hk). exists st. split; [|done]. unfold AT in *.
  by rewrite <-lookup_fmap, Hs, lookup_fmap.
Qed.

(** Moving a block leaves the data it keeps. *)
Definition kept (v : tcp_vars) : gmap tloc (option loc * option fn) :=
  (λ b, (t_refused_data b, t_recv b)) <$> tcp_structs v.
Lemma kept_set_next_of x n : keeps (vsame kept) (set_next_of x n).
Proof.
  unfold set_next_of, is_listen, lupdate, lderef. keeps.
  - by apply keeps_modify.
  - apply keeps_tupdate. intros v b Hb. unfold kept. cbn. rewrite fmap_insert, insert_id; [done|].
    by rewrite lookup_fmap, Hb.
Qed.
Lemma kept_move_to_front k q x : keeps (vsame kept) (move_to_front k q x).
Proof.
  unfold move_to_front. keeps; try first [apply keeps_next_of|apply kept_set_next_of].
  apply keeps_modify. intros v. by destruct k.
Qed.
Lemma RO_kept x v v' : kept v = kept v' → RO x v → RO x v'.
Proof.
  intros Hk H b' Hb'. pose proof (f_equal (.!! x) Hk) as Hx. unfold kept in Hx.
  rewrite !lookup_fmap, Hb' in Hx. destruct (tcp_structs v !! x) as [b|] eqn:Eb; [|done].
  injection Hx as Hd Hr. unfold recv_null. rewrite <-Hd, <-Hr. by apply H.
Qed.

(** No block keeps data that [tcp_recv_null] refused: it never refuses any. *)
Definition refused_ok (v : tcp_vars) : Prop := ∀ x, RO x v.

Lemma hoare_get_vars {B} P (k : tcp_vars → prog stack B) Q :
  (∀ v, P v → hoare (on (.= v)) (k v) Q) → hoare (on P) (v ← lift (pget (S := tcp_vars)); k v) Q.
Proof.
  intros Hk s a s' Hs E. rewrite (bind_lift_same pget _ s _ eq_refl) in E.
  by eapply (Hk (tcp_of s) Hs).
Qed.
(** A command that only looks for something. *)
Lemma hoare_search {B C} v (m : prog tcp_vars B) (φ : B → Prop) (k : B → prog stack C) Q :
  (∀ r v', m v = inr (r, v') → v' = v ∧ φ r) →
  (∀ r, φ r → hoare (on (.= v)) (k r) Q) → hoare (on (.= v)) (r ← lift m; k r) Q.
Proof.
  intros Hm Hk s a s' Hs E. unfold TcpInv.on in Hs. subst v.
  destruct (m (tcp_of s)) as [f|[r v']] eqn:Em; [by rewrite (bind_fault _ _ _ f) in E; [|apply lift_fault]|].
  destruct (Hm r v' eq_refl) as [-> Hr]. erewrite bind_lift_same in E by exact Em. by eapply Hk.
Qed.

(** A segment for the active block [x], which [q] is before. *)
Lemma hoare_demux_active p v ls q x :
  lists_ok_with ls [] v → refused_ok v → found (ls ACTIVE_PCBS) None q x →
  hoare (on (.= v))
    (lift (move_to_front ACTIVE_PCBS q x);;
     b ← lift (tderef x);
     passert (negb (bool_decide (t_next b = Some x)));;
     input_active custom_free mem_avail garbage output ip_frag seg_avail tcp_timer_needed call_app p x)
    (λ _, on (LO [])).
Proof.
  intros H Hro Hf. eapply (hoare_bind _ _ _ (λ _, on (λ v, (LO [] v ∧ HM x ACTIVE_PCBS v) ∧ RO x v))).
  - apply hoare_vars. intros v1 [] v2 -> E.
    destruct (hoare_move_to_front _ _ _ _ _ _ H Hf E) as [HLO Hs]. split; [split; [done|]|].
    + eapply HM_states; [exact Hs|]. eapply HM_in; [done| |done]. destruct Hf as (l1 & l2 & -> & _). set_solver.
    + eapply RO_kept; [by eapply kept_move_to_front|apply Hro].
  - intros ?. do 2 (eapply hoare_seq; [apply hoare_quiet; by keeps|intros ?]). apply hoare_input_active.
Qed.

Lemma hoare_input_demux p c :
  hoare (on (λ v, LO [] v ∧ refused_ok v))
    (input_demux custom_free mem_avail garbage output ip_frag seg_avail pcb_avail tcp_timer_needed call_app p c)
    (λ _, on (LO [])).
Proof.
  destruct c as [[[rip rport] lip] lport]. unfold input_demux. apply hoare_get_vars. intros v [[ls H] Hro].
  assert (hoare (on (.= v)) (pfree custom_free p) (λ _, on (LO []))) as Hfree.
  { eapply hoare_pre; [apply hoare_lo; by frame|]. intros ? ->. by exists ls. }
  eapply hoare_search.
  { intros r v'. apply find_conn_spec; [apply (lo_sep _ _ _ H)|apply (lo_path _ _ _ H ACTIVE_PCBS)]. }
  intros [[q x]|] Hr; [by eapply hoare_demux_active; [..|apply Hr]|].
  eapply hoare_search.
  { intros r v'. apply find_conn_spec; [apply (lo_sep _ _ _ H)|apply (lo_path _ _ _ H TW_PCBS)]. }
  intros [[q' x']|] _.
  { apply (hoare_pre _ (LO [])); [|intros ? ->; by exists ls]. unfold tcp_timewait_input.
    eapply hoare_seq; [apply hoare_lo; by frame|intros ?]. apply hoare_lo. by frame. }
  eapply hoare_search.
  { intros r v'. apply find_listen_spec, (lo_path _ _ _ H LISTEN_PCBS). }
  intros [[q' x']|] Hl.
  - eapply (hoare_bind _ _ _ (λ _, on (LO []))).
    { apply hoare_vars. intros v1 [] v2 -> E. by eapply (hoare_move_to_front ls LISTEN_PCBS); [..|exact E]; [|apply Hl]. }
    intros ?. eapply hoare_seq; [apply hoare_listen_input|]. intros ?. apply hoare_lo. by frame.
  - apply (hoare_pre _ (LO [])); [|intros ? ->; by exists ls]. apply hoare_lo. by frame.
Qed.

(** Before the search, the blocks stay as they are. *)
Definition blocks (v : tcp_vars) := (tcp_structs v, skeleton v).
Lemma blocks_iupdate f : keeps (same blocks) (iupdate (CF := CF) (F := F) (A := A) (X := X) f).
Proof. apply keeps_vars, keeps_modify. done. Qed.
#[local] Hint Resolve blocks_iupdate : keeps.
Lemma blocks_input_options p n : keeps (same blocks) (input_options (CF := CF) (F := F) (A := A) (X := X) p n).
Proof. unfold input_options. keeps. Qed.
Lemma blocks_input_convert p h : keeps (same blocks) (input_convert (CF := CF) (F := F) (A := A) (X := X) p h).
Proof. unfold input_convert. keeps. Qed.
Lemma blocks_input_ok p n : keeps (same blocks) (input_ok (CF := CF) (F := F) (A := A) (X := X) p n).
Proof. unfold input_ok. keeps. Qed.
#[local] Hint Resolve blocks_input_options blocks_input_convert blocks_input_ok : keeps.

Lemma hoare_blocks {B} (m : prog stack B) :
  keeps (same blocks) m →
  hoare (on (λ v, LO [] v ∧ refused_ok v)) m (λ _, on (λ v, LO [] v ∧ refused_ok v)).
Proof.
  intros Hm s a s' [HLO Hr] E. specialize (Hm _ _ _ E). unfold TcpFrame.same, blocks in Hm.
  split; [eapply skel_LO; [exact (f_equal snd Hm)|done]|]. intros x b.
  rewrite <-(f_equal fst Hm : tcp_structs _ = tcp_structs _). apply Hr.
Qed.

Lemma hoare_tcp_input p inp :
  hoare (on (λ v, LO [] v ∧ refused_ok v))
    (tcp_input custom_free mem_avail garbage output ip_frag seg_avail pcb_avail tcp_timer_needed call_app p inp)
    (λ _, on (LO [])).
Proof.
  unfold tcp_input. do 3 (eapply hoare_seq; [apply hoare_blocks; by keeps|intros ?]).
  assert (hoare (on (λ v, LO [] v ∧ refused_ok v)) (pfree custom_free p) (λ _, on (LO []))) as Hfree.
  { eapply hoare_pre; [apply hoare_lo; by frame|by intros v []]. }
  case_match; [done|]. do 2 (eapply hoare_seq; [apply hoare_blocks; by keeps|intros ?]).
  case_match; [done|]. do 4 (eapply hoare_seq; [apply hoare_blocks; by keeps|intros ?]).
  apply hoare_input_demux.
Qed.

(** ** The fast timer *)

Lemma hoare_event_recv x p e : hoare (on (LO [])) (TCP_EVENT_RECV x p e) (λ _, on (LO [])).
Proof.
  assert (hoare (on (LO [])) (tcp_recv_null custom_free mem_avail garbage output ip_frag seg_avail tcp_timer_needed
    x p e) (λ _, on (LO []))) as Hnull.
  { unfold tcp_recv_null. case_match; [apply hoare_lo; by frame|]. case_match; [by apply hoare_close|].
    by apply hoare_done. }
  unfold TcpCore.TCP_EVENT_RECV. skel_step. case_match; [|done]. unfold call_recv. skel_step.
  case_match; [done|apply hoare_fault|apply (app_lists app)].
Qed.

Lemma hoare_fasttmr fuel :
  hoare (on (LO [])) (tcp_fasttmr custom_free mem_avail garbage output ip_frag seg_avail tcp_timer_needed
    call_app fuel) (λ _, on (LO [])).
Proof.
  unfold tcp_fasttmr. do 2 skel_step. generalize (tcp_active_pcbs a0) as p.
  induction fuel as [|fuel IH]; intros [x|]; cbn [fast_loop]; try first [by apply hoare_done|apply hoare_fault].
  do 2 skel_step. case_match; [apply IH|]. do 3 skel_step.
  eapply (hoare_seq _ (match t_refused_data _ with Some _ => _ | None => _ end)).
  - case_match; [|by apply hoare_done]. skel_step.
    eapply hoare_seq; [|intros ?; unfold changed; apply hoare_lo; by frame].
    unfold tcp_process_refused_data. do 4 skel_step. eapply hoare_seq; [apply hoare_event_recv|]. intros r.
    repeat case_bool_decide; [case_match|..]; try first [by apply hoare_done|skel_step; by apply hoare_done].
    eapply hoare_seq; [|intros ?; case_bool_decide; by apply hoare_done].
    unfold TcpCore.got_fin. skel_step. apply hoare_event_closed.
  - intros c. skel_step. apply IH.
Qed.

End events.
End TcpEvents.
