(* ===== verification/TcpCalls.v ===== *)
(** * Programs that use TCP

    Any sequence of calls of the functions of [tcp.h] that open, use and close
    connections, of segments that arrive and of fast timers keeps the lists of
    control blocks as they have to be.  The slow timer is left out: it can lose a
    block ([TcpBugs.slowtmr_loses_block]). *)

From S2P Require Import Prelude RecordSet Def Ip4Addr InetChksum Netif Udp Pbuf Stack Ip4 Icmp.
From S2P Require Import Tcp TcpOut TcpCore TcpIn TcpFrame TcpLists TcpInv TcpRecv TcpFsm TcpEvents.

Module TcpCalls.
Import RecordSet Def Ip4Addr InetChksum Netif Udp Pbuf Stack Ip4 Icmp Tcp TcpOut TcpCore TcpIn TcpFrame TcpLists TcpInv TcpEvents.

Inductive call :=
  | ApiNew | ApiBind (x : tloc) (ipaddr : option Z) (port : Z) | ApiListen (x : tloc)
  | ApiConnect (x : tloc) (ipaddr : option Z) (port : Z) (connected : option fn)
  | ApiWrite (x : tloc) (data : option bytes) (len apiflags : Z) | ApiOutput (x : tloc)
  | ApiRecved (x : tloc) (len : Z) | ApiShutdown (x : tloc) (rx tx : bool) | ApiClose (x : tloc)
  | ApiAbort (x : tloc)
  | ApiArg (x : tloc) (arg : Z) | ApiSetAccept (x : tloc) (f : option fn) | ApiSetRecv (x : tloc) (f : option fn)
  | ApiSetSent (x : tloc) (f : option fn) | ApiSetErr (x : tloc) (f : option fn)
  | Segment (p : loc) (inp : netif_loc) | FastTimer (fuel : nat).

(** What the functions rely on: a block is bound once, one that is only bound
    is closed, not aborted, and data were refused by a function of the
    application. *)
Definition allowed (c : call) (v : tcp_vars) : Prop :=
  match c with
  | ApiBind x _ _ => unbound x v
  | ApiAbort x => abortable x v
  | Segment _ _ => refused_ok v
  | _ => True
  end.

Section calls.
Context {CF F A X : Type} `{HL : Lens X tcp_vars}.
Abbreviation stack := (stack CF F A X).
Context (custom_free : CF → loc → prog (heap CF) unit).
Context (mem_avail : heap CF → Z → bool) (garbage : heap CF → nat → Z).
Context (output ip_frag : netif_loc → loc → Z → prog stack err_t).
Context (seg_avail pcb_avail listen_avail : stack → bool).
Context (tcp_timer_needed : prog stack unit).
Context (call_app : app_call → prog stack err_t).

Definition run_call (c : call) : prog stack unit :=
  match c with
  | ApiNew => tcp_new custom_free mem_avail garbage output ip_frag pcb_avail call_app;; mret ()
  | ApiBind x ipaddr port => tcp_bind tcp_timer_needed x ipaddr port;; mret ()
  | ApiListen x => tcp_listen_with_backlog listen_avail tcp_timer_needed x;; mret ()
  | ApiConnect x ipaddr port connected =>
      tcp_connect custom_free mem_avail garbage output ip_frag seg_avail tcp_timer_needed
        x ipaddr port connected;; mret ()
  | ApiWrite x data len apiflags =>
      tcp_write custom_free mem_avail garbage seg_avail x data len apiflags;; mret ()
  | ApiOutput x => tcp_output custom_free mem_avail garbage output ip_frag x;; mret ()
  | ApiRecved x len => tcp_recved custom_free mem_avail garbage output ip_frag x len
  | ApiShutdown x rx tx =>
      tcp_shutdown custom_free mem_avail garbage output ip_frag seg_avail tcp_timer_needed x rx tx;;
      mret ()
  | ApiClose x =>
      tcp_close custom_free mem_avail garbage output ip_frag seg_avail tcp_timer_needed x;; mret ()
  | ApiAbort x => tcp_abort custom_free mem_avail garbage output ip_frag call_app x
  | ApiArg x arg => lift (tcp_arg x arg)
  | ApiSetAccept x f => lift (tcp_accept x f)
  | ApiSetRecv x f => lift (tcp_recv x f)
  | ApiSetSent x f => lift (tcp_sent x f)
  | ApiSetErr x f => lift (tcp_err x f)
  | Segment p inp =>
      tcp_input custom_free mem_avail garbage output ip_frag seg_avail pcb_avail tcp_timer_needed
        call_app p inp
  | FastTimer fuel =>
      tcp_fasttmr custom_free mem_avail garbage output ip_frag seg_avail tcp_timer_needed call_app fuel
  end.

(** The calls of an application, and what happens in between. *)
Inductive calls : stack → stack → Prop :=
  | calls_none s : calls s s
  | calls_next c s s1 s2 :
      allowed c (tcp_of s) → run_call c s = inr ((), s1) → calls s1 s2 → calls s s2.

Hypothesis keeps_out : ∀ n p d, keeps (same (λ v, v)) (output n p d).
Hypothesis keeps_frag : ∀ n p d, keeps (same (λ v, v)) (ip_frag n p d).
Hypothesis keeps_timer : keeps (same (λ v, v)) tcp_timer_needed.
Hypothesis app : app_ok call_app.

(** Members that are not in [n_info]. *)
Lemma hoare_member (m : prog tcp_vars unit) :
  hoare (LO []) m (λ _, LO []) →
  hoare (on (CF := CF) (F := F) (A := A) (X := X) (λ v, LO [] v ∧ True)) (lift m) (λ _, on (LO [])).
Proof. intros Hm. eapply hoare_pre; [by apply hoare_vars|by intros ? []]. Qed.
Lemma hoare_lupdate x f :
  (∀ b, lnode_of (f b) = lnode_of b) → hoare (LO []) (lupdate x f) (λ _, LO []).
Proof.
  intros Hf v [] v' HLO E. eapply skel_LO; [|exact HLO]. unfold lupdate, lderef in E.
  cbv [mbind prog_bind pget pderef] in E. destruct (tcp_listen_structs v !! x) as [b|] eqn:Eb; [|done].
  injection E as <-. unfold skeleton, heads. cbn. rewrite fmap_insert, Hf, insert_id; [done|].
  by rewrite lookup_fmap, Eb.
Qed.
Lemma hoare_set x (m : prog tcp_vars unit) :
  hoare (LO []) m (λ _, LO []) → hoare (LO []) (not_listen x;; m) (λ _, LO []).
Proof.
  intros Hm v [] v' HLO E. destruct (not_listen x v) as [f|[[] v1]] eqn:En;
    [by rewrite (bind_fault _ _ _ f) in E|].
  rewrite (bind_ret _ _ _ _ _ En) in E. apply keeps_vsame_not_listen in En. unfold vsame in En. subst v1.
  by eapply Hm.
Qed.

Lemma hoare_run_call c :
  hoare (on (λ v, LO [] v ∧ allowed c v)) (run_call c) (λ _, on (LO [])).
Proof.
  destruct c; cbn [run_call allowed];
    try (eapply hoare_bind; [|intros ?; by apply hoare_done]).
  - eapply hoare_conseq; [by apply hoare_tcp_alloc, (app_lists _ app)|by intros ? []|by intros ? ? []].
  - by apply hoare_tcp_bind.
  - eapply hoare_pre; [by apply hoare_tcp_listen|by intros ? []].
  - eapply hoare_pre; [by apply hoare_tcp_connect|by intros ? []].
  - eapply hoare_pre; [apply hoare_lo; by frame|by intros ? []].
  - eapply hoare_pre; [apply hoare_lo; by frame|by intros ? []].
  - eapply hoare_pre; [apply hoare_lo; by frame|by intros ? []].
  - eapply hoare_pre; [by apply hoare_shutdown|by intros ? []].
  - eapply hoare_pre; [by apply hoare_close|by intros ? []].
  - by apply hoare_abandon, (app_lists _ app).
  - apply hoare_member. unfold tcp_arg, is_listen.
    intros v a v' HLO E. rewrite bind_assoc_get in E.
    case_bool_decide; (eapply hoare_lupdate + eapply hoare_info); try exact HLO; try exact E; done.
  - apply hoare_member. unfold tcp_accept, is_listen.
    intros v a v' HLO E. rewrite bind_assoc_get in E.
    case_bool_decide; (eapply hoare_lupdate + eapply hoare_info); try exact HLO; try exact E; done.
  - by apply hoare_member, hoare_set, hoare_info.
  - by apply hoare_member, hoare_set, hoare_info.
  - by apply hoare_member, hoare_set, hoare_info.
  - by apply hoare_tcp_input.
  - eapply hoare_pre; [by apply hoare_fasttmr|by intros ? []].
Qed.

Lemma lists_ok_init : lists_ok tcp_vars_init.
Proof.
  exists (λ _, []). split.
  - by intros [].
  - by intros k l ?%elem_of_nil.
  - done.
  - by intros l k ?%elem_of_nil.
  - done.
Qed.

Lemma calls_lists s s' : LO [] (tcp_of s) → calls s s' → LO [] (tcp_of s').
Proof.
  intros HLO Hc. induction Hc as [s|c s s1 s2 Ha E Hc IH]; [done|].
  apply IH. by eapply (hoare_run_call c).
Qed.


End calls.
(** A server that a connection is made to, and a client, in one program. *)

Abbreviation toy := (stack unit unit unit tcp_vars).
(** A segment from 10.0.0.2 port 5000 to 10.0.0.1 port 80, without data. *)
Definition toy_segment (seq ack flags : Z) : pbuf unit :=
  let hdr c := [19; 136; 0; 80] ++ rev (le_bytes 4 seq) ++ rev (le_bytes 4 ack)
               ++ [80; flags; 32; 0] ++ le_bytes 2 c ++ [0; 0] in
  mk_pbuf None (hdr (inet_chksum_pseudo [(false, hdr 0)] IP_PROTO_TCP 20 0x0200000a 0x0100000a))
    0 20 20 PBUF_POOL 0 1 None.
Definition toy_start : toy :=
  mk_stack {[1%positive := toy_segment 1000 0 TCP_SYN; 2%positive := toy_segment 1001 6511 TCP_ACK]}
    (mk_netif_state {[1%positive := mk_netif 0x0100000a 0x00ffffff 0 1500 NETIF_FLAG_UP
                                      [117; 110] 0]} [1%positive] (Some 1%positive) 1)
    udp_init 0 (mk_ip_globals None None 0 0x0200000a 0x0100000a) tcp_vars_init.
Abbreviation toy_call := (run_call (λ _ _, mret ()) (λ _ _, true) (λ _ _, 0)
  (λ _ _ _, mret ERR_OK) (λ _ _ _, mret ERR_OK) (λ _, true) (λ _, true) (λ _, true) (mret ())
  (λ _, mret ERR_OK) (X := tcp_vars)).
Definition toy_after (c : call) (s : toy) : toy :=
  match toy_call c s with inr (_, s') => s' | inl _ => s end.
Fixpoint toy_run (l : list call) (s : toy) : toy :=
  match l with [] => s | c :: l' => toy_run l' (toy_after c s) end.
Definition toy_program : list call :=
  [ApiNew; ApiBind 1 None 80; ApiListen 1; ApiSetAccept 2 (Some (App 1)); Segment 1 1%positive; Segment 2 1%positive;
   FastTimer 9; ApiNew; ApiConnect 4 (Some 0x0200000a) 80 None;
   ApiNew; ApiBind 5 None 81; ApiClose 5; ApiAbort 4].

Fixpoint toy_ok (l : list call) (s : toy) : Prop :=
  match l with
  | [] => True
  | c :: l' => allowed c (tcp_of s) ∧ toy_call c s = inr ((), toy_after c s) ∧ toy_ok l' (toy_after c s)
  end.
Lemma toy_calls l : ∀ s, toy_ok l s →
  calls (λ _ _, mret ()) (λ _ _, true) (λ _ _, 0) (λ _ _ _, mret ERR_OK) (λ _ _ _, mret ERR_OK)
    (λ _, true) (λ _, true) (λ _, true) (mret ()) (λ _, mret ERR_OK) s (toy_run l s).
Proof.
  induction l as [|c l IH]; intros s; [by constructor|]. intros (Ha & Hc & Hl).
  by eapply calls_next; [..|apply IH].
Qed.

(** The functions of the application do nothing. *)
Lemma toy_app : app_ok (CF := unit) (F := unit) (A := unit) (X := tcp_vars) (λ _, mret ERR_OK).
Proof.
  split.
  - intros c. by apply hoare_ret.
  - intros c x k _ _. apply hoare_ret. by intros s [_ H] _.
  - intros n arg e x. apply hoare_ret. by intros s [_ H].
  - intros c x _. apply hoare_ret. by intros s H _.
  - intros c. by intros s b s' [= _ <-].
Qed.
Lemma toy_lists l : toy_ok l toy_start → lists_ok (tcp_of (toy_run l toy_start)).
Proof.
  intros Hl. eapply (calls_lists (X := tcp_vars)); [..|exact (toy_calls _ _ Hl)]; try exact lists_ok_init;
    try exact toy_app; intros; apply quiet_ret.
Qed.

Lemma refused_none (v : tcp_vars) :
  forallb (λ p, bool_decide (t_refused_data p.2 = None)) (map_to_list (tcp_structs v)) = true → refused_ok v.
Proof.
  rewrite forallb_forall. intros H x b Hb Hr. exfalso. apply Hr.
  specialize (H (x, b)). rewrite bool_decide_eq_true in H. apply H.
  apply list_elem_of_In. by apply elem_of_map_to_list.
Qed.

Ltac toy :=
  unfold toy_program; cbn [toy_ok];
  repeat match goal with
  | |- _ ∧ _ => refine (conj _ _)
  | |- _ = inr _ => vm_compute; reflexivity
  end; try exact I;
  lazymatch goal with
  | |- allowed (Segment _ _) _ => apply refused_none; vm_compute; reflexivity
  | |- _ => intros n; unfold ND; vm_compute; intros [= <-]; first [reflexivity|discriminate]
  end.


End TcpCalls.
