(* ===== verification/TcpPorts.v ===== *)
(** * Local ports of TCP

    When the lists are as they have to be, the loops over them find a block
    with a given local address if there is one; so [tcp_new_port] finds a free
    port and [tcp_bind] refuses an address that is taken. *)

From S2P Require Import Prelude RecordSet Def Ip4Addr InetChksum Netif Udp UdpPorts Pbuf Stack Ip4 Icmp.
From S2P Require Import Tcp TcpOut TcpCore TcpIn TcpFrame TcpLists TcpInv TcpCalls.

Module TcpPorts.
Import RecordSet Def Ip4Addr InetChksum Netif Udp Pbuf Stack Ip4 Icmp Tcp TcpOut TcpCore TcpIn TcpFrame TcpLists TcpInv TcpCalls.
Import UdpPorts(dynamic, nth_port, nth_port_range, nth_port_0, nth_port_next, nth_port_all).

(** The local address and port of a block. *)
Definition local (v : tcp_vars) (x : tloc) : option (Z * Z) :=
  match tcp_listen_structs v !! x with
  | Some b => Some (l_local_ip b, l_local_port b)
  | None => (λ b, (t_local_ip b, t_local_port b)) <$> tcp_structs v !! x
  end.
(** The block is in one of the lists. *)
Definition listed (v : tcp_vars) (x : tloc) : Prop :=
  ∃ k l, path (nodes v) (head_of k v) l ∧ x ∈ l.
(** A block of the lists has a local address like this. *)
Definition taken (v : tcp_vars) (f : Z → Z → bool) : Prop :=
  ∃ x ip port, listed v x ∧ local v x = Some (ip, port) ∧ f ip port = true.

Definition matches (v : tcp_vars) (f : Z → Z → bool) (x : tloc) : bool :=
  match local v x with Some (ip, port) => f ip port | None => false end.

Lemma local_of_eq v x n : nodes v !! x = Some n → ∃ a, local v x = Some a ∧ local_of x v = inr (a, v).
Proof.
  rewrite nodes_lookup. unfold local, local_of, is_listen, lderef, tderef.
  cbv [mbind prog_bind pget mret prog_ret].
  destruct (tcp_listen_structs v !! x) as [b|] eqn:El.
  - intros _. rewrite bool_decide_true by (by eexists). rewrite El. by eexists.
  - rewrite bool_decide_false by (by intros [? ?]). destruct (tcp_structs v !! x) as [b|]; [|done].
    intros _. by eexists.
Qed.

Lemma exists_loop_spec v f l : ∀ p fuel,
  path (nodes v) p l → (length l ≤ fuel)%nat → exists_loop fuel f p v = inr (existsb (matches v f) l, v).
Proof.
  induction l as [|x l IH]; intros p fuel Hp Hf; [destruct fuel; simpl in Hp; by subst|].
  destruct Hp as (-> & n & Hn & Hp). destruct fuel as [|fuel]; [simpl in Hf; lia|].
  destruct (local_of_eq v x n Hn) as ([ip port] & Hl & E). cbn [exists_loop existsb].
  rewrite (bind_ret _ _ _ _ _ E). unfold matches at 1. rewrite Hl. destruct (f ip port); [done|].
  rewrite (bind_ret _ _ _ (n_next n) v); [|by rewrite next_of_eq, Hn].
  apply IH; [done|]. simpl in Hf. lia.
Qed.

Lemma exists_in_spec v ls f ks :
  lists_ok_with ls [] v → exists_in f ks v = inr (existsb (λ k, existsb (matches v f) (ls k)) ks, v).
Proof.
  intros HL. induction ks as [|k ks IH]; [done|]. cbn [exists_in existsb]. rewrite bind_get.
  pose proof (lo_path _ _ _ HL k) as Hp. assert (length (ls k) ≤ list_fuel v)%nat as Hf.
  { etrans; [by eapply path_length|]. apply nodes_size. }
  rewrite (bind_ret _ _ _ _ _ (exists_loop_spec v f _ _ _ Hp Hf)). by destruct (existsb _ (ls k)).
Qed.

Lemma path_functional m l : ∀ p l', path m p l → path m p l' → l = l'.
Proof.
  induction l as [|x l IH]; intros p [|y l'] H H'; simpl in *;
    [done|destruct H'; congruence|destruct H; congruence|].
  destruct H as (-> & n & Hn & Hp), H' as ([= <-] & n' & Hn' & Hp'). rewrite Hn in Hn'.
  injection Hn' as <-. f_equal. by eapply IH.
Qed.

Lemma exists_taken v ls f :
  lists_ok_with ls [] v →
  existsb (λ k, existsb (matches v f) (ls k)) tcp_pcb_lists = true ↔ taken v f.
Proof.
  intros HL. rewrite existsb_exists. setoid_rewrite existsb_exists. split.
  - intros (k & _ & x & Hx%list_elem_of_In & Hm). unfold matches in Hm.
    destruct (local v x) as [[ip port]|] eqn:El; [|done]. exists x, ip, port. split; [|done].
    exists k, (ls k). split; [apply (lo_path _ _ _ HL)|done].
  - intros (x & ip & port & (k & l & Hp & Hx) & El & Hf). exists k. split; [destruct k; simpl; auto|].
    rewrite (path_functional _ _ _ _ (lo_path _ _ _ HL k) Hp). exists x.
    split; [by apply list_elem_of_In|]. unfold matches. by rewrite El.
Qed.
Lemma exists_in_taken v f :
  lists_ok v → ∃ r : bool, exists_in f tcp_pcb_lists v = inr (r, v) ∧ (r = true ↔ taken v f).
Proof. intros [ls HL]. eexists. split; [by eapply exists_in_spec|]. by apply exists_taken. Qed.

(** ** Choosing a port *)

(** The port [y] belongs to a block of the lists. *)
Abbreviation in_use v y := (taken v (λ _ p, p =? y)).

Definition port_chosen (v : tcp_vars) (r : Z) (v' : tcp_vars) : Prop :=
  ∃ x, dynamic x ∧ v' = v <|tcp_port := x|> ∧
    (r = x ∧ ¬ in_use v x ∨ r = 0 ∧ ∀ y, dynamic y → in_use v y).

Lemma set_port_lists v x : lists_ok v → lists_ok (v <|tcp_port := x|>).
Proof. intros [ls HL]. exists ls. eapply lo_skeleton; [|exact HL]; done. Qed.

Lemma tcp_new_port_again_spec x v fuel n :
  lists_ok v → 0x4001 ≤ n + Z.of_nat fuel → 0 ≤ n < 0x4000 →
  (∀ k, 1 ≤ k ≤ n → in_use v (nth_port x k)) → tcp_port v = nth_port x n →
  returns (tcp_new_port_again fuel n v) (port_chosen v).
Proof.
  intros Hl. revert n v Hl. induction fuel as [|fuel IH]; intros n v Hl Hf Hn Hk Hx; [lia|].
  cbn [tcp_new_port_again]. rewrite bind_get, bind_modify, Hx.
  change (if _ =? TCP_LOCAL_PORT_RANGE_END then _ else _) with
    (if nth_port x n =? UDP_LOCAL_PORT_RANGE_END then UDP_LOCAL_PORT_RANGE_START
     else u16 (nth_port x n + 1)).
  rewrite nth_port_next. set (y := nth_port x (n + 1)).
  destruct (exists_in_taken (v <|tcp_port := y|>) (λ _ p, p =? y)) as (r & E & Hr);
    [by apply set_port_lists|].
  rewrite (bind_ret _ _ _ _ _ E). change (taken (v <|tcp_port := y|>)) with (taken v) in Hr.
  assert (Hd : dynamic y) by apply nth_port_range.
  destruct r; [|exists y; split; [done|]; split; [done|]; left; split; [done|]; by intros ?%Hr].
  assert (Hk' : ∀ k, 1 ≤ k ≤ n + 1 → in_use v (nth_port x k)).
  { intros k ?. destruct (decide (k = n + 1)) as [->|]; [by apply Hr|]. apply Hk. lia. }
  assert (u16 (n + 1) = n + 1) as -> by (apply u16_id; unfold is_u16; lia).
  unfold TCP_LOCAL_PORT_RANGE_END, TCP_LOCAL_PORT_RANGE_START.
  destruct (Z.ltb_spec (65535 - 49152) (n + 1)).
  - exists y. split; [done|]. split; [done|]. right. split; [done|]. intros z Hz.
    destruct (nth_port_all x z Hz) as (k & ? & ->). apply Hk'. lia.
  - eapply returns_mono; [apply (IH (n + 1) (v <|tcp_port := y|>))|];
      [by apply set_port_lists|lia|lia|done|done|].
    intros r s' (z & Hz & -> & Hc). by exists z.
Qed.

Lemma tcp_new_port_chosen v :
  lists_ok v → dynamic (tcp_port v) → returns (tcp_new_port v) (port_chosen v).
Proof.
  intros Hl Hr. apply (tcp_new_port_again_spec (tcp_port v)); [done|unfold TCP_LOCAL_PORT_RANGE_END, TCP_LOCAL_PORT_RANGE_START; lia|lia| |].
  - intros k ?. lia.
  - by rewrite nth_port_0.
Qed.

(** ** [tcp_bind] *)

Lemma tupdate_eq v x b f :
  tcp_structs v !! x = Some b → tupdate x f v = inr ((), v <|tcp_structs ::= <[x:=f b]>|>).
Proof. intros Hb. unfold tupdate, tderef. cbv [mbind prog_bind pget]. by rewrite Hb. Qed.
Lemma reg_eq v x b k :
  tcp_structs v !! x = Some b → tcp_listen_structs v !! x = None →
  reg k x v = inr ((), set_head_of k (Some x)
                         (v <|tcp_structs ::= <[x:=b <|t_next := head_of k v|>]>|>)).
Proof.
  intros Hb Hl. unfold reg. rewrite bind_get.
  rewrite (bind_ret _ _ _ () (v <|tcp_structs ::= <[x:=b <|t_next := head_of k v|>]>|>)); [done|].
  unfold set_next_of, is_listen. cbv [mbind prog_bind pget mret prog_ret]. rewrite bool_decide_false.
  - by apply (tupdate_eq v x b).
  - rewrite Hl. by intros [? ?].
Qed.

(** What [tcp_bind] does not allow another block to have. *)
Definition conflict (ipaddr : option Z) (port ip p : Z) : bool :=
  (p =? port) && (ip_addr_isany ip || isany ipaddr || bool_decide (Some ip = ipaddr)).

Section bind.
Context {CF F A X : Type} `{HL : Lens X tcp_vars}.
Abbreviation stack := (stack CF F A X).
Context (tcp_timer_needed : prog stack unit).
Hypothesis timer_returns : ∀ s, returns (tcp_timer_needed s) (λ _ s', tcp_of s' = tcp_of s).

Definition bound_ip (ipaddr : option Z) (b : tcp_pcb) : Z :=
  match ipaddr with Some a => if ip_addr_isany a then t_local_ip b else a | None => t_local_ip b end.

(** The address is free: the block gets it. *)
Lemma bind_free x b ipaddr port (s : stack) :
  tcp_structs (tcp_of s) !! x = Some b → tcp_listen_structs (tcp_of s) !! x = None →
  returns (((match ipaddr with
             | Some a => if ip_addr_isany a then mret () else lift (tupdate x (λ b, b <|t_local_ip := a|>))
             | None => mret ()
             end);;
            lift (tupdate x (λ b, b <|t_local_port := port|>));;
            TCP_REG tcp_timer_needed BOUND_PCBS x;;
            mret ERR_OK) s)
    (λ err s', err = ERR_OK ∧ local (tcp_of s') x = Some (bound_ip ipaddr b, port)
               ∧ tcp_bound_pcbs (tcp_of s') = Some x).
Proof.
  intros Hb Hl.
  apply (returns_bind _ _ _ (λ _ s1, ∃ b1, tcp_structs (tcp_of s1) !! x = Some b1 ∧
    tcp_listen_structs (tcp_of s1) !! x = None ∧ t_local_ip b1 = bound_ip ipaddr b)).
  - destruct ipaddr as [a|]; [destruct (ip_addr_isany a) eqn:Ea|]; cbn [bound_ip]; rewrite ?Ea;
      [by exists b| |by exists b].
    eapply returns_vars_last; [by apply tupdate_eq|]. intros s1 ->. cbn.
    eexists. split; [apply lookup_insert_eq|]. done.
  - intros _ s1 (b1 & Hb1 & Hl1 & Hip).
    eapply returns_vars; [by apply tupdate_eq|]. intros s2 Hs2.
    unfold TCP_REG. eapply returns_bind.
    + eapply returns_vars; [apply (reg_eq _ x (b1 <|t_local_port := port|>))|].
      * rewrite Hs2. cbn. by rewrite lookup_insert_eq.
      * by rewrite Hs2.
      * intros s3 Hs3. eapply returns_mono; [apply timer_returns|]. intros ? s4 Hs4.
        rewrite Hs3 in Hs4. exact Hs4.
    + intros ? s4 Hs4. cbn [returns mret prog_ret]. rewrite Hs4. split; [done|]. split; [|done].
      unfold local. cbn. rewrite Hs2. cbn. rewrite Hl1, lookup_insert_eq. cbn. by rewrite Hip.
Qed.

(** The port: as asked for, or a free one. *)
Lemma bind_choose_port port (s : stack) :
  lists_ok (tcp_of s) → dynamic (tcp_port (tcp_of s)) →
  returns ((if port =? 0 then lift tcp_new_port else mret port) s)
    (λ p s1, ∃ y, tcp_of s1 = (tcp_of s) <|tcp_port := y|> ∧
       (port ≠ 0 ∧ p = port ∨
        port = 0 ∧ (dynamic p ∧ ¬ in_use (tcp_of s) p ∨ p = 0 ∧ ∀ z, dynamic z → in_use (tcp_of s) z))).
Proof.
  intros Hl Hd. destruct (Z.eqb_spec port 0) as [->|Hne].
  - destruct (returns_inv _ _ (tcp_new_port_chosen _ Hl Hd)) as (p & v1 & E & y & Hy & -> & Hc).
    eapply returns_vars_last; [exact E|]. intros s1 Hs1. exists y. split; [done|]. right.
    split; [done|]. destruct Hc as [[-> ?]|?]; auto.
  - exists (tcp_port (tcp_of s)). split; [by destruct (tcp_of s)|]. auto.
Qed.

(** What comes out of [tcp_bind]. *)
Definition bind_outcome (x : tloc) (b : tcp_pcb) (ipaddr : option Z) (port : Z) (v : tcp_vars)
    (err : err_t) (v' : tcp_vars) : Prop :=
  err = ERR_USE ∧ port ≠ 0 ∧ taken v (conflict ipaddr port) ∨
  err = ERR_BUF ∧ port = 0 ∧ (∀ y, dynamic y → in_use v y) ∨
  err = ERR_OK ∧ ∃ p, (port = 0 ∧ dynamic p ∧ ¬ in_use v p ∨ port ≠ 0 ∧ p = port) ∧
    ¬ taken v (conflict ipaddr p) ∧
    local v' x = Some (bound_ip ipaddr b, p) ∧ tcp_bound_pcbs v' = Some x.

Lemma conflict_in_use v ipaddr p : taken v (conflict ipaddr p) → in_use v p.
Proof.
  intros (y & ip & q & Hy & Hl & Hc). exists y, ip, q. unfold conflict in Hc.
  by apply andb_prop in Hc as [? _].
Qed.

Lemma tcp_bind_returns x b ipaddr port (s : stack) :
  lists_ok (tcp_of s) → dynamic (tcp_port (tcp_of s)) →
  tcp_structs (tcp_of s) !! x = Some b → tcp_listen_structs (tcp_of s) !! x = None →
  t_state b = CLOSED →
  returns (tcp_bind tcp_timer_needed x ipaddr port s)
    (λ err s', bind_outcome x b ipaddr port (tcp_of s) err (tcp_of s')).
Proof.
  intros Hl Hd Hb Hls Hst. unfold tcp_bind. eapply (returns_vars _ _ _ () (tcp_of s)).
  { unfold not_listen, is_listen. cbv [mbind prog_bind pget mret prog_ret].
    rewrite bool_decide_false; [done|]. rewrite Hls. by intros [? ?]. }
  intros s0 Hs0. rewrite (bind_tderef _ b), bind_assert by (rewrite ?Hs0, ?Hst; done).
  rewrite <-Hs0 in *. eapply returns_bind; [by apply bind_choose_port|].
  intros p s1 (y & Hs1 & Hp). destruct (Z.eqb_spec p 0) as [->|Hp0].
  { right; left. split; [done|]. destruct Hp as [[? ?]|[-> [[Hr _]|[_ Hr]]]]; [congruence| |done].
    unfold dynamic, UDP_LOCAL_PORT_RANGE_START in Hr. lia. }
  destruct (exists_in_taken (tcp_of s1) (conflict ipaddr p)) as (r & E & Hr);
    [rewrite Hs1; by apply set_port_lists|].
  eapply returns_vars; [exact E|]. intros s2 Hs2.
  assert (r = true ↔ taken (tcp_of s0) (conflict ipaddr p)) as Hr' by (rewrite Hr, Hs1; done).
  destruct r.
  - left. split; [done|]. destruct Hp as [[? ->]|[-> [[_ Hn]|[? _]]]]; [by split; [|apply Hr']| |done].
    exfalso. by eapply Hn, conflict_in_use, Hr'.
  - eapply returns_mono; [apply (bind_free x b ipaddr p); by rewrite Hs2, Hs1|].
    intros err s3 (-> & Hloc & Hhd). right; right. split; [done|]. exists p.
    split; [destruct Hp as [|[? [[? ?]|[? _]]]]; [by right|by left|done]|]. by split; [intros ?%Hr'|].
Qed.

(** C11: [tcp_bind] of a fresh block returns.  It refuses an address exactly when a
    block of any list has the port with the same or an unspecified address; it
    fails with ERR_BUF exactly when a port is to be chosen and all are in use;
    otherwise the block has the address and the port, which no other block
    conflicts with, and heads the list of the bound blocks.  The lists stay as
    they have to be. *)
Theorem tcp_bind_exclusive x b ipaddr port (s : stack) :
  lists_ok (tcp_of s) → dynamic (tcp_port (tcp_of s)) →
  tcp_structs (tcp_of s) !! x = Some b → t_state b = CLOSED → t_local_port b = 0 →
  returns (tcp_bind tcp_timer_needed x ipaddr port s) (λ err s',
    lists_ok (tcp_of s') ∧ bind_outcome x b ipaddr port (tcp_of s) err (tcp_of s')).
Proof.
  intros Hl Hd Hb Hst Hp0. assert (tcp_listen_structs (tcp_of s) !! x = None) as Hls.
  { destruct Hl as [ls Hl]. by destruct (lo_sep _ _ _ Hl x b Hb). }
  destruct (returns_inv _ _ (tcp_bind_returns x b ipaddr port s Hl Hd Hb Hls Hst)) as (err & s' & E & Ho).
  rewrite E. split; [|done]. eapply hoare_tcp_bind; [|split; [exact Hl|]|exact E].
  - intros s1 [] s2 Et. pose proof (timer_returns s1) as Ht. by rewrite Et in Ht.
  - intros n. unfold ND. rewrite Hb. intros [= <-]. cbn. by rewrite Hp0.
Qed.

End bind.

(** A block is bound to port 80; another one asks for it. *)
Definition taken_80 : toy := toy_run [ApiNew; ApiBind 1 None 80; ApiNew] toy_start.

Lemma tcp_bind_exclusive_witness :
  lists_ok (tcp_of taken_80) ∧
  returns (tcp_bind (mret ()) 2%positive (Some 0x0100000a) 80 taken_80) (λ err s', lists_ok (tcp_of s') ∧
    bind_outcome 2 (new_pcb TCP_PRIO_NORMAL 6510 0 0) (Some 0x0100000a) 80 (tcp_of taken_80) err (tcp_of s')).
Proof.
  assert (lists_ok (tcp_of taken_80)) as Hl by (apply toy_lists; toy).
  split; [exact Hl|].
  assert (∀ s : toy, returns ((mret () : prog toy unit) s) (λ _ s', tcp_of s' = tcp_of s)) as Ht by reflexivity.
  apply (tcp_bind_exclusive (mret ()) Ht 2%positive (new_pcb TCP_PRIO_NORMAL 6510 0 0)
    (Some 0x0100000a) 80 taken_80).
  - exact Hl.
  - vm_compute. split; discriminate.
  - vm_compute. reflexivity.
  - reflexivity.
  - reflexivity.
Defined.
End TcpPorts.
