(* ===== verification/TcpWindow.v ===== *)
(** * The receive window

    Whatever segment comes, [tcp_receive] leaves the right edge of the receive
    window where it is: the window shrinks by what [rcv_nxt] advances, and never
    below zero.  What is announced to the peer never takes back what was
    announced before. *)

From S2P Require Import Prelude RecordSet Def Ip4Addr InetChksum Netif Udp Pbuf Stack Ip4 Icmp.
From S2P Require Import Tcp TcpOut TcpCore TcpIn TcpFrame TcpLists TcpInv TcpRecv TcpFsm.

Module TcpWindow.
Import RecordSet Def Ip4Addr InetChksum Netif Udp Pbuf Stack Ip4 Icmp Tcp TcpOut TcpCore TcpIn TcpFrame TcpLists TcpInv TcpRecv TcpFsm.

(** The window of the block is [rcv_nxt], [rcv_wnd]; the segment starts at [q]. *)
Definition window_is (x : tloc) (r w q : Z) (v : tcp_vars) : Prop :=
  window <$> tcp_structs v !! x = Some (r, w) ∧ i_seqno (tcp_in v) = q.
(** The window after [n] more bytes. *)
Definition advanced (x : tloc) (r w : Z) (v : tcp_vars) : Prop :=
  ∃ n q, n ≤ w ∧ window_is x (u32 (r + n)) (w - n) q v.

Lemma u32_add_l a b : u32 (u32 a + b) = u32 (a + b).
Proof. unfold u32. by rewrite Z.add_mod_idemp_l. Qed.

Definition wpart (v : tcp_vars) := (window <$> tcp_structs v, i_seqno (tcp_in v)).

Section window.
Context {CF F A X : Type} `{HL : Lens X tcp_vars}.
Abbreviation stack := (stack CF F A X).
Abbreviation same := (same (CF := CF) (F := F) (A := A) (X := X)).
Abbreviation on := (on (CF := CF) (F := F) (A := A) (X := X)).
Context (custom_free : CF → loc → prog (heap CF) unit).
Context (mem_avail : heap CF → Z → bool) (garbage : heap CF → nat → Z).
Context (output ip_frag : netif_loc → loc → Z → prog stack err_t).
Context (seg_avail : stack → bool).
Hypothesis keeps_out : ∀ n p d, keeps (same (λ v, v)) (output n p d).
Hypothesis keeps_frag : ∀ n p d, keeps (same (λ v, v)) (ip_frag n p d).

Lemma wpart_is x r w q v v' : wpart v = wpart v' → window_is x r w q v → window_is x r w q v'.
Proof.
  intros [= Hw Hq] [H1 H2]. split; [|congruence]. by rewrite <-lookup_fmap, <-Hw, lookup_fmap.
Qed.
Lemma wide_wpart {B} (m : prog stack B) : keeps (same wide) m → keeps (same wpart) m.
Proof. intros H s a s' E. exact (f_equal snd (H s a s' E)). Qed.
Lemma wpart_tupdate l f : (∀ b, window (f b) = window b) → keeps (same wpart) (lift (tupdate l f)).
Proof.
  intros H. apply keeps_vars, keeps_tupdate. intros v b Hb. unfold wpart. cbn.
  rewrite fmap_insert, H, insert_id; [done|]. by rewrite lookup_fmap, Hb.
Qed.
Lemma wpart_iupdate f :
  (∀ i, i_seqno (f i) = i_seqno i) → keeps (same wpart) (iupdate (CF := CF) (F := F) (A := A) (X := X) f).
Proof.
  intros H. unfold iupdate. apply keeps_vars, keeps_modify. intros v. unfold vsame, wpart. cbn.
  by rewrite H.
Qed.
#[local] Hint Extern 10 (keeps (TcpFrame.same wpart) _) =>
  apply wide_wpart; solve [eauto with keeps] : keeps.

(** The first command leaves the window and the number of the segment. *)
Ltac calm :=
  repeat (keeps; try first
    [ apply wpart_tupdate; intros ?; by repeat case_match | apply wpart_iupdate; intros ?; done
    | apply wide_wpart; by recv ]).

Lemma hoare_calm {B} P (m : prog stack B) :
  (∀ v v', wpart v = wpart v' → P v → P v') → keeps (same wpart) m → hoare (on P) m (λ _, on P).
Proof. intros HP Hm s a s' H E. eapply HP; [|exact H]. by eapply Hm. Qed.
Lemma wpart_advanced x r w v v' : wpart v = wpart v' → advanced x r w v → advanced x r w v'.
Proof. intros E (n & q & Hn & H). exists n, q. split; [done|]. by eapply wpart_is. Qed.

Ltac is_step := eapply hoare_seq; [apply hoare_calm; [apply wpart_is|by calm]|intros ?].
Ltac adv_step := eapply hoare_seq; [apply hoare_calm; [apply wpart_advanced|by calm]|intros ?].
Ltac adv_last := apply hoare_calm; [apply wpart_advanced|by calm].

Lemma hoare_deref_window {B} x r w q (k : tcp_pcb → prog stack B) Q :
  (∀ b, t_rcv_nxt b = r → t_rcv_wnd b = w → hoare (on (window_is x r w q)) (k b) Q) →
  hoare (on (window_is x r w q)) (b ← lift (tderef x); k b) Q.
Proof.
  intros Hk s a s' HP E. pose proof HP as [Hw _].
  destruct (tcp_structs (tcp_of s) !! x) as [b|] eqn:Eb; [|done]. injection Hw as Hr Hw.
  rewrite (bind_tderef _ b) in E by done. by eapply Hk.
Qed.
Lemma hoare_set_window x r w q r' w' f :
  (∀ b, t_rcv_nxt b = r → t_rcv_wnd b = w → window (f b) = (r', w')) →
  hoare (on (window_is x r w q)) (lift (tupdate x f)) (λ _, on (window_is x r' w' q)).
Proof.
  intros Hf. apply hoare_vars. intros v [] v' [Hw Hq] E. unfold tupdate, tderef in E.
  cbv [mbind prog_bind pget pderef] in E. destruct (tcp_structs v !! x) as [b|] eqn:Eb; [|done].
  injection E as <-. injection Hw as Hr Hw. split; [|done]. cbn. rewrite lookup_insert_eq. simpl.
  by rewrite Hf.
Qed.
Lemma hoare_set_seqno x r w q q' f :
  (∀ i, i_seqno (f i) = q') →
  hoare (on (window_is x r w q)) (iupdate f) (λ _, on (window_is x r w q')).
Proof.
  intros Hf. unfold iupdate. apply hoare_vars. intros v [] v' [Hw Hq] E. injection E as <-.
  split; [done|]. apply Hf.
Qed.
Lemma hoare_window_ivars {B} x r w q (k : tcp_input_vars → prog stack B) Q :
  (∀ i, i_seqno i = q → hoare (on (window_is x r w q)) (k i) Q) →
  hoare (on (window_is x r w q)) (i ← ivars; k i) Q.
Proof. intros Hk s a s' HP E. rewrite bind_ivars in E. eapply Hk; [|exact HP|exact E]. by destruct HP. Qed.

Lemma hoare_advance x r w q len :
  hoare (on (window_is x r w q)) (advance x r len)
    (λ _, on (λ v, len ≤ w ∧ window_is x (u32 (r + len)) (w - len) q v)).
Proof.
  unfold advance. apply hoare_deref_window. intros b Hr Hw. apply hoare_pure_assert.
  intros Hlen%Z.leb_le. rewrite Hw in Hlen. eapply hoare_bind.
  - apply (hoare_set_window x r w q (u32 (r + len)) (w - len)). intros b' _ Hw'. unfold window. cbn.
    by rewrite Hw'.
  - intros ?. is_step. apply hoare_ret. intros s Hs. by split.
Qed.

(** A block of [advanced], in terms of how much was received. *)
Lemma hoare_advanced {B} x r w (m : prog stack B) Q :
  (∀ n q, n ≤ w → hoare (on (window_is x (u32 (r + n)) (w - n) q)) m Q) → hoare (on (advanced x r w)) m Q.
Proof. intros H s a s' (n & q & Hn & HP). by eapply H. Qed.
Lemma advance_advanced x r w n q len :
  hoare (on (window_is x (u32 (r + n)) (w - n) q)) (advance x (u32 (r + n)) len) (λ _, on (advanced x r w)).
Proof.
  eapply hoare_conseq; [apply hoare_advance|done|]. intros ? s [Hlen H]. exists (n + len), q.
  split; [lia|]. rewrite u32_add_l, <-Z.add_assoc in H. by rewrite Z.sub_add_distr.
Qed.

Lemma dequeue_advanced x r w l :
  hoare (on (advanced x r w)) (dequeue_loop custom_free x l) (λ _, on (advanced x r w)).
Proof.
  induction l as [|cseg l IH]; cbn [dequeue_loop]; [adv_last|].
  apply hoare_advanced. intros n q Hn. apply hoare_deref_window. intros b Hr Hw. is_step.
  destruct (Z.eqb_spec a (t_rcv_nxt b)) as [->|_]; [|apply hoare_done; intros v Hv; by exists n, q].
  eapply hoare_bind; [by apply (hoare_set_seqno x _ _ q (t_rcv_nxt b))|]. intros ?. is_step.
  rewrite Hr. eapply hoare_bind; [apply advance_advanced|]. intros ?. do 8 adv_step. apply IH.
Qed.

Lemma in_order_advanced x r w :
  hoare (on (window_is x r w r)) (receive_in_order custom_free x) (λ _, on (advanced x r w)).
Proof.
  unfold receive_in_order. do 4 is_step. apply hoare_window_ivars. intros i Hi.
  eapply (hoare_bind _ _ _ (λ _, on (advanced x r w))).
  - rewrite Hi. eapply hoare_conseq; [apply hoare_advance|done|]. intros ? s [? H]. by exists (i_tcplen i), r.
  - intros ?. do 6 adv_step. eapply hoare_seq; [apply dequeue_advanced|]. intros ?. adv_last.
Qed.

Lemma window_advanced x r w q v : is_u32 r → 0 ≤ w → window_is x r w q v → advanced x r w v.
Proof. intros Hr Hw H. exists 0, q. split; [lia|]. by rewrite Z.add_0_r, Z.sub_0_r, u32_id. Qed.

Lemma hoare_trim_first x r w q :
  hoare (on (window_is x r w q)) (trim_first r) (λ _, on (window_is x r w r)).
Proof.
  unfold trim_first. is_step. case_match; [|apply hoare_fault]. do 2 is_step.
  by apply (hoare_set_seqno x r w q r).
Qed.

Lemma receive_data_advanced x r w q :
  is_u32 r → 0 ≤ w →
  hoare (on (window_is x r w q))
    (receive_data custom_free mem_avail garbage output ip_frag seg_avail x) (λ _, on (advanced x r w)).
Proof.
  intros Hr Hw. unfold receive_data. is_step. apply hoare_deref_window. intros b Hb Hwb.
  eapply (hoare_bind _ _ _ (λ _, on (λ v, ∃ q', window_is x r w q' v))).
  { rewrite Hb. repeat case_match.
    - eapply hoare_conseq; [apply (hoare_trim_first x r w q)|done|]. intros ? s Hs. by exists r.
    - eapply hoare_conseq; [apply (hoare_calm (window_is x r w q)); [apply wpart_is|by calm]|done|].
      intros ? s Hs. by exists q.
    - apply hoare_done. intros v Hv. by exists q. }
  intros ? s1 a1 s1' [q' HP]. revert s1 a1 s1' HP. apply hoare_window_ivars. intros i Hi. rewrite Hb.
  assert (∀ v, window_is x r w q' v → advanced x r w v) by (intros v; by apply window_advanced).
  case_match; [destruct (Z.eqb_spec r (i_seqno i)) as [E|_]|].
  - rewrite <-E in Hi. subst q'. apply in_order_advanced.
  - eapply hoare_pre; [adv_last|done].
  - eapply hoare_pre; [adv_last|done].
Qed.

(** C14: Receiving a segment keeps the right edge of the receive window in place:
    [rcv_nxt] moves on by as much as [rcv_wnd] shrinks, by no more than the
    window was. *)
Theorem tcp_receive_keeps_right_edge x b s s' :
  tcp_structs (tcp_of s) !! x = Some b → is_u32 (t_rcv_nxt b) → 0 ≤ t_rcv_wnd b →
  tcp_receive custom_free mem_avail garbage output ip_frag seg_avail x s = inr ((), s') →
  ∃ b' n, tcp_structs (tcp_of s') !! x = Some b' ∧ n ≤ t_rcv_wnd b ∧
    t_rcv_nxt b' = u32 (t_rcv_nxt b + n) ∧ t_rcv_wnd b' = t_rcv_wnd b - n.
Proof.
  intros Hb Hr Hw E.
  assert (hoare (on (window_is x (t_rcv_nxt b) (t_rcv_wnd b) (i_seqno (tcp_in (tcp_of s)))))
    (tcp_receive custom_free mem_avail garbage output ip_frag seg_avail x)
    (λ _, on (advanced x (t_rcv_nxt b) (t_rcv_wnd b)))) as Ht.
  { unfold tcp_receive. do 5 is_step. case_match; [by apply receive_data_advanced|].
    eapply hoare_pre; [adv_last|]. intros v. by apply window_advanced. }
  destruct (Ht s () s') as (n & q & Hn & Hwin & _); [|exact E|].
  { split; [by rewrite Hb|done]. }
  destruct (tcp_structs (tcp_of s') !! x) as [b'|]; [|done]. injection Hwin as H1 H2. by exists b', n.
Qed.

End window.
(** The FIN of [TcpFsm.fin_stack] takes one byte of the window. *)
Definition fin_received : fault + (unit * stack unit unit unit tcp_vars) :=
  tcp_receive (λ _ _, mret ()) (λ _ _, true) (λ _ _, 0) (λ _ _ _, mret ERR_OK) (λ _ _ _, mret ERR_OK)
    (λ _, true) 1%positive fin_stack.
Definition fin_received_stack : stack unit unit unit tcp_vars :=
  match fin_received with inr (_, s) => s | inl _ => fin_stack end.

Lemma tcp_receive_keeps_right_edge_witness :
  fin_received = inr ((), fin_received_stack) ∧
  ∃ b' n, tcp_structs (tcp_of fin_received_stack) !! 1%positive = Some b' ∧ n ≤ TCP_WND ∧
    t_rcv_nxt b' = u32 (1000 + n) ∧ t_rcv_wnd b' = TCP_WND - n.
Proof.
  assert (fin_received = inr ((), fin_received_stack)) as E by (vm_compute; reflexivity).
  split; [exact E|].
  apply (tcp_receive_keeps_right_edge (X := tcp_vars) (λ _ _, mret ()) (λ _ _, true) (λ _ _, 0)
    (λ _ _ _, mret ERR_OK) (λ _ _ _, mret ERR_OK) (λ _, true)
    (λ _ _ _, quiet_ret _) (λ _ _ _, quiet_ret _) 1%positive fin_block fin_stack fin_received_stack).
  - reflexivity.
  - change (is_u32 1000). unfold is_u32. lia.
  - change (0 ≤ 65534). lia.
  - exact E.
Defined.

(** ** The window that is announced *)

Lemma edge_grows n w e m :
  is_u16 w → 0 ≤ m ≤ 0x7fff → - 2 ^ 30 ≤ s32 (n - e) ≤ 2 ^ 30 → 0 ≤ s32 (u32 (n + w) - (e + m)) →
  0 ≤ s32 (n + w - e).
Proof. unfold s32, u32, is_u16. change (2 ^ 30) with 1073741824. zdm. Qed.
Lemma edge_kept n e : 0 ≤ s32 (n + u32 (e - n) - e).
Proof. unfold s32, u32. zdm. Qed.

(** The window that is announced never takes back what was announced before:
    its right edge is not before the last one. *)
Theorem announced_edge_never_retreats x b v r v' :
  tcp_structs v !! x = Some b → is_u16 (t_rcv_wnd b) → 0 ≤ t_mss b ≤ 0x7fff →
  - 2 ^ 30 ≤ s32 (t_rcv_nxt b - t_rcv_ann_right_edge b) ≤ 2 ^ 30 →
  tcp_update_rcv_ann_wnd x v = inr (r, v') →
  ∃ b', tcp_structs v' !! x = Some b' ∧ t_rcv_nxt b' = t_rcv_nxt b ∧
    TCP_SEQ_GEQ (t_rcv_nxt b' + t_rcv_ann_wnd b') (t_rcv_ann_right_edge b) = true.
Proof.
  intros Hb Hwnd Hmss Hedge E. unfold tcp_update_rcv_ann_wnd in E.
  rewrite (bind_ret _ _ _ b v) in E by (unfold tderef; cbv [mbind prog_bind pget pderef]; by rewrite Hb).
  assert (∀ f, tupdate x f v = inr ((), v <|tcp_structs ::= <[x:=f b]>|>)) as Hup.
  { intros f. unfold tupdate, tderef. cbv [mbind prog_bind pget pderef]. by rewrite Hb. }
  unfold TCP_SEQ_GEQ in *. destruct (0 <=? s32 _) eqn:Hge.
  - rewrite (bind_ret _ _ _ _ _ (Hup _)) in E. injection E as _ <-. eexists.
    split; [apply lookup_insert_eq|]. split; [done|]. apply Z.leb_le in Hge. apply Z.leb_le.
    apply (edge_grows _ _ _ _ Hwnd) in Hge; [done|unfold TCP_WND; zdm|done].
  - destruct (TCP_SEQ_GT _ _) eqn:Hgt.
    + rewrite (bind_ret _ _ _ _ _ (Hup _)) in E. injection E as _ <-. eexists.
      split; [apply lookup_insert_eq|]. split; [done|]. apply Z.ltb_lt in Hgt. apply Z.leb_le.
      cbn. rewrite Z.add_0_r. lia.
    + set (u := u32 _) in E. destruct (u <=? 65535) eqn:Hu; [|done].
      erewrite bind_ret in E; [|rewrite bind_assert by done; apply Hup]. injection E as _ <-. eexists.
      split; [apply lookup_insert_eq|]. split; [done|]. apply Z.leb_le. apply edge_kept.
Qed.

End TcpWindow.
