(* ===== verification/TcpWrite.v ===== *)
(** * Writing data

    What [tcp_write] does to the accounts of a connection: the sequence number
    after the last byte that was buffered, the space left in the send buffer and
    the queues. *)

From S2P Require Import Prelude RecordSet Def Ip4Addr InetChksum Netif Udp Pbuf Stack Ip4 Icmp.
From S2P Require Import Tcp TcpOut TcpCore TcpIn TcpFrame TcpLists TcpInv.

Module TcpWrite.
Import RecordSet Def Ip4Addr InetChksum Netif Udp Pbuf Stack Ip4 Icmp Tcp TcpOut TcpCore TcpIn TcpFrame TcpLists TcpInv.

(** A segment but for the counter [oversize_left] of the debugging checks. *)
Definition seg_core (g : tcp_seg) : option loc * Z * Z * ptr := (s_p g, s_len g, s_flags g, s_tcphdr g).
(** The accounts of a block. *)
Definition accounts (b : tcp_pcb) :=
  (t_snd_lbb b, t_snd_buf b, t_snd_queuelen b, seg_core <$> t_unsent b, t_unacked b, t_state b).
Definition has_accounts (x : tloc) (b : tcp_pcb) (v : tcp_vars) : Prop :=
  accounts <$> tcp_structs v !! x = Some (accounts b).

Section write.
Context {CF F A X : Type} `{HL : Lens X tcp_vars}.
Abbreviation stack := (stack CF F A X).
Abbreviation same := (same (CF := CF) (F := F) (A := A) (X := X)).
Abbreviation on := (on (CF := CF) (F := F) (A := A) (X := X)).
Context (custom_free : CF → loc → prog (heap CF) unit).
Context (mem_avail : heap CF → Z → bool) (garbage : heap CF → nat → Z).
Context (seg_avail : stack → bool).

(** Most of it does not touch TCP's variables. *)
Ltac quiet := repeat (keeps; try apply keeps_heap).

Lemma quiet_prealloc layer length max pcb apiflags first :
  keeps (same id) (tcp_pbuf_prealloc custom_free mem_avail garbage layer length max pcb apiflags first).
Proof. unfold tcp_pbuf_prealloc. quiet. Qed.
Lemma quiet_alloc_rom layer d :
  keeps (same id) (alloc_rom (F := F) (A := A) (X := X) custom_free mem_avail garbage layer d).
Proof. unfold alloc_rom. quiet. Qed.
Lemma quiet_create_segment pcb p flags seqno optflags :
  keeps (same id) (tcp_create_segment custom_free seg_avail pcb p flags seqno optflags).
Proof. unfold tcp_create_segment. quiet. Qed.
#[local] Hint Resolve quiet_prealloc quiet_alloc_rom quiet_create_segment : keeps.
Lemma quiet_write_pbuf pcb d mss oversize apiflags first :
  keeps (same id) (write_pbuf custom_free mem_avail garbage pcb d mss oversize apiflags first).
Proof. unfold write_pbuf. quiet. Qed.
#[local] Hint Resolve quiet_write_pbuf : keeps.
Lemma quiet_write_loop fuel pcb arg len mss apiflags : ∀ w,
  keeps (same id) (write_loop custom_free mem_avail garbage seg_avail fuel pcb arg len mss apiflags w).
Proof. induction fuel; intros w; cbn [write_loop]; quiet. Qed.
Lemma quiet_write_extend seg arg w : keeps (same id) (write_extend (A := A) (F := F) (X := X) (CF := CF) seg arg w).
Proof. unfold write_extend. quiet. Qed.


(** ** The accounts *)

Lemma hoare_deref_accounts {B} x b (k : tcp_pcb → prog stack B) Q :
  (∀ b', accounts b' = accounts b → hoare (on (has_accounts x b)) (k b') Q) →
  hoare (on (has_accounts x b)) (b' ← lift (tderef x); k b') Q.
Proof.
  intros Hk s a s' HP E. unfold on, TcpInv.on, has_accounts in HP.
  destruct (tcp_structs (tcp_of s) !! x) as [b'|] eqn:Eb; [|done]. apply (inj Some) in HP.
  rewrite (bind_tderef _ b') in E by done. eapply Hk; [exact HP| |exact E].
  unfold on, TcpInv.on, has_accounts. rewrite Eb. simpl. by rewrite HP.
Qed.
Lemma hoare_update_accounts x b f b1 :
  (∀ b', accounts b' = accounts b → accounts (f b') = accounts b1) →
  hoare (on (has_accounts x b)) (lift (tupdate x f)) (λ _, on (has_accounts x b1)).
Proof.
  intros Hf. apply hoare_vars. intros v [] v' HP E. unfold has_accounts, tupdate, tderef in *.
  cbv [mbind prog_bind pget pderef] in E. destruct (tcp_structs v !! x) as [b'|] eqn:Eb; [|done].
  injection E as <-. apply (inj Some) in HP. cbn. rewrite lookup_insert_eq. simpl. by rewrite Hf.
Qed.

(** The first command leaves the accounts. *)
Ltac keep :=
  first [ apply hoare_quiet; by quiet
        | apply hoare_update_accounts; intros ?; done ].
Ltac write_step :=
  first [ apply hoare_deref_accounts; intros ? ?
        | eapply hoare_seq; [by keep|intros ?] ].

(** Only a write that fits goes on. *)
Lemma hoare_checks x b len :
  hoare (on (has_accounts x b)) (tcp_write_checks x len)
    (λ err, on (λ v, has_accounts x b v ∧
       (if bool_decide (err = ERR_OK) then len = 0 ∨ len ≤ t_snd_buf b
        else err = ERR_CONN ∨ err = ERR_MEM))).
Proof.
  unfold tcp_write_checks. write_step. assert (t_snd_buf b' = t_snd_buf b) as Hb by (injection H; done).
  repeat (case_match || write_step); apply hoare_ret; intros s Hs; (split; [exact Hs|]); simpl; auto.
  all: repeat match goal with
         | H : (_ <? _) = false |- _ => apply Z.ltb_ge in H
         | H : (_ =? _) = true |- _ => apply Z.eqb_eq in H
         end; lia.
Qed.

(** Phases 1 and 2 only touch the counter of the last segment. *)
Lemma cores_last (l : list tcp_seg) g l' g' :
  list.last l = Some g → seg_core <$> l' = seg_core <$> l → seg_core g' = seg_core g →
  seg_core <$> removelast l' ++ [g'] = seg_core <$> l.
Proof.
  intros Hl E Hg. apply list.last_Some in Hl as [k ->].
  destruct l' as [|y k' _] using rev_ind; [by destruct k|].
  rewrite removelast_last. rewrite !fmap_app in *. simpl in *. apply app_inj_2 in E as [-> _]; [|done].
  by rewrite Hg.
Qed.

Lemma hoare_write_tail x b arg len mss queuelen apiflags :
  hoare (on (has_accounts x b))
    (write_tail custom_free mem_avail garbage x arg len mss queuelen apiflags)
    (λ _, on (has_accounts x b)).
Proof.
  unfold write_tail. write_step. destruct (list.last (t_unsent b')) as [g|] eqn:Hg;
    [|by repeat write_step; apply hoare_ret].
  do 3 write_step. destruct (_ && _ && _); [|by apply hoare_ret].
  eapply hoare_seq; [|intros [[p oversize]|]; [write_step|]; by apply hoare_ret].
  destruct (has apiflags TCP_WRITE_FLAG_COPY); [|by write_step; apply hoare_ret].
  write_step. destruct a2 as [[p oversize]|]; [|by apply hoare_ret].
  eapply hoare_seq; [|intros ?; do 2 write_step; by apply hoare_ret].
  apply hoare_update_accounts. intros b2 Hb2. injection Hb2 as H1 H2 H3 H4 H5 H6.
  assert (seg_core <$> t_unsent b' = seg_core <$> t_unsent b) as Hu by (by injection H).
  unfold accounts. cbn. rewrite H1, H2, H3, H5, H6, (cores_last (t_unsent b') g), Hu; [done|done| |done].
  by rewrite H4, Hu.
Qed.

Lemma hoare_write_memerr x b w :
  hoare (on (has_accounts x b)) (write_memerr custom_free x w)
    (λ err s, err = ERR_MEM ∧ on (has_accounts x b) s).
Proof. unfold write_memerr. repeat (write_step || case_match); by apply hoare_ret. Qed.

(** The data is counted. *)
Definition counted (x : tloc) (b : tcp_pcb) (len : Z) (v : tcp_vars) : Prop :=
  ∃ b', tcp_structs v !! x = Some b' ∧ t_snd_lbb b' = u32 (t_snd_lbb b + len)
    ∧ t_snd_buf b' = u16 (t_snd_buf b - len) ∧ t_unacked b' = t_unacked b ∧ t_state b' = t_state b.

Lemma hoare_count x b len f :
  (∀ b', accounts b' = accounts b →
     t_snd_lbb (f b') = u32 (t_snd_lbb b + len) ∧ t_snd_buf (f b') = u16 (t_snd_buf b - len)
     ∧ t_unacked (f b') = t_unacked b ∧ t_state (f b') = t_state b) →
  hoare (on (has_accounts x b)) (lift (tupdate x f)) (λ _, on (counted x b len)).
Proof.
  intros Hf. apply hoare_vars. intros v [] v' HP E. unfold has_accounts, tupdate, tderef in *.
  cbv [mbind prog_bind pget pderef] in E. destruct (tcp_structs v !! x) as [b'|] eqn:Eb; [|done].
  injection E as <-. apply (inj Some) in HP. exists (f b'). split; [apply lookup_insert_eq|by apply Hf].
Qed.

Lemma hoare_write_commit x b arg len apiflags w :
  hoare (on (has_accounts x b)) (write_commit x arg len apiflags w)
    (λ err s, err = ERR_OK ∧ on (counted x b len) s).
Proof.
  unfold write_commit. write_step.
  eapply hoare_seq; [apply hoare_quiet; repeat (keeps; try apply quiet_write_extend)|].
  intros [unsent seg]. eapply hoare_bind.
  - apply (hoare_count x b len). intros b2 Hb2. injection Hb2 as H1 H2 H3 H4 H5 H6. cbn.
    by rewrite H1, H2, H5, H6.
  - intros ?. do 3 (eapply hoare_seq; [apply hoare_quiet; by quiet|intros ?]). by apply hoare_ret.
Qed.

Lemma hoare_tcp_write x b arg len apiflags :
  hoare (on (has_accounts x b)) (tcp_write custom_free mem_avail garbage seg_avail x arg len apiflags)
    (λ err s, if bool_decide (err = ERR_OK) then (len = 0 ∨ len ≤ t_snd_buf b) ∧ on (counted x b len) s
              else (err = ERR_CONN ∨ err = ERR_MEM) ∧ on (has_accounts x b) s).
Proof.
  unfold tcp_write. write_step. destruct arg as [arg|]; [|apply hoare_fault].
  eapply hoare_bind; [apply hoare_checks|]. intros err.
  destruct (decide (err = ERR_OK)) as [->|Herr].
  - apply hoare_pure. intros Hlen. eapply hoare_seq; [apply hoare_write_tail|]. intros [w|].
    + eapply hoare_seq; [apply hoare_quiet, quiet_write_loop|]. intros [[] w'].
      * eapply hoare_conseq; [apply hoare_write_commit|done|]. by intros ? ? [-> ?].
      * eapply hoare_conseq; [apply hoare_write_memerr|done|]. intros ? ? [-> ?]. simpl. auto.
    + eapply hoare_conseq; [apply hoare_write_memerr|done|]. intros ? ? [-> ?]. simpl. auto.
  - rewrite (bool_decide_true (err ≠ ERR_OK)) by done. apply hoare_ret. intros ? [? He].
    rewrite bool_decide_false in He |- * by done. done.
Qed.


End write.

(** Ten bytes on a connection with an MSS of four: three segments. *)
Definition open_block : tcp_pcb :=
  (new_pcb TCP_PRIO_NORMAL 6510 0 0) <|t_state := ESTABLISHED|> <|t_snd_wnd_max := 8000|>
    <|t_mss := 4|>.
Definition open_stack : stack unit unit unit tcp_vars :=
  mk_stack ∅ (mk_netif_state ∅ [] None 0) udp_init 0 (mk_ip_globals None None 0 0 0)
    (tcp_vars_init <|tcp_structs := {[1%positive := open_block]}|>
       <|tcp_active_pcbs := Some 1%positive|>).
Definition written : fault + (err_t * stack unit unit unit tcp_vars) :=
  tcp_write (λ _ _, mret ()) (λ _ _, true) (λ _ _, 0) (λ _, true) 1%positive
    (Some [0; 1; 2; 3; 4; 5; 6; 7; 8; 9]) 10 TCP_WRITE_FLAG_COPY open_stack.
Definition written_stack : stack unit unit unit tcp_vars :=
  match written with inr (_, s) => s | inl _ => open_stack end.


End TcpWrite.
