(* ===== verification/TcpData.v ===== *)
(** * The data of a connection

    What [tcp_write] puts on the queue when it copies: segments that carry the
    bytes of the application, in order, with the sequence numbers of those
    bytes. *)

From S2P Require Import Prelude RecordSet Def Ip4Addr InetChksum Netif Udp Pbuf Linked PbufChain.
From S2P Require Import PbufOps PbufAlloc Stack StackMem Ip4 Icmp Tcp TcpOut TcpCore TcpIn TcpFrame.
From S2P Require Import TcpWrite.

Module TcpData.
Import RecordSet Def Ip4Addr InetChksum Netif Udp Pbuf Linked PbufChain PbufOps PbufAlloc Stack.
Import StackMem Ip4 Icmp Tcp TcpOut TcpCore TcpIn TcpFrame.

(** A TCP header without options as [tcp_create_segment] leaves it: [ack] and
    [wnd] are filled in when the segment is sent. *)
Definition seg_header (src dest seqno : Z) (ack : bytes) (flags : Z) (wnd : bytes) : bytes :=
  be_bytes 2 src ++ be_bytes 2 dest ++ be_bytes 4 seqno ++ ack
  ++ be_bytes 2 (Z.lor 0x5000 flags) ++ wnd ++ [0; 0].
Definition is_header (b : tcp_pcb) (seqno flags : Z) (hdr : bytes) : Prop :=
  ∃ ack wnd, length ack = 4%nat ∧ length wnd = 4%nat ∧
    hdr = seg_header (t_local_port b) (t_remote_port b) seqno ack flags wnd.

Section data.
Context {CF F A X : Type} `{HL : Lens X tcp_vars}.
Abbreviation heap := (heap CF).
Abbreviation stack := (stack CF F A X).
Context (custom_free : CF → loc → prog heap unit).
Context (mem_avail : heap → Z → bool) (garbage : heap → nat → Z).
Context (seg_avail : stack → bool).
Implicit Type s : stack.

(** One pbuf in memory of its own, which nobody else refers to. *)
Record single (d : bytes) (pb : pbuf CF) : Prop := {
  sg_ok : pbuf_ok pb; sg_data : pdata pb = d; sg_next : p_next pb = None;
  sg_tot : p_tot_len pb = p_len pb; sg_type : p_type pb = PBUF_RAM;
  sg_ref : p_ref pb = 1; sg_plain : plain pb
}.

Lemma single_len d pb : single d pb → p_len pb = zlen d.
Proof. intros H. rewrite <- (sg_data _ _ H). symmetry. apply zlen_pdata, H. Qed.

Lemma single_chain (h : heap) p d pb :
  h !! p = Some pb → single d pb → chain_at h (Some p) [(p, pb)].
Proof. intros E H. constructor; [done|]. rewrite (sg_next _ _ H). constructor. Qed.

Lemma single_wf p d pb : single d pb → zlen d < 65536 → chain_wf [(p, pb)].
Proof.
  intros H Hl. pose proof (single_len _ _ H). destruct H. cbn [chain_wf].
  rewrite data_cons, app_nil_r. split_and!; try done; try lia. by rewrite zlen_pdata.
Qed.

Lemma bind_pfree {B} s p d pb (k : unit → prog stack B) :
  st_pbufs s !! p = Some pb → single d pb →
  (pfree custom_free p ≫= k) s = k () (set_pbufs (delete p (st_pbufs s)) s).
Proof.
  intros E H. unfold pfree. rewrite bind_assoc.
  erewrite bind_lift_pbufs; [|apply (pbuf_free_eq custom_free _ p [(p, pb)]);
    [by eapply single_chain|repeat constructor; cbn; rewrite ?(sg_ref _ _ H); try lia; apply H]].
  cbn [dropped]. rewrite (sg_ref _ _ H). done.
Qed.

(** ** Allocation *)

(** Memory runs out at some point. *)
Definition no_memory : Prop := (∃ h n, mem_avail h n = false) ∨ (∃ s, seg_avail s = false).

Lemma pbuf_alloc_ram layer length (h : heap) :
  is_u16 length →
  (pbuf_alloc custom_free mem_avail garbage layer length PBUF_RAM h = inr (None, h) ∧ no_memory) ∨
  ∃ p pb, pbuf_alloc custom_free mem_avail garbage layer length PBUF_RAM h
          = inr (Some p, <[p:=pb]> h) ∧
    h !! p = None ∧ single (pdata pb) pb ∧ p_len pb = length ∧ p_payload pb = layer_offset layer.
Proof.
  intros Hl. unfold pbuf_alloc.
  destruct (alloc_ram_spec mem_avail garbage layer length h Hl)
    as [E|(p & bp & E & Hok & Hlen & Hn & Hp & Ht & Hf & Hty)]; rewrite (bind_ret _ _ _ _ _ E).
  - left. split; [done|]. left. exists h. unfold alloc_ram in E.
    set (n := _ - _ + _) in E. exists (SIZEOF_STRUCT_PBUF + n). revert E. cbv [mbind prog_bind].
    rewrite mem_malloc_eq. destruct (mem_avail _ _); [|done].
    erewrite update_eq by apply lookup_insert_eq. done.
  - right. exists p, (with_flags 0 (with_ref 1 bp)).
    rewrite (bind_up _ _ bp), insert_insert_eq by apply lookup_insert_eq.
    split; [done|]. split; [done|]. split; [|done]. split; try done. cbn. by rewrite Ht, Hlen.
Qed.

(** The first bytes of the memory, overwritten. *)
Lemma single_fill d0 d pb :
  single d0 pb → zlen d ≤ zlen d0 →
  single d (with_pdata d (with_len (zlen d) (with_tot (zlen d) pb))).
Proof.
  intros H Hd. pose proof (single_len _ _ H) as Hl. destruct H as [Hok ? ? ? ? ? ?].
  assert (pbuf_ok (with_len (zlen d) (with_tot (zlen d) pb))) as Hok'.
  { destruct Hok as (? & ? & ?). pose proof (zlen_nonneg d). split_and!; cbn; lia. }
  split; try done; [by apply with_pdata_ok|by apply pdata_with_pdata].
Qed.

Lemma write_pbuf_copy x b d mss oversize apiflags first s :
  tcp_structs (tcp_of s) !! x = Some b → has apiflags TCP_WRITE_FLAG_COPY = true →
  zlen d ≤ mss < 65516 →
  let run := write_pbuf custom_free mem_avail garbage x d mss oversize apiflags first s in
  (run = inr (None, s) ∧ no_memory) ∨
  ∃ p pb oversize', run = inr (Some (p, oversize'), set_pbufs (<[p:=pb]> (st_pbufs s)) s) ∧
    st_pbufs s !! p = None ∧ single d pb ∧ p_payload pb = layer_offset PBUF_TRANSPORT.
Proof.
  intros Hb Hc Hd run. subst run. unfold write_pbuf, tcp_pbuf_prealloc. rewrite Hc.
  rewrite bind_assoc, (bind_tderef x b) by done. cbv zeta. pose proof (zlen_nonneg d) as Hd0.
  set (alloc := if _ : bool then _ else _).
  assert (zlen d ≤ alloc ≤ mss) as Ha.
  { unfold alloc. pose proof (align_ge mem_avail (zlen d + TCP_OVERSIZE)). change TCP_OVERSIZE with 1024 in *.
    destruct ((_ <? _) && _); lia. }
  rewrite bind_assoc. destruct (pbuf_alloc_ram PBUF_TRANSPORT alloc (st_pbufs s))
    as [[E Hno]|(p & pb & E & Hf & Hs & Hl & Hp)]; [unfold is_u16; lia|rewrite (bind_lift_pbufs _ _ _ _ _ E)..].
  { left. split; [|done]. rewrite bind_mret. by destruct s. }
  right. exists p. set (pb' := with_len (zlen d) (with_tot (zlen d) pb)).
  exists (with_pdata d pb'), (u16 (p_len pb - zlen d)).
  assert (single d (with_pdata d pb')) as Hs'.
  { apply (single_fill (pdata pb)); [done|]. rewrite zlen_pdata by apply Hs. lia. }
  split; [|done]. rewrite bind_assoc, (bind_lift_deref _ p pb) by apply lookup_insert_eq.
  rewrite bind_assoc, bind_assert by by rewrite (sg_next _ _ Hs).
  rewrite bind_assoc.
  erewrite bind_lift_pbufs by (apply update_eq, lookup_insert_eq).
  rewrite bind_mret. unfold set_pbufs at 1. cbn [st_pbufs set_pbufs]. rewrite insert_insert_eq.
  fold pb'. set (s1 := mk_stack _ _ _ _ _ _).
  assert (st_pbufs s1 !! p = Some pb') as E1 by apply lookup_insert_eq.
  rewrite (bind_lift_deref _ p pb') by done.
  rewrite bind_assert by (apply Z.leb_le; cbn; lia).
  rewrite (bind_lift_payload _ p pb') by done.
  assert (pbuf_ok pb') as Hok.
  { destruct (sg_ok _ _ Hs) as (? & ? & ?). split_and!; cbn; lia. }
  rewrite (at_data_start s1 p pb') by done.
  assert (zlen (pdata pb') = zlen d) as Hz by by rewrite zlen_pdata.
  rewrite (bind_mwrite_at _ p pb') by first [done|apply zlen_pdata; done|cbn; lia].
  unfold at_data, s1, set_pbufs. cbn [st_pbufs st_netifs st_udp st_ip_id st_ip_data st_rest].
  rewrite insert_insert_eq. unfold splice.
  rewrite take_0, drop_ge by (unfold zlen in Hz; cbn; lia). by rewrite app_nil_r.
Qed.
(** ** Segments *)

Lemma lift_seq {W D T U} `{Lens W D} (m : prog D T) (f : T → prog D U) w :
  lift (m ≫= f) w = (lift m ≫= λ a, lift (f a)) w.
Proof.
  unfold lift, mbind, prog_bind. destruct (m (lget w)) as [|[a d]]; [done|].
  rewrite lget_lput. destruct (f a d) as [|[u d']]; [done|]. by rewrite lput_lput.
Qed.
Lemma bind_lift_seq {W D T U V} `{Lens W D} (m : prog D T) (f : T → prog D U) (k : U → prog W V) w :
  (lift (m ≫= f) ≫= k) w = (lift m ≫= λ a, lift (f a) ≫= k) w.
Proof. rewrite <- bind_assoc. unfold mbind at 1 3, prog_bind at 1 3. by rewrite lift_seq. Qed.

Lemma zlen_splice_le off n y (d : bytes) :
  (off + n ≤ length d)%nat → zlen (splice off (le_bytes n y) d) = zlen d.
Proof. intros H. unfold zlen. rewrite length_splice; [done|]. by rewrite length_le_bytes. Qed.

(** The fields that are stored into the header, in the order of the code. *)
Lemma header_stored b seqno d0 :
  (20 ≤ length d0)%nat → is_u16 (t_local_port b) → is_u16 (t_remote_port b) → is_u32 seqno →
  ∃ hdr, is_header b seqno 0 hdr ∧
    splice 18 (le_bytes 2 0) (splice 12 (le_bytes 2 (lwip_htons (Z.lor (Z.shiftl 5 12) 0)))
      (splice 4 (le_bytes 4 (lwip_htonl seqno)) (splice 2 (le_bytes 2 (lwip_htons (t_remote_port b)))
        (splice 0 (le_bytes 2 (lwip_htons (t_local_port b))) d0)))) = hdr ++ drop 20 d0.
Proof.
  intros Hl Hs Hd Hq. rewrite !le_bytes_htons, le_bytes_htonl by done.
  do 20 (destruct d0 as [|? d0]; [cbn in Hl; lia|]). clear Hl.
  eexists. split.
  - eexists [_; _; _; _], [_; _; _; _]. done.
  - unfold be_bytes. cbn. reflexivity.
Qed.

(** Behind the header that [pbuf_header] uncovers there is the data. *)
Lemma single_shifted p d pb (h : heap) :
  h !! p = Some pb → single d pb → header_fits TCP_HLEN pb → zlen d < 65516 →
  let pb1 := shifted TCP_HLEN pb in
  pbuf_header (Some p) TCP_HLEN h = inr (true, <[p:=pb1]> h) ∧ pbuf_ok pb1 ∧
  drop 20 (pdata pb1) = d ∧ zlen (pdata pb1) = p_len pb1 ∧ p_len pb1 = zlen d + 20 ∧
  ∀ hdr, length hdr = 20%nat → single (hdr ++ d) (with_pdata (hdr ++ d) pb1).
Proof.
  intros Ep Hs Hfit Hd pb1. pose proof (single_wf p d pb Hs ltac:(lia)) as Hwf.
  destruct (pbuf_header_spec h p pb [] TCP_HLEN (single_chain _ _ _ _ Ep Hs) Hwf Hfit)
    as (E & _ & (Hok & _) & _ & H). destruct H as [H _]; [done|].
  rewrite !data_cons, !app_nil_r, (sg_data _ _ Hs) in H.
  pose proof (single_len _ _ Hs) as Hl.
  assert (p_len pb1 = zlen d + 20) as Hl1 by (cbn; change TCP_HLEN with 20; lia).
  split_and!; try done; [by apply zlen_pdata|]. intros hdr Hh.
  assert (zlen (hdr ++ d) = p_len pb1) by (rewrite zlen_app, Hl1; unfold zlen; lia).
  destruct Hs as [? ? ? Ht ? ? ?]. split; try done; [by apply with_pdata_ok|by apply pdata_with_pdata|].
  cbn. by rewrite Ht.
Qed.

Lemma bind_header b seqno s p pb :
  st_pbufs s !! p = Some pb → pbuf_ok pb → 20 ≤ p_len pb →
  is_u16 (t_local_port b) → is_u16 (t_remote_port b) → is_u32 seqno →
  ∃ hdr, is_header b seqno 0 hdr ∧ ∀ B (k : unit → prog stack B), let q := (p, p_payload pb) in
    (lift (set_ports q (t_local_port b) (t_remote_port b));;
     lift (store 4 q TCPH_SEQNO (lwip_htonl seqno));;
     lift (TCPH_HDRLEN_FLAGS_SET q 5 0);; lift (store 2 q TCPH_URGP 0) ≫= k) s
    = k tt (at_data s p pb (hdr ++ drop 20 (pdata pb))).
Proof.
  intros Ep Hok Hl Hsrc Hdst Hq. pose proof (zlen_pdata _ Hok) as Hz.
  destruct (header_stored b seqno (pdata pb)) as (hdr & Hh & Ed); [unfold zlen in Hz; lia|done..|].
  exists hdr. split; [done|]. intros B k. cbv zeta. rewrite (at_data_start s p pb) at 1 by done.
  unfold set_ports, TCPH_HDRLEN_FLAGS_SET. rewrite bind_lift_seq.
  assert (∀ off n y d', zlen d' = p_len pb → (off + n ≤ 20)%nat →
            zlen (splice off (le_bytes n y) d') = p_len pb) as Hsp.
  { intros off n y d' Hd' Hn. rewrite zlen_splice_le; [done|]. unfold zlen in *. lia. }
  do 5 (rewrite (bind_store_at _ _ p pb);
        [|done|repeat (apply Hsp; [|cbv; lia]); done|done|
         unfold TCPH_SRC, TCPH_DEST, TCPH_SEQNO, TCPH_HDRLEN_RSVD_FLAGS, TCPH_URGP; lia]).
  by rewrite <- Ed.
Qed.

Lemma length_header b seqno flags hdr : is_header b seqno flags hdr → length hdr = 20%nat.
Proof.
  intros (ack & wnd & Ha & Hw & ->). unfold seg_header.
  rewrite !length_app, !length_be_bytes, Ha, Hw. done.
Qed.

Lemma create_segment_spec x b p d pb seqno s h :
  tcp_structs (tcp_of s) !! x = Some b → st_pbufs s = <[p:=pb]> h → h !! p = None →
  single d pb → p_payload pb = layer_offset PBUF_TRANSPORT → zlen d < 65516 →
  is_u16 (t_local_port b) → is_u16 (t_remote_port b) → is_u32 seqno →
  let run := tcp_create_segment custom_free seg_avail x p 0 seqno 0 s in
  (run = inr (None, set_pbufs h s) ∧ no_memory) ∨
  ∃ pb' hdr,
    run = inr (Some (mk_tcp_seg (Some p) (zlen d) 0 0 (p, p_payload pb')), set_pbufs (<[p:=pb']> h) s) ∧
    single (hdr ++ d) pb' ∧ is_header b seqno 0 hdr.
Proof.
  intros Hb Eh Hf Hs Hp Hd Hsrc Hdst Hq run. subst run. unfold tcp_create_segment. cbv zeta.
  assert (st_pbufs s !! p = Some pb) as Ep by (rewrite Eh; apply lookup_insert_eq).
  rewrite bind_get. destruct (seg_avail s) eqn:Hav; cbn [negb].
  2:{ left. split; [|by right; exists s]. rewrite (bind_pfree _ p d pb) by done. rewrite Eh, delete_insert_id by done. done. }
  right. pose proof (single_len _ _ Hs) as Hl. pose proof (zlen_nonneg d) as Hd0.
  rewrite (bind_lift_deref _ p pb) by done.
  rewrite bind_assert by (apply Z.leb_le; rewrite (sg_tot _ _ Hs), Hl; done).
  assert (header_fits TCP_HLEN pb) as Hfit.
  { unfold header_fits. rewrite Hp, (sg_tot _ _ Hs), Hl. change TCP_HLEN with 20.
    split_and!; try done; try lia. intros _. left. apply Hs. }
  destruct (single_shifted p d pb _ Ep Hs Hfit Hd) as (E & Hok & Hdrop & _ & Hl1 & Hs1).
  rewrite (bind_lift_pbufs _ _ _ _ _ E). cbn [negb]. set (pb1 := shifted TCP_HLEN pb) in *.
  set (s1 := set_pbufs _ s). assert (st_pbufs s1 !! p = Some pb1) as E1 by apply lookup_insert_eq.
  rewrite (bind_lift_payload _ p pb1), (bind_tderef x b) by done.
  change (5 + LWIP_TCP_OPT_LENGTH 0 / 4) with 5.
  destruct (bind_header b seqno s1 p pb1) as (hdr & Hh & Eh1); [done..|lia|done|done|done|].
  rewrite Eh1. clear Eh1.
  exists (with_pdata (hdr ++ d) pb1), hdr. rewrite Hdrop.
  split; [|split; [apply Hs1; by eapply length_header|done]].
  rewrite (sg_tot _ _ Hs), Hl. change (LWIP_TCP_OPT_LENGTH 0) with 0.
  rewrite Z.sub_0_r, u16_id by (unfold is_u16; lia).
  unfold at_data, s1, set_pbufs. cbn [st_pbufs st_netifs st_udp st_ip_id st_ip_data st_rest].
  by rewrite insert_insert_eq, Eh, insert_insert_eq.
Qed.

(** ** The queue *)

(** New segments, at most [mss] bytes each, that carry the bytes [d]: every
    segment is one new pbuf in front of which the heap was as before, and its
    header has the number of its first byte.  [flags]: those of the last one. *)
Inductive queued (b : tcp_pcb) (mss : Z) (h0 : heap) : heap → list tcp_seg → bytes → Z → Prop :=
  | queued_nil : queued b mss h0 h0 [] [] 0
  | queued_snoc h segs d p pb hdr d1 flags oversize :
      queued b mss h0 h segs d 0 → h !! p = None → 0 < zlen d1 ≤ mss →
      is_header b (u32 (t_snd_lbb b + zlen d)) flags hdr → single (hdr ++ d1) pb →
      queued b mss h0 (<[p:=pb]> h)
        (segs ++ [mk_tcp_seg (Some p) (zlen d1) oversize 0 (p, p_payload pb)]) (d ++ d1) flags.

Lemma segs_free_app l k s :
  tcp_segs_free custom_free (l ++ k) s = (tcp_segs_free custom_free l;; tcp_segs_free custom_free k) s.
Proof.
  revert s. induction l as [|g l IH]; intros s; cbn [app tcp_segs_free]; [done|].
  rewrite bind_assoc. unfold mbind, prog_bind at 1 2. destruct (tcp_seg_free _ _ _) as [|[? s']]; [done|].
  apply IH.
Qed.

(** Freeing the queue gives the heap of before; [m] is what else there is. *)
Lemma queued_free b mss h0 h segs d flags m s :
  queued b mss h0 h segs d flags → h ##ₘ m → st_pbufs s = h ∪ m →
  tcp_segs_free custom_free segs s = inr ((), set_pbufs (h0 ∪ m) s).
Proof.
  intros H. revert m s.
  induction H as [|h segs d p pb hdr d1 flags oversize H IH Hp Hd1 Hh Hs]; intros m s Hm Es.
  { rewrite <- Es. by destruct s. }
  apply map_disjoint_insert_l in Hm as [Hpm Hm]. rewrite segs_free_app.
  assert (tcp_segs_free custom_free segs s = inr ((), set_pbufs (h0 ∪ <[p:=pb]> m) s)) as E.
  { apply IH; [by apply map_disjoint_insert_r|]. rewrite Es, <- insert_union_l. by apply insert_union_r. }
  rewrite (bind_ret _ _ _ _ _ E).
  cbn [tcp_segs_free]. unfold tcp_seg_free. cbn [s_p].
  assert (h0 !! p = None) as Hp0.
  { clear - H Hp. induction H; [done|]. apply lookup_insert_None in Hp as [? ?]. auto. }
  erewrite (bind_pfree _ p (hdr ++ d1) pb); [|cbn; by rewrite lookup_union_r, lookup_insert_eq|done].
  cbn. unfold mret, prog_ret. do 2 f_equal. unfold set_pbufs. cbn. f_equal.
  by rewrite <- insert_union_r, delete_insert_id by (rewrite ?lookup_union_None; done).
Qed.

(** ** The push flag *)

Lemma header_pushed b seqno hdr d1 :
  is_header b seqno 0 hdr →
  ∃ hdr', is_header b seqno TCP_PSH hdr' ∧
    splice 12 (le_bytes 2 (Z.lor (le_load (take 2 (drop 12 (hdr ++ d1)))) (lwip_htons TCP_PSH)))
      (hdr ++ d1) = hdr' ++ d1.
Proof.
  intros (ack & wnd & Ha & Hw & ->). exists (seg_header (t_local_port b) (t_remote_port b) seqno ack TCP_PSH wnd).
  split; [by exists ack, wnd|]. do 4 (destruct ack as [|? ack]; [done|]).
  destruct ack; [|done].
  unfold seg_header, be_bytes. cbn. reflexivity.
Qed.

Lemma queued_push b mss h0 segs d s :
  queued b mss h0 (st_pbufs s) segs d 0 → segs ≠ [] →
  ∃ g h, list.last segs = Some g ∧
    (lift (TCPH_SET_FLAG (s_tcphdr g) TCP_PSH)) s = inr ((), set_pbufs h s) ∧
    queued b mss h0 h segs d TCP_PSH.
Proof.
  intros H Hne. inversion H as [|h segs' d' p pb hdr d1 flags oversize Hq Hf Hd1 Hh Hs Eh]; subst; [done|].
  eexists _. rewrite last_snoc. destruct (header_pushed _ _ _ d1 Hh) as (hdr' & Hh' & Ed).
  exists (<[p:=with_pdata (hdr' ++ d1) pb]> h). split; [done|]. cbn [s_tcphdr].
  pose proof (single_len _ _ Hs) as Hl. pose proof (zlen_app hdr d1) as Hz. pose proof (zlen_nonneg d1).
  assert (zlen hdr = 20) as H20 by (unfold zlen; by rewrite (length_header _ _ _ _ Hh)).
  assert (zlen (hdr' ++ d1) = p_len pb) as Hl'.
  { rewrite zlen_app. unfold zlen at 1. rewrite (length_header _ _ _ _ Hh'). lia. }
  split.
  - assert (st_pbufs s !! p = Some pb) as Ep by (rewrite <- Eh; apply lookup_insert_eq).
    unfold TCPH_SET_FLAG. rewrite (at_data_start s p pb) at 1 by (done || apply Hs).
    rewrite (sg_data _ _ Hs).
    rewrite lift_seq, bind_load_at, store_at
      by (try apply Hs; try done; unfold TCPH_HDRLEN_RSVD_FLAGS; lia).
    change (Z.to_nat TCPH_HDRLEN_RSVD_FLAGS) with 12%nat.
    rewrite Ed. unfold at_data. rewrite <- Eh, insert_insert_eq. done.
  - apply (queued_snoc b mss h0 h segs' d' p (with_pdata (hdr' ++ d1) pb) hdr' d1 TCP_PSH oversize); try done.
    destruct Hs. split; try done; [by apply with_pdata_ok|by apply pdata_with_pdata].
Qed.

(** ** The whole call *)

(** The segment size of [tcp_write]. *)
Definition write_mss (b : tcp_pcb) : Z :=
  let mss_local := Z.min (t_mss b) (t_snd_wnd_max b / 2) in
  if mss_local =? 0 then t_mss b else mss_local.

Definition with_block (x : tloc) (b : tcp_pcb) (v : tcp_vars) : tcp_vars :=
  v <|tcp_structs ::= <[x:=b]>|>.

Lemma bind_tupdate {B} x b f s (k : unit → prog stack B) :
  tcp_structs (tcp_of s) !! x = Some b →
  (lift (tupdate x f) ≫= k) s = k () (lput (with_block x (f b) (tcp_of s)) s).
Proof.
  intros E. apply bind_ret, lift_ret. unfold tupdate, tderef, tcp_of in *.
  cbv [mbind prog_bind pget pderef]. cbn in *. by rewrite E.
Qed.
Lemma tcp_of_lput v s : tcp_of (lput v s) = v.
Proof. unfold tcp_of. cbn. apply lget_lput. Qed.
Lemma block_lput x b s : tcp_structs (tcp_of (lput (with_block x b (tcp_of s)) s)) !! x = Some b.
Proof. rewrite tcp_of_lput. apply lookup_insert_eq. Qed.

(** ** The loop *)

(** The number of segments of at most [mss] bytes. *)
Definition seg_count (len mss : Z) : Z := (len + mss - 1) / mss.

Lemma seg_count_unique len mss n :
  0 < mss → len ≤ mss * n → mss * n < len + mss → n = seg_count len mss.
Proof.
  intros Hm H1 H2. unfold seg_count. apply (Z.div_unique _ _ _ (len + mss - 1 - mss * n)); lia.
Qed.
Lemma seg_count_more len mss n : 0 < mss → mss * n < len → n < seg_count len mss.
Proof. intros Hm H. unfold seg_count. apply Z.le_succ_l, Z.div_le_lower_bound; lia. Qed.

Section write.
Context (x : tloc) (b : tcp_pcb) (arg : bytes) (mss apiflags : Z) (h0 : heap).
Hypothesis copying : has apiflags TCP_WRITE_FLAG_COPY = true.
Hypothesis mss_range : 0 < mss < 65516.
Hypothesis ports_range : is_u16 (t_local_port b) ∧ is_u16 (t_remote_port b).
Hypothesis queuelen_range : 0 ≤ t_snd_queuelen b.

(** Why a write fails. *)
Definition refused : Prop :=
  TCP_SND_QUEUELEN < t_snd_queuelen b + seg_count (zlen arg) mss ∨ no_memory.

(** The plan after some turns. *)
Definition planned (w : write_plan) (h : heap) : Prop :=
  let n := zlen (w_queue w) in
  queued b mss h0 h (w_queue w) (take (Z.to_nat (w_pos w)) arg) 0 ∧
  w_pos w = Z.min (zlen arg) (mss * n) ∧ mss * n < zlen arg + mss ∧
  w_queuelen w = t_snd_queuelen b + n ∧ (arg = [] ∨ w_queuelen w ≤ TCP_SND_QUEUELEN) ∧
  w_oversize_used w = 0 ∧ w_concat_p w = None.

Lemma planned_room w h : planned w h → w_pos w < zlen arg → w_queuelen w ≤ TCP_SND_QUEUELEN.
Proof.
  intros (_ & Hp & _ & _ & [Ha|?] & _) Hlt; [|done]. rewrite Ha in Hp, Hlt. change (zlen []) with 0 in *.
  pose proof (zlen_nonneg (w_queue w)). nia.
Qed.

Lemma bind_pbuf_clen {B} s p d pb (k : Z → prog stack B) :
  st_pbufs s !! p = Some pb → single d pb → (lift (pbuf_clen (Some p)) ≫= k) s = k 1 s.
Proof.
  intros E Hs. apply bind_lift_same. unfold pbuf_clen. rewrite walk_eq.
  pose proof (single_chain _ _ _ _ E Hs) as Hc. pose proof (linked_length _ _ _ Hc).
  rewrite (clen_loop_eq _ _ [(p, pb)]); [done|exact Hc|cbn in *; lia|cdec].
Qed.

Lemma planned_next w h p pb hdr oversize seglen :
  planned w h → w_pos w < zlen arg → seglen = Z.min mss (zlen arg - w_pos w) →
  w_queuelen w < TCP_SND_QUEUELEN → h !! p = None →
  is_header b (u32 (t_snd_lbb b + w_pos w)) 0 hdr →
  single (hdr ++ take (Z.to_nat seglen) (drop (Z.to_nat (w_pos w)) arg)) pb →
  planned (mk_write_plan (w_pos w + seglen) oversize (w_oversize_used w) (w_concat_p w)
             (w_queuelen w + 1)
             (w_queue w ++ [mk_tcp_seg (Some p) seglen oversize 0 (p, p_payload pb)]))
    (<[p:=pb]> h).
Proof.
  intros (Hq & Hp & Hn & Hl & Hmax & Hu & Hc) Hpos Hsl Hroom Hf Hh Hs. unfold planned.
  cbn [w_pos w_queue w_queuelen w_oversize_used w_concat_p]. pose proof (zlen_nonneg (w_queue w)) as Hn0.
  set (d1 := take (Z.to_nat seglen) (drop (Z.to_nat (w_pos w)) arg)) in *.
  assert (zlen d1 = seglen) as Hd1.
  { unfold d1, zlen in *. rewrite length_take, length_drop. lia. }
  assert (take (Z.to_nat (w_pos w + seglen)) arg = take (Z.to_nat (w_pos w)) arg ++ d1) as ->.
  { unfold d1. rewrite Z2Nat.inj_add by lia. by rewrite take_take_drop. }
  cbv zeta. rewrite (zlen_app (w_queue w)). change (zlen [_]) with 1. split; [|split_and!; try done; try lia; right; lia].
  pose proof (queued_snoc b mss h0 _ _ _ p pb hdr d1 0 oversize Hq Hf) as Hsn. rewrite Hd1 in Hsn.
  apply Hsn; [lia| |done].
  replace (zlen (take (Z.to_nat (w_pos w)) arg)) with (w_pos w); [done|].
  unfold zlen in *. rewrite length_take. lia.
Qed.

Lemma write_loop_spec fuel : ∀ w s,
  tcp_structs (tcp_of s) !! x = Some b → planned w (st_pbufs s) →
  TCP_SND_QUEUELEN < w_queuelen w + Z.of_nat fuel →
  returns (write_loop custom_free mem_avail garbage seg_avail fuel x arg (zlen arg) mss apiflags w s)
    (λ r s', ∃ h, s' = set_pbufs h s ∧ planned (snd r) h ∧
       if fst r then w_pos (snd r) = zlen arg else refused).
Proof.
  induction fuel as [|fuel IH]; intros w s Hb Hw Hfuel; pose proof Hw as (Hq & Hp & Hn & Hl & _);
    cbn [write_loop]; destruct (Z.leb_spec (zlen arg) (w_pos w)) as [Hle|Hlt];
    try (exists (st_pbufs s); split; [by destruct s|]; split; [done|cbn; lia]);
    pose proof (planned_room _ _ Hw Hlt) as Hmax; [lia|].
  cbv zeta. set (seglen := if _ : bool then _ else _).
  assert (seglen = Z.min mss (zlen arg - w_pos w)) as Hsl by (unfold seglen; destruct (Z.ltb_spec mss (zlen arg - w_pos w)); lia).
  set (d1 := take _ (drop _ _)). pose proof (zlen_nonneg (w_queue w)) as Hn0.
  assert (zlen d1 = seglen) as Hd1 by (unfold d1, zlen in *; rewrite length_take, length_drop; lia).
  destruct (write_pbuf_copy x b d1 mss (w_oversize w) apiflags (bool_decide (w_queue w = [])) s)
    as [[E Hno]|(p & pb & oversize & E & Hf & Hs & Hpay)]; [done|done|lia|..]; rewrite (bind_ret _ _ _ _ _ E).
  { exists (st_pbufs s). split; [by destruct s|]. split; [done|]. by right. }
  set (s1 := set_pbufs _ s). assert (st_pbufs s1 !! p = Some pb) as E1 by apply lookup_insert_eq.
  rewrite (bind_pbuf_clen _ p d1 pb) by done.
  change TCP_SND_QUEUELEN with 255 in *. change TCP_SNDQUEUELEN_OVERFLOW with 65532.
  rewrite u16_id by (unfold is_u16; lia).
  destruct (Z.ltb_spec 255 (w_queuelen w + 1)) as [Hfull|Hroom]; cbn [orb].
  { rewrite (bind_pfree _ p d1 pb) by done. exists (st_pbufs s). unfold s1. cbn [st_pbufs set_pbufs].
    rewrite delete_insert_id by done. split; [done|]. split; [done|]. left. change TCP_SND_QUEUELEN with 255.
    pose proof (seg_count_more (zlen arg) mss (zlen (w_queue w))). lia. }
  rewrite (proj2 (Z.ltb_ge _ _)) by lia. rewrite (bind_tderef x b) by done.
  destruct (create_segment_spec x b p d1 pb (u32 (t_snd_lbb b + w_pos w)) s1 (st_pbufs s))
    as [[E2 Hno]|(pb' & hdr & E2 & Hs' & Hh)]; try done; try apply ports_range; [lia|auto with cint|..];
    rewrite (bind_ret _ _ _ _ _ E2).
  { exists (st_pbufs s). split; [done|]. split; [done|]. by right. }
  eapply returns_mono; [apply IH; [done| |cbn; lia]|].
  - rewrite Hd1. apply planned_next with hdr; try done. change TCP_SND_QUEUELEN with 255. lia.
  - intros r s' (h & -> & Hr). by exists h.
Qed.

(** The queue is consistent with its length, as the assertions of the code ask. *)
Hypothesis queue_consistent : t_snd_queuelen b = 0 ↔ t_unacked b = [].
Hypothesis nothing_unsent : t_unsent b = [].

Lemma write_memerr_spec w h s :
  tcp_structs (tcp_of s) !! x = Some b → planned w h → st_pbufs s = h →
  returns (write_memerr custom_free x (Some w) s) (λ err s', err = ERR_MEM ∧ st_pbufs s' = h0 ∧
    tcp_of s' = with_block x (b <|t_flags ::= Z.lor TF_NAGLEMEMERR|>) (tcp_of s)).
Proof.
  intros Hb (Hq & _ & _ & _ & _ & _ & Hc) Hh. unfold write_memerr. rewrite (bind_tupdate x b), Hc by done.
  set (b1 := b <|t_flags ::= _|>). set (s1 := lput _ s).
  rewrite bind_assoc, bind_mret.
  erewrite bind_ret; [|eapply (queued_free _ _ _ _ _ _ _ ∅ s1); [exact Hq|apply map_disjoint_empty_r|]];
    [|by rewrite map_union_empty].
  rewrite (bind_tderef x b1) by apply block_lput. change (t_snd_queuelen b1) with (t_snd_queuelen b).
  change (t_unacked b1) with (t_unacked b).
  destruct (Z.eqb_spec (t_snd_queuelen b) 0) as [|Hne]; cbn [negb].
  2: rewrite bind_assert by (rewrite bool_decide_true by (rewrite <- queue_consistent; done); done).
  all: cbn; rewrite map_union_empty; split_and!; try done; apply tcp_of_lput.
Qed.

(** The block after the plan was carried out. *)
Definition committed (w : write_plan) : tcp_pcb :=
  b <|t_unsent_oversize := w_oversize w|> <|t_unsent := w_queue w|>
    <|t_snd_lbb := u32 (t_snd_lbb b + zlen arg)|> <|t_snd_buf := u16 (t_snd_buf b - zlen arg)|>
    <|t_snd_queuelen := w_queuelen w|>.
Definition last_flags (segs : list tcp_seg) : Z :=
  if bool_decide (segs = []) || has apiflags TCP_WRITE_FLAG_MORE then 0 else TCP_PSH.

Lemma write_commit_spec w s :
  tcp_structs (tcp_of s) !! x = Some b → planned w (st_pbufs s) → w_pos w = zlen arg →
  returns (write_commit x arg (zlen arg) apiflags w s) (λ err s', err = ERR_OK ∧
    tcp_of s' = with_block x (committed w) (tcp_of s) ∧
    queued b mss h0 (st_pbufs s') (w_queue w) arg (last_flags (w_queue w))).
Proof.
  intros Hb (Hq & _ & _ & Hl & _ & _ & Hc) Hpos. unfold write_commit.
  rewrite Hpos in Hq. unfold zlen in Hq at 1. rewrite Nat2Z.id, firstn_all in Hq.
  rewrite (bind_tderef x b), nothing_unsent by done. cbn [list.last].
  rewrite bind_assoc, bind_assert, bind_mret by by rewrite Hc.
  rewrite (bind_tupdate x b) by done. fold (committed w). cbn [app].
  set (s1 := lput _ s). rewrite (bind_tderef x (committed w)) by apply block_lput.
  erewrite bind_ret.
  2:{ instantiate (1 := s1). instantiate (1 := ()). case_match eqn:Hne; [|done].
      apply negb_true_iff, Z.eqb_neq in Hne. cbn in Hne |- *. unfold passert.
      destruct (decide (w_queue w = [])) as [En|En]; [|by rewrite orb_comm, bool_decide_true].
      rewrite bool_decide_true; [done|]. rewrite <- queue_consistent. intros E0.
      rewrite Hl, En, E0 in Hne. done. }
  assert (tcp_of s1 = with_block x (committed w) (tcp_of s)) as E1 by apply tcp_of_lput.
  unfold last_flags. destruct (decide (w_queue w = [])) as [En|En].
  { rewrite En in *. cbn [list.last]. rewrite bind_mret. by split_and!. }
  rewrite bool_decide_false by done. cbn [orb].
  destruct (queued_push b mss h0 (w_queue w) arg s1 Hq En) as (g & h & -> & E2 & Hq2).
  destruct (has apiflags TCP_WRITE_FLAG_MORE); [rewrite bind_mret|rewrite (bind_ret _ _ _ _ _ E2)];
    by split_and!.
Qed.

Lemma write_checks_spec s :
  tcp_structs (tcp_of s) !! x = Some b →
  returns (tcp_write_checks x (zlen arg) s) (λ err s',
    (err = ERR_CONN ∧ s' = s ∧ t_state b ∉ [ESTABLISHED; CLOSE_WAIT; SYN_SENT; SYN_RCVD]) ∨
    (err = ERR_MEM ∧ st_pbufs s' = st_pbufs s ∧
     tcp_of s' = with_block x (b <|t_flags ::= Z.lor TF_NAGLEMEMERR|>) (tcp_of s) ∧
     (t_snd_buf b < zlen arg ∨ refused)) ∨
    (err = ERR_OK ∧ s' = s ∧ (arg = [] ∨ t_snd_queuelen b < TCP_SND_QUEUELEN ∧ zlen arg ≤ t_snd_buf b))).
Proof.
  intros Hb. unfold tcp_write_checks. rewrite (bind_tderef x b) by done. unfold is_state.
  destruct (negb _) eqn:Hst.
  { left. split_and!; try done. apply negb_true_iff in Hst.
    rewrite !orb_false_iff, !bool_decide_eq_false in Hst.
    rewrite !not_elem_of_cons. split_and!; try apply Hst. apply not_elem_of_nil. }
  pose proof (zlen_nonneg arg) as H0. destruct (Z.eqb_spec (zlen arg) 0) as [Hz|Hz].
  { right. right. split_and!; try done. left. by destruct arg. }
  destruct (Z.ltb_spec (t_snd_buf b) (zlen arg)) as [Hbuf|Hbuf].
  { rewrite (bind_tupdate x b) by done. right. left. split_and!; try done; [apply tcp_of_lput|by left]. }
  change TCP_SND_QUEUELEN with 255. change TCP_SNDQUEUELEN_OVERFLOW with 65532.
  destruct (Z.leb_spec 255 (t_snd_queuelen b)) as [Hfull|Hroom]; cbn [orb].
  { rewrite (bind_tupdate x b) by done. right. left. split_and!; try done; [apply tcp_of_lput|].
    right. left.
    pose proof (seg_count_more (zlen arg) mss 0). change TCP_SND_QUEUELEN with 255. lia. }
  rewrite (proj2 (Z.ltb_ge _ _)) by lia. rewrite nothing_unsent.
  destruct (Z.eqb_spec (t_snd_queuelen b) 0) as [E0|E0]; cbn [negb];
    rewrite bind_assert; try (right; right; split_and!; [done|done|by right]).
  - rewrite !bool_decide_true; [done..|]. by apply queue_consistent.
  - rewrite bool_decide_true; [done|]. by rewrite <- queue_consistent.
Qed.

End write.

(** A connection with nothing unsent, as the assertions of [tcp_write] ask and
    with fields in the range of their types. *)
Record idle_block (b : tcp_pcb) : Prop := {
  id_unsent : t_unsent b = []; id_oversize : t_unsent_oversize b = 0;
  id_queuelen : 0 ≤ t_snd_queuelen b; id_queue : t_snd_queuelen b = 0 ↔ t_unacked b = [];
  id_mss : 0 < t_mss b < 65516; id_wnd : 0 ≤ t_snd_wnd_max b;
  id_ports : is_u16 (t_local_port b) ∧ is_u16 (t_remote_port b); id_buf : is_u16 (t_snd_buf b)
}.

Lemma write_mss_range b :
  0 < t_mss b < 65516 → 0 ≤ t_snd_wnd_max b → 0 < write_mss b < 65516.
Proof.
  intros Hm Hw. unfold write_mss. pose proof (Z.div_pos (t_snd_wnd_max b) 2).
  destruct (Z.eqb_spec (t_mss b `min` (t_snd_wnd_max b / 2)) 0); lia.
Qed.

Lemma write_tail_empty x b arg len mss queuelen apiflags s :
  tcp_structs (tcp_of s) !! x = Some b → t_unsent b = [] → t_unsent_oversize b = 0 →
  write_tail custom_free mem_avail garbage x arg len mss queuelen apiflags s
  = inr (Some (mk_write_plan 0 0 0 None queuelen []), s).
Proof.
  intros Hb Hu Ho. unfold write_tail. by rewrite (bind_tderef x b), Hu, Ho by done.
Qed.

(** C12: On a connection with nothing unsent, [tcp_write] with copying returns.
    Either it queues segments of at most the segment size that carry exactly the
    bytes given, in order, as few as there can be, each in a new pbuf behind a
    header with the ports and the number of its first byte, the last one with the
    push flag unless more is to come; the number of the next byte and the space in
    the buffer move by the length, and nothing else changes.  Or the connection is
    not in a state for it, and nothing changes.  Or the data does not fit into the
    buffer or the queue, or memory ran out: then all pbufs are as before, and only
    the flag that tells so is set. *)
Theorem tcp_write_queues_data x b d apiflags s :
  tcp_structs (tcp_of s) !! x = Some b → has apiflags TCP_WRITE_FLAG_COPY = true → idle_block b →
  returns (tcp_write custom_free mem_avail garbage seg_avail x (Some d) (zlen d) apiflags s) (λ err s',
    (err = ERR_CONN ∧ s' = s ∧ t_state b ∉ [ESTABLISHED; CLOSE_WAIT; SYN_SENT; SYN_RCVD]) ∨
    (err = ERR_MEM ∧ st_pbufs s' = st_pbufs s ∧
     tcp_of s' = with_block x (b <|t_flags ::= Z.lor TF_NAGLEMEMERR|>) (tcp_of s) ∧
     (t_snd_buf b < zlen d ∨ refused b d (write_mss b))) ∨
    (err = ERR_OK ∧ ∃ segs oversize,
       queued b (write_mss b) (st_pbufs s) (st_pbufs s') segs d (last_flags apiflags segs) ∧
       zlen segs = seg_count (zlen d) (write_mss b) ∧
       tcp_of s' = with_block x (b <|t_unsent_oversize := oversize|> <|t_unsent := segs|>
         <|t_snd_lbb := u32 (t_snd_lbb b + zlen d)|> <|t_snd_buf := t_snd_buf b - zlen d|>
         <|t_snd_queuelen := t_snd_queuelen b + zlen segs|>) (tcp_of s))).
Proof.
  intros Hb Hcopy [Hu Hov Hql Hqc Hm Hw Hports Hbuf]. unfold tcp_write.
  rewrite (bind_tderef x b) by done. fold (write_mss b). cbv zeta.
  assert (0 < write_mss b < 65516) as Hmss by by apply write_mss_range.
  eapply returns_bind; [by eapply (write_checks_spec x b d (write_mss b))|].
  intros err s1 [(-> & H)|[(-> & H)|(-> & -> & Hlen)]]; [by left|by right; left|].
  rewrite bool_decide_false by (intros H; by apply H).
  rewrite (bind_ret _ _ _ (Some (mk_write_plan 0 0 0 None (t_snd_queuelen b) [])) s)
    by by apply write_tail_empty with b.
  eapply returns_bind.
  { apply (write_loop_spec x b d (write_mss b) apiflags (st_pbufs s)); try done; [|cbn; lia].
    pose proof (zlen_nonneg d).
    unfold planned. cbn [w_pos w_queue w_queuelen]. change (zlen (@nil tcp_seg)) with 0.
    split_and!; try done; [apply queued_nil|lia|lia|lia|]. destruct Hlen; [by left|right; cbn; lia]. }
  intros [[] w] s1 (h & -> & Hp & Hend); cbn [fst snd] in *.
  - eapply returns_mono; [by eapply (write_commit_spec x b d (write_mss b) apiflags (st_pbufs s))|].
    intros err s' (-> & Ht & Hq). right. right. split; [done|]. exists (w_queue w), (w_oversize w).
    split; [done|]. destruct Hp as (_ & Hpos & Hn & Hl & _).
    split; [apply seg_count_unique; lia|]. rewrite Ht. unfold committed. rewrite Hl, u16_id; [done|].
    unfold is_u16 in *. pose proof (zlen_nonneg d). destruct Hlen as [->|]; [change (zlen []) with 0; lia|lia].
  - eapply returns_mono; [by eapply (write_memerr_spec x b d (write_mss b) (st_pbufs s))|].
    intros err s' (-> & Hh & Ht). right. left. split_and!; try done. by right.
Qed.


End data.

(** Ten bytes and segments of four bytes: three segments. *)
Lemma tcp_write_queues_data_witness :
  idle_block TcpWrite.open_block ∧
  let d := [0; 1; 2; 3; 4; 5; 6; 7; 8; 9] in let s := TcpWrite.open_stack in
  returns (tcp_write (λ _ _, mret ()) (λ _ _, true) (λ _ _, 0) (λ _, true) 1%positive (Some d) (zlen d)
             TCP_WRITE_FLAG_COPY s)
    (λ err s', err = ERR_OK ∧ ∃ segs, zlen segs = 3 ∧
       queued TcpWrite.open_block 4 (st_pbufs s) (st_pbufs s') segs d (last_flags TCP_WRITE_FLAG_COPY segs)).
Proof.
  assert (idle_block TcpWrite.open_block) as Hid by (split; cbn; unfold is_u16; try done; lia).
  split; [exact Hid|]. intros d s.
  pose proof (tcp_write_queues_data (X := tcp_vars) (λ _ _, mret ()) (λ _ _, true) (λ _ _, 0) (λ _, true)
    1%positive TcpWrite.open_block d TCP_WRITE_FLAG_COPY s eq_refl eq_refl Hid) as H.
  eapply returns_mono; [exact H|]. clear H.
  intros err s' [(_ & _ & H)|[(_ & _ & _ & H)|(-> & segs & oversize & Hq & Hn & _)]].
  - destruct H. left.
  - destruct H as [H|[H|[[h [n H]]|[s0 H]]]]; [vm_compute in H; done| |done|done]. vm_compute in H. done.
  - split; [done|]. exists segs. split; [exact Hn|exact Hq].
Defined.

End TcpData.
