(* ===== verification/Mem.v ===== *)
(** * The heap ([core/mem.c])

    The allocator that lwIP uses in this configuration ([MEM_LIBC_MALLOC] is 0):
    an array [ram] tiled by blocks, each with a header that links it to its
    neighbours.

    A pointer into the heap is its offset from [ram], which [mem_init] aligns.
    The headers are a map from offsets; one that a block had before it was
    joined to another stays in the map, as its bytes stay in memory.  The mutex
    has no effect in a program with one thread. *)

From S2P Require Import Prelude Pbuf.

Module Mem.
Import Pbuf.

Definition u64 (x : Z) : Z := x mod 18446744073709551616.

(** [mem_size_t] is [u32_t]: [LWIP_MEM_ALIGN_SIZE] wraps around. *)
Definition mem_align_size (size : Z) : Z :=
  u32 (Z.land (u32 (size + MEM_ALIGNMENT - 1)) (Z.lnot (MEM_ALIGNMENT - 1))).

Definition MEM_SIZE : Z := 1024000.
Definition MIN_SIZE : Z := 12.
Definition MIN_SIZE_ALIGNED : Z := LWIP_MEM_ALIGN_SIZE MIN_SIZE.
(** Two 32-bit integers and a byte. *)
Definition SIZEOF_STRUCT_MEM : Z := LWIP_MEM_ALIGN_SIZE 12.
Definition MEM_SIZE_ALIGNED : Z := LWIP_MEM_ALIGN_SIZE MEM_SIZE.

(** [struct mem] *)
Record mem := mk_mem { next : Z; prev : Z; used : Z }.

Definition with_next (n : Z) (m : mem) : mem := mk_mem n (prev m) (used m).
Definition with_prev (p : Z) (m : mem) : mem := mk_mem (next m) p (used m).
Definition with_used (u : Z) (m : mem) : mem := mk_mem (next m) (prev m) u.

(** The memory part of [lwip_stats]. *)
Record stats_mem := mk_stats { st_avail : Z; st_used : Z; st_max : Z; st_err : Z }.

(** [ram], [lfree] and the statistics; [ram_end] is [MEM_SIZE_ALIGNED]. *)
Record mem_state := mk_state { ram : gmap Z mem; lfree : Z; stats : stats_mem }.

(** ** Access to memory *)

Abbreviation cmd := (prog mem_state).

Definition at_ram (p : Z) : cmd mem := s ← pget; pderef (ram s !! p).
(** A header is written as a whole. *)
Definition put_ram (p : Z) (m : mem) : cmd unit :=
  pmodify (λ s, mk_state (<[p := m]> (ram s)) (lfree s) (stats s)).
Definition alter_ram (p : Z) (f : mem → mem) : cmd unit := m ← at_ram p; put_ram p (f m).
Definition set_lfree (p : Z) : cmd unit := pmodify (λ s, mk_state (ram s) p (stats s)).

Definition MEM_STATS_INC_USED (n : Z) : cmd unit :=
  pmodify (λ s, let t := stats s in let u := u32 (st_used t + n) in
    mk_state (ram s) (lfree s)
      (mk_stats (st_avail t) u (if st_max t <? u then u else st_max t) (st_err t))).
Definition MEM_STATS_DEC_USED (n : Z) : cmd unit :=
  pmodify (λ s, let t := stats s in
    mk_state (ram s) (lfree s) (mk_stats (st_avail t) (u32 (st_used t - n)) (st_max t) (st_err t))).
Definition MEM_STATS_INC_err : cmd unit :=
  pmodify (λ s, let t := stats s in
    mk_state (ram s) (lfree s) (mk_stats (st_avail t) (st_used t) (st_max t) (u16 (st_err t + 1)))).

(** ** Operations *)

Definition mem_init : cmd unit :=
  put_ram 0 (mk_mem MEM_SIZE_ALIGNED 0 0);;
  put_ram MEM_SIZE_ALIGNED (mk_mem MEM_SIZE_ALIGNED MEM_SIZE_ALIGNED 1);;
  set_lfree 0;;
  pmodify (λ s, let t := stats s in
    mk_state (ram s) (lfree s) (mk_stats MEM_SIZE_ALIGNED (st_used t) (st_max t) (st_err t))).

Definition plug_forward (p : Z) : cmd unit :=
  m ← at_ram p;
  let n := next m in
  nm ← at_ram n;
  if negb (p =? n) && (used nm =? 0) && negb (n =? MEM_SIZE_ALIGNED) then
    s ← pget;
    (if lfree s =? n then set_lfree p else mret ());;
    alter_ram p (with_next (next nm));;
    alter_ram (next nm) (with_prev p)
  else mret ().

Definition plug_backward (p : Z) : cmd unit :=
  m ← at_ram p;
  let q := prev m in
  pm ← at_ram q;
  if negb (q =? p) && (used pm =? 0) then
    s ← pget;
    (if lfree s =? p then set_lfree q else mret ());;
    alter_ram q (with_next (next m));;
    alter_ram (next m) (with_prev q)
  else mret ().

Definition plug_holes (p : Z) : cmd unit :=
  passert (0 <=? p);;
  passert (p <? MEM_SIZE_ALIGNED);;
  m ← at_ram p;
  passert (used m =? 0);;
  passert (next m <=? MEM_SIZE_ALIGNED);;
  plug_forward p;;
  plug_backward p.

(** [None] is the null pointer. *)
Definition mem_free (rmem : option Z) : cmd unit :=
  match rmem with
  | None => mret ()
  | Some r =>
      passert (Z.land r (MEM_ALIGNMENT - 1) =? 0);;
      passert ((0 <=? r) && (r <? MEM_SIZE_ALIGNED));;
      let p := r - SIZEOF_STRUCT_MEM in
      m ← at_ram p;
      passert (negb (used m =? 0));;
      alter_ram p (with_used 0);;
      s ← pget;
      (if p <? lfree s then set_lfree p else mret ());;
      MEM_STATS_DEC_USED (u32 (next m - p));;
      plug_holes p
  end.

(** The scan from [lfree] for the first block that is unused and long enough;
    the difference of the offsets is a [size_t]. *)
Fixpoint find_block (fuel : nat) (ptr size : Z) : cmd (option Z) :=
  if ptr <? MEM_SIZE_ALIGNED - size then
    match fuel with
    | O => pfault Hang
    | S fuel' =>
        m ← at_ram ptr;
        if (used m =? 0) && (size <=? u64 (next m - (ptr + SIZEOF_STRUCT_MEM)))
        then mret (Some ptr)
        else find_block fuel' (next m) size
    end
  else mret None.

(** The loop [while (cur->used && cur != ram_end)]. *)
Fixpoint next_free (fuel : nat) (cur : Z) : cmd Z :=
  m ← at_ram cur;
  if negb (used m =? 0) && negb (cur =? MEM_SIZE_ALIGNED) then
    match fuel with
    | O => pfault Hang
    | S fuel' => next_free fuel' (next m)
    end
  else mret cur.

(** Every block takes at least a header and the minimal size. *)
Definition MEM_FUEL : nat :=
  Z.to_nat (MEM_SIZE_ALIGNED / (SIZEOF_STRUCT_MEM + MIN_SIZE_ALIGNED) + 1).

(** The block at [ptr] is taken, and split when a block fits behind it. *)
Definition take_block (ptr size : Z) : cmd unit :=
  m ← at_ram ptr;
  if size + SIZEOF_STRUCT_MEM + MIN_SIZE_ALIGNED
       <=? u64 (next m - (ptr + SIZEOF_STRUCT_MEM)) then
    let ptr2 := u32 (ptr + SIZEOF_STRUCT_MEM + size) in
    put_ram ptr2 (mk_mem (next m) ptr 0);;
    alter_ram ptr (λ m, mk_mem ptr2 (prev m) 1);;
    (if negb (next m =? MEM_SIZE_ALIGNED) then alter_ram (next m) (with_prev ptr2) else mret ());;
    MEM_STATS_INC_USED (u32 (size + SIZEOF_STRUCT_MEM))
  else
    alter_ram ptr (with_used 1);;
    MEM_STATS_INC_USED (u32 (next m - ptr)).

Definition mem_malloc (size : Z) : cmd (option Z) :=
  if size =? 0 then mret None else
  let size := mem_align_size size in
  let size := if size <? MIN_SIZE_ALIGNED then MIN_SIZE_ALIGNED else size in
  if MEM_SIZE_ALIGNED <? size then mret None else
  s ← pget;
  r ← find_block MEM_FUEL (lfree s) size;
  match r with
  | None => MEM_STATS_INC_err;; mret None
  | Some ptr =>
      take_block ptr size;;
      s ← pget;
      (if ptr =? lfree s then
         cur ← next_free MEM_FUEL (lfree s);
         set_lfree cur;;
         m ← at_ram cur;
         passert ((cur =? MEM_SIZE_ALIGNED) || (used m =? 0))
       else mret ());;
      passert (ptr + SIZEOF_STRUCT_MEM + size <=? MEM_SIZE_ALIGNED);;
      passert ((ptr + SIZEOF_STRUCT_MEM) mod MEM_ALIGNMENT =? 0);;
      passert (Z.land ptr (MEM_ALIGNMENT - 1) =? 0);;
      mret (Some (ptr + SIZEOF_STRUCT_MEM))
  end.

(** The memory that [mem_calloc] clears: it is the caller's. *)
Definition mem_calloc (count size : Z) : cmd (option Z) := mem_malloc (u32 (count * size)).

(** Both branches of [mem_trim] that give memory back end with these
    statements: the free block is now at [ptr2], and [nx] follows it. *)
Definition trim_rest (ptr ptr2 nx freed : Z) : cmd unit :=
  put_ram ptr2 (mk_mem nx ptr 0);;
  alter_ram ptr (with_next ptr2);;
  (if negb (nx =? MEM_SIZE_ALIGNED) then alter_ram nx (with_prev ptr2) else mret ());;
  MEM_STATS_DEC_USED freed.

Definition mem_trim (r newsize : Z) : cmd (option Z) :=
  let newsize := mem_align_size newsize in
  let newsize := if newsize <? MIN_SIZE_ALIGNED then MIN_SIZE_ALIGNED else newsize in
  if MEM_SIZE_ALIGNED <? newsize then mret None else
  passert ((0 <=? r) && (r <? MEM_SIZE_ALIGNED));;
  let ptr := u32 (r - SIZEOF_STRUCT_MEM) in
  m ← at_ram ptr;
  let size := u32 (next m - ptr - SIZEOF_STRUCT_MEM) in
  passert (newsize <=? size);;
  if newsize =? size then mret (Some r) else
  m2 ← at_ram (next m);
  let ptr2 := u32 (ptr + SIZEOF_STRUCT_MEM + newsize) in
  if used m2 =? 0 then
    s ← pget;
    (if lfree s =? next m then set_lfree ptr2 else mret ());;
    trim_rest ptr ptr2 (next m2) (u32 (size - newsize));;
    mret (Some r)
  else if newsize + SIZEOF_STRUCT_MEM + MIN_SIZE_ALIGNED <=? size then
    s ← pget;
    (if ptr2 <? lfree s then set_lfree ptr2 else mret ());;
    trim_rest ptr ptr2 (next m) (u32 (size - newsize));;
    mret (Some r)
  else mret (Some r).
End Mem.
