(* ===== verification/MemHeap.v ===== *)
(** * The blocks of the heap

    The heap as the list of its blocks from low to high offsets: the
    representation of the list by the headers, and the operations of an
    allocator on the list. *)

From S2P Require Import Prelude Pbuf Mem.

Module MemHeap.
Import Pbuf Mem.

(** The constants are small enough for [lia]. *)
Ltac mlia :=
  change MEM_SIZE_ALIGNED with 1024000 in *; change SIZEOF_STRUCT_MEM with 12 in *;
  change MIN_SIZE_ALIGNED with 12 in *; change MEM_ALIGNMENT with 4 in *;
  first [lia | Z.div_mod_to_equations; lia].

(** The length of a block with its header, and whether it is in use. *)
Abbreviation block := (Z * bool)%type.

Fixpoint total (bl : list block) : Z :=
  match bl with [] => 0 | (n, _) :: bl' => n + total bl' end.
Fixpoint used_total (bl : list block) : Z :=
  match bl with [] => 0 | (n, u) :: bl' => (if u : bool then n else 0) + used_total bl' end.

Definition block_ok (n : Z) : Prop := SIZEOF_STRUCT_MEM + MIN_SIZE_ALIGNED ≤ n ∧ n mod 4 = 0.

(** The headers of consecutive blocks from [off]; [p] is the block before. *)
Fixpoint seg (h : gmap Z mem) (off p : Z) (bl : list block) : Prop :=
  match bl with
  | [] => True
  | (n, u) :: bl' =>
      h !! off = Some (mk_mem (off + n) p (Z.b2z u)) ∧ block_ok n ∧ seg h (off + n) off bl'
  end.

(** The last block of a segment. *)
Fixpoint last_off (off p : Z) (bl : list block) : Z :=
  match bl with [] => p | (n, _) :: bl' => last_off (off + n) off bl' end.

(** Blocks up to the end of the heap. *)
Definition tailed (h : gmap Z mem) (off p : Z) (bl : list block) : Prop :=
  seg h off p bl ∧ off + total bl = MEM_SIZE_ALIGNED ∧
  ∃ q, h !! MEM_SIZE_ALIGNED = Some (mk_mem MEM_SIZE_ALIGNED q 1).

(** The lowest block that is not in use, or the end. *)
Fixpoint first_free (off : Z) (bl : list block) : Z :=
  match bl with
  | [] => off
  | (n, u) :: bl' => if u : bool then first_free (off + n) bl' else off
  end.

(** No two blocks in a row are free, where the block before is free or not. *)
Fixpoint merged_after (f : bool) (bl : list block) : bool :=
  match bl with
  | [] => true
  | (_, u) :: bl' => (u || negb f) && merged_after (negb u) bl'
  end.
Definition merged (bl : list block) : bool := merged_after false bl.

(** Whether the last block of a list is free. *)
Fixpoint ends_free (f : bool) (bl : list block) : bool :=
  match bl with [] => f | (_, u) :: bl' => ends_free (negb u) bl' end.

Record represents (s : mem_state) (bl : list block) : Prop := {
  rep_blocks : tailed (ram s) 0 0 bl;
  rep_lfree : lfree s = first_free 0 bl;
  rep_merged : merged bl = true;
  rep_used : st_used (stats s) = used_total bl
}.

(** ** Operations on blocks *)

Definition rounded (size : Z) : Z :=
  let size := mem_align_size size in
  if size <? MIN_SIZE_ALIGNED then MIN_SIZE_ALIGNED else size.

Definition fits (size : Z) (b : block) : bool :=
  negb b.2 && (SIZEOF_STRUCT_MEM + size <=? b.1).

(** A block that is taken, and the rest when it can be a block. *)
Definition split (size n : Z) : list block :=
  if 2 * SIZEOF_STRUCT_MEM + MIN_SIZE_ALIGNED + size <=? n
  then [(SIZEOF_STRUCT_MEM + size, true); (n - (SIZEOF_STRUCT_MEM + size), false)]
  else [(n, true)].

(** First fit: the blocks before it, the pointer, and the blocks afterwards. *)
Fixpoint a_malloc (off size : Z) (bl : list block) : option (Z * list block) :=
  match bl with
  | [] => None
  | b :: bl' =>
      if fits size b then Some (off + SIZEOF_STRUCT_MEM, split size b.1 ++ bl')
      else '(p, bl'') ← a_malloc (off + b.1) size bl'; Some (p, b :: bl'')
  end.

(** The block of pointer [p] is not in use any more. *)
Fixpoint a_mark (off p : Z) (bl : list block) : option (list block) :=
  match bl with
  | [] => None
  | (n, u) :: bl' =>
      if off + SIZEOF_STRUCT_MEM =? p then if u : bool then Some ((n, false) :: bl') else None
      else cons (n, u) <$> a_mark (off + n) p bl'
  end.

(** Free blocks in a row become one. *)
Definition join (b : block) (bl : list block) : list block :=
  match b, bl with
  | (n, false), (m, false) :: bl' => (n + m, false) :: bl'
  | _, _ => b :: bl
  end.
Definition joined (bl : list block) : list block := foldr join [] bl.

Definition a_free (p : Z) (bl : list block) : option (list block) := joined <$> a_mark 0 p bl.

(** A block of [n] bytes in use keeps [r] bytes of memory: the rest goes to the
    free block behind it, or becomes a block when it is long enough. *)
Definition trimmed (r n : Z) (post : list block) : list block :=
  let n1 := SIZEOF_STRUCT_MEM + r in
  if n1 =? n then (n, true) :: post
  else match post with
       | (m, false) :: post' => (n1, true) :: (n - n1 + m, false) :: post'
       | _ => if n1 + SIZEOF_STRUCT_MEM + MIN_SIZE_ALIGNED <=? n
              then (n1, true) :: (n - n1, false) :: post else (n, true) :: post
       end.
Fixpoint a_trim (off p r : Z) (bl : list block) : option (list block) :=
  match bl with
  | [] => None
  | (n, u) :: bl' =>
      if off + SIZEOF_STRUCT_MEM =? p then
        if u && (SIZEOF_STRUCT_MEM + r <=? n) then Some (trimmed r n bl') else None
      else cons (n, u) <$> a_trim (off + n) p r bl'
  end.

(** What the clients see: the memory of the blocks in use, by pointer. *)
Fixpoint allocs (off : Z) (bl : list block) : list (Z * Z) :=
  match bl with
  | [] => []
  | (n, u) :: bl' =>
      (if u : bool then [(off + SIZEOF_STRUCT_MEM, n - SIZEOF_STRUCT_MEM)] else []) ++
      allocs (off + n) bl'
  end.

(** ** Segments *)

Lemma total_app l1 l2 : total (l1 ++ l2) = total l1 + total l2.
Proof. induction l1 as [|[n u] l1 IH]; simpl; lia. Qed.
Lemma used_total_app l1 l2 : used_total (l1 ++ l2) = used_total l1 + used_total l2.
Proof. induction l1 as [|[n []] l1 IH]; simpl; lia. Qed.

Lemma seg_total h off p bl :
  seg h off p bl → (SIZEOF_STRUCT_MEM + MIN_SIZE_ALIGNED) * zlen bl ≤ total bl ∧
    total bl mod 4 = 0 ∧ 0 ≤ used_total bl ≤ total bl.
Proof.
  revert off p. induction bl as [|[n u] bl IH]; intros off p; simpl; [done|].
  intros (_ & [Hn1 Hn2] & HI%IH). rewrite zlen_cons. destruct u; mlia.
Qed.

Lemma seg_app h off p l1 l2 :
  seg h off p (l1 ++ l2) ↔ seg h off p l1 ∧ seg h (off + total l1) (last_off off p l1) l2.
Proof.
  revert off p. induction l1 as [|[n u] l1 IH]; intros off p; simpl.
  - rewrite Z.add_0_r. tauto.
  - rewrite IH, Z.add_assoc. tauto.
Qed.

Lemma seg_insert h off p bl x m :
  x < off ∨ off + total bl ≤ x → seg h off p bl → seg (<[x := m]> h) off p bl.
Proof.
  revert off p. induction bl as [|[n u] bl IH]; intros off p Hx; simpl in *; [done|].
  intros (E & Hn & H). pose proof (seg_total _ _ _ _ H). destruct Hn as [Hn1 Hn2].
  rewrite lookup_insert_ne by (pose proof (zlen_nonneg bl); mlia).
  split; [done|]. split; [done|]. apply IH; [|done]. pose proof (zlen_nonneg bl). mlia.
Qed.

Lemma last_off_lt h off p bl :
  seg h off p bl → bl ≠ [] → off ≤ last_off off p bl < off + total bl.
Proof.
  revert off p. induction bl as [|[n u] bl IH]; intros off p; simpl; [done|].
  intros (_ & [Hn1 Hn2] & H) _. destruct bl as [|b bl]; simpl; [mlia|].
  pose proof (IH _ _ H ltac:(done)) as Hl. simpl in Hl. mlia.
Qed.

Lemma last_off_snoc off p l n u : last_off off p (l ++ [(n, u)]) = off + total l.
Proof.
  revert off p. induction l as [|[m v] l IH]; intros off p; simpl; [lia|]. rewrite IH. lia.
Qed.

Lemma tailed_app h off p l1 l2 :
  tailed h off p (l1 ++ l2) ↔ seg h off p l1 ∧ tailed h (off + total l1) (last_off off p l1) l2.
Proof. unfold tailed. rewrite seg_app, total_app, Z.add_assoc. tauto. Qed.

Lemma tailed_cons h off p n u bl :
  tailed h off p ((n, u) :: bl) ↔
  h !! off = Some (mk_mem (off + n) p (Z.b2z u)) ∧ block_ok n ∧ tailed h (off + n) off bl.
Proof. unfold tailed. simpl. rewrite Z.add_assoc. tauto. Qed.

Lemma tailed_insert h off p bl x m : x < off → tailed h off p bl → tailed (<[x := m]> h) off p bl.
Proof.
  intros Hx (H & Ht & q & E). pose proof (seg_total _ _ _ _ H). pose proof (zlen_nonneg bl).
  split; [by apply seg_insert; [left|]|]. split; [done|]. exists q.
  rewrite lookup_insert_ne by mlia. done.
Qed.

(** The header at the start of a tail: a block, or the end. *)
Lemma tailed_head h off p bl :
  tailed h off p bl →
  ∃ m, h !! off = Some m ∧
    used m = match bl with (_, u) :: _ => Z.b2z u | [] => 1 end ∧
    next m = match bl with (n, _) :: _ => off + n | [] => MEM_SIZE_ALIGNED end ∧
    ∀ p', tailed (<[off := with_prev p' m]> h) off p' bl.
Proof.
  destruct bl as [|[n u] bl].
  - intros (_ & Ht & q & E). simpl in Ht. rewrite Z.add_0_r in Ht. subst off.
    eexists. split; [done|]. split; [done|]. split; [done|]. intros p'. split; [done|].
    split; [simpl; lia|]. exists p'. by rewrite lookup_insert_eq.
  - rewrite tailed_cons. intros (E & Hn & H). eexists. split; [done|]. split; [done|].
    split; [done|]. intros p'. rewrite tailed_cons, lookup_insert_eq. split; [done|].
    split; [done|]. apply tailed_insert; [|done]. destruct Hn. mlia.
Qed.

Lemma tailed_bounds h off p bl :
  tailed h off p bl →
  off ≤ MEM_SIZE_ALIGNED ∧ off mod 4 = 0 ∧ (off = MEM_SIZE_ALIGNED ↔ bl = []) ∧
  (length bl * 24 ≤ Z.to_nat (MEM_SIZE_ALIGNED - off))%nat.
Proof.
  intros (H & Ht & _). destruct (seg_total _ _ _ _ H) as (H1 & H2 & _).
  unfold zlen in H1. split_and!; [mlia|mlia| |mlia].
  split; [|intros ->; simpl in Ht; lia]. intros ->. destruct bl; [done|]. simpl length in H1. mlia.
Qed.

(** ** Free blocks *)

Lemma merged_app f l1 l2 :
  merged_after f (l1 ++ l2) = merged_after f l1 && merged_after (ends_free f l1) l2.
Proof.
  revert f. induction l1 as [|[n u] l1 IH]; intros f; simpl; [done|]. by rewrite IH, andb_assoc.
Qed.
Lemma merged_weaken f bl : merged_after f bl = true → merged_after false bl = true.
Proof. destruct bl as [|[n []] bl]; simpl; [done..|]. by destruct f. Qed.
Lemma ends_free_app f l1 l2 : ends_free f (l1 ++ l2) = ends_free (ends_free f l1) l2.
Proof. revert f. induction l1 as [|[n u] l1 IH]; intros f; simpl; [done|]. apply IH. Qed.

Lemma joined_app l r : merged (l ++ r) = true → foldr join r l = l ++ r.
Proof.
  induction l as [|[n u] l IH]; simpl; [done|]. unfold merged in *. simpl. intros H.
  apply andb_prop in H as [_ H]. rewrite IH by by eapply merged_weaken.
  unfold join. destruct u; [done|]. destruct (l ++ r) as [|[m []] ?]; [done..|]. by simpl in H.
Qed.
Lemma joined_merged l : merged l = true → joined l = l.
Proof. intros H. unfold joined. rewrite <- (app_nil_r l) in H. by rewrite joined_app, app_nil_r. Qed.

Lemma join_merged b l : merged l = true → merged (join b l) = true.
Proof.
  destruct b as [n []]; unfold join, merged; [done|]. destruct l as [|[m []] l]; done.
Qed.
Lemma merged_joined l : merged (joined l) = true.
Proof. induction l as [|b l IH]; [done|]. by apply join_merged. Qed.

Lemma total_join b l : total (join b l) = total (b :: l).
Proof. destruct b as [n []]; [done|]. destruct l as [|[m []] l]; simpl; lia. Qed.
Lemma used_total_joined l : used_total (joined l) = used_total l.
Proof.
  induction l as [|[n u] l IH]; [done|]. simpl. rewrite <- IH. unfold joined.
  destruct u; simpl; [done|]. destruct (foldr join [] l) as [|[m []] ?]; simpl; lia.
Qed.

Lemma first_free_join off b l : first_free off (join b l) = first_free off (b :: l).
Proof. destruct b as [n []]; [done|]. by destruct l as [|[m []] l]. Qed.
Lemma first_free_joined off l : first_free off (joined l) = first_free off l.
Proof.
  revert off. induction l as [|[n u] l IH]; intros off; [done|].
  change (joined ((n, u) :: l)) with (join (n, u) (joined l)). rewrite first_free_join. simpl.
  by rewrite IH.
Qed.

(** The lowest free block is in a prefix, or the prefix is all in use. *)
Definition in_use (b : block) : Prop := b.2 = true.

Lemma first_free_app off l r :
  (Forall in_use l ∧ first_free off (l ++ r) = first_free (off + total l) r) ∨
  (¬ Forall in_use l ∧ ∀ r', first_free off (l ++ r') = first_free off l).
Proof.
  revert off. induction l as [|[n u] l IH]; intros off; simpl.
  - left. split; [constructor|]. f_equal. lia.
  - destruct u.
    + destruct (IH (off + n)) as [[? ->]|[Hl Heq]].
      * left. split; [by constructor|]. f_equal. lia.
      * right. split; [by intros [_ ?]%list.Forall_cons|]. done.
    + right. split; [by intros [[=] _]%list.Forall_cons|]. done.
Qed.

Lemma first_free_bounds h off p bl :
  seg h off p bl → off ≤ first_free off bl ≤ off + total bl ∧
  (¬ Forall in_use bl → first_free off bl < off + total bl).
Proof.
  revert off p. induction bl as [|[n u] bl IH]; intros off p; simpl.
  - intros _. split; [lia|]. by intros [].
  - intros (_ & [Hn1 Hn2] & H). pose proof (seg_total _ _ _ _ H). pose proof (zlen_nonneg bl).
    destruct (IH _ _ H) as [Hf1 Hf2]. destruct u.
    + split; [mlia|]. intros Hf. assert (¬ Forall in_use bl) as Hl%Hf2; [|mlia].
      intros ?. apply Hf. by constructor.
    + mlia.
Qed.

(** ** Zippers *)

(** The headers below [off] decide a segment that ends there. *)
Lemma seg_frame h h' off p bl :
  (∀ x, x < off + total bl → h' !! x = h !! x) → seg h off p bl → seg h' off p bl.
Proof.
  revert off p. induction bl as [|[n u] bl IH]; intros off p Hh; simpl in *; [done|].
  intros (E & Hn & H). pose proof (seg_total _ _ _ _ H). pose proof (zlen_nonneg bl).
  destruct Hn as [Hn1 Hn2]. rewrite Hh by mlia. split; [done|]. split; [done|].
  apply IH; [|done]. intros x Hx. apply Hh. lia.
Qed.

(** One block in its place; [off] is that of the first block. *)
Lemma tailed_zip h off p pre n u post :
  tailed h off p (pre ++ (n, u) :: post) ↔
  let o := off + total pre in
  seg h off p pre ∧ h !! o = Some (mk_mem (o + n) (last_off off p pre) (Z.b2z u)) ∧
  block_ok n ∧ tailed h (o + n) o post.
Proof. rewrite tailed_app, tailed_cons. done. Qed.

(** What [a_malloc] finds. *)
Lemma a_malloc_skip off size us bl :
  Forall (λ b, fits size b = false) us →
  a_malloc off size (us ++ bl) =
  ('(p, bl') ← a_malloc (off + total us) size bl; Some (p, us ++ bl')).
Proof.
  revert off. induction us as [|[n u] us IH]; intros off; simpl.
  - intros _. rewrite Z.add_0_r. by destruct (a_malloc off size bl) as [[]|].
  - intros [E Hus]%list.Forall_cons. rewrite E, IH, Z.add_assoc by done.
    by destruct (a_malloc _ size bl) as [[]|].
Qed.

Lemma a_malloc_cases off size bl :
  (Forall (λ b, fits size b = false) bl ∧ a_malloc off size bl = None) ∨
  ∃ pre n post, bl = pre ++ (n, false) :: post ∧ Forall (λ b, fits size b = false) pre ∧
    SIZEOF_STRUCT_MEM + size ≤ n ∧
    a_malloc off size bl
    = Some (off + total pre + SIZEOF_STRUCT_MEM, pre ++ split size n ++ post).
Proof.
  revert off. induction bl as [|[n u] bl IH]; intros off; [by left|]. simpl.
  destruct (fits size (n, u)) eqn:E.
  - right. exists [], n, bl. unfold fits in E. simpl in E. destruct u; [done|]. simpl in E.
    split; [done|]. split; [constructor|]. split; [lia|]. simpl. do 2 f_equal. lia.
  - destruct (IH (off + n)) as [[Hf ->]|(pre & m & post & -> & Hpre & Hm & ->)].
    + left. split; [by constructor|done].
    + right. exists ((n, u) :: pre), m, post. split; [done|]. split; [by constructor|].
      split; [done|]. simpl. do 2 f_equal. lia.
Qed.

(** What [a_mark] changes. *)
Lemma a_mark_inv off p bl bl' :
  a_mark off p bl = Some bl' →
  ∃ pre n post, bl = pre ++ (n, true) :: post ∧ bl' = pre ++ (n, false) :: post ∧
    p = off + total pre + SIZEOF_STRUCT_MEM.
Proof.
  revert off bl'. induction bl as [|[n u] bl IH]; intros off bl'; simpl; [done|].
  destruct (Z.eqb_spec (off + SIZEOF_STRUCT_MEM) p) as [<-|Hne].
  - destruct u; [|done]. intros [= <-]. exists [], n, bl. simpl. split_and!; [done|done|lia].
  - intros (l & (pre & m & post & -> & -> & ->)%IH & ->)%fmap_Some.
    exists ((n, u) :: pre), m, post. simpl. split_and!; [done|done|lia].
Qed.
Lemma a_trim_inv off p r bl bl' :
  a_trim off p r bl = Some bl' →
  ∃ pre n post, bl = pre ++ (n, true) :: post ∧ bl' = pre ++ trimmed r n post ∧
    p = off + total pre + SIZEOF_STRUCT_MEM ∧ SIZEOF_STRUCT_MEM + r ≤ n.
Proof.
  revert off bl'. induction bl as [|[n u] bl IH]; intros off bl'; simpl; [done|].
  destruct (Z.eqb_spec (off + SIZEOF_STRUCT_MEM) p) as [<-|Hne].
  - destruct u; [|done]. simpl. destruct (Z.leb_spec (SIZEOF_STRUCT_MEM + r) n); [|done].
    intros [= <-]. exists [], n, bl. simpl. split_and!; [done|done|lia|done].
  - intros (l & (pre & m & post & -> & -> & -> & ?)%IH & ->)%fmap_Some.
    exists ((n, u) :: pre), m, post. simpl. split_and!; [done|done|lia|done].
Qed.
Lemma a_mark_at h off p0 pre n post :
  seg h off p0 pre →
  a_mark off (off + total pre + SIZEOF_STRUCT_MEM) (pre ++ (n, true) :: post)
  = Some (pre ++ (n, false) :: post).
Proof.
  revert off p0. induction pre as [|[m u] pre IH]; intros off p0; simpl.
  - intros _. by rewrite Z.add_0_r, Z.eqb_refl.
  - intros (_ & [Hn1 Hn2] & H). pose proof (seg_total _ _ _ _ H). pose proof (zlen_nonneg pre).
    destruct (Z.eqb_spec (off + SIZEOF_STRUCT_MEM) (off + (m + total pre) + SIZEOF_STRUCT_MEM));
      [mlia|]. rewrite Z.add_assoc. by rewrite (IH _ _ H).
Qed.
Lemma a_trim_at h off p0 pre n r post :
  seg h off p0 pre → SIZEOF_STRUCT_MEM + r ≤ n →
  a_trim off (off + total pre + SIZEOF_STRUCT_MEM) r (pre ++ (n, true) :: post)
  = Some (pre ++ trimmed r n post).
Proof.
  intros Hs Hr. revert off p0 Hs. induction pre as [|[m u] pre IH]; intros off p0; simpl.
  - intros _. rewrite Z.add_0_r, Z.eqb_refl. by rewrite (proj2 (Z.leb_le _ _)).
  - intros (_ & [Hn1 Hn2] & H). pose proof (seg_total _ _ _ _ H). pose proof (zlen_nonneg pre).
    destruct (Z.eqb_spec (off + SIZEOF_STRUCT_MEM) (off + (m + total pre) + SIZEOF_STRUCT_MEM));
      [mlia|]. rewrite Z.add_assoc. by rewrite (IH _ _ H).
Qed.
End MemHeap.
