(* ===== verification/MemAlloc.v ===== *)
(** * The heap: allocation

    [mem_malloc] is first fit on the list of blocks. *)

From S2P Require Import Prelude Pbuf Mem MemHeap.

Module MemAlloc.
Import Pbuf Mem MemHeap.

(** ** Steps *)

Definition set_ram (h : gmap Z mem) (s : mem_state) : mem_state :=
  mk_state h (lfree s) (stats s).

Lemma bind_at {B} p m (k : mem → cmd B) s :
  ram s !! p = Some m → (at_ram p ≫= k) s = k m s.
Proof. intros E. unfold at_ram. cbv [mbind prog_bind pget]. by rewrite E. Qed.
Lemma bind_put {B} p m (k : () → cmd B) s :
  (put_ram p m ≫= k) s = k () (set_ram (<[p := m]> (ram s)) s).
Proof. done. Qed.
Lemma alter_eq p f m s :
  ram s !! p = Some m → alter_ram p f s = inr ((), set_ram (<[p := f m]> (ram s)) s).
Proof. intros E. unfold alter_ram. by rewrite (bind_at _ _ _ _ E). Qed.
Lemma bind_alter {B} p f m (k : () → cmd B) s :
  ram s !! p = Some m → (alter_ram p f ≫= k) s = k () (set_ram (<[p := f m]> (ram s)) s).
Proof. intros E. by rewrite (bind_ret _ _ _ _ _ (alter_eq p f m s E)). Qed.

Lemma u64_id x : 0 ≤ x < 4294967296 → u64 x = x.
Proof. intros. unfold u64. apply Z.mod_small. lia. Qed.

(** ** Sizes *)

(** Rounding up to the alignment wraps around at 32 bits. *)
Lemma mem_align_size_eq size :
  0 ≤ size ≤ 4294967292 → mem_align_size size = (size + 3) / 4 * 4.
Proof.
  intros H. unfold mem_align_size. change MEM_ALIGNMENT with 4.
  rewrite (u32_id (size + 4 - 1)) by (unfold is_u32; lia).
  change (Z.lnot (4 - 1)) with (Z.lnot (Z.ones 2)).
  rewrite <- Z.ldiff_land, Z.ldiff_ones_r, Z.shiftl_mul_pow2, Z.shiftr_div_pow2 by lia.
  change (2 ^ 2) with 4. replace (size + 4 - 1) with (size + 3) by lia.
  apply u32_id. unfold is_u32. Z.div_mod_to_equations. lia.
Qed.

Lemma rounded_bounds size :
  0 ≤ size ≤ 4294967292 →
  size ≤ rounded size ≤ Z.max MIN_SIZE_ALIGNED (size + 3) ∧ MIN_SIZE_ALIGNED ≤ rounded size ∧ rounded size mod 4 = 0.
Proof.
  intros H. unfold rounded. rewrite mem_align_size_eq by done.
  destruct (Z.ltb_spec ((size + 3) / 4 * 4) MIN_SIZE_ALIGNED); mlia.
Qed.

(** ** The scan *)

Section scan.
Context (s : mem_state) (size : Z).
Context (Hmin : MIN_SIZE_ALIGNED ≤ size).

Lemma find_block_fit fuel off p pre n post :
  0 ≤ off → tailed (ram s) off p (pre ++ (n, false) :: post) →
  Forall (λ b, fits size b = false) pre → SIZEOF_STRUCT_MEM + size ≤ n →
  (length pre < fuel)%nat →
  find_block fuel off size s = inr (Some (off + total pre), s).
Proof.
  revert off p fuel. induction pre as [|[m u] pre IH]; intros off p fuel Ho Ht Hpre Hn Hf.
  - simpl in *. rewrite Z.add_0_r. apply tailed_cons in Ht as (E & [Hn1 Hn2] & Ht).
    destruct (tailed_bounds _ _ _ _ Ht) as (Hb & _). destruct fuel as [|fuel]; [lia|]. simpl.
    rewrite (proj2 (Z.ltb_lt _ _)) by mlia. rewrite (bind_at _ _ _ _ E). simpl.
    rewrite u64_id by mlia. by rewrite (proj2 (Z.leb_le _ _)) by mlia.
  - apply list.Forall_cons in Hpre as [Hm Hpre]. rewrite <- app_comm_cons in Ht.
    apply tailed_cons in Ht as (E & [Hn1 Hn2] & Ht).
    pose proof Ht as (Hs & Htot & _). rewrite total_app in Htot. simpl in Htot.
    apply seg_app in Hs as [Hs1 Hs2]. destruct (seg_total _ _ _ _ Hs1) as (Hp & _ & _).
    destruct (seg_total _ _ _ _ Hs2) as (Hq & _ & _). simpl in Hq. rewrite zlen_cons in Hq.
    pose proof (zlen_nonneg pre). pose proof (zlen_nonneg post).
    destruct fuel as [|fuel]; [simpl in Hf; lia|]. simpl in Hf |- *.
    rewrite (proj2 (Z.ltb_lt _ _)) by
      (apply tailed_app in Ht as [_ (Ht & _)%tailed_cons]; destruct Hs2 as (_ & _ & Hs3);
       pose proof (seg_total _ _ _ _ Hs3); mlia).
    rewrite (bind_at _ _ _ _ E). simpl. rewrite u64_id by mlia.
    assert ((Z.b2z u =? 0) && (size <=? off + m - (off + SIZEOF_STRUCT_MEM)) = false) as ->.
    { unfold fits in Hm. simpl in Hm. destruct u; [done|]. simpl in *. mlia. }
    rewrite (IH (off + m) off fuel) by (done || mlia). do 3 f_equal. lia.
Qed.

Lemma find_block_none fuel off p bl :
  0 ≤ off → tailed (ram s) off p bl → Forall (λ b, fits size b = false) bl →
  (length bl ≤ fuel)%nat → find_block fuel off size s = inr (None, s).
Proof.
  revert off p fuel. induction bl as [|[m u] bl IH]; intros off p fuel Ho Ht Hbl Hf.
  - destruct Ht as (_ & Ht & _). simpl in Ht. destruct fuel; simpl;
      by rewrite (proj2 (Z.ltb_ge _ _)) by mlia.
  - apply list.Forall_cons in Hbl as [Hm Hbl]. apply tailed_cons in Ht as (E & [Hn1 Hn2] & Ht).
    destruct fuel as [|fuel]; [simpl in Hf; lia|]. simpl in Hf |- *.
    destruct (off <? MEM_SIZE_ALIGNED - size); [|done].
    destruct (tailed_bounds _ _ _ _ Ht) as (Hb & _).
    rewrite (bind_at _ _ _ _ E). simpl. rewrite u64_id by mlia.
    assert ((Z.b2z u =? 0) && (size <=? off + m - (off + SIZEOF_STRUCT_MEM)) = false) as ->.
    { unfold fits in Hm. simpl in Hm. destruct u; [done|]. simpl in *. mlia. }
    rewrite (IH (off + m) off fuel) by (done || mlia). done.
Qed.
End scan.

Lemma next_free_eq s fuel off p bl :
  0 ≤ off → tailed (ram s) off p bl → (length bl ≤ fuel)%nat →
  next_free fuel off s = inr (first_free off bl, s).
Proof.
  revert off p fuel. induction bl as [|[n u] bl IH]; intros off p fuel Ho Ht Hf.
  - destruct (tailed_head _ _ _ _ Ht) as (m & E & _ & _ & _).
    destruct Ht as (_ & Ht & _). simpl in Ht. assert (off = MEM_SIZE_ALIGNED) as -> by lia.
    destruct fuel; cbn [next_free]; rewrite (bind_at _ _ _ _ E), Z.eqb_refl; simpl;
      by rewrite andb_false_r.
  - apply tailed_cons in Ht as (E & [Hn1 Hn2] & Ht).
    destruct (tailed_bounds _ _ _ _ Ht) as (Hb & _).
    destruct fuel as [|fuel]; [simpl in Hf; lia|]. simpl in Hf |- *.
    rewrite (bind_at _ _ _ _ E). simpl. destruct u; simpl; [|done].
    rewrite (proj2 (Z.eqb_neq _ _)) by mlia. simpl. by apply (IH _ off); [mlia|..|lia].
Qed.

Lemma first_free_header s off p bl :
  tailed (ram s) off p bl →
  ∃ m, ram s !! first_free off bl = Some m ∧ (first_free off bl = MEM_SIZE_ALIGNED ∨ used m = 0).
Proof.
  revert off p. induction bl as [|[n []] bl IH]; intros off p Ht.
  - destruct (tailed_head _ _ _ _ Ht) as (m & E & _). exists m. split; [done|]. left.
    destruct Ht as (_ & Ht & _). simpl in *. lia.
  - apply tailed_cons in Ht as (_ & _ & Ht). by eapply IH.
  - apply tailed_cons in Ht as (E & _ & _). eexists. split; [done|]. by right.
Qed.

(** ** Splitting a block *)

(** [h'] is [h] with the blocks from [q] linked to [p'] instead of [p]. *)
Definition relinked (h h' : gmap Z mem) (q p' : Z) (post : list block) : Prop :=
  tailed h' q p' post ∧ ∀ x, x < q → h' !! x = h !! x.

Lemma relink s q p p' post :
  tailed (ram s) q p post →
  ∃ h', alter_ram q (with_prev p') s = inr ((), set_ram h' s) ∧ relinked (ram s) h' q p' post.
Proof.
  intros Ht. destruct (tailed_head _ _ _ _ Ht) as (m & E & _ & _ & Hp).
  eexists. split; [by apply alter_eq|]. split; [apply Hp|]. intros x Hx.
  rewrite lookup_insert_ne by lia. done.
Qed.

(** The link is left alone at the end of the heap. *)
Lemma relink_unless_end s q p p' post :
  tailed (ram s) q p post →
  ∃ h', (if negb (q =? MEM_SIZE_ALIGNED) then alter_ram q (with_prev p') else mret ()) s
        = inr ((), set_ram h' s) ∧ relinked (ram s) h' q p' post.
Proof.
  intros Ht. destruct (Z.eqb_spec q MEM_SIZE_ALIGNED) as [->|Hne]; simpl; [|by eapply relink].
  exists (ram s). split; [by destruct s|]. split; [|done].
  destruct (tailed_bounds _ _ _ _ Ht) as (_ & _ & Hend & _). rewrite (proj1 Hend eq_refl) in *.
  by destruct Ht as (_ & ? & ?).
Qed.

(** Block [n] becomes [n1] and a free block [n2] behind it. *)
Definition cut_ram (h : gmap Z mem) (o n1 n2 lp u : Z) : gmap Z mem :=
  <[o := mk_mem (o + n1) lp u]> (<[o + n1 := mk_mem (o + n1 + n2) o 0]> h).

Lemma tailed_cut h h' pre n1 n2 u post :
  let o := total pre in
  seg h 0 0 pre → block_ok n1 → block_ok n2 →
  relinked (cut_ram h o n1 n2 (last_off 0 0 pre) (Z.b2z u)) h' (o + n1 + n2) (o + n1) post →
  tailed h' 0 0 (pre ++ (n1, u) :: (n2, false) :: post).
Proof.
  intros o Hs Hn1 Hn2 [Ht Hx]. pose proof (seg_total _ _ _ _ Hs). pose proof (zlen_nonneg pre).
  pose proof Hn1 as [? ?]. pose proof Hn2 as [? ?]. subst o.
  apply tailed_zip. cbv zeta. rewrite tailed_cons, !Z.add_0_l. unfold cut_ram in Hx.
  rewrite !Hx by mlia. rewrite lookup_insert_eq, (lookup_insert_ne _ (total pre)) by mlia.
  rewrite lookup_insert_eq. split_and!; try done.
  eapply seg_frame; [|done]. intros x Hlt. rewrite Hx by mlia.
  by rewrite !lookup_insert_ne by mlia.
Qed.

Lemma tailed_cut_rest h o n1 n2 lp u q post :
  0 < n1 → 0 < n2 → tailed h (o + n1 + n2) q post →
  tailed (cut_ram h o n1 n2 lp u) (o + n1 + n2) q post.
Proof. intros ? ? Ht. unfold cut_ram. by do 2 (apply tailed_insert; [lia|]). Qed.

Lemma seg_used_block h off p pre n post :
  seg h off p (pre ++ (n, false) :: post) →
  0 ≤ used_total (pre ++ (n, false) :: post) ≤ total pre + total post.
Proof.
  intros [H1 (_ & _ & H2)]%seg_app. rewrite used_total_app. simpl.
  pose proof (seg_total _ _ _ _ H1). pose proof (seg_total _ _ _ _ H2). lia.
Qed.

Lemma take_block_spec s pre n size post :
  let bl := pre ++ (n, false) :: post in
  let bl' := pre ++ split size n ++ post in
  tailed (ram s) 0 0 bl → st_used (stats s) = used_total bl →
  MIN_SIZE_ALIGNED ≤ size → size mod 4 = 0 → SIZEOF_STRUCT_MEM + size ≤ n →
  ∃ s', take_block (total pre) size s = inr ((), s') ∧ tailed (ram s') 0 0 bl' ∧
    lfree s' = lfree s ∧ st_used (stats s') = used_total bl'.
Proof.
  intros bl bl' Ht Hu Hmin Hal Hn. pose proof Ht as (Hs & Htot & _).
  pose proof (seg_used_block _ _ _ _ _ _ Hs) as Hut. unfold bl in Htot. rewrite total_app in Htot.
  simpl in Htot. apply tailed_zip in Ht as (Hpre & E & [Hn1 Hn2] & Ht). rewrite !Z.add_0_l in *.
  pose proof (seg_total _ _ _ _ Hpre) as (Hp1 & Hp2 & _). pose proof (zlen_nonneg pre).
  destruct (tailed_bounds _ _ _ _ Ht) as (Hb & _).
  unfold take_block. rewrite (bind_at _ _ _ _ E). cbn [next prev used].
  rewrite u64_id by mlia. unfold bl', split.
  destruct (Z.leb_spec (size + SIZEOF_STRUCT_MEM + MIN_SIZE_ALIGNED)
    (total pre + n - (total pre + SIZEOF_STRUCT_MEM))) as [Hle|Hgt].
  - rewrite (proj2 (Z.leb_le _ _)) by mlia. cbv zeta.
    set (n1 := SIZEOF_STRUCT_MEM + size). set (n2 := n - n1).
    replace (u32 (total pre + SIZEOF_STRUCT_MEM + size)) with (total pre + n1)
      by (rewrite u32_id; unfold is_u32; subst n1; mlia).
    replace (total pre + n) with (total pre + n1 + n2) in * by (subst n2; lia).
    rewrite bind_put. erewrite bind_alter.
    2:{ simpl. rewrite lookup_insert_ne by (subst n1; mlia). exact E. }
    assert (block_ok n1 ∧ block_ok n2) as [Hk1 Hk2] by (subst n1 n2; unfold block_ok; mlia).
    apply (tailed_cut_rest _ _ _ _ (last_off 0 0 pre) 1) in Ht; [|destruct Hk1, Hk2; mlia..].
    match goal with |- context [set_ram ?h (set_ram ?h0 s)] =>
      destruct (relink_unless_end (set_ram h (set_ram h0 s)) (total pre + n1 + n2) (total pre)
        (total pre + n1) post Ht) as (h' & E' & Hr) end.
    rewrite (bind_ret _ _ _ _ _ E'). eexists. split; [reflexivity|]. simpl.
    split; [by eapply (tailed_cut (ram s) h' pre n1 n2 true)|]. split; [done|].
    rewrite Hu. subst bl. rewrite !used_total_app in *. simpl in *.
    rewrite !u32_id by (unfold is_u32; try rewrite u32_id by (unfold is_u32; mlia);
      subst n1 n2; mlia). subst n1 n2. lia.
  - rewrite (proj2 (Z.leb_gt _ _)) by mlia.
    rewrite (bind_alter _ _ _ _ _ E). eexists. split; [reflexivity|]. simpl.
    split; [|split; [done|]].
    + apply tailed_zip. cbv zeta. rewrite !Z.add_0_l, lookup_insert_eq. split_and!; [|done..|].
      * apply seg_insert; [right; lia|done].
      * apply tailed_insert; [mlia|done].
    + rewrite Hu. subst bl. rewrite !used_total_app in *. simpl in *.
      rewrite !u32_id by (unfold is_u32; try rewrite u32_id by (unfold is_u32; mlia); mlia). lia.
Qed.

(** ** Allocation *)

Lemma mem_fuel_enough h off p bl : 0 ≤ off → tailed h off p bl → (length bl < MEM_FUEL)%nat.
Proof.
  intros Ho Ht. destruct (tailed_bounds _ _ _ _ Ht) as (_ & _ & _ & Hl).
  assert (MEM_FUEL = Z.to_nat 42667) as -> by reflexivity. mlia.
Qed.

Lemma first_free_split off bl :
  ∃ us rest, bl = us ++ rest ∧ Forall in_use us ∧ first_free off bl = off + total us ∧
    (rest = [] ∨ ∃ n rest', rest = (n, false) :: rest').
Proof.
  revert off. induction bl as [|[n []] bl IH]; intros off.
  - exists [], []. split_and!; [done|constructor|simpl; lia|by left].
  - destruct (IH (off + n)) as (us & rest & -> & Hus & E & Hr). exists ((n, true) :: us), rest.
    split_and!; [done|by constructor|simpl; rewrite E; lia|done].
  - exists [], ((n, false) :: bl). split_and!; [done|constructor|simpl; lia|by right; eauto].
Qed.

Lemma in_use_no_fit size us : Forall in_use us → Forall (λ b, fits size b = false) us.
Proof. apply Forall_impl. intros [n u]. unfold in_use, fits. simpl. by intros ->. Qed.

Lemma merged_split pre n size post :
  merged (pre ++ (n, false) :: post) = true → merged (pre ++ split size n ++ post) = true.
Proof.
  unfold merged. rewrite !merged_app. intros [Hp H]%andb_prop. apply andb_true_intro.
  split; [done|]. simpl in H. apply andb_prop in H as [_ H]. unfold split. destruct (_ <=? n); simpl.
  - by rewrite H.
  - by eapply merged_weaken.
Qed.

(** The pointer [lfree] after a block has been taken. *)
Lemma adjust_lfree us rest pre n size post s :
  Forall in_use us → (rest = [] ∨ ∃ m r, rest = (m, false) :: r) →
  rest = pre ++ (n, false) :: post →
  tailed (ram s) 0 0 ((us ++ pre) ++ split size n ++ post) → lfree s = total us →
  returns ((if total us + total pre =? lfree s then
     cur ← next_free MEM_FUEL (lfree s);
     set_lfree cur;;
     m ← at_ram cur;
     passert ((cur =? MEM_SIZE_ALIGNED) || (used m =? 0))
   else mret ()) s)
  (λ _ s', s' = mk_state (ram s) (first_free 0 ((us ++ pre) ++ split size n ++ post)) (stats s)).
Proof.
  intros Hus Hr Erest Ht Hl. pose proof Ht as (Hs & _ & _).
  rewrite <- app_assoc in *. apply seg_app in Hs as [Hsu Hs]. apply seg_app in Hs as [Hsp _].
  rewrite Z.add_0_l in *. pose proof (seg_total _ _ _ _ Hsu) as (Hu & _).
  pose proof (seg_total _ _ _ _ Hsp) as (Hp & _). pose proof (zlen_nonneg us).
  destruct (first_free_app 0 us (pre ++ split size n ++ post)) as [[_ ->]|[[] _]]; [|done].
  rewrite Z.add_0_l, Hl.
  destruct pre as [|[m u] pre].
  - cbn [total app]. rewrite Z.add_0_r, Z.eqb_refl. apply tailed_app in Ht as [_ Ht].
    rewrite Z.add_0_l in Ht. simpl in Ht.
    assert (0 ≤ total us) as H0 by mlia.
    rewrite (bind_ret _ _ _ _ _ (next_free_eq s MEM_FUEL _ _ _ H0 Ht
      (Nat.lt_le_incl _ _ (mem_fuel_enough _ _ _ _ H0 Ht)))).
    set (cur := first_free _ _).
    assert (∃ m, ram s !! cur = Some m ∧ (cur = MEM_SIZE_ALIGNED ∨ used m = 0)) as (m & E & Hm).
    { subst cur. by eapply first_free_header. }
    unfold set_lfree. rewrite bind_modify. rewrite (bind_at _ m) by done.
    assert ((cur =? MEM_SIZE_ALIGNED) || (used m =? 0) = true) as -> by lia. done.
  - simpl in Hp. rewrite zlen_cons in Hp. pose proof (zlen_nonneg pre).
    rewrite (proj2 (Z.eqb_neq _ _)) by (cbn [total]; mlia).
    destruct Hr as [->|(m' & r & ->)]; [done|]. injection Erest as <- <- _. cbn [app first_free].
    change (s = mk_state (ram s) (total us) (stats s)). rewrite <- Hl. by destruct s.
Qed.

Lemma land_align x : x mod 4 = 0 → Z.land x (MEM_ALIGNMENT - 1) = 0.
Proof. change (MEM_ALIGNMENT - 1) with (Z.ones 2). by rewrite Z.land_ones. Qed.

Lemma mem_malloc_returns s bl size :
  represents s bl → 0 < size ≤ 4294967292 →
  returns (mem_malloc size s) (λ r s',
    match a_malloc 0 (rounded size) bl with
    | Some (p, bl') => r = Some p ∧ represents s' bl'
    | None => r = None ∧ represents s' bl
    end).
Proof.
  intros Hrep Hsize. pose proof Hrep as [Ht Hl Hm Hu]. unfold mem_malloc. rewrite (proj2 (Z.eqb_neq _ _)) by lia. cbv zeta.
  change (if mem_align_size size <? MIN_SIZE_ALIGNED then MIN_SIZE_ALIGNED else mem_align_size size)
    with (rounded size).
  destruct (rounded_bounds size) as (_ & Hmin & Hal); [lia|]. generalize dependent (rounded size).
  clear Hsize size. intros size Hmin Hal.
  destruct (first_free_split 0 bl) as (us & rest & -> & Hus & Ef & Hr). rewrite Z.add_0_l in Ef.
  rewrite a_malloc_skip, Z.add_0_l by by apply in_use_no_fit. rewrite Ef in Hl.
  pose proof Ht as Htr. apply tailed_app in Htr as [Hsu Htr]. rewrite Z.add_0_l in Htr.
  pose proof (seg_total _ _ _ _ Hsu) as (Hu1 & Hu2 & _). pose proof (zlen_nonneg us).
  assert (0 ≤ total us) as H0 by mlia.
  destruct (a_malloc_cases (total us) size rest)
    as [[Hf ->]|(pre & n & post & -> & Hpre & Hn & ->)].
  - destruct (Z.ltb_spec MEM_SIZE_ALIGNED size) as [|Hmax]; [by split|].
    rewrite bind_get, Hl, (bind_ret _ _ _ _ _ (find_block_none s size Hmin MEM_FUEL _ _ _ H0 Htr Hf
      (Nat.lt_le_incl _ _ (mem_fuel_enough _ _ _ _ H0 Htr)))).
    split; [done|]. destruct Hrep. by split.
  - pose proof Htr as (Hsr & Htot & _). rewrite total_app in Htot. cbn [total] in Htot.
    apply seg_app in Hsr as [Hsp (_ & [Hn1 Hn2] & Hspost)].
    pose proof (seg_total _ _ _ _ Hsp) as (Hp1 & Hp2 & _). pose proof (zlen_nonneg pre).
    pose proof (seg_total _ _ _ _ Hspost) as (Hq1 & _ & _). pose proof (zlen_nonneg post).
    rewrite (proj2 (Z.ltb_ge _ _)) by mlia.
    assert (length pre < MEM_FUEL)%nat as Hfuel.
    { pose proof (mem_fuel_enough _ _ _ _ H0 Htr) as Hfu. rewrite length_app in Hfu. lia. }
    rewrite bind_get, Hl, (bind_ret _ _ _ _ _ (find_block_fit s size MEM_FUEL
      _ _ pre n post H0 Htr Hpre Hn Hfuel)).
    rewrite (app_assoc us pre) in Ht, Hu, Hm.
    destruct (take_block_spec s (us ++ pre) n size post Ht Hu Hmin Hal Hn) as (s1 & E1 & Ht1 & Hl1 & Hu1').
    rewrite total_app in E1. rewrite (bind_ret _ _ _ _ _ E1), bind_get.
    destruct (returns_inv _ _ (adjust_lfree us _ pre n size post s1 Hus Hr eq_refl Ht1
      (eq_trans Hl1 Hl))) as ([] & s2 & E2 & ->).
    rewrite (bind_ret _ _ _ _ _ E2), !bind_assert by
      (rewrite ?land_align; mlia || (apply Z.eqb_eq; mlia)).
    cbn [returns]. split; [do 2 f_equal; lia|]. rewrite (app_assoc us pre).
    split; [done|done|by eapply merged_split|done].
Qed.
End MemAlloc.
