(* ===== verification/MemFree.v ===== *)
(** * The heap: freeing and trimming

    [mem_free] marks the block as free and joins it to free neighbours;
    [mem_trim] gives the end of a block back. *)

From S2P Require Import Prelude Pbuf Mem MemHeap MemAlloc.

Module MemFree.
Import Pbuf Mem MemHeap MemAlloc.

(** ** Joining free blocks *)

Lemma plug_forward_eq s o p n post :
  0 ≤ o → tailed (ram s) o p ((n, false) :: post) → lfree s ≤ o →
  ∃ h', plug_forward o s = inr ((), set_ram h' s) ∧
    tailed h' o p (join (n, false) post) ∧ ∀ x, x < o → h' !! x = ram s !! x.
Proof.
  intros Ho Ht Hl. apply tailed_cons in Ht as (E & [Hn1 Hn2] & Ht).
  destruct (tailed_head _ _ _ _ Ht) as (nm & En & Eu & Ex & _).
  unfold plug_forward. rewrite (bind_at _ _ _ _ E). cbn [next prev used]. rewrite (bind_at _ _ _ _ En).
  rewrite Eu. rewrite (proj2 (Z.eqb_neq o (o + n))) by mlia.
  destruct post as [|[m []] post].
  1, 2: exists (ram s); split; [by destruct s|]; split; [by apply tailed_cons|done].
  pose proof Ht as Htb. apply tailed_cons in Ht as (_ & [Hm1 Hm2] & Ht).
  destruct (tailed_bounds _ _ _ _ Ht) as (Hb & _). cbn [negb Z.b2z andb].
  rewrite (proj2 (Z.eqb_neq (o + n) _)) by mlia. cbn [negb]. rewrite Z.eqb_refl. cbn [andb].
  rewrite bind_get, (proj2 (Z.eqb_neq (lfree s) _)), bind_mret by mlia.
  rewrite (bind_alter _ _ _ _ _ E), Ex. unfold with_next. cbn [next prev used].
  destruct (relink (set_ram (<[o := mk_mem (o + n + m) p 0]> (ram s)) s) (o + n + m) (o + n) o post)
    as (h' & E' & Ht' & Hx'); [apply tailed_insert; [mlia|done]|].
  exists h'. split; [exact E'|]. cbn in Hx'. split.
  - cbn [join]. apply tailed_cons. rewrite Hx', lookup_insert_eq, Z.add_assoc by mlia.
    split_and!; [done|unfold block_ok; mlia|done].
  - intros x Hx. rewrite Hx' by mlia. by rewrite lookup_insert_ne by lia.
Qed.

Lemma plug_backward_eq s pre n post :
  tailed (ram s) 0 0 (pre ++ (n, false) :: post) →
  (ends_free false pre = true → lfree s ≠ total pre) →
  merged pre = true → merged_after true post = true →
  ∃ h', plug_backward (total pre) s = inr ((), set_ram h' s) ∧
    tailed h' 0 0 (foldr join ((n, false) :: post) pre).
Proof.
  intros Ht Hl Hm Hp. pose proof Ht as Htz. apply tailed_zip in Htz as (Hs & E & Hn & Htp).
  rewrite !Z.add_0_l in *. unfold plug_backward. rewrite (bind_at _ _ _ _ E). cbn [next prev used].
  assert (ends_free false pre = false → foldr join ((n, false) :: post) pre = pre ++ (n, false) :: post)
    as Hj.
  { intros He. apply joined_app. unfold merged. rewrite merged_app, He. simpl. by rewrite Hp, andb_true_r. }
  destruct pre as [|[k u] pre' _] using rev_ind.
  { simpl. rewrite (bind_at _ _ _ _ E). cbn. exists (ram s). split; [by destruct s|done]. }
  rewrite ends_free_app in Hl, Hj. cbn [ends_free] in Hl, Hj.
  pose proof Ht as Htq. rewrite <- app_assoc in Htq. cbn [app] in Htq.
  apply tailed_zip in Htq as (Hs' & Eq & [Hk1 Hk2] & _). rewrite !Z.add_0_l in *.
  assert (last_off 0 0 (pre' ++ [(k, u)]) = total pre' ∧ total (pre' ++ [(k, u)]) = total pre' + k)
    as [El Et] by (rewrite last_off_snoc, total_app; simpl; lia).
  rewrite El, Et in *. rewrite (bind_at _ _ _ _ Eq). cbn [next prev used].
  rewrite (proj2 (Z.eqb_neq (total pre') _)) by mlia. cbn [negb andb].
  destruct u; cbn [Z.b2z Z.eqb negb].
  { exists (ram s). split; [by destruct s|]. by rewrite Hj. }
  rewrite bind_get, (proj2 (Z.eqb_neq (lfree s) _)), bind_mret by by apply Hl.
  rewrite (bind_alter _ _ _ _ _ Eq). unfold with_next. cbn [next prev used].
  destruct Hn as [Hn1 Hn2].
  destruct (relink (set_ram (<[total pre' := mk_mem (total pre' + k + n) (last_off 0 0 pre') 0]> (ram s)) s)
    (total pre' + k + n) (total pre' + k) (total pre') post) as (h' & E' & Ht' & Hx');
    [apply tailed_insert; [mlia|done]|].
  exists h'. split; [exact E'|]. cbn in Hx'. rewrite foldr_app. cbn [foldr join].
  rewrite joined_app.
  - apply tailed_zip. cbv zeta. rewrite !Z.add_0_l, !Z.add_assoc, Hx', lookup_insert_eq by mlia.
    split_and!; [|done|unfold block_ok; mlia|done].
    eapply seg_frame; [|exact Hs']. intros x Hx. rewrite Hx' by mlia. by rewrite lookup_insert_ne by mlia.
  - unfold merged in *. rewrite merged_app in *. cbn in *. by rewrite Hp.
Qed.

(** ** Freeing *)

Lemma in_use_ends f l : Forall in_use l → f = false → ends_free f l = false.
Proof.
  revert f. induction l as [|[n u] l IH]; intros f Hl Hf; simpl; [done|].
  apply list.Forall_cons in Hl as [Hu Hl]. unfold in_use in Hu. simpl in Hu. subst u. by apply IH.
Qed.

Lemma merged_mark f pre n post :
  merged_after f (pre ++ (n, true) :: post) = true →
  merged_after f pre = true ∧ merged_after false post = true.
Proof. rewrite merged_app. simpl. by intros [? ?]%andb_prop. Qed.

Lemma join_free_head n post :
  merged post = true →
  ∃ n' post', join (n, false) post = (n', false) :: post' ∧ merged_after true post' = true.
Proof.
  unfold merged. destruct post as [|[m []] post]; simpl; intros H; [by eauto..|].
  exists (n + m), post. done.
Qed.

(** The pointer [lfree] after a block has been marked as free. *)
Lemma lfree_mark h pre n post :
  seg h 0 0 (pre ++ (n, true) :: post) →
  let l := first_free 0 (pre ++ (n, true) :: post) in
  let l' := first_free 0 (pre ++ (n, false) :: post) in
  (l' = if total pre <? l then total pre else l) ∧ l' ≤ total pre ∧
  (ends_free false pre = true → l' ≠ total pre).
Proof.
  intros [Hs (_ & [Hn1 Hn2] & Hs2)]%seg_app. cbv zeta.
  pose proof (first_free_bounds _ _ _ _ Hs) as [Hb1 Hb2].
  pose proof (first_free_bounds _ _ _ _ Hs2) as [Hb3 _]. rewrite !Z.add_0_l in *.
  destruct (first_free_app 0 pre ((n, false) :: post)) as [[Hu ->]|[Hu Hf]].
  - destruct (first_free_app 0 pre ((n, true) :: post)) as [[_ ->]|[[] _]]; [|done]. simpl.
    rewrite Z.add_0_l. split; [|split; [lia|]].
    + destruct (Z.ltb_spec (total pre) (first_free (total pre + n) post)); [done|].
      mlia.
    + by rewrite (in_use_ends false) by done.
  - rewrite !Hf. apply Hb2 in Hu. rewrite (proj2 (Z.ltb_ge _ _)) by lia. lia.
Qed.

Lemma plug_holes_eq s pre n post :
  tailed (ram s) 0 0 (pre ++ (n, false) :: post) → lfree s ≤ total pre →
  (ends_free false pre = true → lfree s ≠ total pre) →
  merged pre = true → merged post = true →
  ∃ h', plug_holes (total pre) s = inr ((), set_ram h' s) ∧
    tailed h' 0 0 (joined (pre ++ (n, false) :: post)).
Proof.
  intros Ht Hl Hl' Hm Hp. pose proof Ht as Htz. apply tailed_zip in Htz as (Hs & E & [Hn1 Hn2] & Htp).
  rewrite !Z.add_0_l in *. destruct (tailed_bounds _ _ _ _ Htp) as (Hb & _).
  pose proof (seg_total _ _ _ _ Hs) as (Hs1 & _). pose proof (zlen_nonneg pre).
  unfold plug_holes. rewrite !bind_assert by mlia. rewrite (bind_at _ _ _ _ E). cbn [next prev used].
  rewrite !bind_assert by (done || mlia). apply tailed_app in Ht as [_ Ht]. rewrite Z.add_0_l in Ht.
  destruct (plug_forward_eq s (total pre) (last_off 0 0 pre) n post ltac:(mlia) Ht Hl)
    as (h1 & E1 & Ht1 & Hx1).
  rewrite (bind_ret _ _ _ _ _ E1).
  destruct (join_free_head n post Hp) as (n' & post' & Ej & Hp'). rewrite Ej in Ht1.
  destruct (plug_backward_eq (set_ram h1 s) pre n' post') as (h2 & E2 & Ht2); [|done..|].
  - apply tailed_app. rewrite Z.add_0_l. split; [|done]. by eapply seg_frame; [|exact Hs].
  - exists h2. split; [by rewrite E2|]. unfold joined. rewrite foldr_app. cbn [foldr].
    fold (joined post). by rewrite (joined_merged _ Hp), Ej.
Qed.

Lemma mem_free_returns s bl bl' p :
  represents s bl → a_free p bl = Some bl' →
  returns (mem_free (Some p) s) (λ _ s', represents s' bl').
Proof.
  intros [Ht Hl Hm Hu] (bl1 & (pre & n & post & -> & -> & ->)%a_mark_inv & ->)%fmap_Some.
  pose proof Ht as (Hseg & _ & _). pose proof (lfree_mark _ _ _ _ Hseg) as (El & Hle & Hne).
  pose proof (merged_mark _ _ _ _ Hm) as [Hm1 Hm2].
  apply tailed_zip in Ht as (Hs & E & Hn & Htp). pose proof Hn as [Hn1 Hn2]. rewrite !Z.add_0_l in *.
  destruct (tailed_bounds _ _ _ _ Htp) as (Hb & Hb2 & _).
  pose proof (seg_total _ _ _ _ Hs) as (Hs1 & Hs2 & _). pose proof (zlen_nonneg pre).
  unfold mem_free. rewrite !bind_assert by (rewrite ?land_align; mlia || (apply Z.eqb_eq; mlia)).
  cbv zeta. replace (total pre + SIZEOF_STRUCT_MEM - SIZEOF_STRUCT_MEM) with (total pre) by lia.
  rewrite (bind_at _ _ _ _ E), bind_assert by done. rewrite (bind_alter _ _ _ _ _ E), bind_get.
  unfold with_used. cbn [next prev used]. cbn [lfree set_ram].
  assert (∀ B (k : () → cmd B) s0, lfree s0 = lfree s →
    ((if total pre <? lfree s then set_lfree (total pre) else mret ()) ≫= k) s0
    = k () (mk_state (ram s0) (first_free 0 (pre ++ (n, false) :: post)) (stats s0))) as Hset.
  { intros B k s0 E0. rewrite El, <- Hl. destruct (total pre <? lfree s); [done|].
    rewrite bind_mret, <- E0. by destruct s0. }
  rewrite Hset by done. unfold MEM_STATS_DEC_USED. rewrite bind_modify. cbv zeta. cbn.
  match goal with |- returns (_ ?st) _ => destruct (plug_holes_eq st pre n post) as (h' & E' & Ht') end;
    [|done..|].
  { apply tailed_zip. cbv zeta. rewrite !Z.add_0_l. cbn. rewrite lookup_insert_eq.
    split_and!; [apply seg_insert; [right; lia|done]|done|done|apply tailed_insert; [mlia|done]]. }
  rewrite E'. cbn [returns]. split; [done|by rewrite first_free_joined|apply merged_joined|].
  cbn. rewrite used_total_joined, Hu, !used_total_app. cbn [used_total].
  pose proof Htp as (Hsp & Htot & _). pose proof (seg_total _ _ _ _ Hsp). pose proof (zlen_nonneg post).
  pose proof (seg_total _ _ _ _ Hs).
  rewrite (u32_id (total pre + n - total pre)) by (unfold is_u32; mlia).
  rewrite u32_id by (unfold is_u32; mlia). lia.
Qed.

(** ** Trimming *)

(** Where the lowest free block is when the block after [pre] is cut. *)
Lemma first_free_cut h pre n1 n2 n post post' :
  seg h 0 0 (pre ++ (n, true) :: post) → 0 < n1 < n →
  let l := first_free 0 (pre ++ (n, true) :: post) in
  let l' := first_free 0 (pre ++ (n1, true) :: (n2, false) :: post') in
  let ptr2 := total pre + n1 in
  l' = (if ptr2 <? l then ptr2 else l) ∧
  (∀ m post0, post = (m, false) :: post0 → l' = if l =? total pre + n then ptr2 else l).
Proof.
  intros [Hs (_ & [Hn1 Hn2] & Hs2)]%seg_app Hlt. cbv zeta.
  pose proof (first_free_bounds _ _ _ _ Hs) as [Hb1 Hb2].
  pose proof (first_free_bounds _ _ _ _ Hs2) as [Hb3 _]. rewrite !Z.add_0_l in *.
  destruct (first_free_app 0 pre ((n1, true) :: (n2, false) :: post')) as [[Hu ->]|[Hu Hf]].
  - destruct (first_free_app 0 pre ((n, true) :: post)) as [[_ ->]|[[] _]]; [|done]. simpl.
    rewrite !Z.add_0_l. split; [by rewrite (proj2 (Z.ltb_lt _ _)) by lia|].
    intros m post0 ->. simpl. by rewrite Z.eqb_refl.
  - rewrite !Hf. apply Hb2 in Hu. split.
    + destruct (Z.ltb_spec (total pre + n1) (first_free 0 pre)); [lia|done].
    + intros _ _ _. rewrite (proj2 (Z.eqb_neq _ _)) by mlia. done.
Qed.

(** The rest of a block that is cut becomes free. *)
Lemma trim_rest_returns {B} s pre n n1 n2 post q post' l' (x : B) :
  represents s (pre ++ (n, true) :: post) → block_ok n1 → n1 ≤ n → block_ok n2 →
  tailed (ram s) (total pre + n1 + n2) q post' →
  used_total post' = used_total post → merged_after true post' = true →
  l' = first_free 0 (pre ++ (n1, true) :: (n2, false) :: post') →
  returns ((trim_rest (total pre) (total pre + n1) (total pre + n1 + n2) (u32 (n - n1));; mret x)
             (mk_state (ram s) l' (stats s)))
    (λ r s', r = x ∧ represents s' (pre ++ (n1, true) :: (n2, false) :: post')).
Proof.
  intros [Ht _ Hm Hu] Hk1 Hle Hk2 Htp Hp Hm' Hl. pose proof Ht as (Hseg & Htot & _).
  pose proof (seg_total _ _ _ _ Hseg) as (_ & _ & Hb).
  pose proof Ht as (Hs & E & _ & _)%tailed_zip. rewrite !Z.add_0_l in *.
  pose proof Hk1 as [? ?]. pose proof Hk2 as [? ?].
  unfold trim_rest. rewrite bind_assoc, bind_put, bind_assoc.
  erewrite bind_alter; [|cbn; rewrite lookup_insert_ne by mlia; exact E].
  apply (tailed_cut_rest _ _ _ _ (last_off 0 0 pre) 1) in Htp; [|mlia..].
  match goal with |- context [set_ram ?h ?s0] => destruct (relink_unless_end (set_ram h s0)
    (total pre + n1 + n2) q (total pre + n1) post' Htp) as (h' & E' & Hr) end.
  rewrite bind_assoc, (bind_ret _ _ _ _ _ E'). cbn. split; [done|]. split; [|done| |].
  - by apply (tailed_cut (ram s) h' pre n1 n2 true).
  - apply merged_mark in Hm as [Hm _]. unfold merged. rewrite merged_app, Hm. simpl. by rewrite Hm'.
  - cbn. rewrite Hu. apply seg_app in Hseg as [Hs1 (_ & _ & Hs2)].
    pose proof (seg_total _ _ _ _ Hs1). pose proof (seg_total _ _ _ _ Hs2).
    pose proof (zlen_nonneg pre). pose proof (zlen_nonneg post).
    rewrite !used_total_app, ?total_app in *. cbn [used_total total] in *.
    rewrite (u32_id (n - n1)) by (unfold is_u32; mlia).
    rewrite u32_id by (unfold is_u32; mlia). lia.
Qed.

(** Setting [lfree] on the way. *)
Lemma bind_set_lfree {B} (b : bool) (p l' : Z) (k : () → cmd B) s :
  l' = (if b then p else lfree s) →
  ((if b then set_lfree p else mret ()) ≫= k) s = k () (mk_state (ram s) l' (stats s)).
Proof. intros ->. destruct b; [done|]. rewrite bind_mret. by destruct s. Qed.

(** The end of [mem_trim]: what happens depends on the block behind. *)
Lemma trim_cases s pre n n1 post (p : Z) :
  represents s (pre ++ (n, true) :: post) → block_ok n → block_ok n1 → 0 < n1 < n →
  tailed (ram s) (total pre + n) (total pre) post → merged post = true →
  returns ((if match post with (_, u) :: _ => Z.b2z u | [] => 1 end =? 0 then
     s0 ← pget;
     (if lfree s0 =? total pre + n then set_lfree (total pre + n1) else mret ());;
     trim_rest (total pre) (total pre + n1)
       match post with (m, _) :: _ => total pre + n + m | [] => MEM_SIZE_ALIGNED end
       (u32 (n - n1));; mret (Some p)
   else if n1 + SIZEOF_STRUCT_MEM + MIN_SIZE_ALIGNED <=? n then
     s0 ← pget;
     (if total pre + n1 <? lfree s0 then set_lfree (total pre + n1) else mret ());;
     trim_rest (total pre) (total pre + n1) (total pre + n) (u32 (n - n1));; mret (Some p)
   else mret (Some p)) s)
  (λ r s', r = Some p ∧ represents s' (pre ++
     match post with
     | (m, false) :: post' => (n1, true) :: (n - n1 + m, false) :: post'
     | _ => if n1 + SIZEOF_STRUCT_MEM + MIN_SIZE_ALIGNED <=? n
            then (n1, true) :: (n - n1, false) :: post else (n, true) :: post
     end)).
Proof.
  intros Hrep [Hn1 Hn2] Hk Hlt Ht Hm. pose proof Hrep as [(Hseg & _) Hl _ _].
  assert ((∃ m post', post = (m, false) :: post') ∨ ¬ ∃ m post', post = (m, false) :: post')
    as [(m & post' & ->)|Hno].
  { destruct post as [|[m []] post]; [by right; intros (? & ? & ?)..|by left; eauto]. }
  - cbn [Z.b2z Z.eqb]. rewrite bind_get.
    destruct (first_free_cut _ pre n1 (n - n1 + m) n _ post' Hseg Hlt) as [_ Hf].
    erewrite bind_set_lfree by (rewrite Hl; by eapply Hf).
    apply tailed_cons in Ht as (_ & [Hm1 Hm2] & Ht).
    replace (total pre + n + m) with (total pre + n1 + (n - n1 + m)) in * by lia.
    eapply trim_rest_returns; try done; [lia|destruct Hk; unfold block_ok; mlia].
  - replace (match post with (_, u) :: _ => Z.b2z u | [] => 1 end) with 1
      by (destruct post as [|[m []] post]; [done..|]; by destruct Hno; eauto).
    match goal with |- context [pre ++ ?x] => replace x with
      (if n1 + SIZEOF_STRUCT_MEM + MIN_SIZE_ALIGNED <=? n
       then (n1, true) :: (n - n1, false) :: post else (n, true) :: post)
      by (destruct post as [|[m []] post]; [done..|]; by destruct Hno; eauto) end.
    cbn [Z.eqb]. destruct (Z.leb_spec (n1 + SIZEOF_STRUCT_MEM + MIN_SIZE_ALIGNED) n) as [Hle|]; [|by split].
    rewrite bind_get. destruct (first_free_cut _ pre n1 (n - n1) n _ post Hseg Hlt) as [Hf _].
    erewrite bind_set_lfree by (rewrite Hl; exact Hf).
    replace (total pre + n) with (total pre + n1 + (n - n1)) in * by lia.
    eapply trim_rest_returns; try done; [lia|destruct Hk; unfold block_ok; mlia|].
    unfold merged in Hm. destruct post as [|[m []] post]; [done..|]; by destruct Hno; eauto.
Qed.

Lemma mem_trim_returns s bl bl' p newsize :
  represents s bl → 0 ≤ newsize ≤ 4294967292 → a_trim 0 p (rounded newsize) bl = Some bl' →
  returns (mem_trim p newsize s) (λ r s', r = Some p ∧ represents s' bl').
Proof.
  intros Hrep Hsize. unfold mem_trim. cbv zeta.
  change (if mem_align_size newsize <? MIN_SIZE_ALIGNED then MIN_SIZE_ALIGNED
    else mem_align_size newsize) with (rounded newsize).
  destruct (rounded_bounds newsize) as (_ & Hmin & Hal); [lia|].
  generalize dependent (rounded newsize). clear Hsize newsize. intros r Hmin Hal.
  intros (pre & n & post & -> & -> & -> & Hr)%a_trim_inv. rewrite Z.add_0_l.
  pose proof Hrep as [Ht Hl Hm Hu]. pose proof Ht as (Hseg & _ & _).
  pose proof (merged_mark _ _ _ _ Hm) as [_ Hm2].
  apply tailed_zip in Ht as (Hs & E & Hn & Htp). pose proof Hn as [Hn1 Hn2]. rewrite !Z.add_0_l in *.
  destruct (tailed_bounds _ _ _ _ Htp) as (Hb & _).
  destruct (tailed_head _ _ _ _ Htp) as (m2 & E2 & Eu & Ex & _).
  pose proof (seg_total _ _ _ _ Hs) as (Hs1 & _). pose proof (zlen_nonneg pre).
  rewrite (proj2 (Z.ltb_ge _ _)), bind_assert by mlia.
  replace (u32 (total pre + SIZEOF_STRUCT_MEM - SIZEOF_STRUCT_MEM)) with (total pre)
    by (rewrite u32_id; unfold is_u32; mlia).
  rewrite (bind_at _ _ _ _ E). cbn [next prev used].
  replace (u32 (total pre + n - total pre - SIZEOF_STRUCT_MEM)) with (n - SIZEOF_STRUCT_MEM)
    by (rewrite u32_id; unfold is_u32; mlia).
  rewrite bind_assert by mlia. unfold trimmed. cbv zeta. set (n1 := SIZEOF_STRUCT_MEM + r) in *.
  replace (r =? n - SIZEOF_STRUCT_MEM) with (n1 =? n) by (subst n1; lia).
  destruct (Z.eqb_spec n1 n) as [->|Hne]; [by split|]. rewrite (bind_at _ _ _ _ E2).
  replace (u32 (total pre + SIZEOF_STRUCT_MEM + r)) with (total pre + n1)
    by (subst n1; rewrite u32_id; unfold is_u32; mlia).
  assert (block_ok n1) as Hk1 by (subst n1; unfold block_ok; mlia).
  assert (0 < n1 < n) as Hlt by (destruct Hk1; subst n1; mlia).
  replace (n - SIZEOF_STRUCT_MEM - r) with (n - n1) by (subst n1; lia).
  replace (r + SIZEOF_STRUCT_MEM + MIN_SIZE_ALIGNED <=? n - SIZEOF_STRUCT_MEM)
    with (n1 + SIZEOF_STRUCT_MEM + MIN_SIZE_ALIGNED <=? n) by (subst n1; lia).
  clearbody n1. rewrite Eu, Ex. by apply trim_cases.
Qed.
End MemFree.
