(* ===== verification/MemProps.v ===== *)
(** * The heap as an allocator

    The operations of [core/mem.c] implement an abstract allocator, which only
    knows the memory that its clients hold. *)

From S2P Require Import Prelude Pbuf Mem MemHeap MemAlloc MemFree.

Module MemProps.
Import Pbuf Mem MemHeap MemAlloc MemFree.

(** ** The abstract allocator *)

Inductive heap_op := Malloc (n : Z) | Free (p : Z) | Trim (p n : Z).

(** Pointers with the bytes that they may be used for. *)
Abbreviation holding := (list (Z * Z)).

(** The memory at [p] is in the heap, aligned, and nobody else's. *)
Definition fresh (p m : Z) (A : holding) : Prop :=
  0 ≤ p ∧ p + m ≤ MEM_SIZE_ALIGNED ∧ p mod MEM_ALIGNMENT = 0 ∧
  Forall (λ x, p + m ≤ x.1 ∨ x.1 + x.2 ≤ p) A.

Inductive heap_step (A : holding) : heap_op → option Z → holding → Prop :=
  | step_malloc n p m A' :
      n ≤ m → fresh p m A → A' ≡ₚ (p, m) :: A → heap_step A (Malloc n) (Some p) A'
  | step_nomem n : heap_step A (Malloc n) None A
  | step_free p m A' : A ≡ₚ (p, m) :: A' → heap_step A (Free p) None A'
  | step_trim p m n m' A0 A' :
      A ≡ₚ (p, m) :: A0 → n ≤ m' ≤ m → A' ≡ₚ (p, m') :: A0 → heap_step A (Trim p n) (Some p) A'.

(** What a client may ask for: it frees and trims what it holds, and makes
    memory smaller only; sizes do not wrap around. *)
Definition legal (A : holding) (op : heap_op) : Prop :=
  match op with
  | Malloc n => 0 < n ≤ 4294967292
  | Free p => ∃ m, (p, m) ∈ A
  | Trim p n => 0 ≤ n ≤ 4294967292 ∧ ∃ m, (p, m) ∈ A ∧ rounded n ≤ m
  end.

Definition run_op (op : heap_op) : cmd (option Z) :=
  match op with
  | Malloc n => mem_malloc n
  | Free p => mem_free (Some p);; mret None
  | Trim p n => mem_trim p n
  end.

(** ** What blocks hold *)

Lemma allocs_app off l1 l2 : allocs off (l1 ++ l2) = allocs off l1 ++ allocs (off + total l1) l2.
Proof.
  revert off. induction l1 as [|[n u] l1 IH]; intros off; simpl; [by rewrite Z.add_0_r|].
  by rewrite IH, Z.add_assoc, <- app_assoc.
Qed.

Lemma allocs_joined off l : allocs off (joined l) = allocs off l.
Proof.
  revert off. induction l as [|[n u] l IH]; intros off; [done|]. simpl. rewrite <- IH.
  unfold joined. simpl. destruct u; simpl; [done|].
  destruct (foldr join [] l) as [|[m []] l']; simpl; [done..|]. by rewrite Z.add_assoc.
Qed.

Lemma allocs_range h off p bl :
  seg h off p bl → Forall (λ x, off + SIZEOF_STRUCT_MEM ≤ x.1 ∧ x.1 + x.2 ≤ off + total bl) (allocs off bl).
Proof.
  revert off p. induction bl as [|[n u] bl IH]; intros off p; simpl; [by constructor|].
  intros (_ & [Hn1 Hn2] & H). apply Forall_app. pose proof (seg_total _ _ _ _ H). pose proof (zlen_nonneg bl).
  split; [destruct u; repeat constructor; simpl; mlia|].
  eapply list.Forall_impl; [by eapply IH|]. intros [q k]. simpl. mlia.
Qed.

(** The memory of a block, and what is held in others. *)
Lemma block_fresh h pre n u post m :
  tailed h 0 0 (pre ++ (n, u) :: post) → 0 ≤ m ≤ n - SIZEOF_STRUCT_MEM →
  fresh (total pre + SIZEOF_STRUCT_MEM) m (allocs 0 pre ++ allocs (total pre + n) post).
Proof.
  intros (Hs & E & [Hn1 Hn2] & Ht)%tailed_zip Hm. rewrite !Z.add_0_l in *.
  destruct (seg_total _ _ _ _ Hs) as (Hs1 & Hs2 & _). pose proof (zlen_nonneg pre).
  destruct (tailed_bounds _ _ _ _ Ht) as (Hb & _). pose proof Ht as (Hs' & _ & _).
  unfold fresh. split_and!; [mlia..|]. apply Forall_app. split.
  - eapply list.Forall_impl; [by eapply allocs_range|]. intros [q k]. simpl. mlia.
  - eapply list.Forall_impl; [by eapply allocs_range|]. intros [q k]. simpl. mlia.
Qed.

Lemma allocs_elem off p m bl :
  (p, m) ∈ allocs off bl →
  ∃ pre n post, bl = pre ++ (n, true) :: post ∧ p = off + total pre + SIZEOF_STRUCT_MEM ∧
    m = n - SIZEOF_STRUCT_MEM.
Proof.
  revert off. induction bl as [|[n u] bl IH]; intros off; simpl; [by intros ?%not_elem_of_nil|].
  intros [Hin|(pre & k & post & -> & -> & ->)%IH]%elem_of_app.
  - destruct u; [|by apply not_elem_of_nil in Hin]. apply list_elem_of_singleton in Hin as [= -> ->].
    exists [], n, bl. simpl. split_and!; [done|lia|done].
  - exists ((n, u) :: pre), k, post. simpl. split_and!; [done|lia|done].
Qed.

Lemma allocs_zip off pre n u post :
  allocs off (pre ++ (n, u) :: post) =
  allocs off pre ++ (if u : bool then [(off + total pre + SIZEOF_STRUCT_MEM, n - SIZEOF_STRUCT_MEM)] else [])
    ++ allocs (off + total pre + n) post.
Proof. by rewrite allocs_app. Qed.

(** ** Simulation *)

Lemma split_allocs o size k :
  SIZEOF_STRUCT_MEM + size ≤ k →
  ∃ m, size ≤ m ≤ k - SIZEOF_STRUCT_MEM ∧ total (split size k) = k ∧
    allocs o (split size k) = [(o + SIZEOF_STRUCT_MEM, m)].
Proof.
  intros Hk. unfold split.
  destruct (_ <=? k); [exists size|exists (k - SIZEOF_STRUCT_MEM)]; simpl;
    (split; [lia|]); (split; [lia|]); [do 3 f_equal; lia|done].
Qed.

Lemma trimmed_allocs o r k post :
  SIZEOF_STRUCT_MEM + r ≤ k →
  ∃ m, r ≤ m ≤ k - SIZEOF_STRUCT_MEM ∧
    allocs o (trimmed r k post) = (o + SIZEOF_STRUCT_MEM, m) :: allocs (o + k) post.
Proof.
  intros Hk. unfold trimmed. cbv zeta. destruct (Z.eqb_spec (SIZEOF_STRUCT_MEM + r) k) as [|Hne].
  { exists (k - SIZEOF_STRUCT_MEM). split; [lia|done]. }
  assert (∀ j post', allocs o ((SIZEOF_STRUCT_MEM + r, true)
      :: (k - (SIZEOF_STRUCT_MEM + r) + j, false) :: post')
    = (o + SIZEOF_STRUCT_MEM, r) :: allocs (o + k + j) post') as E.
  { intros j post'. simpl. f_equal; [f_equal; lia|]. f_equal. lia. }
  assert (∀ post', ∃ m, r ≤ m ≤ k - SIZEOF_STRUCT_MEM ∧
    allocs o (if SIZEOF_STRUCT_MEM + r + SIZEOF_STRUCT_MEM + MIN_SIZE_ALIGNED <=? k
      then (SIZEOF_STRUCT_MEM + r, true) :: (k - (SIZEOF_STRUCT_MEM + r), false) :: post'
      else (k, true) :: post')
    = (o + SIZEOF_STRUCT_MEM, m) :: allocs (o + k) post') as E'.
  { intros post'. destruct (_ <=? k).
    - exists r. split; [lia|]. specialize (E 0 post'). by rewrite !Z.add_0_r in E.
    - exists (k - SIZEOF_STRUCT_MEM). split; [lia|done]. }
  destruct post as [|[j []] post]; [apply E'..|]. exists r. split; [lia|]. apply E.
Qed.

Lemma sim_malloc s bl n :
  represents s bl → 0 < n ≤ 4294967292 →
  returns (mem_malloc n s) (λ r s',
    ∃ bl', represents s' bl' ∧ heap_step (allocs 0 bl) (Malloc n) r (allocs 0 bl')).
Proof.
  intros Hrep Hn. eapply returns_mono; [by apply mem_malloc_returns|]. intros r s'. cbv beta.
  destruct (rounded_bounds n) as (Hr & Hmin & _); [lia|].
  destruct (a_malloc_cases 0 (rounded n) bl) as [[_ ->]|(pre & k & post & -> & _ & Hk & ->)].
  { intros [-> Hr']. exists bl. split; [done|]. constructor. }
  intros [-> Hr']. eexists. split; [done|]. rewrite Z.add_0_l.
  destruct (split_allocs (total pre) (rounded n) k Hk) as (m & Hm & Et & Ea).
  assert (allocs 0 (pre ++ (k, false) :: post) = allocs 0 pre ++ allocs (total pre + k) post) as E
    by by rewrite allocs_zip, Z.add_0_l.
  apply (step_malloc _ _ _ m); [lia| |].
  - rewrite E. eapply block_fresh; [apply Hrep|mlia].
  - rewrite E, !allocs_app, !Z.add_0_l, Et, Ea. simpl. solve_Permutation.
Qed.

Lemma sim_free s bl p m :
  represents s bl → (p, m) ∈ allocs 0 bl →
  returns (mem_free (Some p) s) (λ _ s',
    ∃ bl', represents s' bl' ∧ heap_step (allocs 0 bl) (Free p) None (allocs 0 bl')).
Proof.
  intros Hrep (pre & n & post & -> & -> & ->)%allocs_elem. pose proof Hrep as [(Hs & _) _ _ _].
  apply seg_app in Hs as [Hs _]. pose proof (a_mark_at _ _ _ _ n post Hs) as Em.
  eapply returns_mono; [eapply mem_free_returns; [done|unfold a_free; by rewrite Em]|].
  intros [] s' Hr. eexists. split; [done|]. apply (step_free _ _ (n - SIZEOF_STRUCT_MEM)).
  rewrite allocs_joined, !allocs_zip. simpl. solve_Permutation.
Qed.

Lemma sim_trim s bl p n m :
  represents s bl → 0 ≤ n ≤ 4294967292 → (p, m) ∈ allocs 0 bl → rounded n ≤ m →
  returns (mem_trim p n s) (λ r s',
    ∃ bl', represents s' bl' ∧ heap_step (allocs 0 bl) (Trim p n) r (allocs 0 bl')).
Proof.
  intros Hrep Hn (pre & k & post & -> & -> & ->)%allocs_elem Hm. pose proof Hrep as [(Hs & _) _ _ _].
  apply seg_app in Hs as [Hs _]. destruct (rounded_bounds n) as (Hr & _); [lia|].
  eapply returns_mono; [eapply mem_trim_returns; [done|done|eapply a_trim_at; [done|lia]]|].
  intros r s' [-> Hr']. eexists. split; [done|].
  destruct (trimmed_allocs (total pre) (rounded n) k post) as (m' & Hm' & E); [lia|].
  rewrite Z.add_0_l.
  apply (step_trim _ _ (k - SIZEOF_STRUCT_MEM) _ m' (allocs 0 pre ++ allocs (total pre + k) post));
    [|lia|].
  - rewrite allocs_zip, Z.add_0_l. solve_Permutation.
  - rewrite allocs_app, Z.add_0_l, E. solve_Permutation.
Qed.

(** ** Theorems *)

(** The headers of [s] are those of blocks that hold exactly [A]. *)
Definition implements (s : mem_state) (A : holding) : Prop :=
  ∃ bl, represents s bl ∧ allocs 0 bl = A.

(** The state at the start of the program, after [mem_init]. *)
Definition zero_state : mem_state := mk_state ∅ 0 (mk_stats 0 0 0 0).
Definition initial_heap : mem_state :=
  mk_state (<[MEM_SIZE_ALIGNED := mk_mem MEM_SIZE_ALIGNED MEM_SIZE_ALIGNED 1]>
             (<[0 := mk_mem MEM_SIZE_ALIGNED 0 0]> ∅)) 0 (mk_stats MEM_SIZE_ALIGNED 0 0 0).

Lemma mem_init_eq : mem_init zero_state = inr ((), initial_heap).
Proof. done. Qed.

Lemma initial_represents : represents initial_heap [(MEM_SIZE_ALIGNED, false)].
Proof.
  split; [|done..]. apply tailed_cons. cbn [initial_heap ram].
  rewrite lookup_insert_ne, lookup_insert_eq by done. split; [done|].
  split; [done|]. split; [done|]. split; [done|]. eexists. by rewrite lookup_insert_eq.
Qed.

Lemma initial_implements : implements initial_heap [].
Proof. exists [(MEM_SIZE_ALIGNED, false)]. split; [apply initial_represents|done]. Qed.

(** C4: The heap refines an abstract allocator that only knows who holds which
    memory.  Whatever a client may ask for in a state that holds [A], the
    operation returns without an assertion failing or a bad access, and its
    effect is a step of the abstract allocator: new memory is aligned, inside the
    heap, at least as long as asked for and overlaps nothing that is held; memory
    that is freed is given up and nothing else changes; memory that is trimmed
    stays where it is. *)
Theorem mem_refines_allocator s A op :
  implements s A → legal A op →
  returns (run_op op s) (λ r s', ∃ A', heap_step A op r A' ∧ implements s' A').
Proof.
  intros (bl & Hrep & <-) Hop. destruct op as [n|p|p n]; simpl in Hop |- *.
  - eapply returns_mono; [by apply sim_malloc|]. intros r s' (bl' & Hr' & Hstep).
    exists (allocs 0 bl'). split; [done|]. by exists bl'.
  - destruct Hop as [m Hm]. eapply returns_bind; [by eapply sim_free|].
    intros [] s' (bl' & Hr' & Hstep).
    exists (allocs 0 bl'). split; [done|]. by exists bl'.
  - destruct Hop as (Hn & m & Hm & Hr). eapply returns_mono; [by eapply sim_trim|].
    intros r s' (bl' & Hr' & Hstep).
    exists (allocs 0 bl'). split; [done|]. by exists bl'.
Qed.

Lemma mem_refines_allocator_witness :
  returns (run_op (Malloc 100) initial_heap)
    (λ r s', ∃ A', heap_step [] (Malloc 100) r A' ∧ implements s' A').
Proof.
  refine (mem_refines_allocator initial_heap [] (Malloc 100) initial_implements _).
  by vm_compute.
Defined.

(** A heap in which nothing is held is one free block. *)
Lemma nothing_held bl :
  merged bl = true → allocs 0 bl = [] → total bl = MEM_SIZE_ALIGNED →
  bl = [(MEM_SIZE_ALIGNED, false)].
Proof.
  destruct bl as [|[n []] [|[m []] bl]]; cbn; try done.
  intros _ _ Ht. by rewrite Z.add_0_r in Ht; rewrite Ht.
Qed.

(** When everything has been freed, however the heap was used before, no
    memory has leaked and none is lost to fragmentation: the statistics count no
    byte in use, and a request for any size up to the whole heap succeeds. *)
Theorem mem_heap_recovers s n :
  implements s [] → 0 < n ≤ MEM_SIZE_ALIGNED - SIZEOF_STRUCT_MEM →
  st_used (stats s) = 0 ∧ returns (mem_malloc n s) (λ r _, r = Some SIZEOF_STRUCT_MEM).
Proof.
  intros (bl & Hrep & Ha) Hn. pose proof Hrep as [(_ & Ht & _) _ Hm Hu].
  rewrite (nothing_held bl Hm Ha Ht) in *. split; [done|].
  eapply returns_mono; [apply mem_malloc_returns; [done|mlia]|]. intros r s'. cbv beta.
  destruct (rounded_bounds n) as (Hr & _ & H4); [mlia|]. simpl. unfold fits. simpl.
  rewrite (proj2 (Z.leb_le _ _)) by mlia. by intros [-> _].
Qed.

Lemma mem_heap_recovers_witness :
  st_used (stats initial_heap) = 0 ∧
  returns (mem_malloc 1000000 initial_heap) (λ r _, r = Some SIZEOF_STRUCT_MEM).
Proof. refine (mem_heap_recovers initial_heap 1000000 initial_implements _). by vm_compute. Defined.

(** Freeing what was just allocated puts the blocks back. *)
Lemma joined_split pre n size post :
  merged (pre ++ (n, false) :: post) = true →
  joined (pre ++ ((λ b, (b.1, false)) <$> split size n) ++ post) = pre ++ (n, false) :: post.
Proof.
  intros Hm. pose proof Hm as Hm'. unfold merged in Hm'. rewrite merged_app in Hm'.
  apply andb_prop in Hm' as [_ Hp]. cbn in Hp. apply andb_prop in Hp as [_ Hp].
  unfold joined. rewrite !foldr_app. fold (joined post).
  rewrite (joined_merged post) by by eapply merged_weaken.
  assert (foldr join post ((λ b, (b.1, false)) <$> split size n) = (n, false) :: post) as ->;
    [|by apply joined_app].
  assert (∀ k, join (k, false) post = (k, false) :: post) as Hj
    by (intros k; by destruct post as [|[m []] post]).
  unfold split. destruct (_ <=? n); cbn [fmap list_fmap foldr fst]; rewrite Hj; [|done].
  cbn. do 2 f_equal. lia.
Qed.

(** [mem_free] undoes [mem_malloc]: freeing memory that was just allocated
    gives the same blocks as before, whether the allocation split a block or
    took a whole one. *)
Theorem mem_malloc_free s bl n p s1 :
  represents s bl → 0 < n ≤ 4294967292 → mem_malloc n s = inr (Some p, s1) →
  returns (mem_free (Some p) s1) (λ _ s', represents s' bl).
Proof.
  intros Hrep Hn E. pose proof (mem_malloc_returns s bl n Hrep Hn) as Hr. rewrite E in Hr. cbn in Hr.
  destruct (a_malloc_cases 0 (rounded n) bl) as [[_ Ea]|(pre & k & post & -> & _ & Hk & Ea)];
    rewrite Ea in Hr; [by destruct Hr|]. destruct Hr as [[= ->] Hrep1].
  eapply mem_free_returns; [done|]. unfold a_free.
  pose proof Hrep1 as [(Hs & _) _ _ _]. apply seg_app in Hs as [Hs _]. rewrite Z.add_0_l.
  rewrite <- (joined_split pre k (rounded n) post) by apply Hrep. unfold split.
  destruct (_ <=? k); cbn [app]; rewrite <- (Z.add_0_l (total pre)), (a_mark_at _ _ _ _ _ _ Hs); done.
Qed.

Definition after_100 : mem_state :=
  match mem_malloc 100 initial_heap with inr (_, s) => s | inl _ => initial_heap end.

Lemma mem_malloc_free_witness :
  returns (mem_free (Some 12) after_100) (λ _ s', represents s' [(MEM_SIZE_ALIGNED, false)]).
Proof.
  refine (mem_malloc_free initial_heap [(MEM_SIZE_ALIGNED, false)] 100 12 after_100
    initial_represents _ _); by vm_compute.
Defined.

(** The rounding of a size wraps around at 32 bits.  A request for one of the
    three largest sizes is served with a block of the minimal size, and
    [mem_calloc] multiplies without a check, so that a request for more than 4 GiB
    is served with less memory than asked for. *)
Theorem mem_malloc_size_wraps s size count n :
  4294967293 ≤ size ≤ 4294967295 →
  mem_malloc size s = mem_malloc MIN_SIZE s ∧
  mem_calloc count n s = mem_malloc (count * n mod 4294967296) s.
Proof.
  intros Hs. split; [|done]. unfold mem_malloc.
  assert (size = 4294967293 ∨ size = 4294967294 ∨ size = 4294967295) as [-> | [-> | ->]] by lia;
    reflexivity.
Qed.

Lemma mem_malloc_size_wraps_witness :
  mem_malloc 4294967295 initial_heap = mem_malloc MIN_SIZE initial_heap ∧
  mem_calloc 65536 65537 initial_heap = mem_malloc (65536 * 65537 mod 4294967296) initial_heap.
Proof. refine (mem_malloc_size_wraps initial_heap 4294967295 65536 65537 _). by vm_compute. Defined.
End MemProps.
