(* ===== verification/Ocp.v ===== *)
(** * ocproxy: state and utilities ([src/ocproxy.c])

    The pool of [struct ocp_sock], the globals, and the world they live in:
    the resolver, the packet buffers, the TCP stack, and a trace of the system
    calls and of the data handed to the stack.

    What is outside the program is a parameter: the results of system calls
    ([env]) and the operations of the TCP stack ([TcpApi], an interface to
    [lwip/src/core/tcp*.c]).  A pool slot is live or free; a free slot was
    overwritten with [0xdd], and the use of its fields is a fault. *)

From S2P Require Import Prelude Def Ip4Addr Dns Pbuf.

Module Ocp.
Import Def Ip4Addr Dns Pbuf.

(** ** Types *)

Inductive sock_state :=
  | STATE_NEW | STATE_SOCKS_AUTH | STATE_SOCKS_CMD | STATE_DNS | STATE_CONNECTING
  | STATE_DATA | STATE_DEAD.
Inductive conn_kind := CONN_TYPE_REDIR | CONN_TYPE_SOCKS.

#[export] Instance sock_state_eq_dec : EqDecision sock_state.
Proof. solve_decision. Defined.
#[export] Instance conn_kind_eq_dec : EqDecision conn_kind.
Proof. solve_decision. Defined.

Definition SOCKBUF_LEN : Z := 2048.
Definition MAX_IOVEC : Z := 128.
Definition MAX_CONN : nat := 1024.
Definition SOCKS_VER : Z := 0x05.
Definition SOCKS_CMD_CONNECT : Z := 0x01.
Definition SOCKS_OK : Z := 0x00.
Definition SOCKS_HOST_UNREACHABLE : Z := 0x04.
Definition SOCKS_CONNREFUSED : Z := 0x05.
Definition SOCKS_CMDNOTSUPP : Z := 0x07.
Definition SOCKS_ADDRNOTSUPP : Z := 0x08.
Definition SOCKS_ATYP_IPV4 : Z := 0x01.
Definition SOCKS_ATYP_DOMAIN : Z := 0x03.
Definition TCP_SND_QUEUELEN : Z := 4 * 65534 / 1024.

(** The callbacks of libevent events, and those passed to the resolver. *)
Inductive ev_cb := Local_data_cb | Socks_cmd_cb | Lwip_data_cb.
Inductive dns_cb := Finish_resolution | Retry_resolution.
Inductive timer_cb := Cb_tcp_tmr | Cb_dns_tmr | Cb_housekeeping.

#[export] Instance ev_cb_eq_dec : EqDecision ev_cb.
Proof. solve_decision. Defined.
#[export] Instance dns_cb_eq_dec : EqDecision dns_cb.
Proof. solve_decision. Defined.

(** A [struct event] for reading, which has to be added again after it fired. *)
Record event := mk_event { ev_call : option ev_cb; ev_pending : bool }.

(** An address of a [struct tcp_pcb]. *)
Definition pcb : Type := positive.

Record ocp_sock := mk_sock {
  s_fd : Z;
  s_listener : bool;
  s_ev : option event;
  s_tpcb : option pcb;
  s_state : sock_state;
  s_conn_type : conn_kind;
  s_next : option nat;
  s_done_len : Z;
  s_lwip_blocked : bool;
  s_sock_pos : Z;
  s_sockbuf : bytes;
  s_lport : Z;
  s_bind_addr : option bytes;
  s_listen_cb : bool;             (** [new_conn_cb] or NULL *)
  s_rhost_name : option bytes;
  s_rhost : Z;
  s_rport : Z;
  s_netif : bool                  (** the VPN interface or NULL *)
}.

(** After [memset(s, 0, sizeof( *s))]. *)
Definition sock_zero : ocp_sock :=
  mk_sock 0 false None None STATE_NEW CONN_TYPE_REDIR None 0 false 0
    (replicate (Z.to_nat SOCKBUF_LEN) 0) 0 None false None 0 0 false.

(** An element of [ocp_sock_pool]. *)
Inductive slot := Live (s : ocp_sock) | Free (next : option nat).

(** System calls and what they returned ([None]: -1), and what was handed to
    the TCP stack. *)
Inductive io :=
  | Read (fd n : Z) (r : option bytes)
  | Write (fd : Z) (d : bytes) (r : option Z)
  | Writev (fd : Z) (d : list bytes) (r : option Z)
  | Close (fd : Z)
  | Connect (addr port : Z)
  | Queued (d : bytes)            (** accepted by [tcp_write] *)
  | Recved (n : Z)                (** [tcp_recved] *)
  | Stat (name : string)          (** a link statistics counter *)
  | Listen (addr port : Z)        (** [evconnlistener_new_bind], network order *)
  | Timer (cb : timer_cb) (sec usec : Z)
  | Print (msg : string)
  | Warn (msg : string).

(** The results of system calls, as functions of what happened before. *)
Record env := mk_env {
  sys_read : list io → Z → Z → option bytes;
  sys_write : list io → Z → bytes → option Z;
  sys_writev : list io → Z → list bytes → option Z;
  sys_errno_gone : list io → bool;      (** ECONNREFUSED or ENOTCONN *)
  sys_event_new : list io → bool;
  sys_bind : list io → Z → Z → bool
}.

(** The bounds that POSIX gives. *)
Definition env_ok (e : env) : Prop :=
  (∀ tr fd n d, sys_read e tr fd n = Some d → zlen d ≤ n ∧ Forall is_u8 d) ∧
  (∀ tr fd d n, sys_write e tr fd d = Some n → 0 ≤ n ≤ zlen d).

(** ** The world *)

Record ocp_state := mk_ocp {
  ocp_sock_pool : list slot;
  ocp_sock_free_list : option nat;
  ocp_sock_bind_list : option nat;
  ocp_sock_used : Z;
  ocp_sock_max : Z
}.

Record options := mk_options {
  allow_remote : bool;
  tcpdump_enabled : bool;
  keep_intvl : Z;
  debug_flags : Z;
  dns_domain : option bytes
}.

(** [T]: the state of the TCP stack; [CF]: see [Pbuf]. *)
Record world (T CF : Type) := mk_world {
  w_ocp : ocp_state;
  w_opts : options;
  w_got_sighup : bool;
  w_got_sigusr1 : bool;
  w_loopbreak : bool;
  w_dns : dns_state dns_cb nat;
  w_pbufs : heap CF;
  w_tcp : T;
  w_trace : list io
}.
Arguments mk_world {T CF}.
Arguments w_ocp {T CF}.
Arguments w_opts {T CF}.
Arguments w_got_sighup {T CF}.
Arguments w_got_sigusr1 {T CF}.
Arguments w_loopbreak {T CF}.
Arguments w_dns {T CF}.
Arguments w_pbufs {T CF}.
Arguments w_tcp {T CF}.
Arguments w_trace {T CF}.

Section world.
Context {T CF : Type}.
Abbreviation world := (world T CF).
Implicit Types w : world.

Definition set_ocp o w : world := mk_world o (w_opts w) (w_got_sighup w) (w_got_sigusr1 w)
  (w_loopbreak w) (w_dns w) (w_pbufs w) (w_tcp w) (w_trace w).
Definition set_signals hup usr1 w : world := mk_world (w_ocp w) (w_opts w) hup usr1
  (w_loopbreak w) (w_dns w) (w_pbufs w) (w_tcp w) (w_trace w).
Definition set_opts o w : world := mk_world (w_ocp w) o (w_got_sighup w) (w_got_sigusr1 w)
  (w_loopbreak w) (w_dns w) (w_pbufs w) (w_tcp w) (w_trace w).
Definition set_break w : world := mk_world (w_ocp w) (w_opts w) (w_got_sighup w)
  (w_got_sigusr1 w) true (w_dns w) (w_pbufs w) (w_tcp w) (w_trace w).
Definition set_dns d w : world := mk_world (w_ocp w) (w_opts w) (w_got_sighup w)
  (w_got_sigusr1 w) (w_loopbreak w) d (w_pbufs w) (w_tcp w) (w_trace w).
Definition set_pbufs h w : world := mk_world (w_ocp w) (w_opts w) (w_got_sighup w)
  (w_got_sigusr1 w) (w_loopbreak w) (w_dns w) h (w_tcp w) (w_trace w).
Definition set_tcp t w : world := mk_world (w_ocp w) (w_opts w) (w_got_sighup w)
  (w_got_sigusr1 w) (w_loopbreak w) (w_dns w) (w_pbufs w) t (w_trace w).
Definition set_trace tr w : world := mk_world (w_ocp w) (w_opts w) (w_got_sighup w)
  (w_got_sigusr1 w) (w_loopbreak w) (w_dns w) (w_pbufs w) (w_tcp w) tr.

#[export] Instance lens_dns : Lens world (dns_state dns_cb nat).
Proof. by refine {| lget := w_dns; lput := set_dns |}; [..|intros []]. Defined.
#[export] Instance lens_pbufs : Lens world (heap CF).
Proof. by refine {| lget := w_pbufs; lput := set_pbufs |}; [..|intros []]. Defined.

(** ** System calls *)

Definition emit (x : io) : prog world unit := pmodify (λ w, set_trace (w_trace w ++ [x]) w).
Definition warn (msg : string) : prog world unit := emit (Warn msg).
Definition die {A} : prog world A := pfault Died.

Definition read (e : env) (fd n : Z) : prog world (option bytes) :=
  w ← pget;
  let r := sys_read e (w_trace w) fd n in
  emit (Read fd n r);; mret r.
Definition write (e : env) (fd : Z) (d : bytes) : prog world (option Z) :=
  w ← pget;
  let r := sys_write e (w_trace w) fd d in
  emit (Write fd d r);; mret r.

(** ** Sockets *)

Definition sock_at (i : nat) : prog world ocp_sock :=
  w ← pget;
  match ocp_sock_pool (w_ocp w) !! i with
  | Some (Live s) => mret s
  | _ => pfault Wild
  end.
Definition set_slot (i : nat) (x : slot) (o : ocp_state) : ocp_state :=
  mk_ocp (<[i:=x]> (ocp_sock_pool o)) (ocp_sock_free_list o) (ocp_sock_bind_list o)
    (ocp_sock_used o) (ocp_sock_max o).
Definition update_sock (i : nat) (f : ocp_sock → ocp_sock) : prog world unit :=
  s ← sock_at i; pmodify (λ w, set_ocp (set_slot i (Live (f s)) (w_ocp w)) w).

(** ** Steps of the model *)

Definition live_at w i s : Prop := ocp_sock_pool (w_ocp w) !! i = Some (Live s).
Definition put_sock i s w : world := set_ocp (set_slot i (Live s) (w_ocp w)) w.

Lemma bind_sock {A} i s (m : ocp_sock → prog world A) w :
  live_at w i s → (sock_at i ≫= m) w = m s w.
Proof. intros E. apply bind_ret. unfold sock_at. rewrite bind_get. by rewrite E. Qed.
Lemma update_sock_eq i s f w :
  live_at w i s → update_sock i f w = inr ((), put_sock i (f s) w).
Proof. intros E. unfold update_sock. by rewrite (bind_sock _ _ _ _ E). Qed.
Lemma bind_update_sock {A} i s f (m : unit → prog world A) w :
  live_at w i s → (update_sock i f ≫= m) w = m () (put_sock i (f s) w).
Proof. intros E. by apply bind_ret, update_sock_eq. Qed.
Lemma bind_emit {A} x (m : unit → prog world A) w :
  (emit x ≫= m) w = m () (set_trace (w_trace w ++ [x]) w).
Proof. done. Qed.
Lemma bind_read {A} e fd n (m : option bytes → prog world A) w :
  let r := sys_read e (w_trace w) fd n in
  (read e fd n ≫= m) w = m r (set_trace (w_trace w ++ [Read fd n r]) w).
Proof. done. Qed.
Lemma bind_write {A} e fd d (m : option Z → prog world A) w :
  let r := sys_write e (w_trace w) fd d in
  (write e fd d ≫= m) w = m r (set_trace (w_trace w ++ [Write fd d r]) w).
Proof. done. Qed.
Lemma live_put w i s s' : live_at w i s → live_at (put_sock i s' w) i s'.
Proof. intros E. apply list_lookup_insert_eq. by eapply lookup_lt_Some. Qed.
Lemma live_put_ne w i j s s' : i ≠ j → live_at (put_sock i s' w) j s ↔ live_at w j s.
Proof. intros. unfold live_at, put_sock. simpl. by rewrite list_lookup_insert_ne. Qed.
Lemma put_put i s s' w : put_sock i s' (put_sock i s w) = put_sock i s' w.
Proof.
  unfold put_sock, set_ocp, set_slot. simpl. by rewrite list_insert_insert_eq.
Qed.

End world.

(** Field updates of a socket. *)
Definition with_state st s := mk_sock (s_fd s) (s_listener s) (s_ev s) (s_tpcb s) st
  (s_conn_type s) (s_next s) (s_done_len s) (s_lwip_blocked s) (s_sock_pos s) (s_sockbuf s)
  (s_lport s) (s_bind_addr s) (s_listen_cb s) (s_rhost_name s) (s_rhost s) (s_rport s) (s_netif s).
Definition with_ev fd ev s := mk_sock fd (s_listener s) ev (s_tpcb s) (s_state s)
  (s_conn_type s) (s_next s) (s_done_len s) (s_lwip_blocked s) (s_sock_pos s) (s_sockbuf s)
  (s_lport s) (s_bind_addr s) (s_listen_cb s) (s_rhost_name s) (s_rhost s) (s_rport s) (s_netif s).
Definition with_tpcb t s := mk_sock (s_fd s) (s_listener s) (s_ev s) t (s_state s)
  (s_conn_type s) (s_next s) (s_done_len s) (s_lwip_blocked s) (s_sock_pos s) (s_sockbuf s)
  (s_lport s) (s_bind_addr s) (s_listen_cb s) (s_rhost_name s) (s_rhost s) (s_rport s) (s_netif s).
Definition with_link n s := mk_sock (s_fd s) (s_listener s) (s_ev s) (s_tpcb s) (s_state s)
  (s_conn_type s) n (s_done_len s) (s_lwip_blocked s) (s_sock_pos s) (s_sockbuf s)
  (s_lport s) (s_bind_addr s) (s_listen_cb s) (s_rhost_name s) (s_rhost s) (s_rport s) (s_netif s).
Definition with_done n s := mk_sock (s_fd s) (s_listener s) (s_ev s) (s_tpcb s) (s_state s)
  (s_conn_type s) (s_next s) n (s_lwip_blocked s) (s_sock_pos s) (s_sockbuf s)
  (s_lport s) (s_bind_addr s) (s_listen_cb s) (s_rhost_name s) (s_rhost s) (s_rport s) (s_netif s).
Definition with_blocked b s := mk_sock (s_fd s) (s_listener s) (s_ev s) (s_tpcb s) (s_state s)
  (s_conn_type s) (s_next s) (s_done_len s) b (s_sock_pos s) (s_sockbuf s)
  (s_lport s) (s_bind_addr s) (s_listen_cb s) (s_rhost_name s) (s_rhost s) (s_rport s) (s_netif s).
Definition with_buf pos buf s := mk_sock (s_fd s) (s_listener s) (s_ev s) (s_tpcb s) (s_state s)
  (s_conn_type s) (s_next s) (s_done_len s) (s_lwip_blocked s) pos buf
  (s_lport s) (s_bind_addr s) (s_listen_cb s) (s_rhost_name s) (s_rhost s) (s_rport s) (s_netif s).
Definition with_listen lp ba cb ln s := mk_sock (s_fd s) ln (s_ev s) (s_tpcb s) (s_state s)
  (s_conn_type s) (s_next s) (s_done_len s) (s_lwip_blocked s) (s_sock_pos s) (s_sockbuf s)
  lp ba cb (s_rhost_name s) (s_rhost s) (s_rport s) (s_netif s).
Definition with_remote ct name host port s := mk_sock (s_fd s) (s_listener s) (s_ev s) (s_tpcb s)
  (s_state s) ct (s_next s) (s_done_len s) (s_lwip_blocked s) (s_sock_pos s) (s_sockbuf s)
  (s_lport s) (s_bind_addr s) (s_listen_cb s) name host port (s_netif s).
Definition with_netif n s := mk_sock (s_fd s) (s_listener s) (s_ev s) (s_tpcb s) (s_state s)
  (s_conn_type s) (s_next s) (s_done_len s) (s_lwip_blocked s) (s_sock_pos s) (s_sockbuf s)
  (s_lport s) (s_bind_addr s) (s_listen_cb s) (s_rhost_name s) (s_rhost s) (s_rport s) n.

End Ocp.
