(* ===== verification/OcpConn.v ===== *)
(** * ocproxy: connections ([src/src/ocproxy.c])

    The socket pool, the data paths between local sockets and the TCP stack, the
    SOCKS server, name resolution and connection setup.  The TCP stack is used
    through the interface [TcpApi]; [TcpLaws] states what its operations do to
    the rest of the program. *)

From S2P Require Import Prelude Def Ip4Addr Dns Pbuf Ocp.

Module OcpConn.
Import Def Ip4Addr Dns Pbuf Ocp.

(** ** The TCP stack *)

(** The operations of the raw API that ocproxy calls.  A [bool] stands for
    "the callback of ocproxy, or NULL".  [dns_transmit]: the queries that
    [dns_send] has written since the last time are handed to [udp_sendto].  It
    runs before the resolver calls back and when a function of the resolver
    that may send returns: between [dns_send] and that point nothing outside
    the resolver's table changes. *)
Class TcpApi (T CF : Type) := {
  tcp_new : prog (world T CF) (option pcb);
  tcp_arg : pcb → option nat → prog (world T CF) unit;
  tcp_recv : pcb → bool → prog (world T CF) unit;
  tcp_sent : pcb → bool → prog (world T CF) unit;
  tcp_err : pcb → bool → prog (world T CF) unit;
  tcp_nagle_disable : pcb → prog (world T CF) unit;
  tcp_keepalive : pcb → Z → prog (world T CF) unit;
  tcp_connect : pcb → Z → Z → prog (world T CF) err_t;
  tcp_close : pcb → prog (world T CF) err_t;
  tcp_write : pcb → bytes → prog (world T CF) err_t;
  tcp_output : pcb → prog (world T CF) unit;
  tcp_recved : pcb → Z → prog (world T CF) unit;
  tcp_sndbuf : T → pcb → Z;
  tcp_sndqueuelen : T → pcb → Z;
  tcp_local_ip : T → pcb → Z;
  tcp_local_port : T → pcb → Z;
  dns_transmit : prog (world T CF) unit
}.

Section conn.
Context {T CF : Type} `{!TcpApi T CF} (e : env).
Context (custom_free : CF → loc → prog (heap CF) unit).
Context (dns_pbuf_avail : dns_state dns_cb nat → bool).
Abbreviation world := (world T CF).

(** ** Utility functions / libevent wrappers *)

Definition event_add (i : nat) : prog world unit :=
  s ← sock_at i;
  ev ← pderef (s_ev s);
  update_sock i (with_ev (s_fd s) (Some (mk_event (ev_call ev) true))).

Definition event_new (i : nat) (fd : Z) (cb : option ev_cb) : prog world unit :=
  w ← pget;
  update_sock i (with_ev fd
    (if sys_event_new e (w_trace w) then Some (mk_event cb false) else None)).

Definition slot_next (x : slot) : option nat :=
  match x with Live s => s_next s | Free n => n end.

(** The slot at the head of the free list is cleared and put on the bind list. *)
Definition take_slot (i : nat) (next : option nat) (o : ocp_state) : ocp_state :=
  mk_ocp (<[i:=Live (with_link (ocp_sock_bind_list o) sock_zero)]> (ocp_sock_pool o))
    next (Some i) (ocp_sock_used o + 1)
    (if ocp_sock_max o <? ocp_sock_used o + 1 then ocp_sock_used o + 1 else ocp_sock_max o).

Definition ocp_sock_new (fd : Z) (cb : option ev_cb) (activate die_on_error : bool)
    : prog world (option nat) :=
  w ← pget;
  match ocp_sock_free_list (w_ocp w) with
  | None => if die_on_error then die else mret None
  | Some i =>
      x ← pderef (ocp_sock_pool (w_ocp w) !! i);
      pmodify (λ w, set_ocp (take_slot i (slot_next x) (w_ocp w)) w);;
      if fd <? 0 then mret (Some i)
      else
        event_new i fd cb;;
        (if activate then event_add i else mret ());;
        mret (Some i)
  end.

Definition release_slot (i : nat) (o : ocp_state) : ocp_state :=
  mk_ocp (<[i:=Free (ocp_sock_free_list o)]> (ocp_sock_pool o)) (Some i)
    (ocp_sock_bind_list o) (ocp_sock_used o - 1) (ocp_sock_max o).

Definition ocp_sock_del (i : nat) : prog world unit :=
  s ← sock_at i;
  if decide (s_state s = STATE_DNS) then update_sock i (with_state STATE_DEAD)
  else
    emit (Close (s_fd s));;
    match s_tpcb s with
    | Some t => tcp_arg t None;; tcp_close t;; mret ()
    | None => mret ()
    end;;
    s ← sock_at i;
    pderef (s_ev s);;
    pmodify (λ w, set_ocp (release_slot i (w_ocp w)) w).

(** ** lwIP TCP<->socket TCP traffic *)

Definition local_data_cb (i : nat) : prog world unit :=
  s ← sock_at i;
  t ← pderef (s_tpcb s);
  w ← pget;
  let try_len := Z.min (tcp_sndbuf (w_tcp w) t) SOCKBUF_LEN in
  if (try_len =? 0) || (TCP_SND_QUEUELEN / 2 <? tcp_sndqueuelen (w_tcp w) t) then
    update_sock i (with_blocked true)
  else
    r ← read e (s_fd s) try_len;
    match r with
    | None | Some [] => ocp_sock_del i
    | Some d =>
        update_sock i (with_buf (s_sock_pos s) (splice 0 d (s_sockbuf s)));;
        err ← tcp_write t d;
        (if decide (err = ERR_MEM) then die
         else if decide (err = ERR_OK) then emit (Queued d)
         else warn "tcp_write");;
        s ← sock_at i;
        t ← pderef (s_tpcb s);
        tcp_output t;;
        event_add i
    end.

Definition sent_cb (ctx : option nat) (tpcb : pcb) (len : Z) : prog world err_t :=
  match ctx with
  | None => mret ERR_OK
  | Some i =>
      s ← sock_at i;
      (if s_lwip_blocked s then
         update_sock i (with_blocked false);; event_add i
       else mret ());;
      mret ERR_OK
  end.

(** [for (offset = s->done_len; p && offset >= p->len; offset -= p->len)
      p = p->next;]: the subtraction uses the next pbuf. *)
Fixpoint skip_done (fuel : nat) (p : option loc) (offset : Z)
    : prog (heap CF) (option loc * Z) :=
  match p with
  | None => mret (None, offset)
  | Some l =>
      b ← deref l;
      if p_len b <=? offset then
        match fuel with
        | O => pfault Hang
        | S fuel' =>
            l' ← pderef (p_next b);
            b' ← deref l';
            skip_done fuel' (Some l') (offset - p_len b')
        end
      else mret (p, offset)
  end.

(** The second loop; [None]: it ran to the end of the chain. *)
Fixpoint recv_loop (fuel : nat) (i : nat) (tpcb : pcb) (p : option loc) (offset : Z)
    : prog world (option err_t) :=
  match p with
  | None => mret None
  | Some l =>
      b ← lift (deref l);
      let try_len := p_len b - offset in
      s ← sock_at i;
      d ← lift (pread l offset try_len);
      wlen ← write e (s_fd s) d;
      match wlen with
      | None => ocp_sock_del i;; mret (Some ERR_ABRT)
      | Some wlen =>
          update_sock i (λ s, with_done (s_done_len s + wlen) s);;
          emit (Recved wlen);; tcp_recved tpcb (u16 wlen);;
          if wlen <? try_len then mret (Some ERR_WOULDBLOCK)
          else
            b ← lift (deref l);
            match fuel with
            | O => pfault Hang
            | S fuel' => recv_loop fuel' i tpcb (p_next b) 0
            end
      end
  end.

Definition recv_cb (ctx : option nat) (tpcb : pcb) (p : option loc) : prog world err_t :=
  match ctx, p with
  | None, _ => mret ERR_ABRT
  | Some i, None => ocp_sock_del i;; mret ERR_OK
  | Some i, Some first =>
      s ← sock_at i;
      w ← pget;
      let fuel := S (size (w_pbufs w)) in
      pos ← lift (skip_done fuel p (s_done_len s));
      r ← recv_loop fuel i tpcb (fst pos) (snd pos);
      match r with
      | Some err => mret err
      | None =>
          update_sock i (with_done 0);;
          lift (pbuf_free custom_free (Some first));;
          mret ERR_OK
      end
  end.

(** ** SOCKS protocol *)

(** [struct socks_reply] in memory. *)
Definition reply_bytes (rep addr port : Z) : bytes :=
  [SOCKS_VER; u8 rep; 0; SOCKS_ATYP_IPV4] ++ le_bytes 4 addr ++ le_bytes 2 port.

Definition socks_reply (i : nat) (rep : Z) : prog world unit :=
  s ← sock_at i;
  w ← pget;
  let '(addr, port) :=
    match s_tpcb s with
    | Some t =>
        if rep =? 0 then (lwip_htonl (tcp_local_ip (w_tcp w) t),
                          lwip_htons (tcp_local_port (w_tcp w) t))
        else (0, 0)
    | None => (0, 0)
    end in
  r ← write e (s_fd s) (reply_bytes rep addr port);
  let rep := if decide (r = Some 10) then rep else -1 in
  if rep =? 0 then mret () else ocp_sock_del i.

(** ** Connection setup *)

Definition tcp_err_cb (arg : option nat) (err : err_t) : prog world unit :=
  match arg with
  | None => mret ()
  | Some i =>
      update_sock i (with_tpcb None);;
      s ← sock_at i;
      if decide (s_state s = STATE_CONNECTING ∧ s_conn_type s = CONN_TYPE_SOCKS) then
        socks_reply i SOCKS_CONNREFUSED
      else ocp_sock_del i
  end.

Definition connect_cb (i : nat) (tpcb : pcb) (err : err_t) : prog world err_t :=
  s ← sock_at i;
  (if decide (s_conn_type s = CONN_TYPE_SOCKS) then socks_reply i SOCKS_OK else mret ());;
  update_sock i (with_state STATE_DATA);;
  event_add i;;
  tcp_recv tpcb true;;
  tcp_sent tpcb true;;
  mret ERR_OK.

Definition start_connection (i : nat) (ipaddr : Z) : prog world unit :=
  update_sock i (with_state STATE_CONNECTING);;
  r ← tcp_new;
  match r with
  | None => die
  | Some tpcb =>
      tcp_nagle_disable tpcb;;
      tcp_arg tpcb (Some i);;
      tcp_recv tpcb false;;
      tcp_err tpcb true;;
      update_sock i (with_tpcb (Some tpcb));;
      w ← pget;
      (if keep_intvl (w_opts w) =? 0 then mret ()
       else tcp_keepalive tpcb (u32 (keep_intvl (w_opts w) * 1000)));;
      s ← sock_at i;
      emit (Connect ipaddr (u16 (s_rport s)));;
      err ← tcp_connect tpcb ipaddr (u16 (s_rport s));
      if decide (err = ERR_OK) then mret () else warn "tcp_connect"
  end.

Definition finish_resolution (hostname : bytes) (ipaddr : option Z) (i : nat)
    : prog world unit :=
  s ← sock_at i;
  if decide (s_state s = STATE_DEAD) then ocp_sock_del i
  else
    match ipaddr with
    | Some ip => start_connection i ip
    | None =>
        if decide (s_conn_type s = CONN_TYPE_SOCKS) then socks_reply i SOCKS_HOST_UNREACHABLE
        else ocp_sock_del i
    end.

(** [snprintf(buf, SOCKBUF_LEN, "%s.%s", a, b)]: what the buffer holds up to
    the terminator. *)
Definition dotted (a b : bytes) : bytes :=
  take (Z.to_nat (SOCKBUF_LEN - 1)) (a ++ str "." ++ b).

(** [found] is both called directly and, as [cb], stored in the resolver. *)
Definition enqueue_dns_req (found : bytes → option Z → nat → prog world unit) (cb : dns_cb)
    (i : nat) (hostname : bytes) (domain : option bytes) : prog world unit :=
  name ←
    match domain with
    | None => sock_at i;; mret hostname
    | Some _ =>
        w ← pget;
        d ← pderef (dns_domain (w_opts w));
        update_sock i (λ s, with_buf (s_sock_pos s)
          (splice 0 (dotted hostname d ++ [0]) (s_sockbuf s)) s);;
        mret (dotted hostname d)
    end;
  r ← lift (dns_gethostbyname dns_pbuf_avail name cb i);
  dns_transmit;;
  match r with
  | (ERR_INPROGRESS, _) => mret ()
  | (ERR_OK, addr) =>
      a ← pderef addr;
      update_sock i (λ s, with_remote (s_conn_type s) (s_rhost_name s) a (s_rport s) s);;
      start_connection i a
  | (ERR_MEM, _) => warn "DNS table full, aborting lookup";; found hostname None i
  | (_, _) => warn "invalid hostname";; found hostname None i
  end.

Definition retry_resolution (hostname : bytes) (ipaddr : option Z) (i : nat)
    : prog world unit :=
  w ← pget;
  match ipaddr, dns_domain (w_opts w) with
  | None, Some d => enqueue_dns_req finish_resolution Finish_resolution i hostname (Some d)
  | _, _ => finish_resolution hostname ipaddr i
  end.

Definition start_resolution (i : nat) (hostname : bytes) : prog world unit :=
  update_sock i (with_state STATE_DNS);;
  if decide (46 ∈ hostname) then
    enqueue_dns_req retry_resolution Retry_resolution i hostname None
  else
    w ← pget;
    enqueue_dns_req finish_resolution Finish_resolution i hostname (dns_domain (w_opts w)).

(** What the resolver's callbacks do. *)
Definition dns_found (cb : dns_cb) (hostname : bytes) (ipaddr : option Z) (arg : option nat)
    : prog world unit :=
  dns_transmit;;
  i ← pderef arg;
  match cb with
  | Finish_resolution => finish_resolution hostname ipaddr i
  | Retry_resolution => retry_resolution hostname ipaddr i
  end.

(** ** SOCKS requests *)

Definition byte_at (buf : bytes) (k : Z) : Z := u8 (nth (Z.to_nat k) buf 0).
(** Two and four bytes as the machine loads them. *)
Definition load (n : nat) (k : Z) (buf : bytes) : Z :=
  le_load (take n (drop (Z.to_nat k) buf)).

Definition socks_auth_step (i : nat) (s : ocp_sock) : prog world unit :=
  if s_sock_pos s <=? 1 then event_add i
  else if s_sock_pos s <=? byte_at (s_sockbuf s) 1 + 1 then event_add i
  else
    r ← write e (s_fd s) [0x05; 0x00];
    if decide (r = Some 2) then
      update_sock i (with_state STATE_SOCKS_CMD);;
      update_sock i (λ s, with_buf 0 (s_sockbuf s) s);;
      event_add i
    else ocp_sock_del i.

Definition socks_req_step (i : nat) (s : ocp_sock) : prog world unit :=
  let req := s_sockbuf s in
  let atyp := byte_at req 3 in
  if s_sock_pos s <=? 3 then event_add i
  else if negb (byte_at req 1 =? SOCKS_CMD_CONNECT) then socks_reply i SOCKS_CMDNOTSUPP
  else if atyp =? SOCKS_ATYP_IPV4 then
    if s_sock_pos s <? 10 then event_add i
    else
      update_sock i (λ s, with_remote (s_conn_type s) (s_rhost_name s) (s_rhost s)
        (lwip_ntohs (load 2 8 req)) s);;
      start_connection i (load 4 4 req)
  else if atyp =? SOCKS_ATYP_DOMAIN then
    let namelen := byte_at req 4 in
    if s_sock_pos s <=? 4 then event_add i
    else if s_sock_pos s <=? 4 + namelen then event_add i
    else
      update_sock i (λ s, with_remote (s_conn_type s) (s_rhost_name s) (s_rhost s)
        (Z.lor (Z.shiftl (byte_at req (5 + namelen)) 8) (byte_at req (5 + namelen + 1))) s);;
      update_sock i (λ s, with_buf (s_sock_pos s) (splice (Z.to_nat (5 + namelen)) [0] req) s);;
      start_resolution i (cstr (drop 5 (splice (Z.to_nat (5 + namelen)) [0] req)))
  else socks_reply i SOCKS_ADDRNOTSUPP.

Definition socks_cmd_cb (i : nat) : prog world unit :=
  s ← sock_at i;
  if decide (s_state s = STATE_DATA) then local_data_cb i
  else
    r ← read e (s_fd s) (SOCKBUF_LEN - s_sock_pos s);
    match r with
    | None | Some [] => ocp_sock_del i
    | Some d =>
        update_sock i (with_buf (s_sock_pos s + zlen d)
          (splice (Z.to_nat (s_sock_pos s)) d (s_sockbuf s)));;
        s ← sock_at i;
        if negb (byte_at (s_sockbuf s) 0 =? SOCKS_VER) then ocp_sock_del i
        else
          match s_state s with
          | STATE_SOCKS_AUTH => socks_auth_step i s
          | STATE_SOCKS_CMD => socks_req_step i s
          | _ => event_add i
          end
    end.

Definition new_conn_cb (fd : Z) (lsock : nat) : prog world unit :=
  l ← sock_at lsock;
  r ← ocp_sock_new fd (Some (if decide (s_conn_type l = CONN_TYPE_REDIR)
                             then Local_data_cb else Socks_cmd_cb)) false false;
  match r with
  | None => warn "too many connections"
  | Some i =>
      l ← sock_at lsock;
      update_sock i (λ s, with_remote (s_conn_type l) (s_rhost_name s) (s_rhost s)
        (s_rport l) s);;
      if decide (s_conn_type l = CONN_TYPE_REDIR) then
        name ← pderef (s_rhost_name l);
        start_resolution i name
      else
        update_sock i (with_state STATE_SOCKS_AUTH);;
        event_add i
  end.

End conn.
End OcpConn.
