(* ===== verification/OcpMain.v ===== *)
(** * ocproxy: VPN traffic, periodic tasks and start-up ([src/src/ocproxy.c])

    The packets to and from the VPN, the timers, the options, [main] and the
    dispatch of events.  lwIP's input path and its interface setup are
    parameters. *)

From S2P Require Import Prelude Def Ip4Addr Dns Pbuf Ocp OcpConn.

Module OcpMain.
Import Def Ip4Addr Dns Pbuf Ocp OcpConn.

(** ** Integers in options: [strtol] with base 0 *)

Definition digit_val (c : Z) : Z :=
  if isdigit c then c - 48
  else if in_range c 97 122 then c - 97 + 10
  else if in_range c 65 90 then c - 65 + 10
  else 255.

Fixpoint digits (base acc : Z) (cp : bytes) : Z * bytes :=
  match cp with
  | [] => (acc, [])
  | c :: cp' =>
      if digit_val c <? base then digits base (acc * base + digit_val c) cp' else (acc, cp)
  end.

Fixpoint skip_space (cp : bytes) : bytes :=
  match cp with
  | [] => []
  | c :: cp' => if isspace c then skip_space cp' else cp
  end.

Definition LONG_MAX : Z := 9223372036854775807.

(** The value, and the text after it. *)
Definition strtol (s : bytes) : Z * bytes :=
  let cp := skip_space s in
  let '(neg, cp) :=
    if cur cp =? 45 then (true, tl cp) else if cur cp =? 43 then (false, tl cp)
    else (false, cp) in
  let '(base, cp) :=
    if cur cp =? 48 then
      if ((cur (tl cp) =? 120) || (cur (tl cp) =? 88)) && isxdigit (cur (tl (tl cp)))
      then (16, tl (tl cp)) else (8, cp)
    else (10, cp) in
  if digit_val (cur cp) <? base then
    let '(v, rest) := digits base 0 cp in
    (if neg then Z.max (- LONG_MAX - 1) (- v) else Z.min LONG_MAX v, rest)
  else (0, s).

(** [strsep(&str, ":")]. *)
Fixpoint strsep (s : bytes) : bytes * option bytes :=
  match s with
  | [] => ([], None)
  | c :: s' =>
      if c =? 58 then ([], Some s')
      else let '(p, r) := strsep s' in (c :: p, r)
  end.

(** [strrchr(s, ':')]: what is before and after it. *)
Fixpoint strrchr (s : bytes) : option (bytes * bytes) :=
  match s with
  | [] => None
  | c :: s' =>
      match strrchr s' with
      | Some (a, b) => Some (c :: a, b)
      | None => if c =? 58 then Some ([], s') else None
      end
  end.

Definition INADDR_ANY : Z := 0.
Definition INADDR_LOOPBACK : Z := 0x7f000001.

Inductive signal := SIGHUP | SIGUSR1.

(** What [main] gets from outside: the environment and, as [getopt_long]
    splits them, the options. *)
Record startup := mk_startup {
  getenv_VPNFD : option bytes;
  getenv_INTERNAL_IP4_ADDRESS : option bytes;
  getenv_INTERNAL_IP4_MTU : option bytes;
  getenv_CISCO_DEF_DOMAIN : option bytes;
  getenv_INTERNAL_IP4_DNS : option bytes;
  getopt : list (Z * bytes)
}.

(** The variables of [main] that options set. *)
Record main_vars := mk_vars { ip_str : option bytes; mtu_str : option bytes; dns_str : option bytes }.

(** What the event loop delivers. *)
Inductive ocp_event :=
  | Ev_socket (i : nat)                (** the event of a socket fires *)
  | Ev_accept (lsock : nat) (fd : Z)
  | Ev_timer (cb : timer_cb)
  | Ev_signal (sig : signal).

Section main.
Context {T CF : Type} `{!TcpApi T CF} (e : env).
Context (custom_free : CF → loc → prog (heap CF) unit).
Context (mem_avail : heap CF → Z → bool) (garbage : heap CF → nat → Z).
Context (dns_pbuf_avail : dns_state dns_cb nat → bool).
Abbreviation world := (world T CF).
(** lwIP: [ip_input], [tcp_tmr], [lwip_init], [netif_add] with the address and
    the state of the interface, [netif.mtu], [netif_set_default] with
    [netif_set_up], and whether [udp_new] and
    libevent's [event_base_new] succeed; the port's [tcpdump]. *)
Context (ip_input : loc → prog world unit) (tcp_tmr : prog world unit).
Context (lwip_init : prog world unit) (netif_add : Z → nat → prog world unit).
Context (netif_set_mtu : Z → prog world unit) (netif_up : prog world unit).
Context (udp_new_ok event_base_new_ok : bool).
Context (tcpdump : option loc → prog world unit) (tcpdump_init : prog world unit).
Context (inet_aton : bytes → option Z).

(** ** lwIP<->VPN traffic *)

Definition vpn_conn_down : prog world unit :=
  emit (Print "ocproxy: VPN connection has terminated");; pmodify set_break.

(** The copy of a packet into a chain. *)
Fixpoint fill_chain (fuel : nat) (q : option loc) (buf : bytes) : prog (heap CF) unit :=
  match buf with
  | [] => mret ()
  | _ =>
      match fuel with
      | O => pfault Hang
      | S fuel' =>
          l ← pderef q;
          b ← deref l;
          let copy := if p_len b <? zlen buf then p_len b else zlen buf in
          pwrite l 0 (take (Z.to_nat copy) buf);;
          b ← deref l;
          fill_chain fuel' (p_next b) (drop (Z.to_nat copy) buf)
      end
  end.

Definition lwip_data_cb (i : nat) : prog world unit :=
  s ← sock_at i;
  r ← read e (s_fd s) SOCKBUF_LEN;
  let '(len, d) := match r with Some d => (zlen d, d) | None => (-1, []) end in
  update_sock i (λ s, with_buf (s_sock_pos s) (splice 0 d (s_sockbuf s)) s);;
  (if len <=? 0 then vpn_conn_down else mret ());;
  p ← lift (pbuf_alloc custom_free mem_avail garbage PBUF_RAW (u16 len) PBUF_POOL);
  match p with
  | Some l =>
      lift (walk unit (λ fuel, fill_chain fuel p d));;
      emit (Stat "link.recv");;
      w ← pget;
      (if tcpdump_enabled (w_opts w) then tcpdump p else mret ());;
      s ← sock_at i;
      if s_netif s then ip_input l else pfault Wild
  | None => warn "could not allocate pbuf"
  end;;
  event_add i.

(** The I/O vector; [None]: more than [MAX_IOVEC] chunks. *)
Fixpoint gather (fuel : nat) (p : option loc) (iov : list bytes)
    : prog (heap CF) (option (list bytes)) :=
  match p with
  | None => mret (Some iov)
  | Some l =>
      if MAX_IOVEC <=? zlen iov then mret None
      else
        match fuel with
        | O => pfault Hang
        | S fuel' =>
            b ← deref l;
            d ← pread l 0 (p_len b);
            gather fuel' (p_next b) (iov ++ [d])
        end
  end.

(** [state]: the socket that [netif->state] points to. *)
Definition lwip_data_out (state : nat) (p : option loc) : prog world err_t :=
  w ← pget;
  (if tcpdump_enabled (w_opts w) then tcpdump p else mret ());;
  iov ← lift (walk _ (λ fuel, gather fuel p []));
  match iov with
  | None => warn "too many chunks, dropping packet";; mret ERR_OK
  | Some iov =>
      s ← sock_at state;
      w ← pget;
      let ret := sys_writev e (w_trace w) (s_fd s) iov in
      emit (Writev (s_fd s) iov ret);;
      w ← pget;
      match ret with
      | None =>
          if sys_errno_gone e (w_trace w) then vpn_conn_down else emit (Stat "link.drop")
      | Some n =>
          if n =? zlen (concat iov) then emit (Stat "link.xmit")
          else emit (Stat "link.lenerr")
      end;;
      mret ERR_OK
  end.

(** ** Periodic tasks *)

Definition handle_sig (sig : signal) : prog world unit :=
  match sig with
  | SIGHUP => pmodify (λ w, set_signals true (w_got_sigusr1 w) w)
  | SIGUSR1 => pmodify (λ w, set_signals (w_got_sighup w) true w)
  end.

Definition new_periodic_event (cb : timer_cb) (timeout_ms : Z) : prog world unit :=
  w ← pget;
  if sys_event_new e (w_trace w) then
    emit (Timer cb (timeout_ms ÷ 1000) (1000 * Z.rem timeout_ms 1000))
  else die.

Definition cb_tcp_tmr : prog world unit := tcp_tmr.
Definition cb_dns_tmr : prog world unit :=
  dns_tmr dns_pbuf_avail (dns_found e dns_pbuf_avail);; dns_transmit.

Definition cb_housekeeping (vpnfd : Z) : prog world unit :=
  r ← write e vpnfd [];
  w ← pget;
  (if bool_decide (r = None) && sys_errno_gone e (w_trace w) then vpn_conn_down
   else if w_got_sighup w then vpn_conn_down
   else mret ());;
  w ← pget;
  if w_got_sigusr1 w then
    emit (Print "statistics");; pmodify (λ w, set_signals (w_got_sighup w) false w)
  else mret ().

(** ** Program initialization *)

Definition ocp_atoi (s : bytes) : prog world Z :=
  let '(val, p) := strtol s in
  if (cur s =? 0) || negb (cur p =? 0) then die else mret (s32 val).

Fixpoint bind_loop (fuel : nat) (p : option nat) : prog world unit :=
  match p with
  | None => mret ()
  | Some i =>
      match fuel with
      | O => pfault Hang
      | S fuel' =>
          s ← sock_at i;
          (if s_listen_cb s then
             (if (s_lport s <? 1) || (65535 <? s_lport s) then die else mret ());;
             w ← pget;
             addr ←
               match s_bind_addr s with
               | Some a => match inet_aton a with Some ip => mret ip | None => die end
               | None => mret (lwip_htonl (if allow_remote (w_opts w) then INADDR_ANY
                                           else INADDR_LOOPBACK))
               end;
             emit (Listen addr (lwip_htons (s_lport s)));;
             (if sys_bind e (w_trace w) addr (lwip_htons (s_lport s)) then
                update_sock i (λ s, with_listen (s_lport s) (s_bind_addr s) (s_listen_cb s) true s)
              else die)
           else mret ());;
          s ← sock_at i;
          bind_loop fuel' (s_next s)
      end
  end.

Definition bind_all_listeners : prog world unit :=
  w ← pget;
  bind_loop (S (length (ocp_sock_pool (w_ocp w)))) (ocp_sock_bind_list (w_ocp w)).

(** Every listener is created with [cb = new_conn_cb]. *)
Definition new_listener (port : Z) : prog world nat :=
  r ← ocp_sock_new e (-1) None false true;
  i ← pderef r;
  update_sock i (λ s, with_listen port (s_bind_addr s) true (s_listener s) s);;
  mret i.

Definition fwd_add (opt : bytes) : prog world unit :=
  let '(p, str) := strsep opt in
  match str with
  | None => die
  | Some str =>
      lport ← ocp_atoi p;
      let '(p, str) := strsep str in
      match str with
      | None => die
      | Some str =>
          i ← new_listener lport;
          rport ← ocp_atoi str;
          update_sock i (λ s, with_remote CONN_TYPE_REDIR (Some p) (s_rhost s) rport s);;
          if rport <=? 0 then die else mret ()
      end
  end.

Definition dyn_fwd (arg : bytes) : prog world nat :=
  i ← match strrchr arg with
      | Some (addr, port) =>
          lport ← ocp_atoi port;
          i ← new_listener lport;
          update_sock i (λ s, with_listen (s_lport s) (Some addr) (s_listen_cb s) (s_listener s) s);;
          mret i
      | None => lport ← ocp_atoi arg; new_listener lport
      end;
  update_sock i (λ s, with_remote CONN_TYPE_SOCKS (s_rhost_name s) (s_rhost s) (s_rport s) s);;
  mret i.

(** ** Options and [main] *)

Definition set_dns_domain (d : option bytes) : prog world unit :=
  pmodify (λ w, let o := w_opts w in set_opts (mk_options (allow_remote o) (tcpdump_enabled o)
    (keep_intvl o) (debug_flags o) d) w).

(** [LWIP_DBG_ON | LWIP_DBG_TRACE | LWIP_DBG_STATE | LWIP_DBG_FRESH | LWIP_DBG_HALT] *)
Definition DEBUG_FLAGS : Z := 0xf8.

(** One turn of the option loop. *)
Definition main_option (opt : Z) (optarg : bytes) (v : main_vars) : prog world main_vars :=
  w ← pget;
  let o := w_opts w in
  if opt =? 73 (* I *) then mret (mk_vars (Some optarg) (mtu_str v) (dns_str v))
  else if opt =? 77 (* M *) then mret (mk_vars (ip_str v) (Some optarg) (dns_str v))
  else if opt =? 100 (* d *) then mret (mk_vars (ip_str v) (mtu_str v) (Some optarg))
  else if opt =? 111 (* o *) then set_dns_domain (Some optarg);; mret v
  else if opt =? 68 (* D *) then dyn_fwd optarg;; mret v
  else if opt =? 107 (* k *) then
    k ← ocp_atoi optarg;
    pmodify (set_opts (mk_options (allow_remote o) (tcpdump_enabled o) k (debug_flags o)
      (dns_domain o)));; mret v
  else if opt =? 103 (* g *) then
    pmodify (set_opts (mk_options true (tcpdump_enabled o) (keep_intvl o) (debug_flags o)
      (dns_domain o)));; mret v
  else if opt =? 76 (* L *) then fwd_add optarg;; mret v
  else if opt =? 118 (* v *) then
    pmodify (set_opts (mk_options (allow_remote o) (tcpdump_enabled o) (keep_intvl o)
      DEBUG_FLAGS (dns_domain o)));; mret v
  else if opt =? 84 (* T *) then
    pmodify (set_opts (mk_options (allow_remote o) true (keep_intvl o) (debug_flags o)
      (dns_domain o)));; mret v
  else die.

Fixpoint main_options (opts : list (Z * bytes)) (v : main_vars) : prog world main_vars :=
  match opts with
  | [] => mret v
  | (opt, optarg) :: opts' => v ← main_option opt optarg v; main_options opts' v
  end.

(** [for (i = 1; i < MAX_CONN; i++) ocp_sock_pool[i - 1].next = &ocp_sock_pool[i];]
    on the zeroed pool. *)
Definition initial_pool : list slot :=
  ((λ i, Free (Some i)) <$> seq 1 (MAX_CONN - 1)) ++ [Free None].
Definition initial_ocp : ocp_state := mk_ocp initial_pool (Some 0%nat) None 0 0.

(** Text up to the first space. *)
Definition first_word (s : bytes) : bytes :=
  match list_find (.= 32) s with Some (n, _) => take n s | None => s end.

(** [main] up to [event_base_dispatch]: the descriptor of the VPN and its socket. *)
Definition main (st : startup) : prog world (Z * nat) :=
  pmodify (set_ocp initial_ocp);;
  (if event_base_new_ok then mret () else die);;
  str ← match getenv_VPNFD st with Some str => mret str | None => die end;
  vpnfd ← ocp_atoi str;
  set_dns_domain (getenv_CISCO_DEF_DOMAIN st);;
  v ← main_options (getopt st)
        (mk_vars (getenv_INTERNAL_IP4_ADDRESS st) (getenv_INTERNAL_IP4_MTU st)
           (first_word <$> getenv_INTERNAL_IP4_DNS st));
  match ip_str v, mtu_str v with
  | Some ip_str, Some mtu_str =>
      ip ← match ipaddr_aton ip_str with Some ip => mret ip | None => die end;
      r ← ocp_sock_new e vpnfd (Some Lwip_data_cb) true true;
      i ← pderef r;
      update_sock i (with_netif true);;
      lwip_init;;
      lift (pmodify (dns_init udp_new_ok));;
      match dns_str v with
      | None => mret ()
      | Some dns_str =>
          dns ← match ipaddr_aton dns_str with Some dns => mret dns | None => die end;
          lift (pmodify (dns_setserver 0 dns))
      end;;
      netif_add ip i;;
      mtu ← ocp_atoi mtu_str;
      netif_set_mtu (u16 mtu);;
      netif_up;;
      bind_all_listeners;;
      w ← pget;
      (if tcpdump_enabled (w_opts w) then tcpdump_init else mret ());;
      new_periodic_event Cb_tcp_tmr 250;;
      new_periodic_event Cb_dns_tmr 1000;;
      new_periodic_event Cb_housekeeping 1000;;
      mret (vpnfd, i)
  | _, _ => die
  end.

(** ** The event loop *)

(** The event of a socket is removed before its callback runs. *)
Definition fire (i : nat) : prog world unit :=
  s ← sock_at i;
  ev ← pderef (s_ev s);
  if ev_pending ev then
    update_sock i (with_ev (s_fd s) (Some (mk_event (ev_call ev) false)));;
    match ev_call ev with
    | Some Local_data_cb => local_data_cb e i
    | Some Socks_cmd_cb => socks_cmd_cb e dns_pbuf_avail i
    | Some Lwip_data_cb => lwip_data_cb i
    | None => pfault Wild
    end
  else mret ().

Definition dispatch (vpnfd : Z) (ev : ocp_event) : prog world unit :=
  match ev with
  | Ev_socket i => fire i
  | Ev_accept lsock fd => new_conn_cb e dns_pbuf_avail fd lsock
  | Ev_timer Cb_tcp_tmr => cb_tcp_tmr
  | Ev_timer Cb_dns_tmr => cb_dns_tmr
  | Ev_timer Cb_housekeeping => cb_housekeeping vpnfd
  | Ev_signal sig => handle_sig sig
  end.

End main.
End OcpMain.
