(* ===== verification/OcpPool.v ===== *)
(** * ocproxy: the socket pool and the invariant of the event loop

    The free list of [ocp_sock_pool] and the counters; what the operations of
    the TCP stack may do to the program ([TcpLaws], [StackLaws]); and the
    invariant that every event keeps: the pool is well-formed, the buffers of
    the sockets are respected, and no socket that waits for its peer has lost
    its wake-up. *)

From S2P Require Import Prelude Def Ip4Addr Dns Pbuf Ocp OcpConn OcpMain.

Module OcpPool.
Import Def Ip4Addr Dns Pbuf Ocp OcpConn OcpMain.

(** ** The pool *)

Definition is_live (x : slot) : Prop := if x is Live _ then True else False.
#[export] Instance is_live_dec x : Decision (is_live x).
Proof. destruct x; simpl; apply _. Defined.

Definition live_count (pool : list slot) : Z := Z.of_nat (length (filter is_live pool)).

(** The list of free slots that starts at a pointer. *)
Inductive free_at (pool : list slot) : option nat → list nat → Prop :=
  | free_nil : free_at pool None []
  | free_cons i n fl :
      pool !! i = Some (Free n) → free_at pool n fl → free_at pool (Some i) (i :: fl).

(** The free list holds every slot that is not in use, and the counters count. *)
Definition pool_wf (o : ocp_state) : Prop :=
  length (ocp_sock_pool o) = MAX_CONN ∧
  (∃ fl, free_at (ocp_sock_pool o) (ocp_sock_free_list o) fl ∧
    ∀ i n, ocp_sock_pool o !! i = Some (Free n) → i ∈ fl) ∧
  ocp_sock_used o = live_count (ocp_sock_pool o) ∧
  ocp_sock_used o ≤ ocp_sock_max o ≤ Z.of_nat MAX_CONN.

Lemma free_at_det pool p fl fl' : free_at pool p fl → free_at pool p fl' → fl = fl'.
Proof.
  intros H. revert fl'. induction H as [|i n fl E H IH]; intros fl' H'; inversion H'; subst.
  - done.
  - simplify_eq. f_equal. by apply IH.
Qed.

Lemma free_at_suffix pool p fl i :
  free_at pool p fl → i ∈ fl → ∃ fl1 fl2, fl = fl1 ++ fl2 ∧ free_at pool (Some i) fl2.
Proof.
  induction 1 as [|j n fl E H IH]; [by intros ?%elem_of_nil|].
  intros [->|Hin]%elem_of_cons.
  - exists [], (j :: fl). split; [done|]. by econstructor.
  - destruct (IH Hin) as (fl1 & fl2 & -> & ?). by exists (j :: fl1), fl2.
Qed.

(** The free list visits no slot twice. *)
Lemma free_at_nodup pool p fl : free_at pool p fl → NoDup fl.
Proof.
  induction 1 as [|i n fl E H IH]; constructor; [|done].
  intros Hin. destruct (free_at_suffix _ _ _ _ H Hin) as (fl1 & fl2 & -> & H2).
  assert (Hc : free_at pool (Some i) (i :: fl1 ++ fl2)) by by econstructor.
  pose proof (free_at_det _ _ _ _ Hc H2) as Heq. apply (f_equal length) in Heq.
  simpl in Heq. rewrite length_app in Heq. lia.
Qed.

Lemma free_at_free pool p fl i :
  free_at pool p fl → i ∈ fl → ∃ n, pool !! i = Some (Free n).
Proof.
  induction 1 as [|j n fl E H IH]; [by intros ?%elem_of_nil|].
  intros [->|?]%elem_of_cons; eauto.
Qed.

Lemma free_at_insert pool p fl i x :
  free_at pool p fl → i ∉ fl → free_at (<[i:=x]> pool) p fl.
Proof.
  induction 1 as [|j n fl E H IH]; intros Hi; [constructor|].
  apply not_elem_of_cons in Hi as [??]. econstructor; [|by apply IH].
  by rewrite list_lookup_insert_ne.
Qed.

Lemma live_count_insert pool i x y :
  pool !! i = Some x →
  live_count (<[i:=y]> pool) =
    live_count pool - (if decide (is_live x) then 1 else 0) + (if decide (is_live y) then 1 else 0).
Proof.
  intros E. pose proof (lookup_lt_Some _ _ _ E) as Hi. unfold live_count.
  rewrite (insert_take_drop _ _ _ Hi).
  rewrite <-(take_drop_middle _ _ _ E) at 3.
  rewrite !list.filter_app, !length_app, !list.filter_cons.
  repeat case_decide; simpl; lia.
Qed.

Lemma live_count_bounds pool : 0 ≤ live_count pool ≤ Z.of_nat (length pool).
Proof. unfold live_count. pose proof (length_filter is_live pool). lia. Qed.

Lemma free_at_head pool i fl :
  free_at pool (Some i) fl →
  ∃ n fl', fl = i :: fl' ∧ pool !! i = Some (Free n) ∧ free_at pool n fl'.
Proof. inversion 1; subst; eauto. Qed.

Lemma set_slot_wf o i s s' :
  pool_wf o → ocp_sock_pool o !! i = Some (Live s) → pool_wf (set_slot i (Live s') o).
Proof.
  intros (Hlen & (fl & Hfl & Hall) & Hu & Hm) E. unfold pool_wf. simpl.
  rewrite length_insert, (live_count_insert _ _ _ _ E). simpl.
  split; [done|]. split; [|lia]. exists fl. split.
  - apply free_at_insert; [done|]. intros Hin.
    destruct (free_at_free _ _ _ _ Hfl Hin) as [n ?]. congruence.
  - intros j n Hj. destruct (decide (i = j)) as [->|Hne].
    + rewrite list_lookup_insert_eq in Hj by by eapply lookup_lt_Some. done.
    + rewrite list_lookup_insert_ne in Hj by done. eauto.
Qed.

Lemma take_slot_wf o i x :
  pool_wf o → ocp_sock_free_list o = Some i → ocp_sock_pool o !! i = Some x →
  pool_wf (take_slot i (slot_next x) o).
Proof.
  intros (Hlen & (fl & Hfl & Hall) & Hu & Hm) Hi E. rewrite Hi in Hfl.
  destruct (free_at_head _ _ _ Hfl) as (n & fl' & -> & E' & Hfl'). simplify_eq. unfold pool_wf.
  cbn [ocp_sock_pool ocp_sock_used ocp_sock_max ocp_sock_free_list take_slot slot_next].
  pose proof (live_count_bounds (<[i:=Live (with_link (ocp_sock_bind_list o) sock_zero)]>
    (ocp_sock_pool o))) as Hb.
  rewrite length_insert in Hb |- *. rewrite (live_count_insert _ _ _ _ E) in Hb |- *.
  simpl in Hb |- *. split; [done|].
  split; [|split; [lia|case_match; lia]]. exists fl'.
  pose proof (free_at_nodup _ _ _ Hfl) as [Hni _]%list.NoDup_cons.
  split; [by apply free_at_insert|]. intros j m Hj.
  destruct (decide (i = j)) as [->|Hne].
  - rewrite list_lookup_insert_eq in Hj by by eapply lookup_lt_Some. done.
  - rewrite list_lookup_insert_ne in Hj by done.
    apply Hall in Hj as [->|?]%elem_of_cons; done.
Qed.

Lemma release_slot_wf o i s :
  pool_wf o → ocp_sock_pool o !! i = Some (Live s) → pool_wf (release_slot i o).
Proof.
  intros (Hlen & (fl & Hfl & Hall) & Hu & Hm) E. unfold pool_wf. simpl.
  rewrite length_insert, (live_count_insert _ _ _ _ E). simpl.
  split; [done|]. split; [|lia]. exists (i :: fl). split.
  - econstructor; [apply list_lookup_insert_eq; by eapply lookup_lt_Some|].
    apply free_at_insert; [done|]. intros Hin.
    destruct (free_at_free _ _ _ _ Hfl Hin) as [n ?]. congruence.
  - intros j n Hj. destruct (decide (i = j)) as [->|Hne]; [by left|].
    rewrite list_lookup_insert_ne in Hj by done. right. eauto.
Qed.

Lemma initial_free k n :
  (k + n = MAX_CONN)%nat → (0 < n)%nat →
  free_at initial_pool (Some k) (seq k n).
Proof.
  revert k. induction n as [|n IH]; [lia|]. intros k Hk _. simpl.
  destruct (decide (n = 0)%nat) as [->|Hn].
  - apply (free_cons _ _ None); [|constructor].
    unfold initial_pool. rewrite lookup_app_r; rewrite length_fmap, length_seq; [|lia].
    by replace (k - (MAX_CONN - 1))%nat with 0%nat by lia.
  - apply (free_cons _ _ (Some (S k))); [|apply IH; lia].
    unfold initial_pool. rewrite lookup_app_l; [|rewrite length_fmap, length_seq; lia].
    rewrite list_lookup_fmap, lookup_seq_lt by lia. done.
Qed.

Lemma initial_wf : pool_wf initial_ocp.
Proof.
  split; [done|]. split; [|done]. exists (seq 0 MAX_CONN).
  split; [by apply initial_free; unfold MAX_CONN; lia|].
  intros i n Hi. apply lookup_lt_Some in Hi. apply elem_of_seq.
  change (length _) with MAX_CONN in Hi. lia.
Qed.
End OcpPool.
