(* ===== verification/OcpInv.v ===== *)
(** * ocproxy: the invariant of the event loop

    What the TCP stack may do to the program ([TcpLaws], [StackLaws]), and the
    invariant that every event keeps: the pool is well-formed, the buffers of
    the sockets are respected, and no socket that waits for data has lost its
    wake-up. *)

From S2P Require Import Prelude Def Ip4Addr Dns Pbuf Ocp OcpConn OcpMain OcpPool.

Module OcpInv.
Import Def Ip4Addr Dns Pbuf Ocp OcpConn OcpMain OcpPool.

(** ** What the stack does *)

Definition outgoing (x : io) : bool :=
  match x with Writev _ _ _ | Stat _ | Warn _ | Print _ => true | _ => false end.

(** A call that does not call back: it may change the stack, the pbufs, send
    packets, and find out that the VPN is gone. *)
Definition quiet {T CF} (w w' : world T CF) : Prop :=
  w_ocp w' = w_ocp w ∧ w_opts w' = w_opts w ∧ w_dns w' = w_dns w ∧
  w_got_sighup w' = w_got_sighup w ∧ w_got_sigusr1 w' = w_got_sigusr1 w ∧
  ∃ tr, w_trace w' = w_trace w ++ tr ∧ Forall (λ x, outgoing x = true) tr.

#[export] Instance quiet_preorder {T CF} : PreOrder (@quiet T CF).
Proof.
  split.
  - intros w. repeat split. exists []. by rewrite app_nil_r.
  - intros w1 w2 w3 (A1 & A2 & A3 & A4 & A5 & tr & A6 & A7) (B1 & B2 & B3 & B4 & B5 & tr' & B6 & B7).
    split_and!; try congruence. exists (tr ++ tr').
    rewrite B6, A6, app_assoc. split; [done|]. by apply Forall_app.
Qed.

(** Every operation is quiet, except that [tcp_new] may abort other connections
    to make room, and then calls their error callback. *)
Class TcpLaws (T CF : Type) `{!TcpApi T CF} (e : env) := {
  quiet_arg t a : keeps quiet (tcp_arg (T:=T) (CF:=CF) t a);
  quiet_recv t b : keeps quiet (tcp_recv (T:=T) (CF:=CF) t b);
  quiet_sent t b : keeps quiet (tcp_sent (T:=T) (CF:=CF) t b);
  quiet_err t b : keeps quiet (tcp_err (T:=T) (CF:=CF) t b);
  quiet_nagle t : keeps quiet (tcp_nagle_disable (T:=T) (CF:=CF) t);
  quiet_keepalive t n : keeps quiet (tcp_keepalive (T:=T) (CF:=CF) t n);
  quiet_connect t a p : keeps quiet (tcp_connect (T:=T) (CF:=CF) t a p);
  quiet_close t : keeps quiet (tcp_close (T:=T) (CF:=CF) t);
  quiet_write t d : keeps quiet (tcp_write (T:=T) (CF:=CF) t d);
  quiet_output t : keeps quiet (tcp_output (T:=T) (CF:=CF) t);
  quiet_recved t n : keeps quiet (tcp_recved (T:=T) (CF:=CF) t n);
  quiet_transmit : keeps quiet (dns_transmit (T:=T) (CF:=CF));
  tcp_new_calls (R : relation (world T CF)) :
    PreOrder R → (∀ w w', quiet w w' → R w w') →
    (∀ arg err, keeps R (tcp_err_cb e arg err)) →
    keeps R tcp_new
}.
Create HintDb quiet discriminated.
#[export] Hint Resolve quiet_arg quiet_recv quiet_sent quiet_err quiet_nagle quiet_keepalive
  quiet_connect quiet_close quiet_write quiet_output quiet_recved quiet_transmit : quiet.

Ltac solve_quiet := solve [eauto 2 with quiet typeclass_instances].

(** The input path and the timer of the stack do what they do through the
    callbacks that ocproxy registered and the resolver's receive function; its
    setup and the packet dump are quiet. *)
Class StackLaws (T CF : Type) `{!TcpApi T CF} (e : env)
    (custom_free : CF → loc → prog (heap CF) unit)
    (dns_pbuf_avail : dns_state dns_cb nat → bool)
    (ip_input : loc → prog (world T CF) unit) (tcp_tmr : prog (world T CF) unit) := {
  stack_calls (R : relation (world T CF)) :
    PreOrder R → (∀ w w', quiet w w' → R w w') →
    (∀ ctx t p, keeps R (recv_cb e custom_free ctx t p)) →
    (∀ ctx t n, keeps R (sent_cb ctx t n)) →
    (∀ i t err, keeps R (connect_cb e i t err)) →
    (∀ arg err, keeps R (tcp_err_cb e arg err)) →
    (∀ p, keeps R (dns_recv (dns_found e dns_pbuf_avail) p)) →
    (∀ l, keeps R (ip_input l)) ∧ keeps R tcp_tmr
}.

(** ** The resolver inside the program *)

Section resolver.
Context {CB ARG W : Type} `{!Lens W (dns_state CB ARG)} (avail : dns_state CB ARG → bool).
Context (found : CB → bytes → option Z → option ARG → prog W unit).
Context (R : relation W) `{!PreOrder R} (Hput : ∀ d w, R w (lput d w)).
Context (Hfound : ∀ cb name ip arg, keeps R (found cb name ip arg)).

Lemma keeps_entry_at i : keeps R (entry_at i).
Proof. unfold entry_at. keeps. Qed.
Lemma keeps_update_entry i f : keeps R (update_entry i f).
Proof.
  unfold update_entry. apply keeps_bind; [done|apply keeps_entry_at|]. intros en.
  apply keeps_modify. intros w. apply Hput.
Qed.
Lemma keeps_call_found i ip : keeps R (call_found found i ip).
Proof.
  unfold call_found. apply keeps_bind; [done|apply keeps_entry_at|]. intros en. keeps.
Qed.
Lemma keeps_lift_dns {A} (m : prog (dns_state CB ARG) A) : keeps R (lift m).
Proof.
  intros w a w' E. unfold lift in E. destruct (m (lget w)) as [|[??]]; [done|].
  injection E as <- <-. apply Hput.
Qed.
Hint Resolve keeps_entry_at keeps_update_entry keeps_call_found keeps_lift_dns : keeps.

Lemma keeps_dns_tmr : keeps R (dns_tmr avail found).
Proof.
  unfold dns_tmr, dns_check_entries. keeps. generalize 0%nat as i.
  induction DNS_TABLE_SIZE as [|n IH]; intros i; simpl; [keeps|].
  apply keeps_bind; [done| |by intros _]. unfold dns_check_entry. keeps.
Qed.

Lemma keeps_answers i n p : keeps R (answers_loop found i n p).
Proof.
  revert p. induction n as [|n IH]; intros p; cbn [answers_loop]; unfold responseerr, readable.
  all: keeps.
Qed.

Lemma keeps_dns_recv p : keeps R (dns_recv found p).
Proof.
  unfold dns_recv, responseerr. keeps.
  all: try (apply keeps_modify; intros w; apply Hput). all: apply keeps_answers.
Qed.
End resolver.

(** ** The invariant *)

Definition sock_ok (s : ocp_sock) : Prop :=
  zlen (s_sockbuf s) = SOCKBUF_LEN ∧ 0 ≤ s_sock_pos s ≤ SOCKBUF_LEN.

Definition pending (s : ocp_sock) : bool :=
  match s_ev s with Some ev => ev_pending ev | None => false end.

(** A socket that can only go on when its descriptor is readable is going to be
    told: the one of the VPN, one that negotiates, and one that passes data,
    unless it waits for room in the stack. *)
Definition awake (s : ocp_sock) : Prop :=
  match ev_call <$> s_ev s, s_state s with
  | Some (Some Lwip_data_cb), STATE_NEW => pending s = true
  | Some (Some Socks_cmd_cb), (STATE_SOCKS_AUTH | STATE_SOCKS_CMD) => pending s = true
  | Some (Some (Socks_cmd_cb | Local_data_cb)), STATE_DATA =>
      pending s = true ∨ s_lwip_blocked s = true
  | _, _ => True
  end.

Lemma awake_pending s : pending s = true → awake s.
Proof. intros H. unfold awake. repeat case_match; auto. Qed.

Definition idle (st : sock_state) : bool :=
  match st with STATE_DNS | STATE_CONNECTING | STATE_DEAD => true | _ => false end.
Lemma awake_idle st s : idle st = true → awake (with_state st s).
Proof. intros H. unfold awake. simpl. by repeat case_match. Qed.

(** What waiting for the stack does not leave behind. *)
Definition may_block (s : ocp_sock) : Prop :=
  s_state s = STATE_DATA ∨ ev_call <$> s_ev s = Some (Some Local_data_cb).

Lemma awake_blocked s : may_block s → awake (with_blocked true s).
Proof.
  intros H. unfold awake. simpl. destruct H as [-> | ->]; repeat case_match; auto.
Qed.

Create HintDb inv discriminated.

Section inv.
Context {T CF : Type} `{!TcpApi T CF} {e : env} `{!TcpLaws T CF e} (He : env_ok e).
Abbreviation world := (world T CF).
Implicit Types (w : world) (X : nat → Prop).

(** [X]: the sockets whose event is being handled. *)
Definition inv X w : Prop :=
  pool_wf (w_ocp w) ∧
  ∀ i s, ocp_sock_pool (w_ocp w) !! i = Some (Live s) → sock_ok s ∧ (X i ∨ awake s).
Definition add (i : nat) X : nat → Prop := λ j, j = i ∨ X j.

Lemma inv_add i X w : inv X w → inv (add i X) w.
Proof.
  intros [? H]. split; [done|]. intros j s Ej. destruct (H j s Ej) as [? [?|?]]; [|by auto].
  split; [done|]. left. by right.
Qed.

Lemma inv_ocp X w w' : w_ocp w' = w_ocp w → inv X w → inv X w'.
Proof. unfold inv. by intros ->. Qed.

Lemma inv_quiet X {A} (m : prog world A) : keeps quiet m → hoare (inv X) m (λ _, inv X).
Proof. intros H. eapply hoare_keeps; [done|]. intros w w' (E & _). by apply inv_ocp. Qed.

Lemma inv_emit X x : hoare (inv X) (emit x) (λ _, inv X).
Proof. apply hoare_modify. intros w. by apply inv_ocp. Qed.

Lemma inv_sock_at_live X i :
  hoare (inv X) (sock_at i)
    (λ s w, inv X w ∧ ocp_sock_pool (w_ocp w) !! i = Some (Live s)).
Proof.
  intros w s w' Hi E. unfold sock_at in E. rewrite bind_get in E.
  destruct (ocp_sock_pool (w_ocp w) !! i) as [[s'|n]|] eqn:El; [|done..].
  by injection E as -> ->.
Qed.

Lemma inv_sock_at X i : hoare (inv X) (sock_at i) (λ s w, inv X w ∧ sock_ok s).
Proof.
  eapply hoare_conseq; [apply inv_sock_at_live|done|].
  intros s w [Hi E]. split; [done|]. by eapply Hi.
Qed.

Lemma inv_set X Y w i s s' :
  inv X w → ocp_sock_pool (w_ocp w) !! i = Some (Live s) → sock_ok s' →
  Y i ∨ awake s' → (∀ j, X j → j ≠ i → Y j) →
  inv Y (set_ocp (set_slot i (Live s') (w_ocp w)) w).
Proof.
  intros [Hp H] E Hok Hi HX. split; [by eapply set_slot_wf|]. intros j sj. simpl.
  destruct (decide (i = j)) as [->|Hne].
  - rewrite list_lookup_insert_eq by by eapply lookup_lt_Some. by intros [= ->].
  - rewrite list_lookup_insert_ne by done. intros Ej.
    destruct (H j sj Ej) as [? [?|?]]; [|by auto]. split; [done|]. left. by apply HX.
Qed.

Lemma hoare_update P i f (Q : unit → world → Prop) :
  (∀ w s, P w → ocp_sock_pool (w_ocp w) !! i = Some (Live s) →
    Q () (set_ocp (set_slot i (Live (f s)) (w_ocp w)) w)) →
  hoare P (update_sock i f) Q.
Proof.
  intros H w a w' Hi E. unfold update_sock, sock_at in E.
  cbv [mbind prog_bind] in E. simpl in E.
  destruct (ocp_sock_pool (w_ocp w) !! i) as [[s|n]|] eqn:El; [|done..].
  injection E as <- <-. auto.
Qed.

(** A socket is changed while it is handled, without consequences for its
    wake-up, or so that it is awake again. *)
Lemma inv_touch X i f :
  (∀ s, sock_ok s → sock_ok (f s)) →
  hoare (inv (add i X)) (update_sock i f) (λ _, inv (add i X)).
Proof.
  intros Hok. apply hoare_update. intros w s Hi E.
  eapply inv_set; [done|done|apply Hok; by eapply Hi|by left; left|done].
Qed.
Lemma inv_keep X i f :
  (∀ s, sock_ok s → sock_ok (f s)) → (∀ s, awake s → awake (f s)) →
  hoare (inv X) (update_sock i f) (λ _, inv X).
Proof.
  intros Hok Haw. apply hoare_update. intros w s Hi E.
  destruct (proj2 Hi i s E) as [? [?|?]]; (eapply inv_set; [done|done|by apply Hok|..]); auto.
Qed.
Lemma inv_wake X i f :
  (∀ s, sock_ok s → sock_ok (f s)) → (∀ s, awake (f s)) →
  hoare (inv (add i X)) (update_sock i f) (λ _, inv X).
Proof.
  intros Hok Haw. apply hoare_update. intros w s Hi E.
  eapply inv_set; [done|done|apply Hok; by eapply Hi|by auto|].
  by intros j [->|?] ?.
Qed.

Lemma inv_idle X i st :
  idle st = true → hoare (inv (add i X)) (update_sock i (with_state st)) (λ _, inv X).
Proof. intros H. apply inv_wake; [done|]. intros s. by apply awake_idle. Qed.

Lemma inv_event_add X i : hoare (inv (add i X)) (event_add i) (λ _, inv X).
Proof.
  unfold event_add. eapply hoare_bind; [apply inv_sock_at|]. intros s. cbv beta.
  apply hoare_pure. intros _. eapply hoare_bind; [apply hoare_deref|]. intros ev. cbv beta.
  apply hoare_pure. intros _. apply inv_wake; [done|]. intros s'. by apply awake_pending.
Qed.

Lemma inv_event_add_any X i : hoare (inv X) (event_add i) (λ _, inv X).
Proof. eapply hoare_conseq; [apply (inv_event_add X)|apply inv_add|done]. Qed.

Lemma inv_release X w i s :
  inv (add i X) w → ocp_sock_pool (w_ocp w) !! i = Some (Live s) →
  inv X (set_ocp (release_slot i (w_ocp w)) w).
Proof.
  intros [Hp H] E. split; [by eapply release_slot_wf|]. intros j sj. simpl.
  destruct (decide (i = j)) as [->|Hne].
  - by rewrite list_lookup_insert_eq; [|by eapply lookup_lt_Some].
  - rewrite list_lookup_insert_ne by done. intros Ej.
    by destruct (H j sj Ej) as [? [[->|?]|?]]; auto.
Qed.

Lemma inv_del X i : hoare (inv (add i X)) (ocp_sock_del i) (λ _, inv X).
Proof.
  unfold ocp_sock_del. eapply hoare_bind; [apply inv_sock_at|]. intros s. cbv beta.
  apply hoare_pure. intros _. case_decide; [by apply inv_idle|].
  eapply hoare_seq; [apply inv_emit|]. intros _.
  eapply hoare_seq.
  { destruct (s_tpcb s) as [t|]; [|by apply hoare_ret].
    eapply hoare_seq; [apply inv_quiet; solve_quiet|]. intros _.
    eapply hoare_seq; [apply inv_quiet; solve_quiet|]. intros _. by apply hoare_ret. }
  intros _. eapply hoare_bind; [apply inv_sock_at_live|]. intros s'. cbv beta.
  eapply hoare_bind; [apply hoare_deref|]. intros ev. cbv beta.
  apply hoare_modify. intros w [[Hi E] _]. by eapply inv_release.
Qed.

Lemma inv_del_any X i : hoare (inv X) (ocp_sock_del i) (λ _, inv X).
Proof. eapply hoare_conseq; [apply (inv_del X)|apply inv_add|done]. Qed.

Lemma inv_read X fd n :
  hoare (inv X) (read e fd n)
    (λ r w, inv X w ∧ ∀ d, r = Some d → zlen d ≤ n).
Proof.
  unfold read. apply hoare_get_any. intros w.
  eapply hoare_seq; [apply inv_emit|]. intros _. apply hoare_ret. intros w' Hi.
  split; [done|]. intros d Hd. by apply He in Hd as [? _].
Qed.

Lemma inv_write X fd d : hoare (inv X) (write e fd d) (λ _, inv X).
Proof.
  unfold write. apply hoare_get_any. intros w.
  eapply hoare_seq; [apply inv_emit|]. intros _. by apply hoare_ret.
Qed.

End inv.

(** One command of a handler. *)
Ltac hstep :=
  match goal with
  | |- hoare _ (pget ≫= _) _ => apply hoare_get_any; intros ?
  | |- hoare _ (mret _) _ => by apply hoare_ret
  | |- hoare _ (pfault _) _ => apply hoare_fault
  | |- hoare _ die _ => apply hoare_fault
  | |- hoare _ (sock_at _ ≫= _) _ =>
      eapply hoare_bind; [apply inv_sock_at|intros ?; cbv beta; apply hoare_pure; intros ?]
  | |- hoare _ (pderef _ ≫= _) _ =>
      eapply hoare_bind; [apply hoare_deref|intros ?; cbv beta; apply hoare_pure; intros ?]
  | |- hoare _ (read _ _ _ ≫= _) _ =>
      eapply hoare_bind; [apply inv_read; assumption|intros ?; cbv beta; apply hoare_pure; intros ?]
  | |- hoare _ (write _ _ _ ≫= _) _ => eapply hoare_seq; [apply inv_write|intros ?]
  | |- hoare _ (emit _ ≫= _) _ => eapply hoare_seq; [apply inv_emit|intros ?]
  | |- hoare _ (emit _) _ => apply inv_emit
  | |- hoare _ (warn _ ≫= _) _ => eapply hoare_seq; [apply inv_emit|intros ?]
  | |- hoare _ (warn _) _ => apply inv_emit
  | |- hoare _ (match ?x with _ => _ end) _ => destruct x eqn:?
  | |- hoare _ (_ ≫= _) _ =>
      eapply hoare_seq; [apply inv_quiet; solve_quiet|intros ?]
  end.

Section handlers.
Context {T CF : Type} `{!TcpApi T CF} {e : env} `{!TcpLaws T CF e} (He : env_ok e).
Abbreviation world := (world T CF).
Abbreviation inv := (@inv T CF).
Implicit Types (w : world) (X : nat → Prop).

Lemma inv_socks_reply X i rep : hoare (inv (add i X)) (socks_reply e i rep) (λ _, inv (add i X)).
Proof.
  unfold socks_reply. repeat hstep; apply inv_del_any.
Qed.

(** The reply to a request that failed ends the connection. *)
Lemma inv_socks_fail X i rep :
  rep ≠ 0 → hoare (inv (add i X)) (socks_reply e i rep) (λ _, inv X).
Proof.
  intros Hr. unfold socks_reply. do 4 hstep. case_decide; (rewrite (proj2 (Z.eqb_neq _ _)); [apply inv_del|done]).
Qed.

Lemma inv_tcp_err X arg err : hoare (inv X) (tcp_err_cb e arg err) (λ _, inv X).
Proof.
  unfold tcp_err_cb. destruct arg as [i|]; [|hstep].
  eapply hoare_seq; [by apply inv_keep|]. intros _. hstep. case_decide.
  - eapply hoare_conseq; [by apply (inv_socks_fail X)|apply inv_add|done].
  - apply inv_del_any.
Qed.

#[export] Instance inv_preorder X : PreOrder (λ w w', inv X w → inv X w').
Proof. split; [by intros w|by intros w1 w2 w3; auto]. Qed.

Lemma inv_tcp_new X : hoare (inv X) tcp_new (λ _, inv X).
Proof.
  apply keeps_hoare. apply (tcp_new_calls (e:=e)); [apply _|..].
  - intros w w' (E & _). by apply inv_ocp.
  - intros arg err. apply keeps_hoare, inv_tcp_err.
Qed.

Lemma inv_start_connection X i ip :
  hoare (inv (add i X)) (start_connection i ip) (λ _, inv X).
Proof.
  unfold start_connection. eapply hoare_bind; [by apply (inv_idle X)|]. intros ?.
  eapply hoare_seq; [apply inv_tcp_new|]. intros [t|]; [|apply hoare_fault].
  do 4 hstep. eapply hoare_seq; [by apply inv_keep|]. intros _. hstep.
  eapply hoare_seq; [case_match; [hstep|apply inv_quiet; solve_quiet]|]. intros _.
  repeat hstep.
Qed.

Lemma inv_finish_resolution X hostname ip i :
  hoare (inv (add i X)) (finish_resolution e hostname ip i) (λ _, inv X).
Proof.
  unfold finish_resolution. hstep. case_decide; [apply inv_del|].
  destruct ip; [apply inv_start_connection|]. case_decide; [by apply inv_socks_fail|apply inv_del].
Qed.

Lemma inv_dns X {A} (m : prog (dns_state dns_cb nat) A) :
  hoare (inv X) (lift m : prog world A) (λ _, inv X).
Proof.
  intros w a w' Hi E. unfold lift in E. destruct (m (lget w)) as [|[a' d]]; [done|].
  injection E as <- <-. by eapply inv_ocp.
Qed.

Lemma inv_pbufs X {A} (m : prog (heap CF) A) :
  hoare (inv X) (lift m : prog world A) (λ _, inv X).
Proof.
  intros w a w' Hi E. unfold lift in E. destruct (m (lget w)) as [|[a' d]]; [done|].
  injection E as <- <-. by eapply inv_ocp.
Qed.

Lemma sock_ok_buf s s' pos d off :
  sock_ok s → 0 ≤ pos ≤ SOCKBUF_LEN → 0 ≤ off → off + zlen d ≤ SOCKBUF_LEN →
  sock_ok (with_buf pos (splice (Z.to_nat off) d (s_sockbuf s)) s').
Proof.
  intros [Hb Hp] ? ? ?. split; [|done]. simpl. unfold zlen in *. rewrite length_splice; lia.
Qed.

Lemma length_dotted a b : zlen (dotted a b ++ [0]) ≤ SOCKBUF_LEN.
Proof.
  unfold dotted, zlen, SOCKBUF_LEN. rewrite length_app, length_take. cbn [length]. lia.
Qed.

Context (dns_pbuf_avail : dns_state dns_cb nat → bool).

Lemma inv_enqueue X (found : bytes → option Z → nat → prog world unit) cb i hostname domain :
  (∀ hn ip, hoare (inv X) (found hn ip i) (λ _, inv X)) →
  hoare (inv X) (enqueue_dns_req dns_pbuf_avail found cb i hostname domain) (λ _, inv X).
Proof.
  intros Hf. unfold enqueue_dns_req. eapply hoare_seq.
  { destruct domain; [|by repeat hstep]. hstep. hstep.
    eapply hoare_seq; [|intros ?; by hstep]. apply inv_keep; [|done].
    intros s0 Hs. apply (sock_ok_buf _ _ _ _ 0); [done|apply Hs|done|apply length_dotted]. }
  intros name. eapply hoare_seq; [apply inv_dns|]. intros [err addr].
  destruct err; repeat hstep; try apply Hf.
  eapply hoare_seq; [by apply inv_keep|]. intros _.
  eapply hoare_conseq; [apply (inv_start_connection X)|apply inv_add|done].
Qed.

Lemma inv_finish_any X hostname ip i :
  hoare (inv X) (finish_resolution e hostname ip i) (λ _, inv X).
Proof. eapply hoare_conseq; [apply (inv_finish_resolution X)|apply inv_add|done]. Qed.

Lemma inv_retry X hostname ip i :
  hoare (inv X) (retry_resolution e dns_pbuf_avail hostname ip i) (λ _, inv X).
Proof.
  unfold retry_resolution. hstep. destruct ip; [apply inv_finish_any|].
  destruct (dns_domain _); [|apply inv_finish_any]. apply inv_enqueue. intros. apply inv_finish_any.
Qed.

Lemma inv_start_resolution X hostname i :
  hoare (inv (add i X)) (start_resolution e dns_pbuf_avail i hostname) (λ _, inv X).
Proof.
  unfold start_resolution. eapply hoare_bind; [by apply (inv_idle X)|]. intros ?. case_decide.
  - apply inv_enqueue. intros. apply inv_retry.
  - hstep. apply inv_enqueue. intros. apply inv_finish_any.
Qed.

Lemma inv_found X cb hostname ip arg :
  hoare (inv X) (dns_found e dns_pbuf_avail cb hostname ip arg) (λ _, inv X).
Proof. unfold dns_found. do 2 hstep. destruct cb; [apply inv_finish_any|apply inv_retry]. Qed.

Lemma inv_dns_recv X p : hoare (inv X) (dns_recv (dns_found e dns_pbuf_avail) p) (λ _, inv X).
Proof.
  apply keeps_hoare, keeps_dns_recv; [apply _|..].
  - intros d w. by apply inv_ocp.
  - intros. apply keeps_hoare, inv_found.
Qed.

Lemma inv_dns_tmr X :
  hoare (inv X) (dns_tmr dns_pbuf_avail (dns_found e dns_pbuf_avail)) (λ _, inv X).
Proof.
  apply keeps_hoare, keeps_dns_tmr; [apply _|..].
  - intros d w. by apply inv_ocp.
  - intros. apply keeps_hoare, inv_found.
Qed.

(** ** Data *)

Definition at_sock (i : nat) (φ : ocp_sock → Prop) w : Prop :=
  ∀ s, ocp_sock_pool (w_ocp w) !! i = Some (Live s) → φ s.

Lemma inv_block X i :
  hoare (λ w, inv (add i X) w ∧ at_sock i may_block w) (update_sock i (with_blocked true))
    (λ _, inv X).
Proof.
  apply hoare_update. intros w s [Hi Hat] E.
  eapply inv_set; [done|done|exact (proj1 (proj2 Hi i s E))|right; by apply awake_blocked, Hat|].
  by intros j [->|?] ?.
Qed.

Lemma inv_local_data X i :
  hoare (λ w, inv (add i X) w ∧ at_sock i may_block w) (local_data_cb e i) (λ _, inv X).
Proof.
  unfold local_data_cb.
  eapply (hoare_bind _ _ _ (λ s w, (inv (add i X) w ∧ at_sock i may_block w) ∧ sock_ok s)).
  { intros w s w' [Hi Hat] E. destruct (inv_sock_at _ _ _ _ _ Hi E) as [_ ?].
    unfold sock_at in E. rewrite bind_get in E. case_match; [|done]. case_match; [|done].
    by injection E as -> ->. }
  intros s. apply hoare_pure. intros Hs. hstep. hstep. set (n := Z.min _ _).
  case_match; [apply inv_block|].
  apply (hoare_conseq _ (inv (add i X)) _ _ (λ _, inv X)); [|by intros ? []|done].
  hstep. destruct a0 as [[|c d]|]; [apply inv_del| |apply inv_del].
  eapply hoare_seq.
  { apply inv_touch. intros s1 Hs1. apply (sock_ok_buf _ _ _ _ 0); [exact Hs|apply Hs|done|].
    specialize (H1 _ eq_refl). unfold n in H1. lia. }
  intros _. hstep. eapply hoare_seq; [repeat hstep|]. intros _. do 3 hstep. apply inv_event_add.
Qed.

Lemma inv_sent X ctx t n : hoare (inv X) (sent_cb ctx t n) (λ _, inv X).
Proof.
  unfold sent_cb. destruct ctx as [i|]; [|hstep]. hstep.
  eapply hoare_seq; [|intros _; hstep]. case_match; [|hstep].
  apply (hoare_conseq _ (inv (add i X)) _ _ (λ _, inv X)); [|apply inv_add|done].
  eapply hoare_seq; [by apply inv_touch|]. intros _. apply inv_event_add.
Qed.

Context (custom_free : CF → loc → prog (heap CF) unit).

Lemma inv_recv_loop X fuel i t p off :
  hoare (inv X) (recv_loop e fuel i t p off) (λ _, inv X).
Proof.
  revert p off. induction fuel as [|fuel IH]; intros [l|] off; cbn [recv_loop];
    try (by hstep);
    (eapply hoare_seq; [apply inv_pbufs|]; intros b; hstep;
     eapply hoare_seq; [apply inv_pbufs|]; intros d; hstep;
     case_match; [|eapply hoare_seq; [apply inv_del_any|]; intros _; hstep];
     eapply hoare_seq; [by apply inv_keep|]; intros _; hstep; hstep; case_match; [hstep|];
     eapply hoare_seq; [apply inv_pbufs|]; intros b').
  - apply hoare_fault.
  - apply IH.
Qed.

Lemma inv_recv X ctx t p : hoare (inv X) (recv_cb e custom_free ctx t p) (λ _, inv X).
Proof.
  unfold recv_cb. destruct ctx as [i|]; [|hstep]. destruct p as [l|].
  - hstep. hstep. eapply hoare_seq; [apply inv_pbufs|]. intros pos.
    eapply hoare_seq; [apply inv_recv_loop|]. intros [err|]; [hstep|].
    eapply hoare_seq; [by apply inv_keep|]. intros _.
    eapply hoare_seq; [apply inv_pbufs|]. intros _. hstep.
  - eapply hoare_seq; [apply inv_del_any|]. intros _. hstep.
Qed.

Lemma inv_connect X i t err : hoare (inv X) (connect_cb e i t err) (λ _, inv X).
Proof.
  unfold connect_cb. hstep.
  apply (hoare_conseq _ (inv (add i X)) _ _ (λ _, inv X)); [|apply inv_add|done].
  eapply hoare_seq; [case_decide; [apply inv_socks_reply|hstep]|]. intros _.
  eapply hoare_seq; [by apply inv_touch|]. intros _.
  eapply hoare_bind; [apply inv_event_add|]. intros ?. repeat hstep.
Qed.

(** ** SOCKS *)

Lemma byte_at_range buf k : 0 ≤ byte_at buf k < 256.
Proof. apply u8_range. Qed.

Lemma inv_auth_step X i s : hoare (inv (add i X)) (socks_auth_step e i s) (λ _, inv X).
Proof.
  unfold socks_auth_step. do 2 (case_match; [apply inv_event_add|]). hstep.
  case_decide; [|apply inv_del].
  eapply hoare_seq; [by apply inv_touch|]. intros _.
  eapply hoare_seq; [apply inv_touch|].
  { intros s' [? ?]. by split. }
  intros _. apply inv_event_add.
Qed.

Lemma inv_req_step X i s :
  sock_ok s → hoare (inv (add i X)) (socks_req_step e dns_pbuf_avail i s) (λ _, inv X).
Proof.
  intros Hs. unfold socks_req_step. cbv zeta.
  case_match; [apply inv_event_add|]. case_match; [by apply inv_socks_fail|].
  case_match.
  { case_match; [apply inv_event_add|].
    eapply hoare_seq; [by apply inv_touch|]. intros _. apply inv_start_connection. }
  case_match; [|by apply inv_socks_fail]. do 2 (case_match; [apply inv_event_add|]).
  pose proof (byte_at_range (s_sockbuf s) 4).
  eapply hoare_seq; [by apply inv_touch|]. intros _.
  eapply hoare_seq; [apply inv_touch|intros _; apply inv_start_resolution].
  intros s' Hs'. apply sock_ok_buf; [done|apply Hs'|lia|].
  unfold zlen, SOCKBUF_LEN. cbn [length]. lia.
Qed.

Lemma inv_socks_cmd X i :
  hoare (inv (add i X)) (socks_cmd_cb e dns_pbuf_avail i) (λ _, inv X).
Proof.
  unfold socks_cmd_cb. eapply hoare_bind; [apply inv_sock_at_live|]. intros s. cbv beta.
  case_decide as Hst.
  { eapply hoare_conseq; [apply (inv_local_data X i)| |done].
    intros w [Hi E]. split; [done|]. intros s' E'. left. congruence. }
  apply (hoare_conseq _ (λ w, inv (add i X) w ∧ sock_ok s) _ _ (λ _, inv X)); [| |done].
  2:{ intros w [Hi E]. split; [done|]. exact (proj1 (proj2 Hi i s E)). }
  apply hoare_pure. intros Hs. hstep. destruct a as [[|c d]|]; [apply inv_del| |apply inv_del].
  specialize (H _ eq_refl). pose proof (zlen_nonneg (c :: d)).
  pose proof Hs as [Hb Hp]. eapply hoare_seq.
  { apply inv_touch. intros s' _. apply sock_ok_buf; [done|lia|lia|lia]. }
  intros _. hstep. case_match; [apply inv_del|].
  case_match; try apply inv_event_add; [apply inv_auth_step|by apply inv_req_step].
Qed.
End handlers.
End OcpInv.
