(* ===== verification/OcpLoop.v ===== *)
(** * ocproxy: the event loop

    Every state that the program reaches, from [main] through any sequence of
    events, has a well-formed pool and no socket that lost its wake-up. *)

From S2P Require Import Prelude Def Ip4Addr Dns Pbuf Ocp OcpConn OcpMain OcpPool OcpInv.

Module OcpLoop.
Import Def Ip4Addr Dns Pbuf Ocp OcpConn OcpMain OcpPool OcpInv.

(** The components that the program is linked with and that are not modelled. *)
Record stack (T CF : Type) := mk_stack {
  st_custom_free : CF → loc → prog (heap CF) unit;
  st_mem_avail : heap CF → Z → bool;
  st_garbage : heap CF → nat → Z;
  st_dns_pbuf_avail : dns_state dns_cb nat → bool;
  st_ip_input : loc → prog (world T CF) unit;
  st_tcp_tmr : prog (world T CF) unit;
  st_lwip_init : prog (world T CF) unit;
  st_netif_add : Z → nat → prog (world T CF) unit;
  st_netif_set_mtu : Z → prog (world T CF) unit;
  st_netif_up : prog (world T CF) unit;
  st_udp_new_ok : bool;
  st_event_base_new_ok : bool;
  st_tcpdump : option loc → prog (world T CF) unit;
  st_tcpdump_init : prog (world T CF) unit;
  st_inet_aton : bytes → option Z
}.
Arguments mk_stack {T CF}.
Arguments st_custom_free {T CF}.
Arguments st_mem_avail {T CF}.
Arguments st_garbage {T CF}.
Arguments st_dns_pbuf_avail {T CF}.
Arguments st_ip_input {T CF}.
Arguments st_tcp_tmr {T CF}.
Arguments st_lwip_init {T CF}.
Arguments st_netif_add {T CF}.
Arguments st_netif_set_mtu {T CF}.
Arguments st_netif_up {T CF}.
Arguments st_udp_new_ok {T CF}.
Arguments st_event_base_new_ok {T CF}.
Arguments st_tcpdump {T CF}.
Arguments st_tcpdump_init {T CF}.
Arguments st_inet_aton {T CF}.

(** Setting the stack up and dumping packets does not call back, except that
    an interface whose address changes aborts its connections. *)
Definition setup_quiet {T CF} `{!TcpApi T CF} (e : env) (k : stack T CF) : Prop :=
  keeps quiet (st_lwip_init k) ∧
  (∀ R : relation (world T CF), PreOrder R → (∀ w w', quiet w w' → R w w') →
     (∀ arg err, keeps R (tcp_err_cb e arg err)) → ∀ ip i, keeps R (st_netif_add k ip i)) ∧
  (∀ n, keeps quiet (st_netif_set_mtu k n)) ∧ keeps quiet (st_netif_up k) ∧
  (∀ p, keeps quiet (st_tcpdump k p)) ∧ keeps quiet (st_tcpdump_init k).

Section loop.
Context {T CF : Type} `{!TcpApi T CF} (e : env) (k : stack T CF).
Abbreviation world := (world T CF).
Abbreviation inv := (@inv T CF).
Implicit Types (w : world) (X : nat → Prop).

Definition run_main (st : startup) : prog world (Z * nat) :=
  main e (st_lwip_init k) (st_netif_add k) (st_netif_set_mtu k) (st_netif_up k)
    (st_udp_new_ok k) (st_event_base_new_ok k) (st_tcpdump_init k) (st_inet_aton k) st.
Definition run_event (vpnfd : Z) (ev : ocp_event) : prog world unit :=
  dispatch e (st_custom_free k) (st_mem_avail k) (st_garbage k) (st_dns_pbuf_avail k)
    (st_ip_input k) (st_tcp_tmr k) (st_tcpdump k) vpnfd ev.

(** The state at the start of [main]. *)
Definition boot (t : T) : world :=
  mk_world (mk_ocp [] None None 0 0) (mk_options false false 0 0 None) false false false
    dns_zero ∅ t [].

(** The states between events; [vpnfd] is the variable of [main]. *)
Inductive reachable (st : startup) (vpnfd : Z) : world → Prop :=
  | reach_main t i w : run_main st (boot t) = inr ((vpnfd, i), w) → reachable st vpnfd w
  | reach_event ev w w' :
      reachable st vpnfd w → run_event vpnfd ev w = inr ((), w') → reachable st vpnfd w'.

Context (He : env_ok e) `{!TcpLaws T CF e} (Hq : setup_quiet e k).
Context `{!StackLaws T CF e (st_custom_free k) (st_dns_pbuf_avail k) (st_ip_input k)
            (st_tcp_tmr k)}.

Lemma inv_take X w i x :
  inv X w → ocp_sock_free_list (w_ocp w) = Some i → ocp_sock_pool (w_ocp w) !! i = Some x →
  inv X (set_ocp (take_slot i (slot_next x) (w_ocp w)) w).
Proof.
  intros [Hp H] Ef E. split; [by apply take_slot_wf|]. intros j sj. simpl.
  destruct (decide (i = j)) as [->|Hne].
  - rewrite list_lookup_insert_eq by by eapply lookup_lt_Some. intros [= <-].
    split; [|by right]. split; [done|]. by unfold SOCKBUF_LEN.
  - rewrite list_lookup_insert_ne by done. apply H.
Qed.

(** A new socket whose event is active, or that has none, needs no attention. *)
Lemma inv_sock_new X fd cb act d :
  hoare (inv X) (ocp_sock_new e fd cb act d)
    (λ r w, match r with
            | Some i => inv (if (fd <? 0) || act then X else add i X) w
            | None => inv X w
            end).
Proof.
  unfold ocp_sock_new. apply hoare_get. intros w Hi.
  destruct (ocp_sock_free_list (w_ocp w)) as [i|] eqn:Ef.
  2:{ destruct d; [apply hoare_fault|]. by apply hoare_ret; intros ? <-. }
  eapply hoare_bind; [apply hoare_deref|]. intros x. cbv beta. apply hoare_pure. intros E.
  apply (hoare_bind _ _ _ (λ _, inv X)).
  { apply hoare_modify. intros ? <-. by apply inv_take. }
  intros _. destruct (fd <? 0); [by apply hoare_ret|].
  apply (hoare_bind _ _ _ (λ _, inv (add i X))).
  { unfold event_new. hstep. eapply hoare_conseq; [by apply inv_touch|apply inv_add|done]. }
  intros _. destruct act; simpl.
  - eapply hoare_bind; [apply inv_event_add|]. intros ?. by apply hoare_ret.
  - by apply (hoare_bind _ _ _ (λ _, inv (add i X))); [hstep|intros _; apply hoare_ret].
Qed.

Lemma inv_new_conn X fd lsock :
  hoare (inv X) (new_conn_cb e (st_dns_pbuf_avail k) fd lsock) (λ _, inv X).
Proof.
  unfold new_conn_cb. hstep. eapply hoare_bind; [apply inv_sock_new|]. intros [i|]; [|hstep].
  cbv beta iota. rewrite orb_false_r.
  apply (hoare_conseq _ (inv (add i X)) _ _ (λ _, inv X)); [|case_match; [apply inv_add|done]|done].
  hstep. eapply hoare_seq; [by apply inv_touch|]. intros _. case_decide.
  - hstep. by apply inv_start_resolution.
  - eapply hoare_seq; [by apply inv_touch|]. intros _. apply inv_event_add.
Qed.

Lemma inv_stack X :
  (∀ l, hoare (inv X) (st_ip_input k l) (λ _, inv X)) ∧
  hoare (inv X) (st_tcp_tmr k) (λ _, inv X).
Proof.
  destruct (stack_calls (StackLaws:=_) (λ w w', inv X w → inv X w')) as [H1 H2].
  - apply _.
  - intros w w' (E & _). by apply inv_ocp.
  - intros. by apply keeps_hoare, inv_recv.
  - intros. by apply keeps_hoare, inv_sent.
  - intros. by apply keeps_hoare, inv_connect.
  - intros. by apply keeps_hoare, inv_tcp_err.
  - intros. by apply keeps_hoare, inv_dns_recv.
  - split; [intros l|]; by apply keeps_hoare.
Qed.

Lemma inv_conn_down X : hoare (inv X) vpn_conn_down (λ _, inv X).
Proof. unfold vpn_conn_down. hstep. apply hoare_modify. intros w. by apply inv_ocp. Qed.

Lemma inv_lwip_data X i :
  hoare (inv (add i X))
    (lwip_data_cb e (st_custom_free k) (st_mem_avail k) (st_garbage k) (st_ip_input k)
       (st_tcpdump k) i) (λ _, inv X).
Proof.
  unfold lwip_data_cb. hstep. eapply hoare_bind; [by apply inv_read|]. intros r. cbv beta.
  apply hoare_pure. intros Hr.
  assert (∃ len d, match r with Some d => (zlen d, d) | None => (-1, []) end = (len, d) ∧
    zlen d ≤ SOCKBUF_LEN) as (len & d & -> & Hd).
  { destruct r as [d|]; [by eauto|]. by exists (-1), []. }
  eapply hoare_seq.
  { apply inv_touch. intros s Hs. apply (sock_ok_buf _ _ _ _ 0); [done|apply Hs|done|done]. }
  intros _. eapply hoare_seq; [case_match; [apply inv_conn_down|hstep]|]. intros _.
  eapply hoare_seq; [apply inv_pbufs|]. intros p.
  eapply hoare_seq; [|intros _; apply inv_event_add].
  destruct p as [l|]; [|hstep]. eapply hoare_seq; [apply inv_pbufs|]. intros _. hstep. hstep.
  eapply hoare_seq; [case_match; [apply inv_quiet, Hq|hstep]|]. intros _. hstep.
  case_match; [apply inv_stack|apply hoare_fault].
Qed.

Lemma inv_housekeeping X fd : hoare (inv X) (cb_housekeeping e fd) (λ _, inv X).
Proof.
  unfold cb_housekeeping. hstep. hstep. eapply hoare_seq.
  - do 2 (case_match; [apply inv_conn_down|]). hstep.
  - intros _. hstep. case_match; [|hstep]. hstep. apply hoare_modify. intros w. by apply inv_ocp.
Qed.

Lemma inv_fire X i :
  hoare (inv X) (fire e (st_custom_free k) (st_mem_avail k) (st_garbage k)
    (st_dns_pbuf_avail k) (st_ip_input k) (st_tcpdump k) i) (λ _, inv X).
Proof.
  unfold fire. hstep. hstep. case_match; [|hstep].
  apply (hoare_bind _ _ _ (λ _ w, inv (add i X) w ∧
    at_sock i (λ s, s_ev s = Some (mk_event (ev_call a0) false)) w)).
  { apply hoare_update. intros w s Hi E. split.
    - apply (inv_add i) in Hi. apply (inv_set (add i X) _ _ _ s); [done|done| |left; by left|done].
      exact (proj1 (proj2 Hi i s E)).
    - intros s'. simpl. rewrite list_lookup_insert_eq by by eapply lookup_lt_Some. by intros [= <-]. }
  intros _. destruct (ev_call a0) as [[]|]; [..|apply hoare_fault].
  - eapply hoare_conseq; [by apply (inv_local_data He X i)| |done].
    intros w [Hi Hat]. split; [done|]. intros s' E'. right. by rewrite (Hat s' E').
  - eapply hoare_conseq; [by apply (inv_socks_cmd He _ X i)|by intros w []|done].
  - eapply hoare_conseq; [by apply (inv_lwip_data X i)|by intros w []|done].
Qed.

Lemma inv_event X vpnfd ev : hoare (inv X) (run_event vpnfd ev) (λ _, inv X).
Proof.
  unfold run_event, dispatch. destruct ev as [i|l fd|[]|[]].
  - apply inv_fire.
  - apply inv_new_conn.
  - apply inv_stack.
  - eapply hoare_seq; [by apply inv_dns_tmr|]. intros _. apply inv_quiet. solve_quiet.
  - apply inv_housekeeping.
  - apply hoare_modify. intros w. by apply inv_ocp.
  - apply hoare_modify. intros w. by apply inv_ocp.
Qed.

(** ** Start-up *)

Lemma inv_atoi X s : hoare (inv X) (ocp_atoi s) (λ _, inv X).
Proof. unfold ocp_atoi. repeat hstep. Qed.

Lemma inv_new_listener X port : hoare (inv X) (new_listener e port) (λ _, inv X).
Proof.
  unfold new_listener. eapply hoare_bind; [apply inv_sock_new|]. cbv beta. intros r.
  apply (hoare_conseq _ (inv X) _ _ (λ _, inv X)); [|by destruct r|done].
  hstep. eapply hoare_seq; [by apply inv_keep|]. intros _. hstep.
Qed.

Lemma inv_fwd_add X opt : hoare (inv X) (fwd_add e opt) (λ _, inv X).
Proof.
  unfold fwd_add. do 2 hstep; [|apply hoare_fault].
  eapply hoare_seq; [apply inv_atoi|]. intros lport. do 2 hstep; [|apply hoare_fault].
  eapply hoare_seq; [apply inv_new_listener|]. intros i.
  eapply hoare_seq; [apply inv_atoi|]. intros rport.
  eapply hoare_seq; [by apply inv_keep|]. intros _. repeat hstep.
Qed.

Lemma inv_dyn_fwd X arg : hoare (inv X) (dyn_fwd e arg) (λ _, inv X).
Proof.
  unfold dyn_fwd. eapply hoare_seq.
  - destruct (strrchr arg) as [[addr port]|].
    + eapply hoare_seq; [apply inv_atoi|]. intros lport.
      eapply hoare_seq; [apply inv_new_listener|]. intros i.
      eapply hoare_seq; [by apply inv_keep|]. intros _. hstep.
    + eapply hoare_seq; [apply inv_atoi|]. intros lport. apply inv_new_listener.
  - intros i. eapply hoare_seq; [by apply inv_keep|]. intros _. hstep.
Qed.

Lemma inv_modify X f :
  (∀ w, w_ocp (f w) = w_ocp w) → hoare (inv X) (pmodify f) (λ _, inv X).
Proof. intros H. apply hoare_modify. intros w. by apply inv_ocp. Qed.

Lemma inv_main_option X opt optarg v : hoare (inv X) (main_option e opt optarg v) (λ _, inv X).
Proof.
  unfold main_option, set_dns_domain. hstep. cbv zeta.
  do 3 (case_match; [hstep|]).
  case_match; [eapply hoare_seq; [by apply inv_modify|intros _; hstep]|].
  case_match; [eapply hoare_seq; [apply inv_dyn_fwd|intros _; hstep]|].
  case_match.
  { eapply hoare_seq; [apply inv_atoi|]. intros n.
    eapply hoare_seq; [by apply inv_modify|intros _; hstep]. }
  case_match; [eapply hoare_seq; [by apply inv_modify|intros _; hstep]|].
  case_match; [eapply hoare_seq; [apply inv_fwd_add|intros _; hstep]|].
  do 2 (case_match; [eapply hoare_seq; [by apply inv_modify|intros _; hstep]|]).
  apply hoare_fault.
Qed.

Lemma inv_main_options X opts v : hoare (inv X) (main_options e opts v) (λ _, inv X).
Proof.
  revert v. induction opts as [|[opt arg] opts IH]; intros v; simpl; [hstep|].
  eapply hoare_seq; [apply inv_main_option|apply IH].
Qed.

Lemma inv_bind_loop X fuel p : hoare (inv X) (bind_loop e (st_inet_aton k) fuel p) (λ _, inv X).
Proof.
  revert p. induction fuel as [|fuel IH]; intros [i|]; simpl; try by hstep.
  hstep. eapply hoare_seq; [|intros _; hstep; apply IH]. case_match; [|hstep].
  eapply hoare_seq; [by repeat hstep|]. intros _. hstep.
  eapply hoare_seq; [by repeat hstep|]. intros addr. hstep.
  case_match; [by apply inv_keep|apply hoare_fault].
Qed.

Lemma inv_periodic X cb ms : hoare (inv X) (new_periodic_event e cb ms) (λ _, inv X).
Proof. unfold new_periodic_event. repeat hstep. Qed.

Lemma inv_netif_add X ip i : hoare (inv X) (st_netif_add k ip i) (λ _, inv X).
Proof.
  destruct Hq as (_ & Hadd & _). apply keeps_hoare, Hadd; [apply _|..].
  - intros w w' (E & _). by apply inv_ocp.
  - intros. by apply keeps_hoare, inv_tcp_err.
Qed.

Definition nobody : nat → Prop := λ _, False.

Lemma inv_main st : hoare (λ _, True) (run_main st) (λ _, inv nobody).
Proof.
  unfold run_main, main. apply (hoare_bind _ _ _ (λ _, inv nobody)).
  { apply hoare_modify. intros w _. split; [apply initial_wf|]. intros i s Hi.
    simpl in Hi. unfold initial_pool in Hi. apply list_elem_of_lookup_2, elem_of_app in Hi.
    destruct Hi as [(? & ? & _)%list_elem_of_fmap|?%list_elem_of_singleton]; done. }
  intros _. eapply hoare_seq; [case_match; [hstep|apply hoare_fault]|]. intros _.
  eapply hoare_seq; [case_match; [hstep|apply hoare_fault]|]. intros str.
  eapply hoare_seq; [apply inv_atoi|]. intros vpnfd.
  eapply hoare_seq; [by apply inv_modify|]. intros _.
  eapply hoare_seq; [apply inv_main_options|]. intros v.
  do 2 (case_match; [|apply hoare_fault]).
  eapply hoare_seq; [case_match; [hstep|apply hoare_fault]|]. intros ip.
  eapply hoare_bind; [apply inv_sock_new|]. cbv beta. intros r. rewrite orb_true_r.
  apply (hoare_conseq _ (inv nobody) _ _ (λ _, inv nobody)); [|by destruct r|done].
  destruct Hq as (Hi & Hadd & Hmtu & Hup & _ & Hdump). hstep.
  eapply hoare_seq; [by apply inv_keep|]. intros _.
  eapply hoare_seq; [by apply inv_quiet|]. intros _.
  eapply hoare_seq; [apply inv_dns|]. intros _.
  eapply hoare_seq; [case_match; [|hstep];
    eapply hoare_seq; [case_match; [hstep|apply hoare_fault]|intros ?; apply inv_dns]|]. intros _.
  eapply hoare_seq; [by apply inv_netif_add|]. intros _.
  eapply hoare_seq; [apply inv_atoi|]. intros mtu.
  do 2 (eapply hoare_seq; [by apply inv_quiet|]; intros _).
  eapply hoare_seq; [unfold bind_all_listeners; hstep; apply inv_bind_loop|]. intros _. hstep.
  eapply hoare_seq; [case_match; [by apply inv_quiet|hstep]|]. intros _.
  do 3 (eapply hoare_seq; [apply inv_periodic|]; intros _). hstep.
Qed.

Lemma reachable_inv st vpnfd w : reachable st vpnfd w → inv nobody w.
Proof.
  induction 1 as [t i w E|ev w w' _ IH E].
  - by eapply inv_main.
  - by eapply inv_event.
Qed.
End loop.
End OcpLoop.
