(* ===== verification/OcpToy.v ===== *)
(** * ocproxy: a small environment for examples

    A TCP stack that accepts everything, an operating system whose calls
    succeed and whose reads return a given text, and a lwIP that receives
    nothing.  They satisfy the laws that the theorems ask for, and make the
    examples of the development executable. *)

From S2P Require Import Prelude Def Ip4Addr Dns Pbuf Ocp OcpConn OcpMain OcpPool OcpInv OcpLoop.

Module OcpToy.
Import Def Ip4Addr Dns Pbuf Ocp OcpConn OcpMain OcpPool OcpInv OcpLoop.

(** The state is the number of the next connection. *)
#[export] Instance toy_tcp : TcpApi positive Empty_set := {|
  tcp_new w := inr (Some (w_tcp w), set_tcp (Pos.succ (w_tcp w)) w);
  tcp_arg _ _ := mret ();
  tcp_recv _ _ := mret ();
  tcp_sent _ _ := mret ();
  tcp_err _ _ := mret ();
  tcp_nagle_disable _ := mret ();
  tcp_keepalive _ _ := mret ();
  tcp_connect _ _ _ := mret ERR_OK;
  tcp_close _ := mret ERR_OK;
  tcp_write _ _ := mret ERR_OK;
  tcp_output _ := mret ();
  tcp_recved _ _ := mret ();
  tcp_sndbuf _ _ := 65534;
  tcp_sndqueuelen _ _ := 0;
  tcp_local_ip _ _ := 0x0500000a;
  tcp_local_port _ _ := 49152;
  dns_transmit := mret ()
|}.

#[export] Instance toy_laws e : TcpLaws positive Empty_set e.
Proof.
  split; try (intros; apply keeps_ret; apply _).
  intros R HR Hq _ w a w' [= <- <-]. apply Hq. by repeat split; exists []; rewrite app_nil_r.
Qed.

(** Reads return [d] (as much of it as fits), writes take at most [n] bytes. *)
Definition toy_env (d : bytes) (n : Z) : env := {|
  sys_read _ _ k := if k <? 0 then None else Some (take (Z.to_nat k) d);
  sys_write _ _ x := Some (Z.min n (zlen x));
  sys_writev _ _ x := Some (zlen (concat x));
  sys_errno_gone _ := false;
  sys_event_new _ := true;
  sys_bind _ _ _ := true
|}.

Lemma toy_env_ok d n : Forall is_u8 d → 0 ≤ n → env_ok (toy_env d n).
Proof.
  intros Hd Hn. split; simpl.
  - intros _ _ k x Hx. case_match eqn:Ek; [done|]. simplify_eq.
    split; [unfold zlen; rewrite length_take; lia|by apply Forall_take].
  - intros _ _ x m [= <-]. pose proof (zlen_nonneg x). lia.
Qed.

Definition toy_stack : stack positive Empty_set := {|
  st_custom_free (f : Empty_set) := match f with end;
  st_mem_avail _ _ := true;
  st_garbage _ _ := 0;
  st_dns_pbuf_avail _ := true;
  st_ip_input _ := mret ();
  st_tcp_tmr := mret ();
  st_lwip_init := mret ();
  st_netif_add _ _ := mret ();
  st_netif_set_mtu _ := mret ();
  st_netif_up := mret ();
  st_udp_new_ok := true;
  st_event_base_new_ok := true;
  st_tcpdump _ := mret ();
  st_tcpdump_init := mret ();
  st_inet_aton := ipaddr_aton
|}.

Lemma toy_setup_quiet e : setup_quiet e toy_stack.
Proof. unfold setup_quiet. split_and!; intros; apply keeps_ret; apply _. Qed.

#[export] Instance toy_stack_laws e :
  StackLaws positive Empty_set e (st_custom_free toy_stack) (st_dns_pbuf_avail toy_stack)
    (st_ip_input toy_stack) (st_tcp_tmr toy_stack).
Proof. split. intros R HR _ _ _ _ _ _. split; intros; by apply keeps_ret. Qed.

(** The state in which a command ends. *)
Definition after {S A} (m : prog S A) (s : S) : S :=
  match m s with inr (_, s') => s' | inl _ => s end.

Lemma after_ret {S A} (m : prog S A) s a :
  fst <$> (match m s with inr x => Some x | inl _ => None end) = Some a →
  m s = inr (a, after m s).
Proof. unfold after. destruct (m s) as [|[a' s']]; simpl; congruence. Qed.

(** Start with a SOCKS listener on port 1080, and one connection to it. *)
Definition toy_startup : startup :=
  mk_startup (Some (str "7")) (Some (str "10.0.0.5")) (Some (str "1400")) None
    (Some (str "10.0.0.1 10.0.0.2")) [(68, str "1080")].
Definition greeting : bytes := [5; 1; 0].
Definition toy_started : world positive Empty_set :=
  after (run_main (toy_env greeting 2048) toy_stack toy_startup) (boot 1%positive).
Definition toy_accepted : world positive Empty_set :=
  after (run_event (toy_env greeting 2048) toy_stack 7 (Ev_accept 0 9)) toy_started.


Lemma toy_started_eq :
  run_main (toy_env greeting 2048) toy_stack toy_startup (boot 1%positive)
  = inr ((7, 1%nat), toy_started).
Proof.
  refine (after_ret (run_main (toy_env greeting 2048) toy_stack toy_startup)
    (boot 1%positive) (7, 1%nat) _). vm_compute. reflexivity.
Qed.

Lemma toy_accepted_eq :
  run_event (toy_env greeting 2048) toy_stack 7 (Ev_accept 0 9) toy_started
  = inr ((), toy_accepted).
Proof.
  refine (after_ret (run_event (toy_env greeting 2048) toy_stack 7 (Ev_accept 0 9))
    toy_started () _). vm_compute. reflexivity.
Qed.

Lemma toy_accepted_reachable :
  reachable (toy_env greeting 2048) toy_stack toy_startup 7 toy_accepted.
Proof.
  exact (reach_event _ _ _ _ _ _ _ (reach_main _ _ _ _ _ _ _ toy_started_eq) toy_accepted_eq).
Qed.

(** C2: In every state that the program reaches, by [main] and any sequence of
    events, the free list of the socket pool holds exactly the slots that are
    not in use, [ocp_sock_used] counts the others, and the counters are within
    [MAX_CONN]; so a new connection never takes a slot that is in use. *)
Theorem ocp_pool_invariant {T CF} `{!TcpApi T CF} e (k : stack T CF)
    `{!TcpLaws T CF e}
    `{!StackLaws T CF e (st_custom_free k) (st_dns_pbuf_avail k) (st_ip_input k) (st_tcp_tmr k)}
    st vpnfd w :
  env_ok e → setup_quiet e k → reachable e k st vpnfd w → pool_wf (w_ocp w).
Proof. intros He Hq Hw. by destruct (reachable_inv e k He Hq _ _ _ Hw). Qed.

Lemma ocp_pool_invariant_witness : pool_wf (w_ocp toy_accepted).
Proof.
  exact (ocp_pool_invariant (toy_env greeting 2048) toy_stack toy_startup 7 toy_accepted
    (toy_env_ok greeting 2048 ltac:(cdec) ltac:(cdec)) (toy_setup_quiet _) toy_accepted_reachable).
Defined.

(** C3: In every state that the program reaches, no socket in use has lost its
    wake-up: the event of the VPN's socket is pending, that of a client which is
    negotiating SOCKS is pending, and that of a client which passes data is
    pending unless it waits for the stack to make room ([lwip_blocked], which
    [sent_cb] clears when it adds the event again). The buffers are within
    their bounds. *)
Theorem ocp_no_lost_wakeup {T CF} `{!TcpApi T CF} e (k : stack T CF)
    `{!TcpLaws T CF e}
    `{!StackLaws T CF e (st_custom_free k) (st_dns_pbuf_avail k) (st_ip_input k) (st_tcp_tmr k)}
    st vpnfd w i s :
  env_ok e → setup_quiet e k → reachable e k st vpnfd w →
  ocp_sock_pool (w_ocp w) !! i = Some (Live s) →
  sock_ok s ∧ awake s.
Proof.
  intros He Hq Hw Hi. destruct (reachable_inv e k He Hq _ _ _ Hw) as [_ H].
  by destruct (H i s Hi) as [? [[]|?]].
Qed.

(** The client of the example. *)
Definition toy_client : ocp_sock :=
  mk_sock 9 false (Some (mk_event (Some Socks_cmd_cb) true)) None STATE_SOCKS_AUTH
    CONN_TYPE_SOCKS (Some 1%nat) 0 false 0 (replicate 2048 0) 0 None false None 0 0 false.

Lemma toy_client_at : ocp_sock_pool (w_ocp toy_accepted) !! 2%nat = Some (Live toy_client).
Proof. vm_compute. reflexivity. Qed.

Lemma ocp_no_lost_wakeup_witness : sock_ok toy_client ∧ awake toy_client.
Proof.
  exact (ocp_no_lost_wakeup (toy_env greeting 2048) toy_stack toy_startup 7 toy_accepted 2
    toy_client (toy_env_ok greeting 2048 ltac:(cdec) ltac:(cdec)) (toy_setup_quiet _)
    toy_accepted_reachable toy_client_at).
Defined.
End OcpToy.
