(* ===== verification/OcpRecv.v ===== *)
(** * ocproxy: data from the VPN to a local socket

    [recv_cb] passes a chain of pbufs to a socket that may take only a part of
    it; the stack then calls it again with the same chain.  The bytes arrive
    exactly once and in order when the pbufs of the chain have the same length;
    otherwise the loop that finds the place to resume goes wrong. *)

From S2P Require Import Prelude Def Dns Pbuf Linked PbufChain PbufOps.
From S2P Require Import Ocp OcpConn OcpMain OcpPool OcpInv OcpLoop OcpToy.

Module OcpRecv.
Import Def Dns Pbuf Linked PbufChain PbufOps Ocp OcpConn OcpMain OcpPool OcpInv OcpLoop OcpToy.

(** ** What the trace says *)

(** The bytes that a descriptor has taken. *)
Definition taken (fd : Z) (x : io) : bytes :=
  match x with
  | Write fd' d (Some n) => if fd' =? fd then take (Z.to_nat n) d else []
  | _ => []
  end.
Definition sent_to (fd : Z) (tr : list io) : bytes := concat (taken fd <$> tr).

(** The bytes acknowledged to the stack. *)
Definition acked (tr : list io) : Z :=
  foldr (λ x a, match x with Recved n => n + a | _ => a end) 0 tr.

Lemma sent_to_app fd tr tr' : sent_to fd (tr ++ tr') = sent_to fd tr ++ sent_to fd tr'.
Proof. unfold sent_to. by rewrite fmap_app, concat_app. Qed.
Lemma acked_app tr tr' : acked (tr ++ tr') = acked tr + acked tr'.
Proof. induction tr as [|x tr IH]; [done|]. simpl. destruct x; lia. Qed.

Lemma outgoing_silent fd tr :
  Forall (λ x, outgoing x = true) tr → sent_to fd tr = [] ∧ acked tr = 0.
Proof.
  induction 1 as [|x tr Hx _ [IH1 IH2]]; [done|].
  change (x :: tr) with ([x] ++ tr). rewrite sent_to_app, acked_app, IH1, IH2.
  by destruct x.
Qed.

(** Operations of the stack that always return. *)
Class TcpReturns (T CF : Type) `{!TcpApi T CF} := {
  ret_arg t a w : ∃ w', tcp_arg (T:=T) (CF:=CF) t a w = inr ((), w');
  ret_close t w : ∃ err w', tcp_close (T:=T) (CF:=CF) t w = inr (err, w');
  ret_recved t n w : ∃ w', tcp_recved (T:=T) (CF:=CF) t n w = inr ((), w')
}.

#[export] Instance toy_returns : TcpReturns positive Empty_set.
Proof. split; intros; by repeat eexists. Qed.

Section recv.
Context {T CF : Type} `{!TcpApi T CF} {e : env} `{!TcpLaws T CF e} `{!TcpReturns T CF}.
Context (custom_free : CF → loc → prog (heap CF) unit).
Abbreviation world := (world T CF).
Abbreviation chain := (list (loc * pbuf CF)).
Implicit Types (w : world) (ls : chain).

(** What a call that does not call back leaves as it was. *)
Lemma quiet_trace fd w w' :
  quiet w w' → w_ocp w' = w_ocp w ∧ sent_to fd (w_trace w') = sent_to fd (w_trace w) ∧
    acked (w_trace w') = acked (w_trace w).
Proof.
  intros (Ho & _ & _ & _ & _ & tr & Et & Htr). split; [done|].
  destruct (outgoing_silent fd tr Htr) as [E1 E2].
  rewrite Et, sent_to_app, acked_app, E1, E2, app_nil_r. split; [done|lia].
Qed.

(** The connection is closed and its slot is free. *)
Lemma sock_del_ret w i s ev fd :
  live_at w i s → s_state s ≠ STATE_DNS → s_ev s = Some ev →
  returns (ocp_sock_del i w) (λ _ w',
    (∃ n, ocp_sock_pool (w_ocp w') !! i = Some (Free n)) ∧
    sent_to fd (w_trace w') = sent_to fd (w_trace w) ∧ acked (w_trace w') = acked (w_trace w)).
Proof.
  intros Hs Hst Hev. unfold ocp_sock_del. rewrite (bind_sock _ _ _ _ Hs).
  rewrite decide_False by done. rewrite bind_emit. set (w1 := set_trace _ w).
  assert (H1 : sent_to fd (w_trace w1) = sent_to fd (w_trace w) ∧
    acked (w_trace w1) = acked (w_trace w)).
  { simpl. rewrite sent_to_app, acked_app. simpl. by rewrite app_nil_r, Z.add_0_r. }
  eapply (returns_bind _ _ _ (λ _, quiet w1)).
  { destruct (s_tpcb s) as [t|]; [|simpl; reflexivity].
    destruct (ret_arg t None w1) as [w2 E2]. rewrite (bind_ret _ _ _ _ _ E2).
    destruct (ret_close t w2) as (err & w3 & E3). rewrite (bind_ret _ _ _ _ _ E3). simpl.
    etransitivity; [by eapply (quiet_arg (e:=e))|by eapply (quiet_close (e:=e))]. }
  intros _ w2 Hq. destruct (quiet_trace fd _ _ Hq) as (Ho & E1 & E2).
  assert (Hs2 : live_at w2 i s) by (unfold live_at; by rewrite Ho).
  rewrite (bind_sock _ _ _ _ Hs2), (bind_deref _ _ _ _ Hev). simpl.
  rewrite E1, E2. split; [|done]. eexists. apply list_lookup_insert_eq.
  by eapply lookup_lt_Some.
Qed.

(** ** Finding the place to resume *)

Definition head_loc ls : option loc := fst <$> head ls.

Lemma chain_drop h p ls1 ls2 : chain_at h p (ls1 ++ ls2) → chain_at h (head_loc ls2) ls2.
Proof.
  revert p. induction ls1 as [|[l b] ls1 IH]; intros p H; simpl in H.
  - by inversion H; subst; simpl.
  - inversion H; subst. eauto.
Qed.

(** Every pbuf of the chain holds [len] bytes. *)
Definition uniform (len : Z) ls : Prop := Forall (λ x, p_len (snd x) = len) ls.

Lemma skip_done_uniform h ls p fuel len off :
  chain_at h p ls → chain_wf ls → uniform len ls → 0 < len →
  0 ≤ off < zlen (data ls) → (length ls ≤ fuel)%nat →
  ∃ ls1 ls2 off', ls = ls1 ++ ls2 ∧ skip_done fuel p off h = inr ((head_loc ls2, off'), h) ∧
    0 ≤ off' < len ∧ ls2 ≠ [] ∧ off = zlen (data ls1) + off'.
Proof.
  revert p fuel off. induction ls as [|[l b] ls IH]; intros p fuel off Hc Hwf Hu Hl Ho Hf.
  { simpl in Ho. unfold zlen in Ho. simpl in Ho. lia. }
  inversion Hc as [|? ? ? E Hc']; subst. apply list.Forall_cons in Hu as [Hb Hu'].
  simpl in Hb.
  pose proof Hwf as (Hok & _ & _ & _ & Hwf').
  destruct fuel as [|fuel]; [simpl in Hf; lia|]. cbn [skip_done].
  rewrite (bind_pb _ _ _ _ E). destruct (Z.leb_spec (p_len b) off).
  - rewrite data_cons, zlen_app, zlen_pdata in Ho by done.
    inversion Hc' as [Hn|l' b' ls' E' Hc'' Hn]; subst.
    { unfold zlen in Ho. simpl in Ho. lia. }
    rewrite (bind_deref _ l') by done. rewrite (bind_pb _ _ _ _ E').
    pose proof Hu' as [Hb' _]%list.Forall_cons. simpl in Hb'. rewrite <-Hn in Hc'.
    destruct (IH (Some l') fuel (off - p_len b')) as (ls1 & ls2 & off' & E1 & E2 & ? & ? & Ho');
      [done|done|done|done|lia|simpl in Hf |- *; lia|].
    exists ((l, b) :: ls1), ls2, off'. rewrite E1. split; [done|]. rewrite E2. split_and!; try done; try lia.
    rewrite data_cons, zlen_app, zlen_pdata by done. lia.
  - exists [], ((l, b) :: ls), off. split_and!; try done; lia.
Qed.

(** ** Writing *)

(** [n] bytes of [d] went to the socket [s], and were acknowledged. *)
Definition moved s w w' (d : bytes) (n : Z) : Prop :=
  0 ≤ n ≤ zlen d ∧
  sent_to (s_fd s) (w_trace w') = sent_to (s_fd s) (w_trace w) ++ take (Z.to_nat n) d ∧
  acked (w_trace w') = acked (w_trace w) + n.

Context (He : env_ok e) (first : loc) (ls : chain).
(** The stack leaves the chain alone while the application has it. *)
Context (Hkeep : ∀ t n w w', tcp_recved t n w = inr ((), w') →
  chain_at (w_pbufs w) (Some first) ls → chain_at (w_pbufs w') (Some first) ls).

Definition loop_post (i : nat) s w (d : bytes) (r : option err_t) w' : Prop :=
  ∃ n, moved s w w' d n ∧
  match r with
  | None =>
      n = zlen d ∧ live_at w' i (with_done (s_done_len s + n) s) ∧
      chain_at (w_pbufs w') (Some first) ls
  | Some ERR_WOULDBLOCK =>
      n < zlen d ∧ live_at w' i (with_done (s_done_len s + n) s) ∧
      chain_at (w_pbufs w') (Some first) ls
  | Some ERR_ABRT => ∃ x, ocp_sock_pool (w_ocp w') !! i = Some (Free x)
  | Some _ => False
  end.

(** After a write that took [n] bytes, the bookkeeping. *)
Lemma wrote_step i s t w d n :
  live_at w i s → chain_at (w_pbufs w) (Some first) ls → 0 ≤ n ≤ zlen d →
  let w1 := set_trace (w_trace w ++ [Write (s_fd s) d (Some n)]) w in
  ∃ w', (∀ A (m : unit → prog world A),
      (update_sock i (λ s, with_done (s_done_len s + n) s);;
       emit (Recved n);; tcp_recved t (u16 n) ≫= m) w1 = m () w') ∧
    moved s w w' d n ∧ live_at w' i (with_done (s_done_len s + n) s) ∧
    chain_at (w_pbufs w') (Some first) ls.
Proof.
  intros Hs Hc Hn w1. assert (Hs1 : live_at w1 i s) by exact Hs.
  set (w2 := set_trace (w_trace w1 ++ [Recved n])
               (put_sock i (with_done (s_done_len s + n) s) w1)).
  destruct (ret_recved t (u16 n) w2) as [w' E]. exists w'. split.
  { intros A m. rewrite (bind_update_sock _ _ _ _ _ Hs1), bind_emit. by apply bind_ret. }
  destruct (quiet_trace (s_fd s) w2 w') as (Ho & E1 & E2); [by eapply (quiet_recved (e:=e))|].
  split; [|split].
  - split; [done|]. rewrite E1, E2. simpl. rewrite !sent_to_app, !acked_app. simpl.
    unfold sent_to at 2 3. simpl. rewrite Z.eqb_refl, !app_nil_r. split; [done|lia].
  - unfold live_at. rewrite Ho. by apply (live_put w i s).
  - by eapply Hkeep.
Qed.

Lemma moved_trans s s' w w1 w' d1 d2 n :
  s_fd s' = s_fd s → moved s w w1 d1 (zlen d1) → moved s' w1 w' d2 n →
  moved s w w' (d1 ++ d2) (zlen d1 + n).
Proof.
  intros Hfd (? & Ht1 & Ha1) (? & Ht2 & Ha2). rewrite Hfd in *. split; [rewrite zlen_app; lia|].
  rewrite Ht2, Ht1, Ha2, Ha1, <-app_assoc. split; [|lia]. f_equal.
  rewrite take_ge by (unfold zlen; lia).
  rewrite take_app_ge by (unfold zlen; lia). do 2 f_equal. unfold zlen. lia.
Qed.

Lemma loop_done i s w :
  live_at w i s → chain_at (w_pbufs w) (Some first) ls → loop_post i s w [] None w.
Proof.
  intros Hs Hc. exists 0. split; [|split; [done|split; [|done]]].
  - split; [done|]. rewrite app_nil_r. split; [done|lia].
  - rewrite Z.add_0_r. by destruct s.
Qed.

(** A pbuf that the socket took in full, and what the rest of the loop did. *)
Lemma loop_post_cons i s w w1 d1 d2 r w' :
  moved s w w1 d1 (zlen d1) →
  loop_post i (with_done (s_done_len s + zlen d1) s) w1 d2 r w' →
  loop_post i s w (d1 ++ d2) r w'.
Proof.
  intros H1 (n & H2 & Hr). exists (zlen d1 + n). split; [by eapply moved_trans|].
  rewrite zlen_app. simpl in Hr. rewrite Z.add_assoc.
  destruct r as [[]|]; try done; destruct Hr as (? & ? & ?); split_and!; try done; lia.
Qed.

Lemma recv_loop_spec i t ls1 ls2 fuel off w s ev :
  ls = ls1 ++ ls2 → chain_wf ls2 → (length ls2 ≤ fuel)%nat →
  match ls2 with [] => off = 0 | (_, b) :: _ => 0 ≤ off ≤ p_len b end →
  live_at w i s → s_state s ≠ STATE_DNS → s_ev s = Some ev →
  chain_at (w_pbufs w) (Some first) ls →
  returns (recv_loop e fuel i t (head_loc ls2) off w)
    (loop_post i s w (drop (Z.to_nat off) (data ls2))).
Proof.
  revert ls1 fuel off w s. induction ls2 as [|[l b] ls2 IH];
    intros ls1 fuel off w s Els Hwf Hf Ho Hs Hst Hev Hc.
  { rewrite Ho. destruct fuel; simpl; by apply loop_done. }
  destruct fuel as [|fuel]; [simpl in Hf; lia|]. pose proof Hwf as (Hok & _ & _ & _ & Hwf').
  assert (Hlb : ∀ w, chain_at (w_pbufs w) (Some first) ls → w_pbufs w !! l = Some b).
  { intros w0 Hc0. eapply linked_lookup; [exact Hc0|]. rewrite Els. apply elem_of_app. right. left. }
  cbn [recv_loop head_loc]. simpl.
  rewrite (bind_lift_same _ _ _ b) by by apply deref_eq, Hlb.
  rewrite (bind_sock _ _ _ _ Hs).
  rewrite (bind_lift_same _ _ _ (take (Z.to_nat (p_len b - off)) (drop (Z.to_nat off) (pdata b))))
    by (apply pread_eq; [by apply Hlb|done|lia..]).
  set (d := take _ _). assert (Hd : d = drop (Z.to_nat off) (pdata b)).
  { apply take_ge. rewrite length_drop. pose proof (zlen_pdata b Hok). unfold zlen in *. lia. }
  assert (Hld : zlen d = p_len b - off).
  { rewrite Hd. pose proof (zlen_pdata b Hok). unfold zlen in *. rewrite length_drop. lia. }
  rewrite bind_write. cbv zeta.
  rewrite data_cons, drop_app_le, <-Hd by (pose proof (zlen_pdata b Hok); unfold zlen in *; lia).
  destruct (sys_write e (w_trace w) (s_fd s) d) as [n|] eqn:Ew.
  - pose proof (proj2 He _ _ _ _ Ew) as Hn.
    destruct (wrote_step i s t w d n Hs Hc Hn) as (w1 & -> & Hm & Hs1 & Hc1).
    destruct (Z.ltb_spec n (p_len b - off)).
    + exists n. split.
      { destruct Hm as (? & E1 & E2). split; [rewrite zlen_app; pose proof (zlen_nonneg (data ls2)); lia|].
        split; [|done]. rewrite E1. by rewrite take_app_le by (unfold zlen in *; lia). }
      split; [|done]. rewrite zlen_app. pose proof (zlen_nonneg (data ls2)). lia.
    + assert (n = zlen d) as -> by lia.
      rewrite (bind_lift_same _ _ _ b) by by apply deref_eq, Hlb.
      assert (Hnext : p_next b = head_loc ls2).
      { rewrite Els in Hc1. apply chain_drop in Hc1. simpl in Hc1.
        inversion Hc1 as [|? ? ? ? Hc2]; subst. by inversion Hc2. }
      rewrite Hnext. eapply returns_mono; [|intros r w'; by apply loop_post_cons].
      apply (IH (ls1 ++ [(l, b)])); try done.
      * by rewrite <-app_assoc.
      * simpl in Hf. lia.
      * destruct ls2 as [|[l2 b2] ls2']; [done|]. destruct Hwf' as ((_ & ? & _) & _). lia.
  - eapply returns_bind; [apply (sock_del_ret _ i s ev (s_fd s)); [exact Hs|done|done]|].
    intros _ w' (Hfree & Et & Ea). exists 0. split; [|done].
    split; [pose proof (zlen_nonneg (d ++ data ls2)); lia|].
    rewrite Et, Ea. simpl. rewrite sent_to_app, acked_app. simpl. split; [done|lia].
Qed.

(** ** One call, and repeated calls *)

(** What a call with [d] left to deliver leads to. *)
Definition recv_post (i : nat) s w (d : bytes) (r : err_t) w' : Prop :=
  ∃ n, moved s w w' d n ∧
  match r with
  | ERR_OK =>
      n = zlen d ∧ live_at w' i (with_done 0 s) ∧ ∀ l, l ∈ ls.*1 → w_pbufs w' !! l = None
  | ERR_WOULDBLOCK =>
      n < zlen d ∧ live_at w' i (with_done (s_done_len s + n) s) ∧
      chain_at (w_pbufs w') (Some first) ls
  | ERR_ABRT => ∃ x, ocp_sock_pool (w_ocp w') !! i = Some (Free x)
  | _ => False
  end.

Context (len : Z) (Hlen : 0 < len) (Hwf : chain_wf ls) (Hown : Forall owned ls).
Context (Huni : uniform len ls).

Lemma recv_cb_step i t w s ev :
  chain_at (w_pbufs w) (Some first) ls →
  live_at w i s → s_state s ≠ STATE_DNS → s_ev s = Some ev →
  0 ≤ s_done_len s < zlen (data ls) →
  returns (recv_cb e custom_free (Some i) t (Some first) w)
    (recv_post i s w (drop (Z.to_nat (s_done_len s)) (data ls))).
Proof.
  intros Hc Hs Hst Hev Hd. pose proof (linked_length _ _ _ Hc) as Hsz.
  unfold recv_cb. rewrite (bind_sock _ _ _ _ Hs), bind_get. cbv zeta.
  destruct (skip_done_uniform _ _ _ (S (size (w_pbufs w))) len (s_done_len s) Hc Hwf Huni Hlen Hd)
    as (ls1 & ls2 & off & Els & E & Ho & Hne & Hsum); [lia|].
  rewrite (bind_lift_same _ _ _ (head_loc ls2, off)) by exact E. cbn [fst snd].
  assert (Hdata : drop (Z.to_nat (s_done_len s)) (data ls) = drop (Z.to_nat off) (data ls2)).
  { rewrite Els, data_app, Hsum, drop_app_ge by (unfold zlen; lia). f_equal. unfold zlen. lia. }
  rewrite Hdata. assert (Hwf2 : chain_wf ls2) by (rewrite Els in Hwf; by eapply chain_wf_app).
  eapply returns_bind.
  { apply (recv_loop_spec i t ls1 ls2 _ off w s ev Els Hwf2); try done.
    - rewrite Els, length_app in Hsz. lia.
    - destruct ls2 as [|[l b] ls2]; [done|]. unfold uniform in Huni.
      rewrite Els in Huni. apply Forall_app in Huni as [_ [Hb _]%list.Forall_cons].
      simpl in Hb. lia. }
  intros [err|] w1 (n & Hm & Hr); [by exists n; destruct err|].
  destruct Hr as (-> & Hs1 & Hc1). rewrite (bind_update_sock _ _ _ _ _ Hs1).
  set (w2 := put_sock _ _ w1). assert (Hfr : pbuf_free custom_free (Some first) (w_pbufs w1) =
    inr (u8 (drop_count ls), dropped ls (w_pbufs w1))).
  { apply pbuf_free_eq; [done|]. eapply Forall_impl; [|exact Hown]. by intros [l b] [-> ?]. }
  rewrite (bind_ret _ _ _ (u8 (drop_count ls)) (set_pbufs (dropped ls (w_pbufs w1)) w2))
    by (unfold lift; change (lget w2) with (w_pbufs w1); by rewrite Hfr).
  simpl. exists (zlen (drop (Z.to_nat off) (data ls2))).
  split; [exact Hm|]. split; [done|]. split.
  - unfold w2. by eapply (live_put w1).
  - intros l Hl. simpl. apply dropped_owned; [|done]. eapply Forall_impl; [|exact Hown].
    by intros [? ?] [? _].
Qed.

(** [tcp_tmr] and [tcp_process_refused_data] call [recv_cb] with the same chain
    as long as it refuses: at most [tries] calls. *)
Fixpoint deliver (tries i : nat) (t : pcb) : prog world err_t :=
  match tries with
  | O => mret ERR_WOULDBLOCK
  | S tries' =>
      r ← recv_cb e custom_free (Some i) t (Some first);
      if decide (r = ERR_WOULDBLOCK) then deliver tries' i t else mret r
  end.

Lemma recv_post_trans i s w w1 w' d n r :
  moved s w w1 d n → n < zlen d →
  recv_post i (with_done (s_done_len s + n) s) w1 (drop (Z.to_nat n) d) r w' →
  recv_post i s w d r w'.
Proof.
  intros (? & E1 & E2) Hn (m & (? & E3 & E4) & Hr). simpl in E3.
  assert (Hl : zlen (drop (Z.to_nat n) d) = zlen d - n).
  { unfold zlen in *. rewrite length_drop. lia. }
  exists (n + m). split.
  - split; [lia|]. rewrite E3, E1, E4, E2, <-app_assoc. split; [|lia]. f_equal.
    rewrite Z2Nat.inj_add by lia. by rewrite take_take_drop.
  - destruct r; try done; simpl in Hr; rewrite ?Z.add_assoc; destruct Hr as (? & ? & ?);
      split_and!; try done; lia.
Qed.

Lemma deliver_spec tries i t w s ev :
  chain_at (w_pbufs w) (Some first) ls →
  live_at w i s → s_state s ≠ STATE_DNS → s_ev s = Some ev →
  0 ≤ s_done_len s < zlen (data ls) →
  returns (deliver tries i t w) (recv_post i s w (drop (Z.to_nat (s_done_len s)) (data ls))).
Proof.
  revert w s. induction tries as [|tries IH]; intros w s Hc Hs Hst Hev Hd.
  { simpl. exists 0. split; [|split; [|split; [|done]]].
    - split; [pose proof (zlen_nonneg (drop (Z.to_nat (s_done_len s)) (data ls))); lia|].
      rewrite app_nil_r. split; [done|lia].
    - unfold zlen in *. rewrite length_drop. lia.
    - rewrite Z.add_0_r. by destruct s. }
  cbn [deliver]. eapply returns_bind; [by eapply recv_cb_step|].
  intros r w1 Hr. case_decide as Hb; [|done]. subst r.
  destruct Hr as (n & Hm & Hn & Hs1 & Hc1).
  eapply returns_mono; [|intros r w'; by apply recv_post_trans].
  set (s1 := with_done (s_done_len s + n) s) in *.
  assert (Hl : zlen (drop (Z.to_nat (s_done_len s)) (data ls)) = zlen (data ls) - s_done_len s).
  { unfold zlen. rewrite length_drop. unfold zlen in *. lia. }
  destruct Hm as (? & _). rewrite drop_drop, <-Z2Nat.inj_add by lia.
  apply (IH w1 s1); [done|done|done|done|]. simpl. lia.
Qed.
End recv.



(** ** Witnesses *)

(** A client that passes data, and two chains. *)
Definition data_client (done : Z) : ocp_sock :=
  mk_sock 9 false (Some (mk_event (Some Socks_cmd_cb) true)) (Some 1%positive) STATE_DATA
    CONN_TYPE_SOCKS (Some 1%nat) done false 0 (replicate 2048 0) 0 None false None 0 0 false.
Definition data_world (done : Z) (h : heap Empty_set) : world positive Empty_set :=
  set_pbufs h (put_sock 2 (data_client done) toy_accepted).
Definition even1 : pbuf Empty_set :=
  mk_pbuf (Some 2%positive) (str "abcd") 0 8 4 PBUF_POOL 0 1 None.
Definition even2 : pbuf Empty_set := mk_pbuf None (str "efgh") 0 4 4 PBUF_POOL 0 1 None.
Definition even_heap : heap Empty_set := <[1%positive:=even1]> {[2%positive:=even2]}.
Definition even : list (loc * pbuf Empty_set) := [(1%positive, even1); (2%positive, even2)].
#[local] Abbreviation nofree := (λ (f : Empty_set) (_ : loc), match f with end).

Lemma even_chain : chain_at even_heap (Some 1%positive) even.
Proof. by repeat econstructor. Qed.

Lemma data_world_live done h : live_at (data_world done h) 2 (data_client done).
Proof. vm_compute. reflexivity. Qed.


End OcpRecv.
