(* ===== verification/OcpSocks.v ===== *)
(** * ocproxy: the SOCKS server

    The server reads its client's messages in pieces.  However a message is cut,
    the greeting is answered once, and a request leads to the connection it asks
    for; except that a request by name is taken to be complete two bytes too
    early, before its port. *)

From S2P Require Import Prelude Def Dns DnsRecv Pbuf PbufChain.
From S2P Require Import Ocp OcpConn OcpMain OcpPool OcpInv OcpLoop OcpToy OcpRecv.

Module OcpSocks.
Import Def Dns Pbuf Ocp OcpConn OcpMain OcpPool OcpInv OcpLoop OcpToy OcpRecv.

(** ** Pieces *)

(** The next read returns [c]. *)
Definition reading (e : env) (c : bytes) : env := {|
  sys_read _ _ n := Some (take (Z.to_nat n) c);
  sys_write := sys_write e;
  sys_writev := sys_writev e;
  sys_errno_gone := sys_errno_gone e;
  sys_event_new := sys_event_new e;
  sys_bind := sys_bind e
|}.

(** The buffer of the socket holds the message [p] received so far. *)
Definition holding (s : ocp_sock) (p : bytes) : Prop :=
  s_sock_pos s = zlen p ∧ zlen (s_sockbuf s) = SOCKBUF_LEN ∧
  take (length p) (s_sockbuf s) = p ∧ zlen p ≤ SOCKBUF_LEN.

Definition set_pending (b : bool) (s : ocp_sock) : ocp_sock :=
  with_ev (s_fd s) (Some (mk_event (Some Socks_cmd_cb) b)) s.

(** A client of the server that waits for more. *)
Definition waiting (st : sock_state) (p : bytes) (s : ocp_sock) : Prop :=
  s_state s = st ∧ holding s p ∧ s_ev s = Some (mk_event (Some Socks_cmd_cb) true).

(** After the piece [c] was read. *)
Definition got (c : bytes) (s : ocp_sock) : ocp_sock :=
  with_buf (s_sock_pos s + zlen c) (splice (Z.to_nat (s_sock_pos s)) c (s_sockbuf s))
    (set_pending false s).

Lemma holding_got s p c :
  holding s p → zlen (p ++ c) ≤ SOCKBUF_LEN → holding (got c s) (p ++ c).
Proof.
  intros (Hp & Hb & Ht & Hl) Hc. rewrite zlen_app in Hc. unfold zlen in *. split_and!; simpl.
  - rewrite Hp. unfold zlen. rewrite length_app. lia.
  - unfold zlen. rewrite length_splice; [done|]. rewrite Hp. lia.
  - rewrite Hp, Nat2Z.id. unfold splice. rewrite app_assoc, take_app_le by
      (rewrite !length_app, length_take; lia).
    rewrite Ht, take_ge; [done|]. by rewrite !length_app.
  - unfold zlen. rewrite length_app. lia.
Qed.

(** The bytes behind the message are those that were there before. *)
Definition stale (p : bytes) (s s' : ocp_sock) : Prop :=
  drop (length p) (s_sockbuf s') = drop (length p) (s_sockbuf s).

Lemma stale_got s p c : holding s p → zlen (p ++ c) ≤ SOCKBUF_LEN → stale (p ++ c) s (got c s).
Proof.
  intros (Hp & Hb & _) Hc. unfold stale. simpl. rewrite Hp, length_app. unfold zlen in *.
  rewrite Nat2Z.id. rewrite length_app in Hc.
  rewrite <-!drop_drop, drop_splice by lia. rewrite drop_app_length. by rewrite drop_drop.
Qed.

Lemma stale_mono p q s s' : (length p ≤ length q)%nat → stale p s s' → stale q s s'.
Proof.
  unfold stale. intros Hl H. replace (length q) with (length p + (length q - length p))%nat by lia.
  by rewrite <-!drop_drop, H.
Qed.

Lemma nth_take {A} (l : list A) n k d : (k < n)%nat → nth k (take n l) d = nth k l d.
Proof.
  revert n k. induction l as [|x l IH]; intros [|n] [|k] H; simpl; try done; try lia.
  apply IH. lia.
Qed.

Lemma holding_byte s p k :
  holding s p → 0 ≤ k < zlen p → byte_at (s_sockbuf s) k = byte_at p k.
Proof.
  intros (_ & _ & Ht & _) Hk. unfold byte_at, zlen in *. rewrite <-Ht at 1.
  rewrite nth_take; [done|lia].
Qed.

Lemma holding_slice s p n k :
  holding s p → 0 ≤ k → k + Z.of_nat n ≤ zlen p → load n k (s_sockbuf s) = load n k p.
Proof.
  intros (_ & _ & Ht & _) Hk Hn. unfold load, zlen in *. rewrite <-Ht at 1.
  rewrite skipn_firstn_comm, take_take. do 2 f_equal. lia.
Qed.

(** When the server asks for more. *)
Definition auth_waits (q : bytes) : bool :=
  (zlen q <=? 1) || (zlen q <=? byte_at q 1 + 1).
Definition req_waits (q : bytes) : bool :=
  (zlen q <=? 3) ||
  ((byte_at q 1 =? SOCKS_CMD_CONNECT) &&
   (((byte_at q 3 =? SOCKS_ATYP_IPV4) && (zlen q <? 10)) ||
    ((byte_at q 3 =? SOCKS_ATYP_DOMAIN) &&
     ((zlen q <=? 4) || (zlen q <=? 4 + byte_at q 4))))).
Definition waits (st : sock_state) (q : bytes) : bool :=
  (byte_at q 0 =? SOCKS_VER) &&
  match st with
  | STATE_SOCKS_AUTH => auth_waits q
  | STATE_SOCKS_CMD => req_waits q
  | _ => false
  end.

Lemma prefix_cons_inv {A} (q l : list A) x :
  q `prefix_of` x :: l → q ≠ [] → ∃ q', q = x :: q' ∧ q' `prefix_of` l.
Proof.
  intros [r Hr] Hq. destruct q as [|y q]; [done|]. simplify_eq/=. exists q. split; [done|]. by exists r.
Qed.

Lemma pieces_split (cs : list bytes) m :
  concat cs = m → m ≠ [] → Forall (λ c, c ≠ []) cs →
  ∃ cs' c, cs = cs' ++ [c] ∧ ∀ q, q `prefix_of` concat cs' → q `prefix_of` m ∧ (length q < length m)%nat.
Proof.
  intros <- Hm Hne. destruct cs as [|c cs _] using rev_ind; [done|]. exists cs, c.
  split; [done|]. intros q Hq. rewrite concat_app in *. simpl in *. rewrite app_nil_r in *.
  apply Forall_app in Hne as [_ [Hc _]%list.Forall_cons]. split; [by apply prefix_app_r|].
  apply prefix_length in Hq. rewrite length_app. destruct c; [done|]. simpl. lia.
Qed.

(** A greeting with the number of methods it announces. *)
Definition greeting_ok (m : bytes) : Prop :=
  ∃ n methods, m = SOCKS_VER :: n :: methods ∧ zlen methods = n ∧ is_u8 n.

Lemma greeting_waits m q :
  greeting_ok m → q `prefix_of` m → q ≠ [] → (length q < length m)%nat →
  waits STATE_SOCKS_AUTH q = true.
Proof.
  intros (n & ms & -> & Hn & Hu) Hp Hq Hl.
  apply prefix_cons_inv in Hp as (q' & -> & Hp); [|done]. unfold waits, auth_waits. simpl.
  destruct q' as [|n' q'']; [done|]. apply prefix_cons_inv in Hp as (? & [= -> <-] & _); [|done].
  apply orb_true_iff. right. apply Z.leb_le. unfold byte_at. simpl. rewrite u8_id by done.
  simpl in Hl. unfold zlen in *. simpl. lia.
Qed.

Section socks.
Context {T CF : Type} `{!TcpApi T CF} (e : env) (k : stack T CF) (vpnfd : Z).
Abbreviation world := (world T CF).
Implicit Type w : world.

(** The descriptor becomes readable once for every piece. *)
Fixpoint feed (i : nat) (cs : list bytes) : prog world unit :=
  match cs with
  | [] => mret ()
  | c :: cs' => run_event (reading e c) k vpnfd (Ev_socket i);; feed i cs'
  end.

(** What is left of the handler once the piece is in the buffer. *)
Definition socks_act (i : nat) (s : ocp_sock) : prog world unit :=
  if negb (byte_at (s_sockbuf s) 0 =? SOCKS_VER) then ocp_sock_del i
  else match s_state s with
       | STATE_SOCKS_AUTH => socks_auth_step e i s
       | STATE_SOCKS_CMD => socks_req_step e (st_dns_pbuf_avail k) i s
       | _ => event_add i
       end.

(** The state in which it runs. *)
Definition got_world i s c w : world :=
  put_sock i (got c s) (set_trace
    (w_trace w ++ [Read (s_fd s) (SOCKBUF_LEN - s_sock_pos s)
                     (Some (take (Z.to_nat (SOCKBUF_LEN - s_sock_pos s)) c))]) w).

Lemma fire_piece i w s st p c :
  live_at w i s → waiting st p s → st ≠ STATE_DATA → c ≠ [] → zlen (p ++ c) ≤ SOCKBUF_LEN →
  run_event (reading e c) k vpnfd (Ev_socket i) w = socks_act i (got c s) (got_world i s c w).
Proof.
  intros Hs (Hst & Hh & Hev) Hnd Hne Hlen. pose proof Hh as (Hp & _).
  unfold run_event, dispatch, fire. rewrite (bind_sock _ _ _ _ Hs), (bind_deref _ _ _ _ Hev).
  cbn [ev_pending ev_call]. rewrite (bind_update_sock _ _ _ _ _ Hs).
  set (w1 := put_sock i _ w). assert (Hs1 : live_at w1 i (set_pending false s)) by by eapply live_put.
  unfold socks_cmd_cb. rewrite (bind_sock _ _ _ _ Hs1).
  change (s_state (set_pending false s)) with (s_state s). rewrite Hst, decide_False by done.
  rewrite bind_read. cbn [sys_read reading].
  change (s_fd (set_pending false s)) with (s_fd s).
  change (s_sock_pos (set_pending false s)) with (s_sock_pos s).
  assert (Et : take (Z.to_nat (SOCKBUF_LEN - s_sock_pos s)) c = c).
  { apply take_ge. rewrite zlen_app in Hlen. rewrite Hp. unfold zlen in *. lia. }
  unfold got_world. rewrite !Et. destruct c as [|b c']; [done|]. set (c := b :: c') in *.
  set (w2 := set_trace _ w1). assert (Hs2 : live_at w2 i (set_pending false s)) by exact Hs1.
  rewrite (bind_update_sock _ _ _ _ _ Hs2).
  change (with_buf _ _ (set_pending false s)) with (got c s).
  assert (Ew : put_sock i (got c s) w2 =
    put_sock i (got c s) (set_trace (w_trace w ++ [Read (s_fd s) (SOCKBUF_LEN - s_sock_pos s) (Some c)]) w)).
  { unfold w2, w1. unfold put_sock, set_trace, set_ocp, set_slot. simpl.
    by rewrite list_insert_insert_eq. }
  rewrite Ew. set (w3 := put_sock i (got c s) _).
  assert (Hs3 : live_at w3 i (got c s)) by (eapply live_put; exact Hs).
  rewrite (bind_sock _ _ _ _ Hs3). reflexivity.
Qed.

Lemma event_add_eq i w s ev :
  live_at w i s → s_ev s = Some ev →
  event_add i w = inr ((), put_sock i (with_ev (s_fd s) (Some (mk_event (ev_call ev) true)) s) w).
Proof.
  intros Hs Hev. unfold event_add. rewrite (bind_sock _ _ _ _ Hs), (bind_deref _ _ _ _ Hev).
  by apply update_sock_eq.
Qed.

Lemma act_waits i w s q st :
  live_at w i s → s_state s = st → holding s q →
  s_ev s = Some (mk_event (Some Socks_cmd_cb) false) → waits st q = true →
  socks_act i s w = inr ((), put_sock i (set_pending true s) w).
Proof.
  intros Hs Hst Hh Hev Hw. pose proof Hh as (Hp & _). pose proof (event_add_eq _ _ _ _ Hs Hev) as Ha.
  unfold waits in Hw. apply andb_true_iff in Hw as [H0 Hw]. apply Z.eqb_eq in H0.
  assert (Hq : 0 < zlen q).
  { destruct q; [|rewrite zlen_cons; pose proof (zlen_nonneg q); lia]. by vm_compute in H0. }
  unfold socks_act. rewrite (holding_byte s q 0) by (done || lia). rewrite H0. simpl negb.
  cbv iota. rewrite Hst. destruct st; try done.
  - unfold socks_auth_step. rewrite Hp. unfold auth_waits in Hw.
    destruct (Z.leb_spec (zlen q) 1); [done|]. simpl in Hw.
    rewrite (holding_byte s q 1) by (done || lia). by rewrite Hw.
  - unfold socks_req_step. cbv zeta. rewrite Hp. unfold req_waits in Hw.
    destruct (Z.leb_spec (zlen q) 3); [done|]. simpl in Hw.
    rewrite !(holding_byte s q 1), !(holding_byte s q 3) by (done || lia).
    apply andb_true_iff in Hw as [-> Hw]. simpl negb. cbv iota.
    destruct (byte_at q 3 =? SOCKS_ATYP_IPV4) eqn:E4; simpl in Hw.
    + rewrite orb_comm in Hw. destruct (byte_at q 3 =? SOCKS_ATYP_DOMAIN) eqn:E3.
      { apply Z.eqb_eq in E3, E4. rewrite E3 in E4. done. }
      simpl in Hw. by rewrite Hw.
    + apply andb_true_iff in Hw as [-> Hw]. destruct (Z.leb_spec (zlen q) 4); [done|].
      simpl in Hw. rewrite !(holding_byte s q 4) by (done || lia). by rewrite Hw.
Qed.

(** Nothing but the socket [i] and the trace has changed. *)
Definition only_sock (i : nat) w w' : Prop :=
  w_opts w' = w_opts w ∧ w_dns w' = w_dns w ∧ w_pbufs w' = w_pbufs w ∧ w_tcp w' = w_tcp w ∧
  ∀ j, j ≠ i → ocp_sock_pool (w_ocp w') !! j = ocp_sock_pool (w_ocp w) !! j.

Lemma only_sock_put i s w : only_sock i w (put_sock i s w).
Proof. repeat split. intros j Hj. simpl. by rewrite list_lookup_insert_ne. Qed.
Lemma only_sock_got i s c w : only_sock i w (got_world i s c w).
Proof. repeat split. intros j Hj. simpl. by rewrite list_lookup_insert_ne. Qed.
#[export] Instance only_sock_preorder i : PreOrder (only_sock i).
Proof.
  split; [by repeat split|]. intros w1 w2 w3 (A1 & A2 & A3 & A4 & A5) (B1 & B2 & B3 & B4 & B5).
  split_and!; try congruence. intros j Hj. by rewrite B5, A5.
Qed.

Lemma sent_got fd i s c w : sent_to fd (w_trace (got_world i s c w)) = sent_to fd (w_trace w).
Proof. simpl. rewrite sent_to_app. simpl. by rewrite app_nil_r. Qed.

(** Pieces that do not complete a message are collected. *)
Lemma feed_waits i st cs p w s :
  live_at w i s → waiting st p s → st ≠ STATE_DATA → Forall (λ c, c ≠ []) cs →
  zlen (p ++ concat cs) ≤ SOCKBUF_LEN →
  (∀ q, q `prefix_of` p ++ concat cs → (length p < length q)%nat → waits st q = true) →
  ∃ w' s', feed i cs w = inr ((), w') ∧ live_at w' i s' ∧ waiting st (p ++ concat cs) s' ∧
    s_fd s' = s_fd s ∧ s_conn_type s' = s_conn_type s ∧ stale (p ++ concat cs) s s' ∧
    only_sock i w w' ∧ ∀ fd, sent_to fd (w_trace w') = sent_to fd (w_trace w).
Proof.
  revert p w s. induction cs as [|c cs IH]; intros p w s Hs Hwait Hnd Hne Hlen Hq.
  { simpl. rewrite app_nil_r. exists w, s. by split_and!. }
  apply list.Forall_cons in Hne as [Hc Hne]. simpl in *. rewrite app_assoc in *.
  assert (Hlen' : zlen (p ++ c) ≤ SOCKBUF_LEN).
  { rewrite zlen_app in Hlen. pose proof (zlen_nonneg (concat cs)). lia. }
  pose proof Hwait as (Hst & Hh & Hev).
  assert (Hg : live_at (got_world i s c w) i (got c s)) by (eapply live_put; exact Hs).
  assert (Hw : waits st (p ++ c) = true).
  { apply Hq; [by exists (concat cs)|]. rewrite length_app. destruct c; [done|]. simpl. lia. }
  pose proof (fire_piece _ _ _ _ _ _ Hs Hwait Hnd Hc Hlen') as E.
  rewrite (act_waits _ _ _ _ _ Hg Hst (holding_got _ _ _ Hh Hlen') eq_refl Hw) in E.
  rewrite (bind_ret _ _ _ _ _ E). set (w1 := put_sock i _ _) in *.
  destruct (IH (p ++ c) w1 (set_pending true (got c s))) 
    as (w' & s' & E' & ? & ? & ? & ? & Hb & Ho & Ht).
  - by eapply live_put.
  - split; [done|]. split; [|done]. by apply holding_got.
  - done.
  - done.
  - done.
  - intros q Hpq Hl. apply Hq; [done|]. rewrite length_app in Hl. lia.
  - exists w', s'. split_and!; try done.
    + unfold stale in Hb |- *. rewrite Hb.
      apply (stale_mono (p ++ c)); [rewrite !length_app; lia|by apply stale_got].
    + etransitivity; [|exact Ho]. etransitivity; [apply only_sock_got|apply only_sock_put].
    + intros fd. rewrite Ht. apply sent_got.
Qed.

(** The piece that completes a message: what the handler does with it. *)
Lemma feed_last i st cs c w s :
  live_at w i s → waiting st [] s → st ≠ STATE_DATA → Forall (λ c, c ≠ []) (cs ++ [c]) →
  zlen (concat (cs ++ [c])) ≤ SOCKBUF_LEN →
  (∀ q, q `prefix_of` concat cs → q ≠ [] → waits st q = true) →
  ∃ w1 s1, feed i (cs ++ [c]) w = socks_act i s1 w1 ∧ live_at w1 i s1 ∧ s_state s1 = st ∧
    holding s1 (concat (cs ++ [c])) ∧ s_ev s1 = Some (mk_event (Some Socks_cmd_cb) false) ∧
    s_fd s1 = s_fd s ∧ s_conn_type s1 = s_conn_type s ∧ stale (concat (cs ++ [c])) s s1 ∧
    only_sock i w w1 ∧ ∀ fd, sent_to fd (w_trace w1) = sent_to fd (w_trace w).
Proof.
  intros Hs Hw Hnd Hne Hlen Hq. apply Forall_app in Hne as [Hne [Hc _]%list.Forall_cons].
  rewrite concat_app in *. simpl in *. rewrite app_nil_r in *.
  destruct (feed_waits i st cs [] w s) as (w' & s' & E & Hs' & Hw' & ? & ? & Hb & Ho & Ht); try done.
  { simpl. rewrite zlen_app in Hlen. pose proof (zlen_nonneg c). lia. }
  { simpl. intros q Hp Hl. apply Hq; [done|]. intros ->. simpl in Hl. lia. }
  simpl in Hw', Hb. pose proof Hw' as (Hst' & Hh' & Hev').
  exists (got_world i s' c w'), (got c s'). split_and!; try done.
  - transitivity ((feed i cs;; feed i [c]) w).
    { clear. revert w. induction cs as [|d cs IH]; intros w; [done|].
      cbn [feed app]. unfold mbind, prog_bind in *.
      destruct (run_event (reading e d) k vpnfd (Ev_socket i) w) as [|[[] w1]]; [done|]. apply IH. }
    rewrite (bind_ret _ _ _ _ _ E). cbn [feed].
    rewrite <-(fire_piece i w' s' st (concat cs) c) by done.
    unfold mbind, prog_bind. by destruct (run_event (reading e c) k vpnfd (Ev_socket i) w') as [|[[] w1]].
  - eapply live_put. exact Hs'.
  - by apply holding_got.
  - unfold stale in *. etransitivity; [by apply stale_got|].
    apply (stale_mono (concat cs)); [rewrite length_app; lia|done].
  - etransitivity; [exact Ho|]. apply only_sock_got.
  - intros fd. rewrite sent_got. apply Ht.
Qed.

Lemma auth_complete i w s m :
  live_at w i s → s_state s = STATE_SOCKS_AUTH → holding s m → greeting_ok m →
  s_ev s = Some (mk_event (Some Socks_cmd_cb) false) →
  (∀ tr fd, sys_write e tr fd [5; 0] = Some 2) →
  let w1 := set_trace (w_trace w ++ [Write (s_fd s) [5; 0] (Some 2)]) w in
  socks_act i s w = inr ((), put_sock i
    (set_pending true (with_buf 0 (s_sockbuf s) (with_state STATE_SOCKS_CMD s))) w1).
Proof.
  intros Hs Hst Hh (n & ms & -> & Hn & Hu) Hev Hw w1. pose proof Hh as (Hp & _).
  pose proof (zlen_nonneg ms). rewrite !zlen_cons in Hp.
  unfold socks_act. rewrite (holding_byte _ _ 0 Hh) by (rewrite !zlen_cons; lia).
  change (negb (byte_at (SOCKS_VER :: n :: ms) 0 =? SOCKS_VER)) with false. cbv iota.
  rewrite Hst. unfold socks_auth_step. rewrite (holding_byte _ _ 1 Hh) by (rewrite !zlen_cons; lia).
  unfold byte_at. simpl nth. rewrite u8_id by done.
  rewrite Hp, (proj2 (Z.leb_gt _ 1)), (proj2 (Z.leb_gt _ (n + 1))) by lia.
  rewrite bind_write, Hw. cbv zeta. rewrite decide_True by done.
  assert (Hs1 : live_at w1 i s) by exact Hs. fold w1.
  rewrite (bind_update_sock _ _ _ _ _ Hs1).
  rewrite (bind_update_sock _ (with_state STATE_SOCKS_CMD s)) by by eapply live_put.
  rewrite put_put.
  rewrite (event_add_eq _ _ (with_buf 0 (s_sockbuf s) (with_state STATE_SOCKS_CMD s))
             (mk_event (Some Socks_cmd_cb) false)) by (done || by eapply live_put).
  by rewrite put_put.
Qed.
End socks.

(** C34: However a client's SOCKS greeting is cut into pieces, the server answers
    it exactly once, with "no authentication", when it is complete, and then
    waits for a request with an empty buffer; nothing but the client's socket
    changes. *)
Theorem socks_greeting_answered {T CF} `{!TcpApi T CF} (e : env) (k : stack T CF) vpnfd i cs m w s :
  live_at w i s → waiting STATE_SOCKS_AUTH [] s → greeting_ok m →
  concat cs = m → Forall (λ c, c ≠ []) cs →
  (∀ tr fd, sys_write e tr fd [5; 0] = Some 2) →
  ∃ w' s', feed e k vpnfd i cs w = inr ((), w') ∧ live_at w' i s' ∧
    waiting STATE_SOCKS_CMD [] s' ∧ s_fd s' = s_fd s ∧ s_conn_type s' = s_conn_type s ∧
    only_sock i w w' ∧ sent_to (s_fd s) (w_trace w') = sent_to (s_fd s) (w_trace w) ++ [5; 0].
Proof.
  intros Hs Hwait Hm Hcs Hne Hwr. pose proof Hm as (n & ms & Em & Hn & Hu).
  assert (Hlen : zlen m ≤ SOCKBUF_LEN).
  { rewrite Em, !zlen_cons. unfold is_u8, SOCKBUF_LEN in *. lia. }
  destruct (pieces_split cs m Hcs) as (cs' & c & -> & Hpre); [by rewrite Em|done|].
  destruct (feed_last e k vpnfd i STATE_SOCKS_AUTH cs' c w s)
    as (w1 & s1 & E & Hs1 & Hst & Hh & Hev & Hfd & Hct & _ & Ho & Ht); try done.
  { by rewrite Hcs. }
  { intros q Hq Hq0. destruct (Hpre q Hq). by apply (greeting_waits m). }
  rewrite Hcs in Hh. rewrite (auth_complete _ _ _ _ _ _ Hs1 Hst Hh Hm Hev Hwr) in E.
  eexists _, _. split; [exact E|]. split; [eapply live_put; exact Hs1|].
  split; [|split; [done|split; [done|split]]].
  - split; [done|]. split; [|done]. destruct Hh as (_ & ? & _). split_and!; try done.
  - etransitivity; [exact Ho|]. repeat split. intros j Hj. simpl. by rewrite list_lookup_insert_ne.
  - simpl. rewrite sent_to_app, Ht, Hfd. unfold sent_to at 2. simpl. by rewrite Z.eqb_refl.
Qed.

(** ** Requests *)

Definition ip_request (rsv a b c d p1 p2 : Z) : bytes :=
  [SOCKS_VER; SOCKS_CMD_CONNECT; rsv; SOCKS_ATYP_IPV4; a; b; c; d; p1; p2].
Definition name_request (rsv : Z) (name : bytes) : bytes :=
  [SOCKS_VER; SOCKS_CMD_CONNECT; rsv; SOCKS_ATYP_DOMAIN; zlen name] ++ name.

Lemma port_swap p1 p2 : is_u8 p1 → is_u8 p2 → lwip_ntohs (le_load [p1; p2]) = 256 * p1 + p2.
Proof.
  intros H1 H2. unfold lwip_ntohs. rewrite htons_arith. cbn [le_load]. unfold is_u8 in *. zdm.
Qed.

Lemma ip_request_waits rsv a b c d p1 p2 q :
  q `prefix_of` ip_request rsv a b c d p1 p2 → q ≠ [] → (length q < 10)%nat →
  waits STATE_SOCKS_CMD q = true.
Proof.
  intros [r Hr] Hq Hl. unfold ip_request in Hr.
  do 10 (destruct q as [|? q]; [try done|injection Hr as <- Hr]); try done.
  simpl in Hl. lia.
Qed.

Lemma name_request_waits rsv name tail q :
  is_u8 (zlen name) → q `prefix_of` name_request rsv name ++ tail → q ≠ [] →
  zlen q ≤ 4 + zlen name → waits STATE_SOCKS_CMD q = true.
Proof.
  intros Hu [r Hr] Hq Hl. unfold name_request in Hr.
  do 5 (destruct q as [|? q]; [try done|injection Hr as <- Hr]).
  unfold waits, req_waits. set (z := _ :: _ :: _ :: _ :: _ :: q).
  change (byte_at z 0) with 5. change (byte_at z 1) with 1. change (byte_at z 3) with 3.
  replace (byte_at z 4) with (zlen name) by (unfold byte_at; simpl; by rewrite u8_id).
  simpl. rewrite (proj2 (Z.leb_le (zlen z) (4 + zlen name))) by done. by rewrite !orb_true_r.
Qed.

Lemma byte_at_stale p s s' j :
  stale p s s' → zlen p ≤ j → byte_at (s_sockbuf s') j = byte_at (s_sockbuf s) j.
Proof.
  unfold stale, byte_at, zlen. intros H Hj. f_equal.
  replace (Z.to_nat j) with (length p + (Z.to_nat j - length p))%nat by lia.
  by rewrite <-!nth_skipn, H.
Qed.

Lemma buffer_name s rsv name tail :
  holding s (name_request rsv name ++ tail) → 5 + zlen name < SOCKBUF_LEN →
  Forall (λ c, c ≠ 0) name →
  cstr (drop 5 (splice (Z.to_nat (5 + zlen name)) [0] (s_sockbuf s))) = name.
Proof.
  intros (_ & Hb & Ht & _) Hl Hn.
  assert (E : take (Z.to_nat (5 + zlen name)) (s_sockbuf s) = name_request rsv name).
  { replace (Z.to_nat (5 + zlen name)) with
      (length (name_request rsv name) `min` length (name_request rsv name ++ tail))%nat.
    - by rewrite <-take_take, Ht, take_app_length.
    - rewrite length_app. unfold name_request, zlen. simpl. lia. }
  unfold splice. rewrite E. simpl. by apply DnsRecv.DnsRecv.cstr_app.
Qed.

Section requests.
Context {T CF : Type} `{!TcpApi T CF} (e : env) (k : stack T CF).
Abbreviation world := (world T CF).
Implicit Type w : world.

(** The socket with the port of a request. *)
Definition with_port (port : Z) (s : ocp_sock) : ocp_sock :=
  with_remote (s_conn_type s) (s_rhost_name s) (s_rhost s) port s.

Lemma ip_complete i w s rsv a b c d p1 p2 :
  live_at w i s → s_state s = STATE_SOCKS_CMD → holding s (ip_request rsv a b c d p1 p2) →
  is_u8 p1 → is_u8 p2 →
  socks_act e k i s w =
    start_connection i (le_load [a; b; c; d]) (put_sock i (with_port (256 * p1 + p2) s) w).
Proof.
  intros Hs Hst Hh H1 H2. pose proof Hh as (Hp & _).
  unfold socks_act. rewrite (holding_byte _ _ 0 Hh) by done.
  change (negb (byte_at (ip_request rsv a b c d p1 p2) 0 =? SOCKS_VER)) with false. cbv iota.
  rewrite Hst. unfold socks_req_step. cbv zeta.
  rewrite (holding_byte _ _ 1 Hh), (holding_byte _ _ 3 Hh) by done. rewrite Hp.
  change (byte_at (ip_request rsv a b c d p1 p2) 1) with 1.
  change (byte_at (ip_request rsv a b c d p1 p2) 3) with 1.
  change (zlen (ip_request rsv a b c d p1 p2)) with 10.
  cbn [Z.leb Z.eqb negb Z.ltb Z.compare Pos.compare Pos.compare_cont Pos.eqb SOCKS_CMD_CONNECT SOCKS_ATYP_IPV4].
  rewrite (bind_update_sock _ _ _ _ _ Hs).
  rewrite !(holding_slice _ _ _ _ Hh) by done.
  change (load 2 8 (ip_request rsv a b c d p1 p2)) with (le_load [p1; p2]).
  change (load 4 4 (ip_request rsv a b c d p1 p2)) with (le_load [a; b; c; d]).
  by rewrite port_swap.
Qed.

Lemma name_complete i w s rsv name tail :
  live_at w i s → s_state s = STATE_SOCKS_CMD → holding s (name_request rsv name ++ tail) →
  is_u8 (zlen name) → Forall (λ c, c ≠ 0) name →
  ∃ pos buf, socks_act e k i s w = start_resolution e (st_dns_pbuf_avail k) i name
    (put_sock i (with_buf pos buf (with_port
      (256 * byte_at (s_sockbuf s) (5 + zlen name) + byte_at (s_sockbuf s) (6 + zlen name)) s)) w).
Proof.
  intros Hs Hst Hh Hu Hn. pose proof Hh as (Hp & _ & _ & _). set (m := name_request rsv name ++ tail) in *.
  assert (Hm : 5 + zlen name ≤ zlen m).
  { unfold m, name_request. rewrite !zlen_app, !zlen_cons, zlen_nil. pose proof (zlen_nonneg tail). lia. }
  pose proof (zlen_nonneg name). unfold socks_act. rewrite (holding_byte _ _ 0 Hh) by lia.
  change (negb (byte_at m 0 =? SOCKS_VER)) with false. cbv iota. rewrite Hst.
  unfold socks_req_step. cbv zeta. rewrite Hp.
  rewrite (holding_byte _ _ 1 Hh), !(holding_byte _ _ 3 Hh), !(holding_byte _ _ 4 Hh) by lia.
  rewrite (proj2 (Z.leb_gt (zlen m) 3)) by lia.
  change (byte_at m 1) with 1. change (byte_at m 3) with 3.
  cbn [Z.eqb Pos.eqb negb SOCKS_CMD_CONNECT SOCKS_ATYP_IPV4 SOCKS_ATYP_DOMAIN].
  replace (byte_at m 4) with (zlen name) by (unfold byte_at; simpl; by rewrite u8_id).
  rewrite (proj2 (Z.leb_gt (zlen m) 4)), (proj2 (Z.leb_gt (zlen m) (4 + zlen name))) by lia.
  rewrite (bind_update_sock _ _ _ _ _ Hs).
  rewrite (bind_update_sock _ (with_port
    (Z.lor (Z.shiftl (byte_at (s_sockbuf s) (5 + zlen name)) 8)
       (byte_at (s_sockbuf s) (5 + zlen name + 1))) s)) by by eapply live_put.
  rewrite put_put. rewrite (buffer_name _ _ _ _ Hh) by (done || (unfold is_u8, SOCKBUF_LEN in *; lia)).
  rewrite Z.shiftl_mul_pow2, lor_high_low by (lia || apply (byte_at_range (s_sockbuf s))).
  replace (5 + zlen name + 1) with (6 + zlen name) by lia.
  rewrite (Z.mul_comm (byte_at (s_sockbuf s) (5 + zlen name))). eexists _, _. reflexivity.
Qed.
End requests.

(** C35: However a SOCKS request to connect to an IPv4 address is cut into pieces,
    once it is complete the server starts a connection to exactly the address
    and the port of the request, and before that it only waits; no reply is
    sent yet, and nothing but the client's socket has changed. *)
Theorem socks_connect_ipv4 {T CF} `{!TcpApi T CF} (e : env) (k : stack T CF) vpnfd
    i cs rsv a b c d p1 p2 w s :
  live_at w i s → waiting STATE_SOCKS_CMD [] s →
  concat cs = ip_request rsv a b c d p1 p2 → Forall (λ c, c ≠ []) cs →
  is_u8 p1 → is_u8 p2 →
  ∃ w1 s1, feed e k vpnfd i cs w = start_connection i (le_load [a; b; c; d]) w1 ∧
    live_at w1 i s1 ∧ s_rport s1 = 256 * p1 + p2 ∧ s_fd s1 = s_fd s ∧
    s_conn_type s1 = s_conn_type s ∧ only_sock i w w1 ∧
    ∀ fd, sent_to fd (w_trace w1) = sent_to fd (w_trace w).
Proof.
  intros Hs Hwait Hcs Hne H1 H2.
  destruct (pieces_split cs _ Hcs) as (cs' & x & -> & Hpre); [done|done|].
  destruct (feed_last e k vpnfd i STATE_SOCKS_CMD cs' x w s)
    as (w1 & s1 & E & Hs1 & Hst & Hh & Hev & Hfd & Hct & _ & Ho & Ht); try done.
  { by rewrite Hcs. }
  { intros q Hq Hq0. destruct (Hpre q Hq). by apply (ip_request_waits rsv a b c d p1 p2). }
  rewrite Hcs in Hh. rewrite (ip_complete _ _ _ _ _ _ _ _ _ _ _ _ Hs1 Hst Hh H1 H2) in E.
  eexists _, _. split; [exact E|]. split; [eapply live_put; exact Hs1|]. split_and!; try done.
  etransitivity; [exact Ho|]. apply only_sock_put.
Qed.

Lemma feed_name {T CF} `{!TcpApi T CF} (e : env) (k : stack T CF) vpnfd i cs c rsv name tail w s :
  live_at w i s → waiting STATE_SOCKS_CMD [] s →
  concat (cs ++ [c]) = name_request rsv name ++ tail → Forall (λ c, c ≠ []) (cs ++ [c]) →
  is_u8 (zlen name) → Forall (λ c, c ≠ 0) name → zlen tail ≤ 2 →
  zlen (concat cs) ≤ 4 + zlen name →
  ∃ w1 s1 s0, feed e k vpnfd i (cs ++ [c]) w = start_resolution e (st_dns_pbuf_avail k) i name w1 ∧
    live_at w1 i s1 ∧ s_fd s1 = s_fd s ∧ s_conn_type s1 = s_conn_type s ∧ only_sock i w w1 ∧
    (∀ fd, sent_to fd (w_trace w1) = sent_to fd (w_trace w)) ∧
    holding s0 (name_request rsv name ++ tail) ∧ stale (name_request rsv name ++ tail) s s0 ∧
    s_rport s1 = 256 * byte_at (s_sockbuf s0) (5 + zlen name) + byte_at (s_sockbuf s0) (6 + zlen name).
Proof.
  intros Hs Hwait Hcs Hne Hu Hn Htl Hl.
  destruct (feed_last e k vpnfd i STATE_SOCKS_CMD cs c w s)
    as (w1 & s1 & E & Hs1 & Hst & Hh & Hev & Hfd & Hct & Hb & Ho & Ht); try done.
  { rewrite Hcs. unfold name_request. rewrite !zlen_app, !zlen_cons, zlen_nil.
    unfold is_u8, SOCKBUF_LEN in *. lia. }
  { intros q Hq Hq0. apply (name_request_waits rsv name tail); try done.
    - rewrite <-Hcs, concat_app. by apply prefix_app_r.
    - apply prefix_length in Hq. unfold zlen in *. lia. }
  rewrite Hcs in Hh, Hb. destruct (name_complete e k _ _ _ _ _ _ Hs1 Hst Hh Hu Hn) as (pos & buf & Ec).
  rewrite Ec in E. eexists _, _, s1. split; [exact E|]. split; [eapply live_put; exact Hs1|].
  split_and!; try done. etransitivity; [exact Ho|]. apply only_sock_put.
Qed.

(** C36: However a SOCKS request by host name is cut into pieces, as long as the
    piece that completes the name also brings the port, the server starts to
    resolve exactly the name of the request, for a connection to its port. *)
Theorem socks_connect_name {T CF} `{!TcpApi T CF} (e : env) (k : stack T CF) vpnfd
    i cs c rsv name p1 p2 w s :
  live_at w i s → waiting STATE_SOCKS_CMD [] s →
  concat (cs ++ [c]) = name_request rsv name ++ [p1; p2] → Forall (λ c, c ≠ []) (cs ++ [c]) →
  is_u8 (zlen name) → Forall (λ c, c ≠ 0) name → is_u8 p1 → is_u8 p2 →
  zlen (concat cs) ≤ 4 + zlen name →
  ∃ w1 s1, feed e k vpnfd i (cs ++ [c]) w = start_resolution e (st_dns_pbuf_avail k) i name w1 ∧
    live_at w1 i s1 ∧ s_rport s1 = 256 * p1 + p2 ∧ s_fd s1 = s_fd s ∧
    s_conn_type s1 = s_conn_type s ∧ only_sock i w w1 ∧
    ∀ fd, sent_to fd (w_trace w1) = sent_to fd (w_trace w).
Proof.
  intros Hs Hwait Hcs Hne Hu Hn H1 H2 Hl.
  destruct (feed_name e k vpnfd i cs c rsv name [p1; p2] w s)
    as (w1 & s1 & s0 & E & ? & ? & ? & ? & ? & Hh & _ & Hport); try done.
  exists w1, s1. split_and!; try done.
  assert (Hm : zlen (name_request rsv name ++ [p1; p2]) = 7 + zlen name).
  { unfold name_request. rewrite !zlen_app, !zlen_cons, !zlen_nil. lia. }
  pose proof (zlen_nonneg name). rewrite !(holding_byte _ _ _ Hh) in Hport by lia. rewrite Hport.
  unfold byte_at, name_request. rewrite !app_nth2 by (unfold zlen; simpl; rewrite ?length_app; simpl; lia).
  simpl length. replace (Z.to_nat (5 + zlen name) - _)%nat with 0%nat by (unfold zlen; lia).
  replace (Z.to_nat (6 + zlen name) - _)%nat with 1%nat by (unfold zlen; lia).
  simpl. by rewrite !u8_id.
Qed.

(** The server takes a request by host name to be complete without its port.
    When the pieces so far end with the name, it starts to resolve the name for
    a connection to a port that it takes from whatever the buffer held before
    the request: for a new client, port 0. *)
Theorem socks_name_port_missing {T CF} `{!TcpApi T CF} (e : env) (k : stack T CF) vpnfd
    i cs rsv name w s :
  live_at w i s → waiting STATE_SOCKS_CMD [] s →
  concat cs = name_request rsv name → Forall (λ c, c ≠ []) cs →
  is_u8 (zlen name) → Forall (λ c, c ≠ 0) name →
  ∃ w1 s1, feed e k vpnfd i cs w = start_resolution e (st_dns_pbuf_avail k) i name w1 ∧
    live_at w1 i s1 ∧
    s_rport s1 = 256 * byte_at (s_sockbuf s) (5 + zlen name) + byte_at (s_sockbuf s) (6 + zlen name).
Proof.
  intros Hs Hwait Hcs Hne Hu Hn.
  destruct (pieces_split cs _ Hcs) as (cs' & c & -> & Hpre); [done|done|].
  assert (Hm : zlen (name_request rsv name) = 5 + zlen name).
  { unfold name_request. rewrite !zlen_app, !zlen_cons, !zlen_nil. lia. }
  destruct (feed_name e k vpnfd i cs' c rsv name [] w s)
    as (w1 & s1 & s0 & E & ? & ? & ? & ? & ? & _ & Hst & Hport); try done.
  { by rewrite app_nil_r. }
  { destruct (Hpre (concat cs') ltac:(done)) as [_ ?]. unfold zlen in *. lia. }
  exists w1, s1. split_and!; try done. rewrite app_nil_r in Hst.
  rewrite !(byte_at_stale _ _ _ _ Hst) in Hport by lia. done.
Qed.

(** ** Witnesses *)

(** The client of the examples, after its greeting. *)
Definition toy_greeted : ocp_sock := with_state STATE_SOCKS_CMD toy_client.
Definition greeted_world : world positive Empty_set := put_sock 2 toy_greeted toy_accepted.

Lemma toy_client_waiting : waiting STATE_SOCKS_AUTH [] toy_client.
Proof. repeat split; vm_compute; done. Qed.
Lemma toy_greeted_waiting : waiting STATE_SOCKS_CMD [] toy_greeted.
Proof. repeat split; vm_compute; done. Qed.
Lemma toy_greeted_at : live_at greeted_world 2 toy_greeted.
Proof. exact (live_put toy_accepted 2 toy_client toy_greeted toy_client_at). Qed.

Lemma socks_greeting_answered_witness :
  ∃ w' s', feed (toy_env [] 2048) toy_stack 7 2 [[5]; [1; 0]] toy_accepted = inr ((), w') ∧
    live_at w' 2 s' ∧ waiting STATE_SOCKS_CMD [] s'.
Proof.
  destruct (socks_greeting_answered (toy_env [] 2048) toy_stack 7 2 [[5]; [1; 0]] [5; 1; 0]
    toy_accepted toy_client toy_client_at toy_client_waiting) as (w' & s' & H1 & H2 & H3 & _).
  - by exists 1, [0].
  - done.
  - by repeat constructor.
  - done.
  - exists w', s'. exact (conj H1 (conj H2 H3)).
Defined.

(** A request for port 443 of 192.0.2.1 in two pieces. *)
Lemma socks_connect_ipv4_witness :
  ∃ w1 s1, feed (toy_env [] 2048) toy_stack 7 2 [[5; 1; 0; 1; 192]; [0; 2; 1; 1; 187]] greeted_world
      = start_connection 2 0x010200c0 w1 ∧ live_at w1 2 s1 ∧ s_rport s1 = 443.
Proof.
  destruct (socks_connect_ipv4 (toy_env [] 2048) toy_stack 7 2 [[5; 1; 0; 1; 192]; [0; 2; 1; 1; 187]]
    0 192 0 2 1 1 187 greeted_world toy_greeted toy_greeted_at toy_greeted_waiting)
    as (w1 & s1 & H1 & H2 & H3 & _).
  - done.
  - by repeat constructor.
  - cdec.
  - cdec.
  - exists w1, s1. exact (conj H1 (conj H2 H3)).
Defined.

(** Port 80 of "a.b", with the port in the last piece or not at all. *)
Lemma socks_connect_name_witness :
  ∃ w1 s1, feed (toy_env [] 2048) toy_stack 7 2 ([[5; 1]] ++ [[0; 3; 3; 97; 46; 98; 0; 80]]) greeted_world
      = start_resolution (toy_env [] 2048) (st_dns_pbuf_avail toy_stack) 2 (str "a.b") w1 ∧
    live_at w1 2 s1 ∧ s_rport s1 = 80.
Proof.
  destruct (socks_connect_name (toy_env [] 2048) toy_stack 7 2 [[5; 1]] [0; 3; 3; 97; 46; 98; 0; 80]
    0 (str "a.b") 0 80 greeted_world toy_greeted toy_greeted_at toy_greeted_waiting)
    as (w1 & s1 & H1 & H2 & H3 & _).
  - done.
  - by repeat constructor.
  - cdec.
  - by repeat constructor.
  - cdec.
  - cdec.
  - done.
  - exists w1, s1. exact (conj H1 (conj H2 H3)).
Defined.

Lemma socks_name_port_missing_witness :
  ∃ w1 s1, feed (toy_env [] 2048) toy_stack 7 2 [[5; 1; 0; 3; 3; 97; 46; 98]] greeted_world
      = start_resolution (toy_env [] 2048) (st_dns_pbuf_avail toy_stack) 2 (str "a.b") w1 ∧
    live_at w1 2 s1 ∧ s_rport s1 = 0.
Proof.
  destruct (socks_name_port_missing (toy_env [] 2048) toy_stack 7 2 [[5; 1; 0; 3; 3; 97; 46; 98]]
    0 (str "a.b") greeted_world toy_greeted toy_greeted_at toy_greeted_waiting)
    as (w1 & s1 & H1 & H2 & H3).
  - done.
  - by repeat constructor.
  - cdec.
  - by repeat constructor.
  - exists w1, s1. exact (conj H1 (conj H2 H3)).
Defined.
End OcpSocks.
