(* ===== verification/OcpVpn.v ===== *)
(** * ocproxy: packets to and from the VPN

    A datagram from the VPN reaches lwIP's input function as a chain of pbufs
    with the same bytes; a chain from lwIP is sent as one datagram, unless it has
    too many pbufs. *)

From S2P Require Import Prelude Def Dns Pbuf Linked PbufChain PbufOps PbufAlloc.
From S2P Require Import Ocp OcpConn OcpMain OcpPool OcpInv OcpLoop OcpToy.

Module OcpVpn.
Import Def Dns Pbuf Linked PbufChain PbufOps PbufAlloc Ocp OcpConn OcpMain OcpPool OcpInv OcpLoop OcpToy.

Section vpn.
Context {T CF : Type} `{!TcpApi T CF} (e : env).
Abbreviation world := (world T CF).
Abbreviation heap := (heap CF).
Implicit Types (w : world) (h : heap) (ls : list (loc * pbuf CF)).

Lemma pwrite_inv h l off d u h' :
  pwrite l off d h = inr (u, h') → ∃ b m, h !! l = Some b ∧ h' = <[l:=with_mem m b]> h.
Proof.
  unfold pwrite, deref. destruct (h !! l) as [b|] eqn:E; rewrite bind_assoc_get, E; [|done].
  cbn [pderef]. rewrite bind_mret. case_match; [|done].
  rewrite (update_eq _ _ _ _ E). intros [= _ <-]. eauto.
Qed.

(** The copy loop of [lwip_data_cb] is that of [pbuf_take]. *)
Lemma fill_take fuel p ls d h h' :
  chain_at h p ls → chain_wf ls → zlen d < 65536 →
  take_loop fuel p (zlen d) d h = inr (ERR_OK, h') → fill_chain fuel p d h = inr ((), h').
Proof.
  revert p ls d h. induction fuel as [|fuel IH]; intros p ls d h Hc Hwf Hd E.
  { destruct d as [|x d]; [by injection E as <-|]. by destruct p. }
  destruct d as [|x d0]; [by injection E as <-|]. set (d := x :: d0) in *.
  assert (Hpos : 0 < zlen d) by (unfold d; rewrite zlen_cons; pose proof (zlen_nonneg d0); lia).
  cbn [take_loop] in E. rewrite (proj2 (Z.eqb_neq (zlen d) 0)) in E by lia.
  pose proof (linked_nodup _ _ _ Hc) as Hnd. inversion Hc as [|l b ls' El Hc']; subst; [done|].
  destruct Hwf as ((_ & Hb & _) & _ & _ & _ & Hwf). apply list.NoDup_cons in Hnd as [Hni _].
  unfold d at 1. cbn [fill_chain]. fold d. rewrite (bind_deref _ l) by done.
  rewrite (bind_pb _ _ _ _ El) in E. rewrite (bind_pb _ _ _ _ El). cbv zeta in E |- *.
  set (n := if p_len b <? zlen d then _ else _) in *.
  assert (Hn : 0 ≤ n ≤ zlen d) by (unfold n; destruct (Z.ltb_spec (p_len b) (zlen d)); lia).
  rewrite (proj2 (Z.leb_le n (zlen d))), bind_mret in E by lia.
  destruct (pwrite l 0 (take (Z.to_nat n) d) h) as [|[[] h1]] eqn:Ew.
  { by rewrite (bind_fault _ _ _ _ Ew) in E. }
  rewrite (bind_ret _ _ _ _ _ Ew) in E. rewrite (bind_ret _ _ _ _ _ Ew).
  destruct (pwrite_inv _ _ _ _ _ _ Ew) as (b0 & m & Eb & ->). simplify_eq.
  rewrite (bind_pb _ _ (with_mem m b)) by by rewrite lookup_insert_eq.
  assert (Hz : zlen (drop (Z.to_nat n) d) = zlen d - n).
  { unfold zlen in *. rewrite length_drop. lia. }
  apply (IH _ ls'); [by apply linked_insert_ne|done|lia|].
  rewrite u16_id in E by (unfold is_u16; lia). by rewrite Hz.
Qed.

Lemma gather_eq h p ls fuel iov :
  chain_at h p ls → chain_wf ls → (length ls ≤ fuel)%nat →
  gather fuel p iov h =
    inr (if zlen iov + zlen ls <=? Z.max MAX_IOVEC (zlen iov)
         then Some (iov ++ (pdata <$> ls.*2)) else None, h).
Proof.
  revert p fuel iov. induction ls as [|[l b] ls IH]; intros p fuel iov Hc Hwf Hf.
  { inversion Hc; subst. rewrite (proj2 (Z.leb_le _ _)) by (change (zlen (@nil (loc * pbuf CF))) with 0; lia).
    rewrite app_nil_r. by destruct fuel. }
  inversion Hc as [|? ? ? E Hc']; subst. destruct fuel as [|fuel]; [simpl in Hf; lia|].
  destruct Hwf as (Hok & _ & _ & _ & Hwf). cbn [gather]. pose proof (zlen_nonneg ls).
  rewrite !zlen_cons. destruct (Z.leb_spec MAX_IOVEC (zlen iov)).
  { by rewrite (proj2 (Z.leb_gt _ _)) by lia. }
  rewrite (bind_pb _ _ _ _ E). destruct Hok as (? & ? & ?).
  rewrite (bind_pread _ _ b) by (done || lia).
  assert (Ed : take (Z.to_nat (p_len b)) (drop (Z.to_nat 0) (pdata b)) = pdata b).
  { rewrite drop_0. apply take_ge. unfold pdata. rewrite length_take. lia. }
  rewrite Ed, (IH (p_next b)) by (done || (simpl in Hf; lia)).
  rewrite zlen_app, zlen_cons, zlen_nil, !fmap_cons, <-app_assoc. simpl.
  replace (zlen iov + (1 + 0) + zlen ls) with (zlen iov + (1 + zlen ls)) by lia.
  by replace (Z.max MAX_IOVEC (zlen iov + (1 + 0))) with (Z.max MAX_IOVEC (zlen iov)) by lia.
Qed.

Lemma lwip_data_out_gather tcpdump i p w s ls :
  live_at w i s → tcpdump_enabled (w_opts w) = false →
  chain_at (w_pbufs w) (Some p) ls → chain_wf ls →
  lwip_data_out e tcpdump i (Some p) w =
    (if zlen ls <=? MAX_IOVEC then
       let iov := pdata <$> ls.*2 in
       let ret := sys_writev e (w_trace w) (s_fd s) iov in
       let tr := w_trace w ++ [Writev (s_fd s) iov ret] in
       (match ret with
        | None => if sys_errno_gone e tr then vpn_conn_down else emit (Stat "link.drop")
        | Some n => if n =? zlen (data ls) then emit (Stat "link.xmit") else emit (Stat "link.lenerr")
        end;; mret ERR_OK) (set_trace tr w)
     else (warn "too many chunks, dropping packet";; mret ERR_OK) w).
Proof.
  intros Hs Hd Hc Hwf. unfold lwip_data_out. rewrite bind_get, Hd, bind_mret.
  pose proof (linked_length _ _ _ Hc) as Hsz.
  pose proof (gather_eq _ _ _ (S (size (w_pbufs w))) [] Hc Hwf ltac:(lia)) as Eg.
  change (zlen (@nil bytes)) with 0 in Eg. rewrite Z.add_0_l in Eg.
  change (Z.max MAX_IOVEC 0) with MAX_IOVEC in Eg. simpl app in Eg.
  rewrite (bind_lift_same _ _ w (if zlen ls <=? MAX_IOVEC then Some (pdata <$> ls.*2) else None))
    by exact Eg.
  destruct (zlen ls <=? MAX_IOVEC); [|done].
  rewrite (bind_sock _ _ _ _ Hs), bind_get, bind_emit, bind_get. done.
Qed.
End vpn.

(** C37: A chain of at most 128 pbufs is sent to the VPN as one datagram with
    exactly its data, counted as transmitted if and only if the VPN took all of
    it; a longer chain is dropped with a warning and nothing is sent. The event
    loop is stopped exactly when the VPN's end is gone. Nothing else changes. *)
Theorem vpn_packet_out {T CF} `{!TcpApi T CF} (e : env)
    (tcpdump : option loc → prog (world T CF) unit) i p (w : world T CF) s ls :
  live_at w i s → tcpdump_enabled (w_opts w) = false →
  chain_at (w_pbufs w) (Some p) ls → chain_wf ls →
  let iov := pdata <$> ls.*2 in
  let ret := sys_writev e (w_trace w) (s_fd s) iov in
  let gone := sys_errno_gone e (w_trace w ++ [Writev (s_fd s) iov ret]) in
  concat iov = data ls ∧
  ∃ w', lwip_data_out e tcpdump i (Some p) w = inr (ERR_OK, w') ∧
    w_ocp w' = w_ocp w ∧ w_pbufs w' = w_pbufs w ∧ w_tcp w' = w_tcp w ∧ w_dns w' = w_dns w ∧
    (zlen ls ≤ MAX_IOVEC →
      ∃ x, w_trace w' = w_trace w ++ [Writev (s_fd s) iov ret; x] ∧
        (x = Stat "link.xmit" ↔ ret = Some (zlen (data ls))) ∧
        (w_loopbreak w' = true ↔ w_loopbreak w = true ∨ ret = None ∧ gone = true)) ∧
    (MAX_IOVEC < zlen ls → ∃ msg, w_trace w' = w_trace w ++ [Warn msg] ∧ w_loopbreak w' = w_loopbreak w).
Proof.
  intros Hs Hd Hc Hwf iov ret gone. split; [done|].
  rewrite (lwip_data_out_gather e _ _ _ _ _ _ Hs Hd Hc Hwf). cbv zeta. fold iov ret.
  destruct (Z.leb_spec (zlen ls) MAX_IOVEC).
  2:{ eexists. split; [reflexivity|]. split_and!; try done; [lia|]. intros _. by eexists. }
  fold gone. destruct ret as [n|].
  - destruct (Z.eqb_spec n (zlen (data ls))) as [->|Hne];
      (eexists; split; [reflexivity|]; split_and!; try done; [|lia]);
      intros _; eexists; (split; [simpl; by rewrite <-app_assoc|]);
      (split; [|simpl; split; [auto|by intros [?|[? ?]]]]); [done|]. split; [done|]. congruence.
  - destruct gone;
      (eexists; split; [reflexivity|]; split_and!; try done; [|lia]);
      intros _; eexists; (split; [simpl; by rewrite <-app_assoc|]);
      (split; [done|simpl; split; [auto|by intros [?|[? ?]]]]).
Qed.


(** ** Witnesses *)

(** The VPN's socket of the examples. *)
Definition toy_vpn : ocp_sock :=
  mk_sock 7 false (Some (mk_event (Some Lwip_data_cb) true)) None STATE_NEW CONN_TYPE_REDIR
    (Some 0%nat) 0 false 0 (replicate 2048 0) 0 None false None 0 0 true.

Definition vpn_world (h : heap Empty_set) : world positive Empty_set := set_pbufs h toy_accepted.

Lemma toy_vpn_at h : live_at (vpn_world h) 1 toy_vpn.
Proof. vm_compute. reflexivity. Qed.
Lemma toy_no_dump h : tcpdump_enabled (w_opts (vpn_world h)) = false.
Proof. vm_compute. reflexivity. Qed.
Lemma toy_vpn_pbufs h : w_pbufs (vpn_world h) = h.
Proof. reflexivity. Qed.
Lemma vpn_hello : chain_at (w_pbufs (vpn_world hello_heap)) (Some 1%positive) hello.
Proof. rewrite toy_vpn_pbufs. apply hello_chain. Qed.
#[local] Abbreviation nodump := (λ _ : option loc, mret () : prog (world positive Empty_set) unit).

Lemma vpn_packet_out_witness :
  ∃ w' x, lwip_data_out (toy_env [] 2048) nodump 1 (Some 1%positive) (vpn_world hello_heap)
      = inr (ERR_OK, w') ∧
    w_trace w' = w_trace (vpn_world hello_heap) ++ [Writev 7 [str "hello "; str "world"] (Some 11); x].
Proof.
  destruct (vpn_packet_out (toy_env [] 2048) nodump 1 1%positive (vpn_world hello_heap)
    toy_vpn hello (toy_vpn_at hello_heap) (toy_no_dump hello_heap) vpn_hello ltac:(cdec))
    as (_ & w' & H1 & _ & _ & _ & _ & H2 & _).
  destruct (H2 ltac:(cdec)) as (x & H3 & _). exists w', x. exact (conj H1 H3).
Defined.

End OcpVpn.
