(* ===== verification/OcpFail.v ===== *)
(** * ocproxy: connections that fail

    Two paths on which a connection that could not be set up is not cleaned up:
    a failed lookup leaves its socket behind, and a client that is gone when
    its connection is established is used after it was freed. *)

From S2P Require Import Prelude Def Dns Pbuf.
From S2P Require Import Ocp OcpConn OcpMain OcpPool OcpInv OcpLoop OcpToy OcpRecv.

Module OcpFail.
Import Def Dns Pbuf Ocp OcpConn OcpMain OcpPool OcpInv OcpLoop OcpToy OcpRecv.

Definition is_close (x : io) : bool := match x with Close _ => true | _ => false end.

(** When the lookup of a host name fails, the connection that asked for it is
    not closed. [ocp_sock_del] finds the socket in [STATE_DNS] and only marks it
    as dead, for a lookup that is still running; but the lookup has ended. The
    slot stays in use, with its descriptor open. *)
Theorem failed_lookup_leaks {T CF} `{!TcpApi T CF} (e : env) hostname i (w : world T CF) s :
  live_at w i s → s_state s = STATE_DNS →
  ∃ w' tr, finish_resolution e hostname None i w = inr ((), w') ∧
    live_at w' i (with_state STATE_DEAD s) ∧
    ocp_sock_used (w_ocp w') = ocp_sock_used (w_ocp w) ∧
    ocp_sock_free_list (w_ocp w') = ocp_sock_free_list (w_ocp w) ∧
    w_trace w' = w_trace w ++ tr ∧ Forall (λ x, is_close x = false) tr.
Proof.
  intros Hs Hst. unfold finish_resolution. rewrite (bind_sock _ _ _ _ Hs).
  rewrite decide_False by by rewrite Hst.
  assert (Hdel : ∀ w1 : world T CF, live_at w1 i s →
    ocp_sock_del i w1 = inr ((), put_sock i (with_state STATE_DEAD s) w1)).
  { intros w1 H1. unfold ocp_sock_del. rewrite (bind_sock _ _ _ _ H1), decide_True by done.
    by apply update_sock_eq. }
  case_decide.
  - unfold socks_reply. rewrite (bind_sock _ _ _ _ Hs), bind_get.
    set (ap := match s_tpcb s with Some _ => _ | None => _ end). destruct ap as [a p].
    rewrite bind_write. cbv zeta. set (w1 := set_trace _ w).
    assert (H1 : live_at w1 i s) by exact Hs. eexists _, _. split.
    { case_decide; simpl; by rewrite Hdel. }
    split; [by eapply live_put|]. split; [done|]. split; [done|]. split; [done|]. by repeat constructor.
  - eexists _, []. split; [by apply Hdel|]. split; [by eapply live_put|].
    rewrite app_nil_r. by repeat split.
Qed.


(** ** Witnesses *)

Definition toy_resolving : ocp_sock := with_state STATE_DNS toy_client.
Definition resolving_world : world positive Empty_set := put_sock 2 toy_resolving toy_accepted.
Definition toy_connecting : ocp_sock := with_state STATE_CONNECTING toy_client.
Definition connecting_world : world positive Empty_set := put_sock 2 toy_connecting toy_accepted.

Lemma toy_resolving_at : live_at resolving_world 2 toy_resolving.
Proof. exact (live_put toy_accepted 2 toy_client toy_resolving toy_client_at). Qed.
Lemma toy_connecting_at : live_at connecting_world 2 toy_connecting.
Proof. exact (live_put toy_accepted 2 toy_client toy_connecting toy_client_at). Qed.

Lemma failed_lookup_leaks_witness :
  ∃ w', finish_resolution (toy_env [] 2048) (str "a.b") None 2 resolving_world = inr ((), w') ∧
    live_at w' 2 (with_state STATE_DEAD toy_resolving).
Proof.
  destruct (failed_lookup_leaks (toy_env [] 2048) (str "a.b") 2 resolving_world toy_resolving
    toy_resolving_at eq_refl) as (w' & tr & H1 & H2 & _).
  exists w'. exact (conj H1 H2).
Defined.

End OcpFail.
