(* ===== verification/OcpListen.v ===== *)
(** * ocproxy: where it listens

    Every address that [main] listens on comes from an option; without [-g] and
    without an address in a [-D] option it is the loopback address. *)

From S2P Require Import Prelude Def Ip4Addr Dns Pbuf Ocp OcpConn OcpMain OcpPool OcpInv OcpLoop OcpToy.

Module OcpListen.
Import Def Ip4Addr Dns Pbuf Ocp OcpConn OcpMain OcpPool OcpInv OcpLoop OcpToy.

Section listen.
Context {T CF : Type} `{!TcpApi T CF} (e : env) `{!TcpLaws T CF e}.
Context (k : stack T CF) (opts : list (Z * bytes)).
Abbreviation world := (world T CF).
Implicit Type w : world.

(** An address that the options allow. *)
Definition allowed (addr : Z) : Prop :=
  addr = lwip_htonl INADDR_LOOPBACK ∨
  addr = lwip_htonl INADDR_ANY ∧ (∃ a, (103, a) ∈ opts) ∨
  ∃ arg a port, (68, arg) ∈ opts ∧ strrchr arg = Some (a, port) ∧ st_inet_aton k a = Some addr.

Definition named (a : bytes) : Prop := ∃ arg port, (68, arg) ∈ opts ∧ strrchr arg = Some (a, port).

Definition listen_inv w : Prop :=
  (allow_remote (w_opts w) = true → ∃ a, (103, a) ∈ opts) ∧
  (∀ i s a, live_at w i s → s_bind_addr s = Some a → named a) ∧
  ∀ addr port, Listen addr port ∈ w_trace w → allowed addr.

Lemma quiet_listen w w' : quiet w w' → listen_inv w → listen_inv w'.
Proof.
  intros (Eo & Ep & _ & _ & _ & tr & Et & Htr) (I1 & I2 & I3). unfold listen_inv, live_at. rewrite Eo, Ep, Et. split; [done|]. split; [done|].
  intros addr port [Hin|Hin]%elem_of_app; [by eapply I3|].
  by apply (proj1 (list.Forall_forall _ _) Htr) in Hin.
Qed.
Lemma listen_quiet {A} (m : prog world A) : keeps quiet m → hoare listen_inv m (λ _, listen_inv).
Proof. intros H. eapply hoare_keeps; [done|]. apply quiet_listen. Qed.

Lemma listen_emit x :
  (∀ addr port, x = Listen addr port → allowed addr) →
  hoare listen_inv (emit x) (λ _, listen_inv).
Proof.
  intros Hx. apply hoare_modify. intros w (I1 & I2 & I3). split; [done|]. split; [done|].
  intros addr port [Hin|Hin%list_elem_of_singleton]%elem_of_app; [by eapply I3|]. by eapply Hx.
Qed.

Lemma listen_modify f :
  (∀ w, w_ocp (f w) = w_ocp w ∧ w_trace (f w) = w_trace w ∧
    (allow_remote (w_opts (f w)) = true → allow_remote (w_opts w) = true ∨ ∃ a, (103, a) ∈ opts)) →
  hoare listen_inv (pmodify f) (λ _, listen_inv).
Proof.
  intros H. apply hoare_modify. intros w (I1 & I2 & I3). destruct (H w) as (Eo & Et & Ha).
  unfold listen_inv, live_at. rewrite Eo, Et. split; [|done]. intros [?|?]%Ha; auto.
Qed.

Lemma listen_update i f :
  (∀ s a, s_bind_addr (f s) = Some a → s_bind_addr s = Some a ∨ named a) →
  hoare listen_inv (update_sock i f) (λ _, listen_inv).
Proof.
  intros Hf. apply hoare_update. intros w s (I1 & I2 & I3) E. split; [done|]. split; [|done].
  intros j sj a Hj Ha. destruct (decide (i = j)) as [->|Hne].
  - unfold live_at in Hj. simpl in Hj.
    rewrite list_lookup_insert_eq in Hj by by eapply lookup_lt_Some. simplify_eq.
    destruct (Hf _ _ Ha); [|done]. by eapply (I2 j s).
  - apply (live_put_ne w i j sj (f s)) in Hj; [|done]. by eapply I2.
Qed.

Lemma listen_dns {A} (m : prog (dns_state dns_cb nat) A) :
  hoare listen_inv (lift m : prog world A) (λ _, listen_inv).
Proof.
  intros w a w' Hi E. unfold lift in E. destruct (m (lget w)) as [|[??]]; [done|].
  by injection E as <- <-.
Qed.

Lemma listen_sock_at i :
  hoare listen_inv (sock_at i) (λ s w, listen_inv w ∧ (∀ a, s_bind_addr s = Some a → named a)).
Proof.
  intros w s w' Hi E. unfold sock_at in E. rewrite bind_get in E.
  destruct (ocp_sock_pool (w_ocp w) !! i) as [[s'|n]|] eqn:El; [|done..].
  injection E as -> <-. split; [done|]. intros a. by apply (proj1 (proj2 Hi)) with i.
Qed.

(** One command of the start-up. *)
Ltac lstep :=
  match goal with
  | |- hoare _ (pget ≫= _) _ => apply hoare_get_any; intros ?
  | |- hoare _ (mret _) _ => by apply hoare_ret
  | |- hoare _ (pfault _) _ => apply hoare_fault
  | |- hoare _ die _ => apply hoare_fault
  | |- hoare _ (sock_at _ ≫= _) _ =>
      eapply hoare_bind; [apply listen_sock_at|intros ?; cbv beta; apply hoare_pure; intros ?]
  | |- hoare _ (pderef _ ≫= _) _ =>
      eapply hoare_bind; [apply hoare_deref|intros ?; cbv beta; apply hoare_pure; intros ?]
  | |- hoare _ (update_sock _ _ ≫= _) _ =>
      eapply hoare_seq; [apply listen_update; solve [auto]|intros ?]
  | |- hoare _ (update_sock _ _) _ => apply listen_update; solve [auto]
  | |- hoare _ (match ?x with _ => _ end) _ => destruct x eqn:?
  end.

(** A connection that is aborted. *)
Lemma listen_sock_del i : hoare listen_inv (ocp_sock_del i) (λ _, listen_inv).
Proof.
  unfold ocp_sock_del. lstep. case_decide; [apply listen_update; by auto|].
  eapply hoare_seq; [by apply listen_emit|]. intros _. eapply hoare_seq.
  { case_match; [|lstep]. do 2 (eapply hoare_seq; [apply listen_quiet; solve_quiet|]; intros ?). lstep. }
  intros _. do 2 lstep. apply hoare_modify. intros w (I1 & I2 & I3). split; [done|]. split; [|done].
  intros j sj ad Hj Had. unfold live_at in Hj. simpl in Hj. destruct (decide (i = j)) as [->|Hne].
  - apply list_lookup_insert_Some in Hj as [(_ & ? & _)|[? _]]; done.
  - rewrite list_lookup_insert_ne in Hj by done. by eapply I2.
Qed.
Lemma listen_reply i rep : hoare listen_inv (socks_reply e i rep) (λ _, listen_inv).
Proof.
  unfold socks_reply, write. do 2 lstep. case_match. eapply hoare_seq.
  - lstep. eapply hoare_seq; [by apply listen_emit|]. intros _. lstep.
  - intros r. cbv zeta. repeat lstep; apply listen_sock_del.
Qed.
Lemma listen_tcp_err arg err : hoare listen_inv (tcp_err_cb e arg err) (λ _, listen_inv).
Proof.
  unfold tcp_err_cb. destruct arg as [i|]; [|lstep]. do 2 lstep.
  case_decide; [apply listen_reply|apply listen_sock_del].
Qed.
Lemma listen_netif_add ip i :
  setup_quiet e k → hoare listen_inv (st_netif_add k ip i) (λ _, listen_inv).
Proof.
  intros (_ & Hadd & _). apply keeps_hoare, Hadd.
  - split; [by intros w|intros w1 w2 w3; by auto].
  - intros w w'. apply quiet_listen.
  - intros. apply keeps_hoare, listen_tcp_err.
Qed.

Lemma listen_sock_new fd cb act d : hoare listen_inv (ocp_sock_new e fd cb act d) (λ _, listen_inv).
Proof.
  unfold ocp_sock_new. apply hoare_get. intros w Hw.
  destruct (ocp_sock_free_list (w_ocp w)) as [i|].
  2:{ destruct d; [apply hoare_fault|]. by apply hoare_ret; intros ? <-. }
  eapply hoare_bind; [apply hoare_deref|]. intros x. cbv beta. apply hoare_pure. intros E.
  apply (hoare_bind _ _ _ (λ _, listen_inv)).
  { apply hoare_modify. intros ? <-. destruct Hw as (I1 & I2 & I3). split; [done|]. split; [|done].
    intros j sj a Hj Ha. unfold live_at in Hj. simpl in Hj. destruct (decide (i = j)) as [->|Hne].
    - rewrite list_lookup_insert_eq in Hj by by eapply lookup_lt_Some. by simplify_eq/=.
    - rewrite list_lookup_insert_ne in Hj by done. by eapply I2. }
  intros _. destruct (fd <? 0); [lstep|]. unfold event_new, event_add.
  eapply hoare_seq; [repeat lstep|]. intros _.
  eapply hoare_seq; [destruct act; repeat lstep|]. intros _. lstep.
Qed.

Lemma listen_atoi s : hoare listen_inv (ocp_atoi s) (λ _, listen_inv).
Proof. unfold ocp_atoi. repeat lstep. Qed.

Lemma listen_new_listener port : hoare listen_inv (new_listener e port) (λ _, listen_inv).
Proof.
  unfold new_listener. eapply hoare_seq; [apply listen_sock_new|]. intros r. repeat lstep.
Qed.

Lemma listen_fwd_add opt : hoare listen_inv (fwd_add e opt) (λ _, listen_inv).
Proof.
  unfold fwd_add. destruct (strsep opt) as [p [str|]]; [|lstep].
  eapply hoare_seq; [apply listen_atoi|]. intros lport.
  destruct (strsep str) as [q [str'|]]; [|lstep].
  eapply hoare_seq; [apply listen_new_listener|]. intros i.
  eapply hoare_seq; [apply listen_atoi|]. intros rport. repeat lstep.
Qed.

Lemma listen_dyn_fwd arg : (68, arg) ∈ opts → hoare listen_inv (dyn_fwd e arg) (λ _, listen_inv).
Proof.
  intros Harg. unfold dyn_fwd. eapply hoare_seq; [|intros i; repeat lstep].
  destruct (strrchr arg) as [[addr port]|] eqn:E.
  - eapply hoare_seq; [apply listen_atoi|]. intros lport.
    eapply hoare_seq; [apply listen_new_listener|]. intros i.
    eapply hoare_seq; [|intros _; lstep].
    apply listen_update. intros s a [= <-]. right. by exists arg, port.
  - eapply hoare_seq; [apply listen_atoi|]. intros lport. apply listen_new_listener.
Qed.

(** The options are those that the loop has read before, or [-g]. *)
Lemma listen_set_opts o {A} (v : A) :
  (allow_remote o = true → ∃ a, (103, a) ∈ opts) →
  hoare listen_inv (pmodify (set_opts o) ;; mret v) (λ _, listen_inv).
Proof. intros H. eapply hoare_seq; [|intros _; lstep]. apply listen_modify. intros w. auto. Qed.

Lemma listen_main_option opt optarg v :
  (opt, optarg) ∈ opts → hoare listen_inv (main_option e opt optarg v) (λ _, listen_inv).
Proof.
  intros Hopt. unfold main_option, set_dns_domain. apply hoare_get. intros w Hw. cbv zeta.
  apply (hoare_conseq _ listen_inv _ _ (λ _, listen_inv)); [|by intros ? <-|done].
  pose proof (proj1 Hw) as Ha.
  do 3 (case_match; [lstep|]).
  case_match; [eapply hoare_seq; [apply listen_modify; by auto|intros _; lstep]|].
  case_match.
  { eapply hoare_seq; [apply listen_dyn_fwd|intros _; lstep].
    replace 68 with opt by lia. done. }
  case_match; [eapply hoare_seq; [apply listen_atoi|intros n; by apply listen_set_opts]|].
  case_match.
  { apply listen_set_opts. intros _. exists optarg. replace 103 with opt by lia. done. }
  case_match; [eapply hoare_seq; [apply listen_fwd_add|intros _; lstep]|].
  do 2 (case_match; [by apply listen_set_opts|]). lstep.
Qed.

Lemma listen_main_options l v :
  l ⊆ opts → hoare listen_inv (main_options e l v) (λ _, listen_inv).
Proof.
  revert v. induction l as [|[opt arg] l IH]; intros v Hl; simpl; [lstep|].
  eapply hoare_seq; [apply listen_main_option; set_solver|]. intros v'. apply IH. set_solver.
Qed.

(** The address of one listener. *)
Lemma listen_addr w (s : ocp_sock) :
  listen_inv w → (∀ a, s_bind_addr s = Some a → named a) →
  hoare listen_inv
    match s_bind_addr s with
    | Some a => match st_inet_aton k a with Some ip => mret ip | None => die end
    | None => mret (lwip_htonl (if allow_remote (w_opts w) then INADDR_ANY else INADDR_LOOPBACK))
    end (λ addr w, listen_inv w ∧ allowed addr).
Proof.
  intros Hw Hs. destruct (s_bind_addr s) as [a|].
  - destruct (st_inet_aton k a) as [ip|] eqn:E; [|lstep]. apply hoare_ret. intros w' Hw'.
    split; [done|]. destruct (Hs a eq_refl) as (arg & port & ? & ?). right; right. by exists arg, a, port.
  - apply hoare_ret. intros w' Hw'. split; [done|]. destruct (allow_remote (w_opts w)) eqn:E.
    + right; left. split; [done|]. by apply Hw.
    + by left.
Qed.

Lemma listen_bind_loop fuel p :
  hoare listen_inv (bind_loop e (st_inet_aton k) fuel p) (λ _, listen_inv).
Proof.
  revert p. induction fuel as [|fuel IH]; intros [i|]; simpl; try by lstep.
  lstep. eapply hoare_seq; [|intros _; lstep; apply IH]. case_match; [|lstep].
  eapply hoare_seq; [repeat lstep|]. intros _. apply hoare_get. intros w Hw.
  apply (hoare_conseq _ listen_inv _ _ (λ _, listen_inv)); [|by intros ? <-|done].
  eapply hoare_bind; [by apply listen_addr|]. intros addr. cbv beta. apply hoare_pure. intros Haddr.
  eapply hoare_seq; [apply listen_emit; by intros ? ? [= <- <-]|]. intros _. repeat lstep.
Qed.

Lemma listen_periodic cb ms : hoare listen_inv (new_periodic_event e cb ms) (λ _, listen_inv).
Proof.
  unfold new_periodic_event. apply hoare_get_any. intros w.
  case_match; [by apply listen_emit|apply hoare_fault].
Qed.

Lemma listen_main st :
  getopt st = opts → setup_quiet e k →
  hoare (λ w, w_trace w = [] ∧ allow_remote (w_opts w) = false) (run_main e k st)
    (λ _, listen_inv).
Proof.
  intros Ho Hq. pose proof Hq as (Hi & _ & Hmtu & Hup & _ & Hdump). unfold run_main, main.
  apply (hoare_bind _ _ _ (λ _, listen_inv)).
  { apply hoare_modify. intros w [Et Ha]. unfold listen_inv. simpl. rewrite Et, Ha.
    split; [done|]. split; [|intros ? ? []%not_elem_of_nil]. intros i s a Hl _.
    unfold live_at in Hl. simpl in Hl. unfold initial_pool in Hl.
    apply list_elem_of_lookup_2, elem_of_app in Hl.
    destruct Hl as [(? & ? & _)%list_elem_of_fmap|?%list_elem_of_singleton]; done. }
  intros _. eapply hoare_seq; [by repeat lstep|]. intros _.
  eapply hoare_seq; [by repeat lstep|]. intros str.
  eapply hoare_seq; [apply listen_atoi|]. intros vpnfd.
  eapply hoare_seq; [apply listen_modify; by auto|]. intros _.
  eapply hoare_seq; [apply listen_main_options; by rewrite Ho|]. intros v.
  do 2 (case_match; [|apply hoare_fault]).
  eapply hoare_seq; [by repeat lstep|]. intros ip.
  eapply hoare_seq; [apply listen_sock_new|]. intros r. do 2 lstep.
  eapply hoare_seq; [by apply listen_quiet|]. intros _.
  eapply hoare_seq; [apply listen_dns|]. intros _.
  eapply hoare_seq; [case_match; [|lstep];
    eapply hoare_seq; [by repeat lstep|intros ?; apply listen_dns]|]. intros _.
  eapply hoare_seq; [by apply listen_netif_add|]. intros _.
  eapply hoare_seq; [apply listen_atoi|]. intros mtu.
  do 2 (eapply hoare_seq; [by apply listen_quiet|]; intros _).
  eapply hoare_seq; [unfold bind_all_listeners; lstep; apply listen_bind_loop|]. intros _. lstep.
  eapply hoare_seq; [case_match; [by apply listen_quiet|lstep]|]. intros _.
  do 3 (eapply hoare_seq; [apply listen_periodic|]; intros _). lstep.
Qed.
End listen.

(** When [main] gets to the event loop, every address it listens on is the
    loopback address, unless [-g] was given (then it may be [INADDR_ANY]) or a
    [-D addr:port] option named it: without these the proxy is not reachable
    from other hosts. *)
Theorem main_listens_on_loopback {T CF} `{!TcpApi T CF} e `{!TcpLaws T CF e}
    (k : stack T CF) st t r w addr port :
  setup_quiet e k → run_main e k st (boot t) = inr (r, w) → Listen addr port ∈ w_trace w →
  addr = lwip_htonl INADDR_LOOPBACK ∨
  addr = lwip_htonl INADDR_ANY ∧ (∃ a, (103, a) ∈ getopt st) ∨
  ∃ arg a p, (68, arg) ∈ getopt st ∧ strrchr arg = Some (a, p) ∧ st_inet_aton k a = Some addr.
Proof.
  intros Hq E Hin. destruct (listen_main e k (getopt st) st eq_refl Hq (boot t) r w) as (_ & _ & H);
    [done|done|]. exact (H addr port Hin).
Qed.

Lemma toy_listens : Listen (lwip_htonl INADDR_LOOPBACK) (lwip_htons 1080) ∈ w_trace toy_started.
Proof. refine (list_elem_of_lookup_2 _ 0 _ _). vm_compute. reflexivity. Qed.

Lemma main_listens_on_loopback_witness :
  ∃ addr, Listen addr (lwip_htons 1080) ∈ w_trace toy_started ∧
  (addr = lwip_htonl INADDR_LOOPBACK ∨
   addr = lwip_htonl INADDR_ANY ∧ (∃ a, (103, a) ∈ getopt toy_startup) ∨
   ∃ arg a p, (68, arg) ∈ getopt toy_startup ∧ strrchr arg = Some (a, p) ∧
     st_inet_aton toy_stack a = Some addr).
Proof.
  exists (lwip_htonl INADDR_LOOPBACK). split; [exact toy_listens|].
  exact (main_listens_on_loopback (toy_env greeting 2048) toy_stack toy_startup 1%positive
    (7, 1%nat) toy_started _ _ (toy_setup_quiet _) toy_started_eq toy_listens).
Defined.
End OcpListen.
