(* ===== verification/Lwip.v ===== *)
(** * The program as a whole

    ocproxy with the lwIP that it is linked with.  [OcpConn] and [OcpMain] use
    the TCP/IP stack through an interface; here the interface is implemented by
    the models of the stack: packets that [lwip_data_cb] reads go through
    [ip_input], reassembly, UDP, ICMP and TCP, whose callbacks are those of
    ocproxy and of its resolver, and what the stack sends is written to the
    VPN by [lwip_data_out].

    The functions of lwIP run in [Stack.stack], those of ocproxy in
    [Ocp.world].  The two are views of one state: [to_stack] and [of_stack]
    go from one to the other, [in_stack] and [in_world] run a command of one
    side on the other.

    Parameters are what is outside the program: the kernel ([env]), the
    amount of memory, the contents of fresh memory, and the packet dump. *)

From S2P Require Import Prelude RecordSet Def Ip4Addr InetChksum Netif Udp Pbuf Stack Ip4 Icmp UdpIo.
From S2P Require Import Ip4Input IpReass IpFrag Timers Dns Tcp TcpOut TcpCore TcpIn NetifTcp.
From S2P Require Import Ocp OcpConn OcpMain OcpLoop.

Module Lwip.
Import RecordSet Def Ip4Addr InetChksum Netif Udp Pbuf Stack Ip4 Icmp UdpIo Ip4Input IpReass IpFrag.
Import Timers Dns Tcp TcpOut TcpCore TcpIn NetifTcp.
Import Ocp.

(** ** The state *)

(** The only function that UDP calls is [dns_recv]; no pbuf but those of
    [ip_frag] is custom. *)
Inductive udp_fn := Dns_recv.
Abbreviation CF := (custom_fn Empty_set).

Record lwip := mk_lwip {
  lw_netifs : netif_state;
  lw_udp : udp_state udp_fn unit;
  lw_ip_id : Z;
  lw_ip_data : ip_globals;
  lw_reass : reass_state;
  lw_timers : timers Empty_set;
  lw_tcp : tcp_vars;
  lw_netif_state : nat;             (** [netif.state]: the socket of the VPN *)
  lw_dns_pcb : option pcb_loc;
  lw_queries : nat                  (** how many of [dns_sent] have been sent *)
}.
#[export] Instance eta_lwip : Eta lwip := λ l, mk_lwip (lw_netifs l) (lw_udp l) (lw_ip_id l)
  (lw_ip_data l) (lw_reass l) (lw_timers l) (lw_tcp l) (lw_netif_state l) (lw_dns_pcb l) (lw_queries l).

Abbreviation world := (Ocp.world lwip CF).
Abbreviation stack := (Stack.stack CF udp_fn unit world).

(** The functions of lwIP see the whole world as the rest of their state;
    the parts that have a place of their own are taken from there. *)
Definition to_stack (w : world) : stack :=
  let l := w_tcp w in
  mk_stack (w_pbufs w) (lw_netifs l) (lw_udp l) (lw_ip_id l) (lw_ip_data l) w.
Definition of_stack (s : stack) : world :=
  let w := st_rest s in
  Ocp.set_pbufs (st_pbufs s) (set_tcp ((w_tcp w) <|lw_netifs := st_netifs s|>
    <|lw_udp := st_udp s|> <|lw_ip_id := st_ip_id s|> <|lw_ip_data := st_ip_data s|>) w).

Lemma of_to_stack w : of_stack (to_stack w) = w.
Proof. by destruct w as [? ? ? ? ? ? ? [] ?]. Qed.

Definition in_world {B} (m : prog stack B) : prog world B := λ w,
  match m (to_stack w) with inl f => inl f | inr (a, s) => inr (a, of_stack s) end.
Definition in_stack {B} (m : prog world B) : prog stack B := λ s,
  match m (of_stack s) with inl f => inl f | inr (a, w) => inr (a, to_stack w) end.

Definition lwip_modify (f : lwip → lwip) (w : world) : world := set_tcp (f (w_tcp w)) w.

#[export] Instance world_lens_tcp : Lens world tcp_vars.
Proof.
  refine {| lget w := lw_tcp (w_tcp w); lput v := lwip_modify (λ l, l <|lw_tcp := v|>) |};
    [done..|by intros [? ? ? ? ? ? ? [] ?]].
Defined.
#[export] Instance world_lens_reass : Lens world reass_state.
Proof.
  refine {| lget w := lw_reass (w_tcp w); lput v := lwip_modify (λ l, l <|lw_reass := v|>) |};
    [done..|by intros [? ? ? ? ? ? ? [] ?]].
Defined.
#[export] Instance world_lens_timers : Lens world (timers Empty_set).
Proof.
  refine {| lget w := lw_timers (w_tcp w); lput v := lwip_modify (λ l, l <|lw_timers := v|>) |};
    [done..|by intros [? ? ? ? ? ? ? [] ?]].
Defined.

(** A pointer to a socket of the pool as the [void *] that TCP keeps. *)
Definition arg_enc (a : option nat) : Z := match a with None => 0 | Some i => Z.of_nat i + 1 end.
Definition arg_dec (z : Z) : option nat := if z =? 0 then None else Some (Z.to_nat (z - 1)).
(** The functions that ocproxy registers. *)
Definition fn_if (k : positive) (b : bool) : option fn := if b then Some (App k) else None.

Definition VPN_NETIF : netif_loc := 1%positive.

Section lwip.
Context (e : env) (mem_avail : heap CF → Z → bool) (garbage : heap CF → nat → Z).
Context (seg_avail pcb_avail reass_avail timeout_avail : stack → bool) (udp_new_ok : bool).
Context (tcpdump : option loc → prog world unit).
(** The timer of TCP starts over when a callback has changed the list of
    connections; [tmr_fuel] is how often. *)
Context (tmr_fuel : nat).

(** A fragment refers to a packet, which is not custom itself. *)
Definition custom_free : CF → loc → prog (heap CF) unit :=
  frag_custom_free (λ (f : Empty_set) _, match f with end) 2.

(** ** Sending *)

Definition output : netif_loc → loc → Z → prog stack err_t := λ _ p _,
  s ← pget;
  in_stack (OcpMain.lwip_data_out e tcpdump (lw_netif_state (w_tcp (st_rest s))) (Some p)).
Definition frag : netif_loc → loc → Z → prog stack err_t :=
  ip_frag custom_free mem_avail garbage output.

(** [tcp_timer_needed] of [timers.c]. *)
Definition tcp_busy (s : stack) : bool :=
  let v := lget (D := tcp_vars) (st_rest s) in
  bool_decide (tcp_active_pcbs v ≠ None) || bool_decide (tcp_tw_pcbs v ≠ None).
Definition timer_needed : prog stack unit := tcp_timer_needed timeout_avail tcp_busy.

(** The end of [dns_send]: the packet is put into a pbuf and sent. *)
Definition dns_output (server : Z) (packet : bytes) : prog stack unit :=
  p ← lift (pbuf_alloc custom_free mem_avail garbage PBUF_TRANSPORT
              (SIZEOF_DNS_HDR + DNS_MAX_NAME_LENGTH + 1 + SIZEOF_DNS_QUERY) PBUF_RAM);
  match p with
  | None => mret ()
  | Some p =>
      b ← lift (deref p);
      passert (bool_decide (p_next b = None));;
      lift (pwrite p 0 packet);;
      passert (u16 (zlen packet) <=? p_tot_len b);;
      lift (pbuf_realloc custom_free (Some p) (u16 (zlen packet)));;
      s ← pget;
      pcb ← pderef (lw_dns_pcb (w_tcp (st_rest s)));
      lift (udp_connect pcb server DNS_SERVER_PORT);;
      udp_sendto custom_free mem_avail garbage output frag pcb p server DNS_SERVER_PORT;;
      pfree custom_free p
  end.
Fixpoint dns_outputs (l : list (Z * bytes)) : prog stack unit :=
  match l with
  | [] => mret ()
  | (server, packet) :: l' => dns_output server packet;; dns_outputs l'
  end.
(** The queries that have not been sent yet.  They are sent when the resolver
    returns to ocproxy or calls it: sending does not use or change the table,
    and its result is only logged. *)
Definition dns_transmit : prog stack unit :=
  s ← pget;
  let sent := dns_sent (w_dns (st_rest s)) in
  pmodify (λ s, set_rest (lwip_modify (λ l, l <|lw_queries := length sent|>) (st_rest s)) s);;
  dns_outputs (drop (lw_queries (w_tcp (st_rest s))) sent).

(** ** The interface of TCP *)

Definition block (l : lwip) (t : tloc) : option tcp_pcb := tcp_structs (lw_tcp l) !! t.

(** [new] is [tcp_new], which runs an error callback that uses the rest. *)
Definition api (new : prog world (option tloc)) : OcpConn.TcpApi lwip CF := {|
  OcpConn.tcp_new := new;
  OcpConn.tcp_arg t a := in_world (lift (tcp_arg t (arg_enc a)));
  OcpConn.tcp_recv t b := in_world (lift (tcp_recv t (fn_if 1 b)));
  OcpConn.tcp_sent t b := in_world (lift (tcp_sent t (fn_if 2 b)));
  OcpConn.tcp_err t b := in_world (lift (tcp_err t (fn_if 3 b)));
  OcpConn.tcp_nagle_disable t :=
    in_world (lift (tupdate t (λ b, b <|t_flags ::= Z.lor TF_NODELAY|>)));
  OcpConn.tcp_keepalive t intvl :=
    in_world (lift (tupdate t (λ b, b <|t_so_options ::= Z.lor SOF_KEEPALIVE|>
                                      <|t_keep_intvl := intvl|> <|t_keep_idle := intvl|>)));
  OcpConn.tcp_connect t ip port :=
    in_world (tcp_connect custom_free mem_avail garbage output frag seg_avail timer_needed
                t (Some ip) port (fn_if 4 true));
  OcpConn.tcp_close t :=
    in_world (tcp_close custom_free mem_avail garbage output frag seg_avail timer_needed t);
  OcpConn.tcp_write t d :=
    in_world (tcp_write custom_free mem_avail garbage seg_avail t (Some d) (zlen d)
                TCP_WRITE_FLAG_COPY);
  OcpConn.tcp_output t :=
    in_world (tcp_output custom_free mem_avail garbage output frag t;; mret ());
  OcpConn.tcp_recved t n := in_world (tcp_recved custom_free mem_avail garbage output frag t n);
  OcpConn.tcp_sndbuf l t := from_option t_snd_buf 0 (block l t);
  OcpConn.tcp_sndqueuelen l t := from_option t_snd_queuelen 0 (block l t);
  OcpConn.tcp_local_ip l t := from_option t_local_ip 0 (block l t);
  OcpConn.tcp_local_port l t := from_option t_local_port 0 (block l t);
  OcpConn.dns_transmit := in_world dns_transmit
|}.

(** What the callbacks do.  [accept] and [poll] are never set. *)
Definition call_app (a : OcpConn.TcpApi lwip CF) (c : app_call) : prog stack err_t :=
  match c with
  | CallRecv _ arg pcb p _ => in_stack (OcpConn.recv_cb e custom_free (arg_dec arg) pcb p)
  | CallSent _ arg pcb len => in_stack (OcpConn.sent_cb (arg_dec arg) pcb len)
  | CallConnected _ arg pcb err =>
      i ← pderef (arg_dec arg); in_stack (OcpConn.connect_cb e i pcb err)
  | CallErr _ arg err => in_stack (OcpConn.tcp_err_cb e (arg_dec arg) err);; mret ERR_OK
  | CallAccept _ _ _ _ | CallPoll _ _ _ => pfault Wild
  end.

(** The error callback does not call [tcp_new]. *)
Definition call_err : app_call → prog stack err_t := call_app (api (pfault Hang)).
Definition new : prog world (option tloc) :=
  in_world (tcp_new custom_free mem_avail garbage output frag pcb_avail call_err).
#[local] Instance lwip_api : OcpConn.TcpApi lwip CF := api new.

(** ** Receiving *)

Definition dns_pbuf_avail : dns_state dns_cb nat → bool := λ _, true.

(** [dns_recv]: the message is copied from its pbufs, which are freed at the
    end.  The bounds of its length are checked in [Dns.dns_recv]. *)
Definition recv_call : udp_fn → option unit → pcb_loc → loc → Z → Z → prog stack unit :=
  λ f _ _ p _ _,
  match f with
  | Dns_recv =>
      b ← lift (deref p);
      r ← lift (pbuf_copy_partial (Some p) (p_tot_len b) 0);
      (if fst r =? p_tot_len b
       then in_stack (dns_recv (OcpConn.dns_found e dns_pbuf_avail) (snd r)) else mret ());;
      pfree custom_free p
  end.

Definition reass : loc → prog stack (option loc) :=
  ip_reass custom_free mem_avail garbage output frag reass_avail.
Definition input_tcp : loc → netif_loc → prog stack unit :=
  tcp_input custom_free mem_avail garbage output frag seg_avail pcb_avail timer_needed
    (call_app lwip_api).
Definition input : loc → netif_loc → prog stack unit :=
  ip_input custom_free mem_avail garbage output frag recv_call reass input_tcp.

(** ** Setting up *)

(** [lwip_init], with the control block that [dns_init] makes; its second call,
    by [main], finds the block there, or fails again. The other modules have
    nothing to do: their variables start as zero. *)
Definition lwip_init : prog stack unit :=
  p ← lift (udp_new (λ _, udp_new_ok));
  match p with
  | None => mret ()
  | Some pcb =>
      pmodify (λ s, set_rest (lwip_modify (λ l, l <|lw_dns_pcb := Some pcb|>) (st_rest s)) s);;
      lift (udp_bind pcb IPADDR_ANY 0);;
      lift (udp_recv pcb (Some Dns_recv) None)
  end;;
  sys_timeouts_init timeout_avail.

Definition add_netif (ip : Z) (i : nat) : prog stack unit :=
  pmodify (λ s, set_rest (lwip_modify (λ l, l <|lw_netif_state := i|>) (st_rest s)) s);;
  netif_add (tcp_addr_changed custom_free mem_avail garbage output frag (call_app lwip_api))
    VPN_NETIF (Some ip) (Some 0) (Some 0) init_oc_netif;;
  mret ().

Context (tcpdump_init : prog world unit) (inet_aton : bytes → option Z) (event_base_new_ok : bool).

(** What ocproxy is linked with. *)
Definition linked : OcpLoop.stack lwip CF := {|
  OcpLoop.st_custom_free := custom_free;
  OcpLoop.st_mem_avail := mem_avail;
  OcpLoop.st_garbage := garbage;
  OcpLoop.st_dns_pbuf_avail := dns_pbuf_avail;
  OcpLoop.st_ip_input p := in_world (input p VPN_NETIF);
  OcpLoop.st_tcp_tmr :=
    in_world (tcp_tmr custom_free mem_avail garbage output frag seg_avail timer_needed
                (call_app lwip_api) tmr_fuel);
  OcpLoop.st_lwip_init := in_world lwip_init;
  OcpLoop.st_netif_add ip i := in_world (add_netif ip i);
  OcpLoop.st_netif_set_mtu n := in_world (lift (nupdate VPN_NETIF (set_mtu n)));
  OcpLoop.st_netif_up :=
    in_world (lift (netif_set_default (Some VPN_NETIF));; lift (netif_set_up VPN_NETIF));
  OcpLoop.st_udp_new_ok := udp_new_ok;
  OcpLoop.st_event_base_new_ok := event_base_new_ok;
  OcpLoop.st_tcpdump := tcpdump;
  OcpLoop.st_tcpdump_init := tcpdump_init;
  OcpLoop.st_inet_aton := inet_aton
|}.

End lwip.

(** Static storage, with the interface cleared by [memset]. *)
Definition lwip_boot : lwip :=
  mk_lwip (mk_netif_state {[VPN_NETIF := mk_netif 0 0 0 0 0 [0; 0] 0]} [] None 0) udp_init 0
    (mk_ip_globals None None 0 0 0) (mk_reass_state ∅ None 0) (mk_timers [] 0) tcp_vars_init
    0 None 0.

End Lwip.
