(* ===== verification/LwipLaws.v ===== *)
(** * The stack keeps its promises to ocproxy

    The laws that the theorems on ocproxy ask of the TCP/IP stack hold of the
    stack of [Lwip]: the operations that ocproxy calls do nothing to it, and
    packets and timers do to it only what its callbacks do.  So the theorems
    hold of the program as a whole. *)

From S2P Require Import Prelude RecordSet Def Ip4Addr InetChksum Netif Udp Pbuf Stack Ip4 Icmp UdpIo.
From S2P Require Import Ip4Input IpReass IpFrag StackKeeps Timers Dns Tcp TcpOut TcpCore TcpIn.
From S2P Require Import TcpKeeps NetifTcp Ocp OcpConn OcpMain OcpPool OcpInv OcpLoop OcpToy Lwip.

Module LwipLaws.
Import OcpInv.
Import RecordSet Def Ip4Addr Netif Udp Pbuf Stack Ip4 StackKeeps TcpKeeps NetifTcp Timers Dns Tcp.
Import TcpCore Ocp Lwip.

(** ** Relations on the two views of the state *)

Definition on_world (R : relation world) : relation stack := λ s s', R (of_stack s) (of_stack s').

Lemma keeps_in_world {B} (R : relation world) (m : prog stack B) :
  keeps (on_world R) m → keeps R (in_world m).
Proof.
  intros H w a w' E. unfold in_world in E. destruct (m _) as [|[b s]] eqn:Em; simplify_eq.
  specialize (H _ _ _ Em). unfold on_world in H. by rewrite of_to_stack in H.
Qed.
Lemma keeps_in_stack {B} (R : relation world) (m : prog world B) :
  keeps R m → keeps (on_world R) (in_stack m).
Proof.
  intros H s a s' E. unfold in_stack in E. destruct (m _) as [|[b w]] eqn:Em; simplify_eq.
  unfold on_world. rewrite of_to_stack. by eapply H.
Qed.

Lemma quiet_tcp (w w' : world) :
  Ocp.set_pbufs (w_pbufs w) (set_tcp (w_tcp w) w') = w → quiet w w'.
Proof.
  intros E. rewrite <-E. repeat split. exists []. by rewrite app_nil_r.
Qed.

(** ** Sending to the VPN *)

Section quiet.
Context {T CF : Type}.

Lemma quiet_emit x : OcpInv.outgoing x = true → keeps quiet (emit (T:=T) (CF:=CF) x).
Proof.
  intros H. apply keeps_modify. intros w. repeat split. exists [x]. split; [done|]. by constructor.
Qed.
Lemma quiet_lift_pbufs {B} (m : prog (heap CF) B) : keeps (quiet (T:=T)) (lift m).
Proof.
  apply keeps_lift. intros h w. repeat split. exists []. by rewrite app_nil_r.
Qed.
Lemma quiet_conn_down : keeps quiet (OcpMain.vpn_conn_down (T:=T) (CF:=CF)).
Proof.
  unfold OcpMain.vpn_conn_down. keeps; [by apply quiet_emit|]. apply keeps_modify.
  intros w. repeat split. exists []. by rewrite app_nil_r.
Qed.

Lemma quiet_data_out e (tcpdump : option loc → prog (Ocp.world T CF) unit) i p :
  (∀ p, keeps quiet (tcpdump p)) →
  keeps quiet (OcpMain.lwip_data_out e tcpdump i p).
Proof.
  intros Hd. unfold OcpMain.lwip_data_out, warn, sock_at.
  repeat (keeps; try first [apply quiet_lift_pbufs | by apply quiet_emit | apply quiet_conn_down]).
Qed.
End quiet.

Section laws.
Context (R : relation world) `{!PreOrder R} (R_quiet : ∀ w w', quiet w w' → R w w').

#[local] Instance closed_on_world : Closed (on_world R).
Proof.
  split; [split|..]; unfold on_world.
  - by intros s.
  - intros s1 s2 s3. by etransitivity.
  - intros. by apply R_quiet, quiet_tcp.
  - intros. by apply R_quiet, quiet_tcp.
  - intros. by apply R_quiet, quiet_tcp.
  - intros. by apply R_quiet, quiet_tcp.
  - intros. by apply R_quiet, quiet_tcp.
Qed.

Lemma on_tcp : closed_in tcp_vars (on_world R).
Proof. intros d s. by apply R_quiet, quiet_tcp. Qed.
Lemma on_reass : closed_in IpReass.reass_state (on_world R).
Proof. intros d s. by apply R_quiet, quiet_tcp. Qed.
Lemma on_timers : closed_in (timers Empty_set) (on_world R).
Proof. intros d s. by apply R_quiet, quiet_tcp. Qed.
Lemma on_lwip f : keeps (on_world R) (pmodify (λ s, set_rest (lwip_modify (f s) (st_rest s)) s)).
Proof. apply keeps_modify. intros s. by apply R_quiet, quiet_tcp. Qed.

Context (e : env) (mem_avail : heap CF → Z → bool) (garbage : heap CF → nat → Z).
Context (seg_avail pcb_avail reass_avail timeout_avail : stack → bool) (udp_new_ok : bool).
Context (tcpdump : option loc → prog world unit) (Hdump : ∀ p, keeps quiet (tcpdump p)).

Lemma on_output n p d : keeps (on_world R) (output e tcpdump n p d).
Proof.
  unfold output. keeps. apply keeps_in_stack. intros w b w' E.
  apply R_quiet. by eapply quiet_data_out.
Qed.
#[local] Hint Resolve on_tcp on_reass on_timers on_lwip on_output : keeps.
Lemma on_frag n p d : keeps (on_world R) (frag e mem_avail garbage tcpdump n p d).
Proof. unfold frag. apply closed_ip_frag; [apply _|apply on_output]. Qed.
Lemma on_timer_needed : keeps (on_world R) (timer_needed timeout_avail).
Proof. unfold timer_needed, Timers.tcp_timer_needed, Timers.sys_timeout. keeps. Qed.
#[local] Hint Resolve on_frag on_timer_needed closed_pfree closed_udp_sendto : keeps.
Lemma on_dns_outputs l : keeps (on_world R) (dns_outputs e mem_avail garbage tcpdump l).
Proof. induction l as [|[server packet] l IH]; cbn [dns_outputs]; unfold dns_output; keeps. Qed.
#[local] Hint Resolve on_dns_outputs : keeps.
Lemma on_dns_transmit : keeps (on_world R) (dns_transmit e mem_avail garbage tcpdump).
Proof. unfold dns_transmit. keeps. Qed.

(** ** The callbacks *)

Abbreviation lwip_api := (lwip_api e mem_avail garbage seg_avail pcb_avail timeout_avail tcpdump).

Section err.
Context (R_err : ∀ arg err, keeps R (OcpConn.tcp_err_cb (TcpApi0 := lwip_api) e arg err)).

Lemma on_call_err k arg err :
  keeps (on_world R) (call_err e mem_avail garbage seg_avail timeout_avail tcpdump (CallErr k arg err)).
Proof. unfold call_err, call_app. keeps. apply keeps_in_stack. apply (R_err (arg_dec arg) err). Qed.
Lemma on_new : keeps R (new e mem_avail garbage seg_avail pcb_avail timeout_avail tcpdump).
Proof.
  apply keeps_in_world, closed_tcp_new; auto using on_call_err with keeps typeclass_instances.
Qed.
End err.

Section calls.
Context (R_recv : ∀ ctx t p, keeps R (OcpConn.recv_cb (TcpApi0 := lwip_api) e custom_free ctx t p)).
Context (R_sent : ∀ ctx t n, keeps R (OcpConn.sent_cb (T := lwip) (CF := CF) ctx t n)).
Context (R_connect : ∀ i t err, keeps R (OcpConn.connect_cb (TcpApi0 := lwip_api) e i t err)).
Context (R_err : ∀ arg err, keeps R (OcpConn.tcp_err_cb (TcpApi0 := lwip_api) e arg err)).
Context (R_dns : ∀ d, keeps R (dns_recv (OcpConn.dns_found (TcpApi0 := lwip_api) e dns_pbuf_avail) d)).

Lemma on_call_app c : keeps (on_world R) (call_app e lwip_api c).
Proof. destruct c; unfold call_app; keeps; by apply keeps_in_stack. Qed.
Lemma on_recv_call f a pcb p addr port :
  keeps (on_world R)
    (recv_call e mem_avail garbage seg_avail pcb_avail timeout_avail tcpdump f a pcb p addr port).
Proof. destruct f. unfold recv_call. keeps. by apply keeps_in_stack. Qed.
#[local] Hint Resolve on_call_app on_recv_call : keeps.

Lemma on_input p n :
  keeps (on_world R)
    (input e mem_avail garbage seg_avail pcb_avail reass_avail timeout_avail tcpdump p n).
Proof.
  unfold input. apply closed_ip_input; [apply _|..]; intros; try by auto 2 with keeps.
  - unfold reass. apply closed_ip_reass; auto 2 with keeps; apply _.
  - unfold input_tcp. apply closed_tcp_input; auto 2 with keeps; apply _.
Qed.
Lemma on_tcp_tmr fuel :
  keeps (on_world R)
    (tcp_tmr custom_free mem_avail garbage (output e tcpdump) (frag e mem_avail garbage tcpdump)
       seg_avail (timer_needed timeout_avail) (call_app e lwip_api) fuel).
Proof. apply closed_tcp_tmr; auto 2 with keeps; apply _. Qed.
End calls.
End laws.

(** ** The laws *)

Tactic Notation "law" uconstr(H) := apply H; first [done | apply _].

Section program.
Context (e : env) (mem_avail : heap CF → Z → bool) (garbage : heap CF → nat → Z).
Context (seg_avail pcb_avail reass_avail timeout_avail : stack → bool) (udp_new_ok : bool).
Context (tcpdump : option loc → prog world unit) (Hdump : ∀ p, keeps quiet (tcpdump p)).
Context (tmr_fuel : nat).
Context (tcpdump_init : prog world unit) (Hinit : keeps quiet tcpdump_init).
Context (inet_aton : bytes → option Z) (event_base_new_ok : bool).

Abbreviation lwip_api := (lwip_api e mem_avail garbage seg_avail pcb_avail timeout_avail tcpdump).
Abbreviation linked := (linked e mem_avail garbage seg_avail pcb_avail reass_avail timeout_avail
  udp_new_ok tcpdump tmr_fuel tcpdump_init inet_aton event_base_new_ok).
#[local] Existing Instance Lwip.lwip_api.

Let quiet_quiet (w w' : world) : quiet w w' → quiet w w'.
Proof. done. Qed.
Let quiet_output n p d : keeps (on_world quiet) (output e tcpdump n p d).
Proof. law on_output. Qed.
Let quiet_frag n p d : keeps (on_world quiet) (frag e mem_avail garbage tcpdump n p d).
Proof. law on_frag. Qed.
Let quiet_timer : keeps (on_world quiet) (timer_needed timeout_avail).
Proof. law on_timer_needed. Qed.
Let quiet_vars : closed_in tcp_vars (on_world quiet).
Proof. law on_tcp. Qed.
#[local] Instance closed_quiet : Closed (on_world quiet).
Proof. apply closed_on_world; [apply _|done]. Qed.

#[local] Instance lwip_tcp_laws : TcpLaws (TcpApi0 := lwip_api) lwip CF e.
Proof.
  split; cycle -1; [intros; law on_new|..]; intros; apply keeps_in_world; keeps.
  - law closed_tcp_connect.
  - law closed_tcp_close.
  - law closed_tcp_write.
  - law closed_tcp_output.
  - law closed_tcp_recved.
  - law on_dns_transmit.
Qed.

#[local] Instance lwip_stack_laws :
  StackLaws (TcpApi0 := lwip_api) lwip CF e custom_free dns_pbuf_avail (OcpLoop.st_ip_input linked)
    (OcpLoop.st_tcp_tmr linked).
Proof.
  split. intros R HR Hq Hrecv Hsent Hconn Herr Hdns. split; [intros p|]; apply keeps_in_world.
  - law on_input.
  - law on_tcp_tmr.
Qed.

Lemma linked_quiet : OcpLoop.setup_quiet (TcpApi0 := lwip_api) e linked.
Proof.
  split_and!; try done; [|intros R HR Hq Herr ip i|intros n|]; apply keeps_in_world.
  - unfold lwip_init. keeps; [law on_lwip|].
    unfold Timers.sys_timeouts_init, Timers.sys_timeout. keeps; apply closed_lift_in; law on_timers.
  - pose proof (closed_on_world R Hq). unfold add_netif. keeps; [law on_lwip|].
    apply closed_netif_add; try done.
    + law on_tcp.
    + law on_output.
    + law on_frag.
    + intros. unfold call_app. keeps. by apply keeps_in_stack.
    + unfold init_oc_netif. keeps.
  - keeps.
  - keeps.
Qed.

(** What holds between the events of the whole program. *)
Lemma program_inv st vpnfd w :
  env_ok e → OcpLoop.reachable (TcpApi0 := lwip_api) e linked st vpnfd w → inv OcpLoop.nobody w.
Proof. intros He. exact (OcpLoop.reachable_inv e linked He linked_quiet st vpnfd w). Qed.
End program.
End LwipLaws.
