(* ===== verification/LwipRuns.v ===== *)
(** * A run of the program as a whole

    ocproxy with the stack of [Lwip], at 10.0.0.5 in the VPN: a client asks for
    a connection by SOCKS, the host 10.0.0.2 answers, and data go both ways.
    What the kernel returns is given per descriptor, as the list of what the
    reads from it return. *)

From S2P Require Import Prelude RecordSet Def Ip4Addr InetChksum Netif Udp Pbuf Stack Ip4 Icmp.
From S2P Require Import Timers Dns Tcp Ocp OcpConn OcpMain OcpPool OcpInv OcpLoop OcpToy Lwip LwipLaws.

Module LwipRuns.
Import OcpPool OcpInv LwipLaws.
Import RecordSet Def Ip4Addr InetChksum Netif Udp Pbuf Stack Ip4 Icmp Timers Tcp Ocp Lwip.

(** ** The environment *)

Definition reads_from (fd : Z) (tr : list io) : nat :=
  length (filter (λ x, match x with Read fd' _ _ => fd' =? fd | _ => false end = true) tr).

Definition script_env (script : Z → list bytes) : env := {|
  sys_read tr fd n :=
    if n <? 0 then None
    else (λ d, take (Z.to_nat n) d) <$> (script fd !! reads_from fd tr);
  sys_write _ _ x := Some (zlen x);
  sys_writev _ _ x := Some (zlen (concat x));
  sys_errno_gone _ := false;
  sys_event_new _ := true;
  sys_bind _ _ _ := true
|}.

Lemma script_env_ok script : (∀ fd, Forall (Forall is_u8) (script fd)) → env_ok (script_env script).
Proof.
  intros Hs. split; simpl.
  - intros tr fd n d Hd. case_match eqn:En; [done|].
    apply fmap_Some in Hd as (x & Hx & ->). split; [unfold zlen; rewrite length_take; lia|].
    apply Forall_take. by eapply Forall_lookup_1.
  - intros _ _ x m [= <-]. pose proof (zlen_nonneg x). lia.
Qed.

(** There is always memory, and no packet dump. *)
Lemma bind_inv {S A B} (m : prog S A) (k : A → prog S B) s b s' :
  (m ≫= k) s = inr (b, s') → ∃ a s1, m s = inr (a, s1) ∧ k a s1 = inr (b, s').
Proof. cbv [mbind prog_bind]. destruct (m s) as [|[a s1]]; [done|eauto]. Qed.

Section run.
Context (script : Z → list bytes).
Definition run_env : env := script_env script.
Definition run_avail : heap CF → Z → bool := λ _ _, true.
Definition run_garbage : heap CF → nat → Z := λ _ _, 170.
Definition run_yes : Lwip.stack → bool := λ _, true.
Definition run_dump : option loc → prog world unit := λ _, mret ().
#[local] Instance run_api : OcpConn.TcpApi lwip CF :=
  lwip_api run_env run_avail run_garbage run_yes run_yes run_yes run_dump.
Definition run_linked : OcpLoop.stack lwip CF :=
  linked run_env run_avail run_garbage run_yes run_yes run_yes run_yes true run_dump 8 (mret ())
    ipaddr_aton true.
Fixpoint run_events (fd : Z) (l : list OcpMain.ocp_event) : prog world unit :=
  match l with
  | [] => mret ()
  | ev :: l' => OcpLoop.run_event run_env run_linked fd ev;; run_events fd l'
  end.
(** Start, and then the events; the VPN's descriptor is returned. *)
Definition run (l : list OcpMain.ocp_event) : prog world Z :=
  '(fd, _) ← OcpLoop.run_main run_env run_linked OcpToy.toy_startup;
  run_events fd l;;
  mret fd.

Abbreviation run_reachable := (OcpLoop.reachable run_env run_linked OcpToy.toy_startup).
Lemma run_events_reachable fd l : ∀ w w',
  run_reachable fd w → run_events fd l w = inr ((), w') → run_reachable fd w'.
Proof.
  induction l as [|ev l IH]; intros w w' Hw; simpl; [by intros [= <-]|].
  intros H. apply bind_inv in H as ([] & w1 & E & H).
  eapply IH; [|exact H]. by eapply OcpLoop.reach_event.
Qed.
Lemma run_is_reachable l t fd w : run l (OcpLoop.boot t) = inr (fd, w) → run_reachable fd w.
Proof.
  unfold run. intros H. apply bind_inv in H as ([fd' i] & w1 & E & H).
  apply bind_inv in H as ([] & w2 & E2 & [= -> ->]).
  eapply run_events_reachable; [|exact E2]. exact (OcpLoop.reach_main _ _ _ _ _ _ _ E).
Qed.
End run.

(** ** Packets of the peer *)

(** A TCP segment from 10.0.0.2 port 80 to 10.0.0.5 port 49153. *)
Definition segment (seq ack flags : Z) (d : bytes) : bytes :=
  let tcp c := [0; 80; 192; 1] ++ rev (le_bytes 4 seq) ++ rev (le_bytes 4 ack)
               ++ [80; flags; 32; 0] ++ le_bytes 2 c ++ [0; 0] ++ d in
  let len := 20 + zlen d in
  let ip c := [69; 0] ++ rev (le_bytes 2 (20 + len)) ++ [0; 7; 0; 0; 64; 6] ++ le_bytes 2 c
              ++ [10; 0; 0; 2; 10; 0; 0; 5] in
  ip (inet_chksum false (ip 0))
  ++ tcp (inet_chksum_pseudo [(false, tcp 0)] IP_PROTO_TCP len 0x0200000a 0x0500000a).

Definition session_script (fd : Z) : list bytes :=
  if fd =? 7 then [segment 1000 6510 0x12 []; segment 1001 6510 0x18 (str "hello")]
  else if fd =? 9 then [[5; 1; 0]; [5; 1; 0; 1; 10; 0; 0; 2; 0; 80]; str "hi"]
  else [].

(** What went out: to the VPN the data of the packets, to the client what was
    written. *)
Definition out (x : io) : option (Z * bytes) :=
  match x with
  | Write fd d _ => Some (fd, d)
  | Writev fd l _ => Some (fd, concat l)
  | _ => None
  end.

(** The client connects, greets, and asks for 10.0.0.2 port 80; the host answers
    the SYN and sends data; the client sends data. *)
Definition session_events : list OcpMain.ocp_event :=
  [OcpMain.Ev_accept 0 9; OcpMain.Ev_socket 2; OcpMain.Ev_socket 2; OcpMain.Ev_socket 1;
   OcpMain.Ev_socket 1; OcpMain.Ev_socket 2].
Definition session : world :=
  OcpToy.after (run session_script session_events) (OcpLoop.boot lwip_boot).

Lemma session_out : omap out (w_trace session) =
  [(9, [5; 0]);
   (7, [69; 0; 0; 44; 0; 0; 0; 0; 255; 6; 167; 197; 10; 0; 0; 5; 10; 0; 0; 2;
        192; 1; 0; 80; 0; 0; 25; 109; 0; 0; 0; 0; 96; 2; 255; 254; 172; 22; 0; 0; 2; 4; 4; 0]);
   (9, [5; 0; 0; 1; 5; 0; 0; 10; 192; 1]);
   (7, [69; 0; 0; 40; 0; 1; 0; 0; 255; 6; 167; 200; 10; 0; 0; 5; 10; 0; 0; 2;
        192; 1; 0; 80; 0; 0; 25; 110; 0; 0; 3; 233; 80; 16; 255; 254; 190; 38; 0; 0]);
   (9, str "hello");
   (7, [69; 0; 0; 42; 0; 2; 0; 0; 255; 6; 167; 197; 10; 0; 0; 5; 10; 0; 0; 2;
        192; 1; 0; 80; 0; 0; 25; 110; 0; 0; 3; 238; 80; 24; 255; 249; 85; 179; 0; 0] ++ str "hi")].
Proof. vm_compute. reflexivity. Qed.

(** ** The invariant of the program *)

(** C1: In every state that ocproxy and lwIP together reach between two events,
    whatever the VPN, the clients and the memory pools do, the socket pool is
    well formed (the free list holds the slots not in use, the counters count)
    and every socket in use has its buffers within bounds and waits for an
    event that is pending or for [sent_cb].  Nothing is assumed of the stack:
    it is the one of [Lwip], with TCP, UDP, IP, DNS and the timers. *)
Theorem program_invariant (e : env) mem_avail garbage seg_avail pcb_avail reass_avail timeout_avail
    udp_new_ok tcpdump tmr_fuel tcpdump_init inet_aton event_base_new_ok st vpnfd (w : world) :
  env_ok e → (∀ p, keeps quiet (tcpdump p)) → keeps quiet tcpdump_init →
  OcpLoop.reachable (TcpApi0 := lwip_api e mem_avail garbage seg_avail pcb_avail timeout_avail tcpdump)
    e (linked e mem_avail garbage seg_avail pcb_avail reass_avail timeout_avail udp_new_ok tcpdump
         tmr_fuel tcpdump_init inet_aton event_base_new_ok) st vpnfd w →
  pool_wf (w_ocp w) ∧
  ∀ i s, ocp_sock_pool (w_ocp w) !! i = Some (Live s) → sock_ok s ∧ awake s.
Proof.
  intros He Hdump Hinit Hw. eapply program_inv in Hw as [Hp H]; try done.
  split; [done|]. intros i s Hi. by destruct (H i s Hi) as [? [[]|?]].
Qed.

Lemma session_script_u8 fd : Forall (Forall is_u8) (session_script fd).
Proof. unfold session_script. repeat case_match; cdec. Qed.

Lemma session_eq : run session_script session_events (OcpLoop.boot lwip_boot) = inr (7, session).
Proof.
  refine (OcpToy.after_ret (run session_script session_events) (OcpLoop.boot lwip_boot) 7 _).
  vm_compute. reflexivity.
Qed.

Lemma program_invariant_witness :
  pool_wf (w_ocp session) ∧
  ∀ i s, ocp_sock_pool (w_ocp session) !! i = Some (Live s) → sock_ok s ∧ awake s.
Proof.
  exact (program_invariant (run_env session_script) run_avail run_garbage run_yes run_yes run_yes
    run_yes true run_dump 8 (mret ()) ipaddr_aton true OcpToy.toy_startup 7 session
    (script_env_ok _ session_script_u8) (λ _, keeps_ret _ _) (keeps_ret _ _)
    (run_is_reachable _ _ _ _ _ session_eq)).
Defined.

End LwipRuns.
