(* ===== verification/Vpnns.v ===== *)
(** * vpnns ([src/src/vpnns.c])

    Programs run in a network namespace of their own: the state directory, the
    watcher process that counts the namespace's clients, the packet loop between
    the VPN and the tunnel device, and the options.

    The process is a command over the list of its calls to the operating system
    and libevent with their results.  The results are a parameter. *)

From stdpp Require Import pretty.
From S2P Require Import Prelude Ip4Addr OcpMain.

Module Vpnns.

(** ** The operating system *)

(** The calls of the program, with the arguments that matter. *)
Inductive call :=
  | Asprintf (s : bytes)
  | Fopen (path mode : bytes)
  | Fclose (f : Z)
  | Fscanf_d (f : Z)
  | Fprintf (f : Z) (s : bytes)
  | Unlink (path : bytes)
  | Open (path : bytes) (flags mode : Z)
  | Close (fd : Z)
  | Mkdir (path : bytes) (mode : Z)
  | Chdir (path : bytes)
  | Access (path : bytes) (mode : Z)
  | Mount (source target fstype : bytes) (flags : Z) (data : bytes)
  | Setns (fd nstype : Z)
  | Unshare (flags : Z)
  | Sethostname (name : bytes)
  | Getuid
  | Getgid
  | Getdtablesize
  | Setsid
  | Setpgid
  | Kill (pid sig : Z)
  | Fork
  | Waitpid (pid : Z)
  | Execvp (file : bytes) (argv : list bytes)
  | System (script : bytes)
  | Setenv (name value : bytes)
  | Socket (domain type protocol : Z)
  | Connect (fd : Z) (path : bytes)
  | Siocsifaddr (fd : Z) (name : bytes) (addr : Z)
  | Siocsifnetmask (fd : Z) (name : bytes) (mask : Z)
  | Siocgifflags (fd : Z) (name : bytes)
  | Siocsifflags (fd : Z) (name : bytes) (flags : Z)
  | Siocaddrt (fd : Z) (gateway flags : Z)
  | Siocsifmtu (fd : Z) (name : bytes) (mtu : Z)
  | Tunsetiff (fd : Z) (flags : Z)
  | Setfl (fd flags : Z)
  | Write (fd : Z) (d : bytes)
  | Inotify_init
  | Inotify_add_watch (fd : Z) (path : bytes) (mask : Z)
  | Inotify_rm_watch (fd wd : Z)
  | Event_base_new
  | Event_new (fd : Z)
  | Event_add (fd : Z)
  | Evconnlistener_new_bind (path : bytes)
  | Bufferevent_socket_new (fd : Z)
  | Bufferevent_free (fd : Z)
  | Evtimer_new
  | Puts (s : bytes)
  | Eprint (s : bytes).

Definition trace := list (call * Z).

(** What libevent reports to the watcher: a new connection, the end of one,
    notifications (descriptor and mask) followed by a part of one, a timer. *)
Inductive watcher_event :=
  | W_conn (fd : Z)
  | W_closed (fd : Z)
  | W_inotify (evs : list (Z * Z)) (tail : nat)
  | W_timer.

(** What it reports to the packet loop. *)
Inductive pkt_event := P_read (fd : Z) | P_sighup.

(** Results, as functions of what happened before.  A result that is a pointer
    is zero for [NULL]. *)
Record os := mk_os {
  sys : trace → call → Z;
  sys_econnrefused : trace → bool;          (** [errno == ECONNREFUSED] *)
  sys_isdir : trace → bytes → option bool;  (** [stat], [S_ISDIR] *)
  sys_scanned : trace → Z;                  (** the value [fscanf] stores *)
  sys_status : trace → option Z;            (** the status [waitpid] stores *)
  sys_cwd : option bytes;                   (** [get_current_dir_name] *)
  sys_ifflags : trace → Z;                  (** the flags [SIOCGIFFLAGS] stores *)
  sys_tun_name : trace → bytes;             (** the name [TUNSETIFF] stores *)
  sys_socketpair : trace → option (Z * Z);
  sys_read : trace → Z → Z → option bytes;
  sys_getenv : bytes → option bytes;
  sys_strdup : trace → bool;
  (** The events, one list for every turn of the loop. *)
  sys_watcher_events : list (list watcher_event);
  sys_pkt_events : list (list pkt_event)
}.

(** ** Processes *)

(** How a command ends: it returns, the process exits, it waits for an event,
    it is replaced by another program, or it uses a null pointer. *)
Inductive outcome (A : Type) :=
  | Ret (a : A) (t : trace)
  | Exit (code : Z) (t : trace)
  | Waits (t : trace)
  | Replaced (t : trace)
  | Crash.
Arguments Ret {A}.
Arguments Exit {A}.
Arguments Waits {A}.
Arguments Replaced {A}.
Arguments Crash {A}.

Definition proc (A : Type) : Type := trace → outcome A.

#[export] Instance proc_ret : MRet proc := λ A a t, Ret a t.
#[export] Instance proc_bind : MBind proc := λ A B k m t,
  match m t with
  | Ret a t' => k a t'
  | Exit code t' => Exit code t'
  | Waits t' => Waits t'
  | Replaced t' => Replaced t'
  | Crash => Crash
  end.

Definition exit {A} (code : Z) : proc A := λ t, Exit code t.
(** [die] and [pdie]; what they print is not modelled. *)
Definition die {A} : proc A := exit 1.
Definition crash {A} : proc A := λ _, Crash.
Definition past : proc trace := λ t, Ret t t.

Definition for_each {A} (f : A → proc unit) : list A → proc unit :=
  fix go l := match l with [] => mret () | x :: l' => f x;; go l' end.

(** ** Constants *)

Definition DEFAULT_NAME : bytes := str "default".
Definition DEFAULT_DNS_LIST : bytes := str "8.8.8.8 8.8.4.4".
Definition RESOLV_CONF : bytes := str "/etc/resolv.conf".

Definition CLONE_NEWNS : Z := 0x00020000.
Definition CLONE_NEWUTS : Z := 0x04000000.
Definition CLONE_NEWUSER : Z := 0x10000000.
Definition CLONE_NEWNET : Z := 0x40000000.
Definition MS_BIND : Z := 4096.
Definition IN_DELETE_SELF : Z := 0x400.
Definition O_RDONLY : Z := 0.
Definition O_WRONLY : Z := 1.
Definition O_RDWR : Z := 2.
Definition O_CREAT : Z := 64.
Definition O_NONBLOCK : Z := 2048.
Definition AF_UNIX : Z := 1.
Definition AF_INET : Z := 2.
Definition SOCK_STREAM : Z := 1.
Definition SOCK_DGRAM : Z := 2.
Definition IFNAMSIZ : nat := 16.
Definition IFF_UP : Z := 1.
Definition IFF_TUN : Z := 1.
Definition IFF_NO_PI : Z := 0x1000.
Definition RTF_UP : Z := 1.
Definition RTF_GATEWAY : Z := 2.
Definition SUN_PATH_LEN : Z := 108.

(** ** The C library *)

(** [%d] *)
Definition decimal (n : Z) : bytes := str (pretty n).

(** [atoi] *)
Definition atoi (s : bytes) : Z :=
  let cp := OcpMain.skip_space s in
  let '(neg, cp) :=
    if cur cp =? 45 then (true, tl cp)
    else if cur cp =? 43 then (false, tl cp) else (false, cp) in
  let '(v, _) := OcpMain.digits 10 0 cp in
  s32 (if neg then Z.max (- OcpMain.LONG_MAX - 1) (- v) else Z.min OcpMain.LONG_MAX v).

(** [inet_pton(AF_INET, ...)]: four decimal numbers below 256 without leading
    zeros; the address in network order on a little-endian machine. *)
Fixpoint pton (s : bytes) (part : option Z) (done : list Z) : option (list Z) :=
  match s with
  | [] => v ← part; Some (done ++ [v])
  | c :: s' =>
      if Ip4Addr.isdigit c then
        match part with
        | Some 0 => None
        | _ => let v := 10 * default 0 part + (c - 48) in
               if 255 <? v then None else pton s' (Some v) done
        end
      else if c =? 46 then v ← part; pton s' None (done ++ [v])
      else None
  end.
Definition inet_pton (s : bytes) : option Z :=
  match pton s None [] with
  | Some [a; b; c; d] => Some (a + 256 * b + 65536 * c + 16777216 * d)
  | _ => None
  end.

(** [strtok] with the delimiter [" "]: a token and what is left. *)
Fixpoint skip_blanks (s : bytes) : bytes :=
  match s with c :: s' => if c =? 32 then skip_blanks s' else s | [] => [] end.
Fixpoint token (s : bytes) : bytes * bytes :=
  match s with
  | [] => ([], [])
  | c :: s' => if c =? 32 then ([], s') else let '(w, rest) := token s' in (c :: w, rest)
  end.
Definition strtok (s : bytes) : option (bytes * bytes) :=
  match skip_blanks s with [] => None | s' => Some (token s') end.

(** The macros on the status of a process. *)
Definition WIFEXITED (status : Z) : bool := Z.land status 0x7f =? 0.
Definition WEXITSTATUS (status : Z) : Z := Z.shiftr (Z.land status 0xff00) 8.

(** [struct watcher_ctx], with what libevent keeps for it: the connections that
    have a [bufferevent], the pending timers, and whether the loop is to end. *)
Record watcher_ctx := mk_watcher {
  refcount : Z;
  inotify_fd : Z;
  inotify_wd : Z;
  resolv : bytes;
  conns : list Z;
  timers : nat;
  loopexit : bool
}.

(** [sys_watcher_events] and [sys_pkt_events] are read turn by turn:
    [event_base_loopexit] ends the loop after the events that are active with
    the one that calls it. *)
Definition turns {A E} (handle : E → A → proc A) (done : A → bool) :
    list (list E) → A → proc A :=
  let one := fix one evs a := match evs with
    | [] => mret a
    | ev :: evs' => a ← handle ev a; one evs' a
    end in
  fix go l a :=
    if done a then mret a else
    match l with
    | [] => λ t, Waits t
    | evs :: l' => a ← one evs a; go l' a
    end.

Section vpnns.
Context (o : os).

(** One call. *)
Definition issue (c : call) : proc Z :=
  λ t, let r := sys o t c in Ret r (t ++ [(c, r)]).

Definition asprintf (s : bytes) : proc bytes :=
  r ← issue (Asprintf s); if r <? 0 then die else mret s.

(** ** Files *)

Definition read_pid (statedir : bytes) : proc Z :=
  pidfile ← asprintf (statedir ++ str "/vpnns.pid");
  f ← issue (Fopen pidfile (str "r"));
  if f =? 0 then
    t ← past;
    match sys_isdir o t statedir with
    | Some false => die
    | _ => mret (-1)
    end
  else
    n ← issue (Fscanf_d f);
    t ← past;
    let pid := if n =? 1 then sys_scanned o t else 0 in
    if negb (n =? 1) || (pid <=? 0) then issue (Fclose f);; mret (-1)
    else issue (Fclose f);; mret pid.

Definition write_pid (statedir : bytes) (pid : Z) : proc unit :=
  pidfile ← asprintf (statedir ++ str "/vpnns.pid");
  issue (Unlink pidfile);;
  if 0 <? pid then
    f ← issue (Fopen pidfile (str "w"));
    if f =? 0 then die else
    r ← issue (Fprintf f (decimal pid ++ [10]));
    if r <? 0 then die else issue (Fclose f);; mret ()
  else mret ().

Definition write_file (file data : bytes) : proc unit :=
  f ← issue (Fopen file (str "w"));
  if f =? 0 then die else
  r ← issue (Fprintf f data);
  if r <? 0 then die else
  r ← issue (Fclose f);
  if r =? 0 then mret () else die.

(** ** Namespaces *)

Definition enter_ns (pid : Z) (ns_str : bytes) (nstype : Z) : proc Z :=
  nsfile ← asprintf (str "/proc/" ++ decimal pid ++ str "/ns/" ++ ns_str);
  fd ← issue (Open nsfile O_RDONLY 0);
  if fd <? 0 then mret (-1) else
  r ← issue (Setns fd nstype);
  if r <? 0 then issue (Close fd);; mret (-1)
  else issue (Close fd);; mret 0.

(** The operands of [||]: the first that fails ends the process. *)
Definition enter_all (pid : Z) : proc unit :=
  pwd ← match sys_cwd o with Some pwd => mret pwd | None => die end;
  for_each (λ '(ns, nstype), r ← enter_ns pid ns nstype; if r =? 0 then mret () else die)
    [(str "user", CLONE_NEWUSER); (str "uts", CLONE_NEWUTS);
     (str "net", CLONE_NEWNET); (str "mnt", CLONE_NEWNS)];;
  r ← issue (Chdir pwd);
  if r <? 0 then die else mret ().

Definition must (c : call) : proc unit := r ← issue c; if r <? 0 then die else mret ().

Definition setup_ipv4 (ifname addr mask : bytes) (default_route : bool) (mtu : Z) : proc unit :=
  fd ← issue (Socket AF_INET SOCK_DGRAM 0);
  if fd <? 0 then die else
  let name := take IFNAMSIZ ifname in
  ip ← match inet_pton addr with Some ip => mret ip | None => die end;
  must (Siocsifaddr fd name ip);;
  m ← match inet_pton mask with Some m => mret m | None => die end;
  must (Siocsifnetmask fd name m);;
  must (Siocgifflags fd name);;
  t ← past;
  must (Siocsifflags fd name (Z.lor (sys_ifflags o t) IFF_UP));;
  (if default_route then must (Siocaddrt fd ip (Z.lor RTF_UP RTF_GATEWAY)) else mret ());;
  (if mtu =? 0 then mret () else must (Siocsifmtu fd name mtu));;
  issue (Close fd);; mret ().

Definition populate_statedir (statedir file : bytes) (is_directory : bool) : proc bytes :=
  path ← asprintf (statedir ++ str "/" ++ file);
  if is_directory then
    r ← issue (Mkdir path 493 (* 0755 *));
    t ← past;
    if (r <? 0) && bool_decide (sys_isdir o t path = Some false) then die else mret path
  else
    issue (Unlink path);;
    fd ← issue (Open path (Z.lor O_WRONLY O_CREAT) 420 (* 0644 *));
    if fd <? 0 then die else issue (Close fd);; mret path.

(** ** The watcher *)

(** libevent calls it with a connection that has a [bufferevent]. *)
Definition watcher_conn_closed (fd : Z) (ctx : watcher_ctx) : proc watcher_ctx :=
  issue (Bufferevent_free fd);;
  let n := refcount ctx - 1 in
  mret (mk_watcher n (inotify_fd ctx) (inotify_wd ctx) (resolv ctx)
    (list_difference (conns ctx) [fd]) (timers ctx) (if n =? 0 then true else loopexit ctx)).

Definition watcher_new_conn (fd : Z) (ctx : watcher_ctx) : proc watcher_ctx :=
  bev ← issue (Bufferevent_socket_new fd);
  if bev =? 0 then crash else
  mret (mk_watcher (refcount ctx + 1) (inotify_fd ctx) (inotify_wd ctx) (resolv ctx)
    (fd :: conns ctx) (timers ctx) (loopexit ctx)).

Definition watch_and_bind_mount (inotify_fd : Z) (resolv : bytes) : proc Z :=
  inotify_wd ← issue (Inotify_add_watch inotify_fd RESOLV_CONF IN_DELETE_SELF);
  if inotify_wd <? 0 then mret (-1) else
  r ← issue (Mount resolv RESOLV_CONF [] MS_BIND []);
  if r <? 0 then issue (Inotify_rm_watch inotify_fd inotify_wd);; mret (-1)
  else mret inotify_wd.

Definition watcher_check_resolv (ctx : watcher_ctx) : proc watcher_ctx :=
  wd ← watch_and_bind_mount (inotify_fd ctx) (resolv ctx);
  if 0 <=? wd then
    mret (mk_watcher (refcount ctx) (inotify_fd ctx) wd (resolv ctx) (conns ctx)
      (timers ctx) (loopexit ctx))
  else
    ev ← issue Evtimer_new;
    if ev =? 0 then crash else
    mret (mk_watcher (refcount ctx) (inotify_fd ctx) wd (resolv ctx) (conns ctx)
      (S (timers ctx)) (loopexit ctx)).

(** [tail] is the number of bytes after the whole notifications. *)
Fixpoint watcher_inotify (evs : list (Z * Z)) (tail : nat) (ctx : watcher_ctx) :
    proc watcher_ctx :=
  match evs with
  | [] => if bool_decide (tail = 0%nat) then mret ctx else die
  | (wd, mask) :: evs' =>
      ctx ← if (wd =? inotify_wd ctx) && negb (Z.land mask IN_DELETE_SELF =? 0)
            then watcher_check_resolv ctx else mret ctx;
      watcher_inotify evs' tail ctx
  end.

Definition write_socket_path (statedir : bytes) : proc bytes :=
  let path := statedir ++ str "/watcher" in
  if SUN_PATH_LEN <=? zlen path then die else mret path.

Definition watcher_handle (ev : watcher_event) (ctx : watcher_ctx) : proc watcher_ctx :=
  match ev with
  | W_conn fd => watcher_new_conn fd ctx
  | W_closed fd => watcher_conn_closed fd ctx
  | W_inotify evs tail => watcher_inotify evs tail ctx
  | W_timer =>
      watcher_check_resolv (mk_watcher (refcount ctx) (inotify_fd ctx) (inotify_wd ctx)
        (resolv ctx) (conns ctx) (pred (timers ctx)) (loopexit ctx))
  end.

(** The part of it that fills in [ctx]: the process that started the watcher is
    its first client. *)
Definition watcher_start (conn_fd : Z) (resolv : bytes) (inotify_fd inotify_wd : Z) :
    proc watcher_ctx :=
  ctx ← watcher_new_conn conn_fd (mk_watcher 0 0 0 [] [] 0 false);
  (if 0 <=? inotify_fd then
           bev ← issue (Bufferevent_socket_new inotify_fd);
           if bev =? 0 then crash else
           mret (mk_watcher (refcount ctx) inotify_fd inotify_wd resolv (conns ctx)
             (timers ctx) (loopexit ctx))
         else mret ctx).

(** The child of [create_watcher]. *)
Definition watcher (statedir : bytes) (conn_fd : Z) (resolv : bytes)
    (inotify_fd inotify_wd : Z) : proc Z :=
  fd_max ← issue Getdtablesize;
  for_each (λ i, if negb (i =? inotify_fd) && negb (i =? conn_fd)
                 then issue (Close i);; mret () else mret ()) (seqZ 0 fd_max);;
  for_each (λ _, issue (Open (str "/dev/null") O_RDONLY 0);; mret ()) (seqZ 0 3);;
  issue Setsid;; issue Setpgid;; issue (Chdir (str "/"));;
  base ← issue Event_base_new;
  if base =? 0 then die else
  sun_path ← write_socket_path statedir;
  issue (Unlink sun_path);;
  listener ← issue (Evconnlistener_new_bind sun_path);
  if listener =? 0 then die else
  ctx ← watcher_start conn_fd resolv inotify_fd inotify_wd;
  turns watcher_handle loopexit (sys_watcher_events o) ctx;;
  write_pid statedir 0;;
  exit 0.

Definition create_watcher (statedir : bytes) (conn_fd : Z) (resolv : bytes)
    (inotify_fd inotify_wd : Z) : proc Z :=
  pid ← issue Fork;
  if pid <? 0 then die
  else if 0 <? pid then mret pid
  else watcher statedir conn_fd resolv inotify_fd inotify_wd.

Definition connect_to_watcher (statedir : bytes) : proc Z :=
  sun_path ← write_socket_path statedir;
  fd ← issue (Socket AF_UNIX SOCK_STREAM 0);
  if fd <? 0 then die else
  r ← issue (Connect fd sun_path);
  if r <? 0 then
    t ← past;
    if sys_econnrefused o t then issue (Close fd);; mret (-1) else die
  else mret fd.

(** ** Creating and entering the namespace *)

Definition create_ns (statedir name : bytes) : proc Z :=
  uid ← issue Getuid;
  gid ← issue Getgid;
  must (Unshare (Z.lor (Z.lor (Z.lor CLONE_NEWNS CLONE_NEWNET) CLONE_NEWUTS) CLONE_NEWUSER));;
  a ← issue (Access (str "/proc/self/setgroups") O_RDONLY);
  (if a =? 0 then write_file (str "/proc/self/setgroups") (str "deny") else mret ());;
  write_file (str "/proc/self/uid_map") (take 63 (str "0 " ++ decimal (s32 uid) ++ str " 1"));;
  write_file (str "/proc/self/gid_map") (take 63 (str "0 " ++ decimal (s32 gid) ++ str " 1"));;
  must (Sethostname name);;
  setup_ipv4 (str "lo") (str "127.0.0.1") (str "255.0.0.0") false 0;;
  issue (Mkdir statedir 493);;
  local_etc ← populate_statedir statedir (str "etc") true;
  workdir ← populate_statedir statedir (str "workdir") true;
  resolv ← populate_statedir statedir (str "etc/resolv.conf") false;
  mount_opts ← asprintf (str "lowerdir=/etc,upperdir=" ++ local_etc ++ str ",workdir=" ++ workdir);
  m ← issue (Mount (str "overlay") (str "/etc") (str "overlay") 0 mount_opts);
  '(inotify_fd, inotify_wd) ←
    (if m =? 0 then mret (-1, -1) else
     inotify_fd ← issue Inotify_init;
     if inotify_fd <? 0 then die else
     inotify_wd ← watch_and_bind_mount inotify_fd resolv;
     if inotify_wd <? 0 then die else mret (inotify_fd, inotify_wd));
  t ← past;
  '(fd0, fd1) ← match sys_socketpair o t with Some p => mret p | None => die end;
  pid ← create_watcher statedir fd1 resolv inotify_fd inotify_wd;
  write_pid statedir pid;;
  issue (Close fd1);;
  issue (Close inotify_fd);;
  mret fd0.

Definition enter_or_create_ns (statedir name : bytes) : proc Z :=
  pid ← read_pid statedir;
  if pid <=? 0 then create_ns statedir name else
  k ← issue (Kill pid 0);
  if negb (k =? 0) then create_ns statedir name else
  fd ← connect_to_watcher statedir;
  if fd <? 0 then create_ns statedir name
  else enter_all pid;; mret fd.

(** ** Running a program *)

(** [execvp] returns only when it fails; [rv] is 0 when [waitpid] fails. *)
Definition run (file : bytes) (argv : option (list bytes)) : proc Z :=
  pid ← issue Fork;
  rv ← (if pid <? 0 then die
        else if 0 <? pid then
          issue (Waitpid pid);;
          t ← past;
          mret (default 0 (sys_status o t))
        else
          r ← issue (Execvp file (default [file] argv));
          if r <? 0 then die else λ t, Replaced t);
  if negb (WIFEXITED rv) then mret 1 else mret (WEXITSTATUS rv).

Definition do_app (statedir name : bytes) (argv : list bytes) : proc Z :=
  watcher_conn ← enter_or_create_ns statedir name;
  rv ← match argv with
       | [] =>
           match sys_getenv o (str "SHELL") with
           | Some shell => run shell None
           | None => run (str "/bin/sh") None
           end
       | file :: _ => run file (Some argv)
       end;
  issue (Close watcher_conn);;
  mret (if rv =? -1 then 1 else WEXITSTATUS rv).

(** ** The packet loop *)

Record packet_loop_ctx := mk_pkt { vpn_fd : Z; tun_fd : Z; pkt_loopexit : bool }.

Definition write_pkt (in_fd : Z) (ctx : packet_loop_ctx) : proc unit :=
  let out_fd := if in_fd =? tun_fd ctx then vpn_fd ctx else tun_fd ctx in
  t ← past;
  match sys_read o t in_fd 2048 with
  | None => issue (Eprint (str "bad read"));; mret ()
  | Some buffer =>
      r ← issue (Write out_fd buffer);
      if negb (r =? zlen buffer) then issue (Eprint (str "bad write"));; mret () else mret ()
  end.

Definition pkt_loop_signal (ctx : packet_loop_ctx) : packet_loop_ctx :=
  mk_pkt (vpn_fd ctx) (tun_fd ctx) true.

Definition pkt_handle (ev : pkt_event) (ctx : packet_loop_ctx) : proc packet_loop_ctx :=
  match ev with
  | P_read fd => write_pkt fd ctx;; mret ctx
  | P_sighup => mret (pkt_loop_signal ctx)
  end.

Definition SIGHUP : Z := 1.

Definition do_packet_loop (vpn_fd tun_fd : Z) : proc unit :=
  must (Setfl vpn_fd (Z.lor O_RDWR O_NONBLOCK));;
  must (Setfl tun_fd (Z.lor O_RDWR O_NONBLOCK));;
  base ← issue Event_base_new;
  if base =? 0 then die else
  vpn_event ← issue (Event_new vpn_fd);
  tun_event ← issue (Event_new tun_fd);
  sig_event ← issue (Event_new SIGHUP);
  if (vpn_event =? 0) || (tun_event =? 0) || (sig_event =? 0) then die else
  for_each (λ fd, r ← issue (Event_add fd); if r =? 0 then mret () else die)
    [vpn_fd; tun_fd; SIGHUP];;
  turns pkt_handle pkt_loopexit (sys_pkt_events o) (mk_pkt vpn_fd tun_fd false);;
  mret ().

(** ** Attaching the VPN *)

(** The loop over the name servers: [fuel] bounds the tokens. *)
Fixpoint print_servers (fuel : nat) (f : Z) (p : bytes) : proc unit :=
  match strtok p with
  | None => mret ()
  | Some (s, rest) =>
      r ← issue (Fprintf f (str "nameserver " ++ s ++ [10]));
      if r <? 0 then die else
      match fuel with O => crash | S fuel' => print_servers fuel' f rest end
  end.

Definition setup_ip_from_env (ifname : bytes) : proc unit :=
  let mtu := match sys_getenv o (str "INTERNAL_IP4_MTU") with
             | Some val => atoi val | None => 0 end in
  match sys_getenv o (str "INTERNAL_IP4_ADDRESS") with
  | None => die
  | Some val => setup_ipv4 ifname val (str "255.255.255.255") true mtu
  end;;
  let val := default DEFAULT_DNS_LIST (sys_getenv o (str "INTERNAL_IP4_DNS")) in
  t ← past;
  if negb (sys_strdup o t) then die else
  f ← issue (Fopen RESOLV_CONF (str "w"));
  if f =? 0 then die else
  print_servers (length val) f val;;
  match sys_getenv o (str "CISCO_DEF_DOMAIN") with
  | Some val => must (Fprintf f (str "search " ++ val ++ [10]))
  | None => mret ()
  end;;
  r ← issue (Fclose f);
  if r =? 0 then mret () else die.

Definition do_attach (statedir name : bytes) (script : option bytes) : proc Z :=
  watcher_conn ← enter_or_create_ns statedir name;
  tun_fd ← issue (Open (str "/dev/net/tun") O_RDWR 0);
  if tun_fd <? 0 then die else
  must (Tunsetiff tun_fd (Z.lor IFF_TUN IFF_NO_PI));;
  t ← past;
  let ifname := sys_tun_name o t in
  match script with
  | Some script =>
      issue (Setenv (str "reason") (str "connect"));;
      issue (Setenv (str "TUNDEV") ifname);;
      issue (System script);; mret ()
  | None => setup_ip_from_env ifname
  end;;
  vpn_fd_str ← match sys_getenv o (str "VPNFD") with Some s => mret s | None => die end;
  do_packet_loop (atoi vpn_fd_str) tun_fd;;
  match script with
  | Some script =>
      issue (Setenv (str "reason") (str "disconnect"));;
      issue (System script);; mret ()
  | None => mret ()
  end;;
  issue (Close tun_fd);;
  issue (Close watcher_conn);;
  mret 0.

(** ** Options *)

(** [name], [script] and [attach] of [main], or the status it returns. *)
Fixpoint main_options (opts : list (Z * bytes)) (name : bytes) (script : option bytes)
    (attach : bool) : (bytes * option bytes * bool) + Z :=
  match opts with
  | [] => inl (name, script, attach)
  | (rv, optarg) :: opts' =>
      if rv =? 97 (* a *) then main_options opts' name script true
      else if rv =? 110 (* n *) then main_options opts' optarg script attach
      else if rv =? 115 (* s *) then main_options opts' name (Some optarg) attach
      else if (rv =? 104 (* h *)) || (rv =? 63 (* ? *)) then inr 1
      else if rv =? 118 (* v *) then inr 0
      else main_options opts' name script attach
  end.

(** [opts] is what [getopt_long] reports, [argv] what it leaves.  The C library
    prints a null string as [(null)]. *)
Definition main (opts : list (Z * bytes)) (argv : list bytes) : proc Z :=
  match main_options opts DEFAULT_NAME None false with
  | inr status => mret status
  | inl (name, script, attach) =>
      statedir ← asprintf (default (str "(null)") (sys_getenv o (str "HOME"))
                             ++ str "/.vpnns-" ++ name);
      if attach then do_attach statedir name script else do_app statedir name argv
  end.
End vpnns.
End Vpnns.
