(* ===== verification/VpnnsProps.v ===== *)
(** * vpnns: the exit status, the clients of the watcher, resolv.conf

    Properties of the commands of [src/src/vpnns.c]. *)

From S2P Require Import Prelude Ip4Addr OcpMain Vpnns.

Module VpnnsProps.
Import Vpnns.

Lemma bind_ret_inv {A B} (m : proc A) (k : A → proc B) t b t' :
  (m ≫= k) t = Ret b t' → ∃ a t1, m t = Ret a t1 ∧ k a t1 = Ret b t'.
Proof. cbv [mbind proc_bind]. destruct (m t); naive_solver. Qed.

Lemma proc_bind_eq {A B} (m : proc A) (k : A → proc B) t a t1 :
  m t = Ret a t1 → (m ≫= k) t = k a t1.
Proof. intros E. cbv [mbind proc_bind]. by rewrite E. Qed.

(** ** The exit status *)

Lemma WEXITSTATUS_byte status : 0 ≤ WEXITSTATUS status < 256.
Proof.
  unfold WEXITSTATUS. replace 0xff00 with (Z.shiftl (Z.ones 8) 8) by done.
  rewrite Z.shiftr_land, Z.shiftr_shiftl_l, Z.sub_diag, Z.shiftl_0_r by lia.
  rewrite Z.land_ones by lia. apply Z.mod_pos_bound. lia.
Qed.

Lemma WEXITSTATUS_of_byte rv : 0 ≤ rv < 256 → WEXITSTATUS rv = 0.
Proof.
  intros H. unfold WEXITSTATUS. replace 0xff00 with (Z.shiftl (Z.ones 8) 8) by done.
  rewrite Z.shiftr_land, Z.shiftr_div_pow2 by lia. change (2 ^ 8) with 256.
  by rewrite Z.div_small.
Qed.

Lemma run_status o file argv t rv t' : run o file argv t = Ret rv t' → 0 ≤ rv < 256.
Proof.
  intros (pid & t1 & _ & (st & t2 & _ & E)%bind_ret_inv)%bind_ret_inv.
  destruct (negb (WIFEXITED st)); injection E as <- _; [done|apply WEXITSTATUS_byte].
Qed.

(** When [vpnns] runs a command its own exit status is 0, whatever the
    status of the command was: [run] returns [WEXITSTATUS] of it, and [do_app]
    applies [WEXITSTATUS] again. *)
Theorem do_app_status_lost o statedir name argv t rv t' :
  do_app o statedir name argv t = Ret rv t' → rv = 0.
Proof.
  intros (fd & t1 & _ & (st & t2 & Hrun & (u & t3 & _ & E)%bind_ret_inv)%bind_ret_inv)%bind_ret_inv.
  assert (0 ≤ st < 256) as Hst.
  { destruct argv; [destruct (sys_getenv o _)|]; by eapply run_status. }
  injection E as <- _. rewrite (WEXITSTATUS_of_byte st Hst). destruct (Z.eqb_spec st (-1)); lia.
Qed.

(** A system on which every call succeeds; a watcher is running and the command
    ends with status 3. *)
Definition toy_sys (c : call) : Z :=
  match c with
  | Fopen _ _ => 3 | Fscanf_d _ => 1 | Socket _ _ _ => 5 | Open _ _ _ => 6 | Fork => 77
  | Event_base_new | Event_new _ | Evconnlistener_new_bind _ | Bufferevent_socket_new _
  | Evtimer_new => 1
  | Write _ d => zlen d
  | _ => 0
  end.
Definition toy_vars (name : bytes) : option bytes :=
  if bool_decide (name = str "INTERNAL_IP4_ADDRESS") then Some (str "10.0.0.5")
  else if bool_decide (name = str "INTERNAL_IP4_DNS") then Some (str "10.0.0.1  10.0.0.2 ")
  else if bool_decide (name = str "CISCO_DEF_DOMAIN") then Some (str "corp")
  else None.
Definition toy_os : os := {|
  sys _ c := toy_sys c;
  sys_econnrefused _ := false;
  sys_isdir _ _ := Some true;
  sys_scanned _ := 42;
  sys_status _ := Some (3 * 256);
  sys_cwd := Some (str "/home/user");
  sys_ifflags _ := 0;
  sys_tun_name _ := str "tun0";
  sys_socketpair _ := Some (8, 9);
  sys_read _ _ _ := Some [69];
  sys_getenv := toy_vars;
  sys_strdup _ := true;
  sys_watcher_events := [];
  sys_pkt_events := []
|}.

Definition end_trace {A} (r : outcome A) : trace := match r with Ret _ t => t | _ => [] end.

Lemma do_app_status_lost_witness :
  ∃ rv t', do_app toy_os (str "/s") (str "x") [str "false"] [] = Ret rv t' ∧ rv = 0.
Proof.
  assert (do_app toy_os (str "/s") (str "x") [str "false"] []
    = Ret 0 (end_trace (do_app toy_os (str "/s") (str "x") [str "false"] []))) as E
    by (vm_compute; reflexivity).
  exact (ex_intro _ _ (ex_intro _ _ (conj E (do_app_status_lost _ _ _ _ _ _ _ E)))).
Defined.

(** ** The clients of the watcher *)

(** What libevent may report: a connection is closed once, after it was made. *)
Definition enabled (ev : watcher_event) (ctx : watcher_ctx) : Prop :=
  match ev with
  | W_conn fd => fd ∉ conns ctx
  | W_closed fd => fd ∈ conns ctx
  | W_timer => timers ctx ≠ 0%nat
  | W_inotify _ _ => True
  end.

(** The states of the watcher between events. *)
Inductive watching (o : os) : watcher_ctx → trace → Prop :=
  | watching_start conn_fd resolv ifd iwd t ctx t' :
      watcher_start o conn_fd resolv ifd iwd t = Ret ctx t' → watching o ctx t'
  | watching_step ev ctx t ctx' t' :
      watching o ctx t → enabled ev ctx → watcher_handle o ev ctx t = Ret ctx' t' →
      watching o ctx' t'.

(** The counter and the connections are those of another state. *)
Definition same_clients (ctx ctx' : watcher_ctx) : Prop :=
  refcount ctx' = refcount ctx ∧ conns ctx' = conns ctx ∧ loopexit ctx' = loopexit ctx.

Lemma check_resolv_clients o ctx t ctx' t' :
  watcher_check_resolv o ctx t = Ret ctx' t' → same_clients ctx ctx'.
Proof.
  intros (wd & t1 & _ & E)%bind_ret_inv. destruct (0 <=? wd); [by injection E as <- _|].
  apply bind_ret_inv in E as (ev & t2 & _ & E). destruct (ev =? 0); [done|]. by injection E as <- _.
Qed.

Lemma inotify_clients o evs tail ctx t ctx' t' :
  watcher_inotify o evs tail ctx t = Ret ctx' t' → same_clients ctx ctx'.
Proof.
  revert ctx t. induction evs as [|[wd mask] evs IH]; intros ctx t; simpl.
  - case_bool_decide; [|done]. by intros [= <- _].
  - intros (c & t1 & E1 & E2)%bind_ret_inv. apply IH in E2.
    destruct ((wd =? inotify_wd ctx) && _); [|by injection E1 as -> _].
    apply check_resolv_clients in E1. unfold same_clients in *. intuition congruence.
Qed.

(** The sockets in [l] after one of them is closed. *)
Lemma difference_one (l : list Z) fd :
  NoDup l → fd ∈ l → zlen (list_difference l [fd]) = zlen l - 1.
Proof.
  intros Hl Hfd. assert (l ≡ₚ fd :: list_difference l [fd]) as Hp.
  { apply NoDup_Permutation; [done| |].
    - apply list.NoDup_cons. split; [rewrite list_elem_of_difference; set_solver|].
      by apply NoDup_list_difference.
    - intros x. rewrite elem_of_cons, list_elem_of_difference, list_elem_of_singleton.
      destruct (decide (x = fd)) as [->|]; naive_solver. }
  apply Permutation_length in Hp. unfold zlen. simpl in Hp. lia.
Qed.

Lemma watcher_step o ev ctx t ctx' t' :
  enabled ev ctx → watcher_handle o ev ctx t = Ret ctx' t' →
  refcount ctx = zlen (conns ctx) → NoDup (conns ctx) →
  refcount ctx' = zlen (conns ctx') ∧ NoDup (conns ctx') ∧
  (loopexit ctx' = true ↔ loopexit ctx = true ∨ (∃ fd, ev = W_closed fd) ∧ conns ctx' = []).
Proof.
  intros Hen E Hr Hd. destruct ev as [fd|fd|evs tail|]; simpl in E, Hen.
  - apply bind_ret_inv in E as (bev & t1 & _ & E). destruct (bev =? 0); [done|].
    injection E as <- _. simpl. rewrite Hr, zlen_cons. split; [lia|].
    split; [by apply list.NoDup_cons|naive_solver].
  - apply bind_ret_inv in E as (u & t1 & _ & E). injection E as <- _. simpl.
    rewrite Hr, <- (difference_one (conns ctx) fd) by done. split; [done|].
    split; [by apply NoDup_list_difference|].
    destruct (list_difference (conns ctx) [fd]) as [|x l] eqn:El.
    + naive_solver.
    + rewrite zlen_cons. pose proof (zlen_nonneg l). destruct (Z.eqb_spec (1 + zlen l) 0); [lia|].
      naive_solver.
  - apply inotify_clients in E as (-> & -> & ->). naive_solver.
  - apply check_resolv_clients in E as (-> & -> & ->). simpl. naive_solver.
Qed.

Lemma watching_clients o ctx t :
  watching o ctx t → refcount ctx = zlen (conns ctx) ∧ NoDup (conns ctx).
Proof.
  induction 1 as [conn_fd resolv ifd iwd t ctx t' E|ev ctx t ctx' t' _ [Hr Hd] Hen E].
  - apply bind_ret_inv in E as (c & t1 & E1 & E2).
    assert (refcount c = 1 ∧ conns c = [conn_fd]) as [Hr Hc].
    { apply bind_ret_inv in E1 as (bev & t2 & _ & E1). destruct (bev =? 0); [done|].
      by injection E1 as <- _. }
    assert (refcount ctx = refcount c ∧ conns ctx = conns c) as [-> ->].
    { destruct (0 <=? ifd); [|by injection E2 as -> _].
      apply bind_ret_inv in E2 as (bev & t2 & _ & E2). destruct (bev =? 0); [done|].
      by injection E2 as <- _. }
    rewrite Hr, Hc. split; [done|]. apply NoDup_singleton.
  - by destruct (watcher_step _ _ _ _ _ _ Hen E Hr Hd) as (? & ? & _).
Qed.

(** C40: In every state of the watcher the counter of clients is the number of
    open connections, and an event makes the watcher leave its loop exactly when
    it closes the last of them. *)
Theorem watcher_counts_clients o ctx t ev ctx' t' :
  watching o ctx t → enabled ev ctx → watcher_handle o ev ctx t = Ret ctx' t' →
  refcount ctx = zlen (conns ctx) ∧ refcount ctx' = zlen (conns ctx') ∧
  (loopexit ctx' = true ↔ loopexit ctx = true ∨ (∃ fd, ev = W_closed fd) ∧ conns ctx' = []).
Proof.
  intros Hw Hen E. destruct (watching_clients _ _ _ Hw) as [Hr Hd].
  by destruct (watcher_step _ _ _ _ _ _ Hen E Hr Hd) as (? & _ & ?).
Qed.

Definition toy_ctx : watcher_ctx := mk_watcher 1 0 0 [] [9] 0 false.
Definition toy_ctx' : watcher_ctx := mk_watcher 0 0 0 [] [] 0 true.

Lemma watcher_counts_clients_witness :
  refcount toy_ctx = zlen (conns toy_ctx) ∧ refcount toy_ctx' = zlen (conns toy_ctx') ∧
  (loopexit toy_ctx' = true ↔
    loopexit toy_ctx = true ∨ (∃ fd, W_closed 9 = W_closed fd) ∧ conns toy_ctx' = []).
Proof.
  refine (watcher_counts_clients toy_os toy_ctx [(Bufferevent_socket_new 9, 1)] (W_closed 9)
    toy_ctx' [(Bufferevent_socket_new 9, 1); (Bufferevent_free 9, 0)] _ _ _).
  - apply (watching_start _ 9 [] (-1) (-1) []). vm_compute. reflexivity.
  - left.
  - vm_compute. reflexivity.
Defined.

(** ** The name servers *)

(** The words of a text, by a fold from its end: the first word may be empty. *)
Definition words_step (c : Z) (l : bytes * list bytes) : bytes * list bytes :=
  if c =? 32 then ([], if bool_decide (l.1 = []) then l.2 else l.1 :: l.2) else (c :: l.1, l.2).
Definition words (s : bytes) : list bytes :=
  let l := foldr words_step ([], []) s in
  if bool_decide (l.1 = []) then l.2 else l.1 :: l.2.

(** The file that [setup_ip_from_env] is to write. *)
Definition resolv_conf (servers : bytes) (domain : option bytes) : bytes :=
  concat ((λ w, str "nameserver " ++ w ++ [10]) <$> words servers) ++
  match domain with Some d => str "search " ++ d ++ [10] | None => [] end.

Lemma words_blank s : words (32 :: s) = words s.
Proof. unfold words. simpl. unfold words_step at 1. simpl. by destruct (bool_decide _). Qed.

Lemma words_skip s : words (skip_blanks s) = words s.
Proof.
  induction s as [|c s IH]; [done|]. simpl. destruct (Z.eqb_spec c 32) as [->|]; [|done].
  by rewrite words_blank.
Qed.

Lemma skip_blanks_head s c s' : skip_blanks s = c :: s' → c ≠ 32.
Proof.
  induction s as [|d s IH]; [done|]. simpl. destruct (Z.eqb_spec d 32); [done|]. by intros [= <- _].
Qed.

Lemma skip_blanks_length s : (length (skip_blanks s) ≤ length s)%nat.
Proof. induction s as [|c s IH]; simpl; [done|]. destruct (c =? 32); simpl; lia. Qed.

Lemma token_length s : (length (token s).2 ≤ length s)%nat.
Proof.
  induction s as [|c s IH]; simpl; [done|]. destruct (c =? 32); simpl; [lia|].
  destruct (token s). simpl in *. lia.
Qed.

(** A token is the first word of the fold, and what follows has the others. *)
Lemma token_fold s :
  (foldr words_step ([], []) s).1 = (token s).1 ∧
  (foldr words_step ([], []) s).2 = words (token s).2.
Proof.
  induction s as [|c s [IH1 IH2]]; [done|]. simpl. unfold words_step at 1 3.
  destruct (c =? 32); [done|]. simpl. destruct (token s). simpl in *. by rewrite IH1, IH2.
Qed.

Lemma strtok_words s :
  match strtok s with
  | None => words s = []
  | Some (w, rest) => words s = w :: words rest ∧ (length rest < length s)%nat
  end.
Proof.
  rewrite <- (words_skip s). unfold strtok. destruct (skip_blanks s) as [|c s'] eqn:E; [done|].
  pose proof (skip_blanks_head _ _ _ E) as Hc%Z.eqb_neq.
  pose proof (skip_blanks_length s) as Hl. pose proof (token_length s') as Ht.
  rewrite E in Hl. destruct (token_fold (c :: s')) as [H1 H2]. unfold words at 1. rewrite H1, H2.
  simpl in *. rewrite Hc. destruct (token s') as [w rest]. simpl in *. split; [done|lia].
Qed.

(** The text that calls wrote to [f]. *)
Definition written (f : Z) (t : trace) : bytes :=
  concat ((λ x, match x.1 with Fprintf g d => if g =? f then d else [] | _ => [] end) <$> t).

Lemma written_app f t1 t2 : written f (t1 ++ t2) = written f t1 ++ written f t2.
Proof. unfold written. by rewrite fmap_app, concat_app. Qed.

(** The result of a call that succeeds. *)
Definition ok_result (c : call) (r : Z) : bool :=
  match c with
  | Fopen _ _ => negb (r =? 0)
  | Fclose _ => r =? 0
  | _ => 0 <=? r
  end.

Lemma issue_bind {B} o c (k : Z → proc B) t :
  (issue o c ≫= k) t = k (sys o t c) (t ++ [(c, sys o t c)]).
Proof. done. Qed.

Section succeeds.
Context (o : os) (Hok : ∀ t c, ok_result c (sys o t c) = true).

(** A command that returns; it only adds calls. *)
Definition goes {A} (m : proc A) (t : trace) : Prop := ∃ a t1, m t = Ret a (t ++ t1).

Lemma goes_bind {A B} (m : proc A) (k : A → proc B) t :
  goes m t → (∀ a t', m t = Ret a t' → goes (k a) t') → goes (m ≫= k) t.
Proof.
  intros (a & t1 & E) Hk. destruct (Hk _ _ E) as (b & t2 & E2). exists b, (t1 ++ t2).
  by rewrite (proc_bind_eq _ _ _ _ _ E), E2, (assoc_L (++)).
Qed.
Lemma goes_ret {A} (a : A) t : goes (mret a) t.
Proof. exists a, []. by rewrite app_nil_r. Qed.
Lemma goes_past t : goes past t.
Proof. exists t, []. by rewrite app_nil_r. Qed.
Lemma goes_issue c t : goes (issue o c) t.
Proof. by eexists _, _. Qed.

Lemma must_eq c t :
  (∀ r, ok_result c r = (0 <=? r)) → must o c t = Ret () (t ++ [(c, sys o t c)]).
Proof.
  intros Hc. unfold must. rewrite issue_bind.
  specialize (Hok t c). rewrite Hc in Hok. by rewrite (proj2 (Z.ltb_ge _ _)) by lia.
Qed.
Lemma goes_must c t : (∀ r, ok_result c r = (0 <=? r)) → goes (must o c) t.
Proof. intros Hc. eexists _, _. by apply must_eq. Qed.

Lemma goes_setup_ipv4 ifname addr mask ip m route mtu t :
  inet_pton addr = Some ip → inet_pton mask = Some m →
  goes (setup_ipv4 o ifname addr mask route mtu) t.
Proof.
  intros Ha Hm. unfold setup_ipv4. rewrite Ha, Hm. apply goes_bind; [apply goes_issue|].
  intros fd t' [= <- <-]. pose proof (Hok t (Socket AF_INET SOCK_DGRAM 0)) as Hs. simpl in Hs.
  rewrite (proj2 (Z.ltb_ge _ _)) by lia.
  repeat first [by apply goes_must | apply goes_ret | apply goes_past | apply goes_issue
    | apply goes_bind; [|intros ???] | case_match].
Qed.

Lemma print_servers_ok fuel f p t :
  (length p ≤ fuel)%nat →
  ∃ t1, print_servers o fuel f p t = Ret () (t ++ t1) ∧
    written f t1 = concat ((λ w, str "nameserver " ++ w ++ [10]) <$> words p).
Proof.
  revert p t. induction fuel as [|fuel IH]; intros p t Hf; cbn [print_servers];
    pose proof (strtok_words p) as Hs; destruct (strtok p) as [[w rest]|].
  1: lia.
  1, 3: exists []; rewrite app_nil_r, Hs; done.
  destruct Hs as [-> Hl]. assert (length rest ≤ fuel)%nat as Hl' by lia.
  set (c := Fprintf f (str "nameserver " ++ w ++ [10])).
  rewrite issue_bind.
  pose proof (Hok t c : (0 <=? sys o t c) = true) as Hc. cbv beta.
  assert ((sys o t c <? 0) = false) as -> by lia.
  destruct (IH rest (t ++ [(c, sys o t c)]) Hl') as (t1 & -> & Hw).
  exists ((c, sys o t c) :: t1). rewrite <- (assoc_L (++)). split; [done|].
  change ((c, sys o t c) :: t1) with ([(c, sys o t c)] ++ t1). rewrite written_app, Hw.
  unfold written. simpl. by rewrite Z.eqb_refl, app_nil_r.
Qed.

Lemma search_line_ok f d t :
  ∃ t1, match d with
        | Some val => must o (Fprintf f (str "search " ++ val ++ [10]))
        | None => mret ()
        end t = Ret () (t ++ t1) ∧
    written f t1 = match d with Some d => str "search " ++ d ++ [10] | None => [] end.
Proof.
  destruct d as [d|]; [|by exists []; rewrite app_nil_r].
  eexists. split; [by apply must_eq|]. unfold written. simpl. by rewrite Z.eqb_refl, app_nil_r.
Qed.
End succeeds.

(** When every call succeeds and the environment gives a valid address,
    [setup_ip_from_env] configures the interface and then writes a
    [/etc/resolv.conf] that holds one [nameserver] line for each word of
    [INTERNAL_IP4_DNS] (of the default list when it is not set), in order, and
    the search domain; runs of spaces make no empty lines. *)
Theorem setup_ip_writes_resolv_conf o ifname addr ip t :
  (∀ t c, ok_result c (sys o t c) = true) → (∀ t, sys_strdup o t = true) →
  sys_getenv o (str "INTERNAL_IP4_ADDRESS") = Some addr → inet_pton addr = Some ip →
  ∃ t1 f t2 r,
    setup_ip_from_env o ifname t
    = Ret () (t ++ t1 ++ [(Fopen RESOLV_CONF (str "w"), f)] ++ t2 ++ [(Fclose f, r)]) ∧
    written f t2 = resolv_conf (default DEFAULT_DNS_LIST (sys_getenv o (str "INTERNAL_IP4_DNS")))
                     (sys_getenv o (str "CISCO_DEF_DOMAIN")).
Proof.
  intros Hok Hdup Ha Hip. unfold setup_ip_from_env. rewrite Ha. cbv zeta.
  set (servers := default _ _).
  destruct (goes_setup_ipv4 o Hok ifname addr (str "255.255.255.255") ip 4294967295 true
    match sys_getenv o (str "INTERNAL_IP4_MTU") with Some v => atoi v | None => 0 end t Hip eq_refl)
    as ([] & t1 & E).
  rewrite (proc_bind_eq _ _ _ _ _ E), (proc_bind_eq past _ _ _ _ eq_refl), Hdup.
  cbv beta iota delta [negb]. rewrite issue_bind.
  set (c := Fopen RESOLV_CONF (str "w")). set (f := sys o (t ++ t1) c).
  pose proof (Hok (t ++ t1) c) as Hc. apply negb_true_iff in Hc. fold f in Hc. rewrite Hc.
  destruct (print_servers_ok o Hok (length servers) f servers ((t ++ t1) ++ [(c, f)]) (le_n _))
    as (t2 & E2 & Hw).
  rewrite (proc_bind_eq _ _ _ _ _ E2).
  destruct (search_line_ok o Hok f (sys_getenv o (str "CISCO_DEF_DOMAIN"))
    (((t ++ t1) ++ [(c, f)]) ++ t2)) as (t3 & E3 & Hw3).
  rewrite (proc_bind_eq _ _ _ _ _ E3), issue_bind.
  pose proof (Hok ((((t ++ t1) ++ [(c, f)]) ++ t2) ++ t3) (Fclose f)) as Hf. simpl in Hf. rewrite Hf.
  eexists t1, f, (t2 ++ t3), _. split; [by rewrite <- !(assoc_L (++))|].
  by rewrite written_app, Hw, Hw3.
Qed.

Lemma setup_ip_writes_resolv_conf_witness :
  ∃ t1 f t2 r,
    setup_ip_from_env toy_os (str "tun0") []
    = Ret () ([] ++ t1 ++ [(Fopen RESOLV_CONF (str "w"), f)] ++ t2 ++ [(Fclose f, r)]) ∧
    written f t2 = resolv_conf (str "10.0.0.1  10.0.0.2 ") (Some (str "corp")).
Proof.
  refine (setup_ip_writes_resolv_conf toy_os (str "tun0") (str "10.0.0.5") 83886090 [] _ _ _ _).
  - intros t c. destruct c; try reflexivity. apply Z.leb_le, zlen_nonneg.
  - reflexivity.
  - vm_compute. reflexivity.
  - vm_compute. reflexivity.
Defined.
End VpnnsProps.
